(* ===== verification/_CoqProject ===== *)
-Q . S2P
Prelude.v
GoMem.v
Queue.v
QueueConc.v
BufferSlice.v
BufferList.v
BufferListConc.v
BufferListTurns.v
BufferManager.v
Allocator.v
ShmAllocator.v
LinkedBuffer.v
LinkedBufferProofs.v
LinkedBufferReserve.v
LinkedBufferPeek.v
LinkedBufferFifo.v
LinkedBufferRead.v
Idl.v
Protocol.v
Handshake.v
Events.v
EventConn.v
Dispatcher.v
Session.v
SessionProofs.v
StreamClose.v
SessionEvents.v
Transfer.v
EndToEnd.v
Fallback.v
WritePath.v
ReadPath.v
Channel.v
Debug.v
Logger.v
Config.v
NewSession.v
SessionManager.v
SessionManagerProofs.v
Listener.v
ListenerProofs.v
NetListener.v
Bridge.v
