(* ===== verification/Prelude.v ===== *)
(** * shmipc-go: a verification library

    shmipc-go lets two processes exchange streams of bytes through shared memory.
    A client and a server map two regions: the io queues (two rings of 12-byte
    elements, one per direction) and the buffers (lists of equal slots, linked
    through headers in the memory itself).  A stream writes its bytes into slots
    with a linked buffer, puts the offset of the first slot into the queue, and
    wakes the peer over a socket when the peer does not work already.  Sessions,
    the event loop, the handshake, the session manager of a client and the
    listeners of a server are built around that core.

    ** Files and what they model

    - Prelude: errors ([errors.go]); the state, panic and fuel monad [M] in which
      all operations are written; machine integers with their wrap-around; bytes
      and endianness; the calculus [keeps] of preserved relations.
    - GoMem: byte memory.  Every array is an allocation, Go slices and unsafe
      pointers are windows of it, so that aliasing is visible.
    - Queue: [queue.go].  Creation and mapping of the queues and all operations of
      a queue as loads and stores; the name that [MemfdCreate] gives to a file.
      QueueConc: [put] and [wakeUpPeer] of several producers and the loop of
      [handlePolling] with [pop] and [markNotWorking], its early return with an
      error included, interleaved at the level of single atomic accesses.
    - BufferSlice: [buffer_slice.go].  Slices are objects of a heap, with headers in
      shared memory and a pool.  BufferList, BufferManager: [buffer_manager.go].
      BufferListConc: [pop] and [push] of any number of goroutines of both
      processes, interleaved at the level of single accesses.  BufferListTurns: calls
      in turn do the same in both models.
    - Allocator: the interface (classes [Allocator], [AllocatorLaws]) of what a
      linked buffer relies on.  ShmAllocator: the buffer manager is an instance.
    - LinkedBuffer: [buffer.go], over any allocator.  LinkedBufferProofs,
      LinkedBufferReserve, LinkedBufferPeek, LinkedBufferFifo: it is a queue of
      bytes; LinkedBufferRead: the copy behind [Read].  Idl: the codec of [example/best_practice/idl/example.go], the
      documented way to use the buffers.
    - Protocol: [protocol_event.go], headers and payloads.  Handshake:
      [protocol_manager.go], [protocol_initializer.go], [block_io.go].
    - Events: [handleEvents] and [onEventData] of [session.go], over any table of
      handlers.  EventConn: the connections of [event_dispatcher_linux.go].
      Dispatcher: the loop around [epoll_wait], the functions it runs and the
      goroutines that use it, as step relations over an epoll instance (class
      [Epoll]), with and without the race detector.
    - Session: [session.go], [stream.go], [stats.go] and the handlers of
      [protocol_manager.go].  Streams are objects of the session; what a [select]
      waits for and what callbacks do are parameters (record [env]); calls of
      user callbacks and posted functions are recorded as notes.
      SessionProofs, StreamClose, SessionEvents: its properties, what [close] of a
      stream leaves behind, and connection and session put together.  Transfer: the write buffer of one process and the read buffer
      of the other put together.  EndToEnd: two sessions put together, from [Flush]
      to the read buffer of the peer; Fallback: the same over the socket; WritePath: from
      [Write], over either; ReadPath: [Read] of a stream; Channel: two processes with two
      shared arrays, message after message from [Write] to [Read].  Debug: the reports of [debug.go] on a memory.  Logger: its
      levels and lines.
    - Config: [config.go].  NewSession: [newSession], [initMemManager],
      [newClientSession].  SessionManager: [session_manager.go], with
      SessionManagerProofs.
    - Listener: [listener.go], with its mutexes, and ListenerProofs.
      NetListener: [net_listener.go], goroutines as a step relation.
    - Bridge: [adapter/shmipc_bridge.go], the functions that C calls, with their locks
      and tables of handles, over a record of operations of the library.

    Definitions have the names of the source; a prefix is added where two types
    have methods of one name.  A loop of the source is a [Fixpoint] next to its
    function.

    ** What the theorems show

    - The core refines simple specifications: the ring a bounded FIFO
      ([queue_trace_refines]), the buffer list a FIFO of slots
      ([buffer_list_refines]), a slice and a linked buffer a FIFO of bytes
      ([slice_io_refines], [linked_buffer_fifo]), the pool of idle streams a
      FIFO ([pool_refines_fifo]); [allocShmBuffer] is best fit.
    - In every interleaving the elements arrive in order and once
      ([queue_spsc_safe]).  Unless the handler gives up on an element it cannot read,
      no wake-up is lost ([queue_no_lost_wakeup]), and producers and consumer
      together empty the queue within a bounded number of steps once no new [put]
      starts ([queue_drains]).
    - The free list without a lock: with one [pop] at a time and any number of
      [push], no slot is lost or handed out twice ([free_list_safe]); with two [pop]
      at a time it can be ([free_list_aba]); calls end ([list_calls_end]); calls that do
      not overlap follow the FIFO of the list ([calls_in_turn]).
    - What one process writes and publishes with [done], the other has in its read
      buffer after [moveToWithoutLock] ([message_arrives]); the same from [Flush] over the
      queue and [handlePolling] ([flush_reaches_peer]), from [Flush] over the socket and
      [handleFallbackData], however the socket cuts the event ([fallback_reaches_peer]), and
      from [Write], whatever the allocator can give ([write_reaches_peer]).  [Read] fills the
      buffer of the caller with the first bytes and takes exactly these ([read_exact],
      [Read_ready], [Read_moved]).  Any number of messages, written and read in turn, arrive
      whole and in order, whichever way [Flush] takes ([channel_delivers]).
    - The two sides agree: what one creates the other maps
      ([queue_manager_mirrored], [buffer_manager_roundtrip] but for the word of the
      counter, [handshake_v2_agrees]); what one encodes the other decodes
      ([shm_metadata_roundtrip] and the other round trips).
    - A session behaves the same however the socket cuts its bytes
      ([session_chunk_independent], [session_reads_socket]); writes are exact.
    - The dispatcher hands events to live connections only, runs what was posted
      once, in order, and in the end ([dispatch_to_live_handler],
      [posted_once_in_order], [posted_functions_run]).
    - Messages survive the codec ([shm_codec_roundtrip], [serialize_exact]); the
      report on a memory of which no slot claims more than it has ends, finds exactly
      the lists with a slot missing and prints the slots in use
      ([debug_report_exact]); the logger prints exactly what its level admits
      ([log_line_exact]) and the protocol trace never fails ([trace_total]).
    - Life cycles: streams only move forward ([stream_lifecycle]), and [close] takes
      them out of the table and releases their buffers ([stream_close_final]); a
      session keeps its invariants under every program of operations; a failed
      handshake gives the memory back; a hot restart ends on the client when, and
      only when, every session was replaced ([hot_restart_completes]), on the server
      when every session has acknowledged ([listener_restart_completes]); the
      reference counts of the adapter are exact; [GetStream] hands out open
      streams.
    - The bridge to C: the tables hold exactly the handles that were handed out and
      not closed, and locks are free without a client ([bridge_tables]);
      [shmipc_go_send] is a [Write] of a stream ([send_is_write]).
    - Errors: which headers ([checkEventValid_exact]) and calls of [OpenStream]
      ([open_stream_exact]) are accepted, and which verified configurations get a
      buffer manager ([verified_config_served]).
    - A few theorems state behaviour that the code should not have: counters of two
      processes at different offsets, a silent close in a callback, a leak, two
      deadlocks, a late acknowledgement, a dropped connection, a metric that
      counts the wrong thing, a [shutdown] that never returns, a pool of buffers
      that shrink, a lock of the bridge that is never released ([client_locks_out]), a
      message over the socket that overtakes an earlier one in the
      queue ([fallback_overtakes]).

    ** Bounds and fuel

    Loops over lists recurse on the list; [for] loops without a bound take fuel,
    which the caller computes from the state (the length of a chain, the number of
    elements between head and tail, the number of bytes), and the theorems show
    that it is enough, since they state that the operation returns.  Where the
    number of rounds is up to the environment (events of a socket, short reads)
    theorems quantify over the fuel or over lists of rounds.  [NoFuel] also stands
    for a wait without end (a mutex the goroutine itself holds).  Integers are [Z]
    with [u8], [u32], [u64], [i32], [i64] where the source wraps.

    ** What is not modelled

    - The operating system: files, [mmap], [memfd], sockets, [epoll] are parameters
      ([os_ops], system calls over a world [W]).
    - Timers and the scheduler: time-outs are separate steps.  Dispatcher models the
      loop and its posted functions by themselves; in Session a posted function is a
      separate step.  The file for the race detector is modelled where it differs.
    - Interleavings inside a session: its operations run one at a time, with the
      points where they wait as calls of the environment.  The accesses to what the
      processes share are interleaved in QueueConc and BufferListConc.
    - What [fmt] makes of a format: a line of the log is the call that writes it.
    - Benchmarks and the programs of the examples: they use the library and have no
      logic of their own beyond the codec.
    - What the bridge calls: the package does not have all of it.
    - [recover] of [handleSessionManagerHotRestart]: a session id outside of the pools
      ends the handler as the source does; a panic of what it calls is a panic of the
      model.

    ** Plan

    Next: messages of several streams under way at once; the bytes of a slot under the
    interleaving of both processes. *)

From Stdlib Require Import ZArith Lia.
From stdpp Require Import prelude list gmap strings.

#[global] Open Scope Z_scope.

(** ** Go errors

    [errors.go] declares the sentinel errors; every other error value of the
    program is built from text ([fmt.Errorf], [errors.New]) or is an errno. *)

Inductive error : Set :=
| ErrInvalidVersion
| ErrInvalidMsgType
| ErrSessionShutdown
| ErrStreamsExhausted
| ErrTimeout
| ErrStreamClosed
| ErrConnectionWriteTimeout
| ErrEndOfStream
| ErrSessionUnhealthy
| ErrNotEnoughData
| ErrNoMoreBuffer
| ErrShareMemoryHadNotLeftSpace
| ErrStreamCallbackHadExisted
| ErrOSNonSupported
| ErrArchNonSupported
| ErrHotRestartInProgress
| ErrInHandshakeStage
| ErrFileNameTooLong
| ErrQueueFull
| errQueueEmpty
| errPoolFull
| ioEOF
| Errorf (msg : string)
| Errno (n : Z).

#[global] Instance error_eq_dec : EqDecision error.
Proof. solve_decision. Defined.

(** ** The effect monad

    A Go function that touches state is a function from the state to an
    outcome: it returns ([Done]), it raises a run-time panic or fault
    ([Panic]: index or slice bounds, nil dereference, division by zero, a
    load outside of every allocation), or the model's fuel ran out
    ([NoFuel]).  A Go error is an ordinary value, so the state changes made
    before an error return are kept. *)

Inductive outcome (A : Type) : Type :=
| Done (a : A)
| Panic
| NoFuel.
Arguments Done {A} a.
Arguments Panic {A}.
Arguments NoFuel {A}.

Definition M (S A : Type) : Type := S → outcome (A * S).

#[global] Instance M_ret S : MRet (M S) := λ A a s, Done (a, s).
#[global] Instance M_bind S : MBind (M S) := λ A B k m s,
  match m s with
  | Done (a, s') => k a s'
  | Panic => Panic
  | NoFuel => NoFuel
  end.

Definition panic {S A} : M S A := λ _, Panic.
Definition out_of_fuel {S A} : M S A := λ _, NoFuel.
Definition get_state {S} : M S S := λ s, Done (s, s).
Definition put_state {S} (s : S) : M S unit := λ _, Done (tt, s).
Definition modify_state {S} (f : S → S) : M S unit := λ s, Done (tt, f s).
Definition reads {S A} (f : S → A) : M S A := λ s, Done (f s, s).
Definition of_option {S A} (o : option A) : M S A :=
  match o with Some a => mret a | None => panic end.

(** Run a computation on a component of a larger state. *)
Definition zoom {S T A} (get : S → T) (set : T → S → S) (m : M T A) : M S A := λ s,
  match m (get s) with
  | Done (a, t) => Done (a, set t s)
  | Panic => Panic
  | NoFuel => NoFuel
  end.

(** ** Machine integers

    Values are integers; each typed operation applies the wrap-around of its
    type. *)

Definition u8 (x : Z) : Z := x `mod` 2 ^ 8.
Definition u16 (x : Z) : Z := x `mod` 2 ^ 16.
Definition u32 (x : Z) : Z := x `mod` 2 ^ 32.
Definition u64 (x : Z) : Z := x `mod` 2 ^ 64.
Definition i32 (x : Z) : Z := (x + 2 ^ 31) `mod` 2 ^ 32 - 2 ^ 31.
Definition i64 (x : Z) : Z := (x + 2 ^ 63) `mod` 2 ^ 64 - 2 ^ 63.

(** ** Byte codecs: little endian for shared memory, big endian on the wire *)

Fixpoint le_bytes (n : nat) (v : Z) : list Z :=
  match n with
  | O => []
  | S n => v `mod` 256 :: le_bytes n (v `div` 256)
  end.

Fixpoint le_val (bs : list Z) : Z :=
  match bs with
  | [] => 0
  | b :: bs => b + 256 * le_val bs
  end.

Definition be_bytes (n : nat) (v : Z) : list Z := reverse (le_bytes n v).
Definition be_val (bs : list Z) : Z := le_val (reverse bs).

Definition is_byte (b : Z) : Prop := 0 ≤ b < 256.

(** [strings.Contains(s, sub)] *)
Fixpoint str_contains (s sub : string) : bool :=
  String.prefix sub s ||
  match s with
  | String.EmptyString => false
  | String.String _ s' => str_contains s' sub
  end.

(** ** Windows of a byte array *)

Definition read_at (bs : list Z) (o n : Z) : option (list Z) :=
  if (0 <=? o) && (0 <=? n) && (o + n <=? Z.of_nat (length bs))
  then Some (take (Z.to_nat n) (drop (Z.to_nat o) bs)) else None.

Definition write_at (bs : list Z) (o : Z) (l : list Z) : option (list Z) :=
  if (0 <=? o) && (o + Z.of_nat (length l) <=? Z.of_nat (length bs))
  then Some (take (Z.to_nat o) bs ++ l ++ drop (Z.to_nat o + length l) bs) else None.

(** ** Automation *)

Create HintDb shm.
Create Rewrite HintDb shm_len.

#[global] Hint Rewrite @length_app @length_take @length_drop @length_replicate
  @length_insert @length_fmap @length_reverse : shm_len.

(** Close a length or arithmetic goal after computing list lengths. *)
Ltac len := autorewrite with shm_len in *; cbn [length] in *; try lia.

(** Turn boolean comparisons in the context into propositions. *)
Ltac breflect :=
  repeat match goal with
  | H : (_ && _) = true |- _ => apply andb_true_iff in H as [? ?]
  | H : (_ || _) = false |- _ => apply orb_false_iff in H as [? ?]
  | H : negb _ = true |- _ => apply negb_true_iff in H
  | H : negb _ = false |- _ => apply negb_false_iff in H
  | H : (_ <=? _) = true |- _ => apply Z.leb_le in H
  | H : (_ <=? _) = false |- _ => apply Z.leb_gt in H
  | H : (_ <? _) = true |- _ => apply Z.ltb_lt in H
  | H : (_ <? _) = false |- _ => apply Z.ltb_ge in H
  | H : (_ =? _) = true |- _ => apply Z.eqb_eq in H
  | H : (_ =? _) = false |- _ => apply Z.eqb_neq in H
  | H : (_ >=? _) = _ |- _ => rewrite Z.geb_leb in H
  | H : (_ >? _) = _ |- _ => rewrite Z.gtb_ltb in H
  end.

(** Decide the boolean tests of the goal with [lia]. *)
Ltac bdecide :=
  repeat match goal with
  | |- context [?a <=? ?b] =>
      first [ replace (a <=? b) with true by (symmetry; apply Z.leb_le; lia)
            | replace (a <=? b) with false by (symmetry; apply Z.leb_gt; lia) ]
  | |- context [?a <? ?b] =>
      first [ replace (a <? b) with true by (symmetry; apply Z.ltb_lt; lia)
            | replace (a <? b) with false by (symmetry; apply Z.ltb_ge; lia) ]
  | |- context [?a =? ?b] =>
      first [ replace (a =? b) with true by (symmetry; apply Z.eqb_eq; lia)
            | replace (a =? b) with false by (symmetry; apply Z.eqb_neq; lia) ]
  | |- context [?a >=? ?b] => rewrite (Z.geb_leb a b)
  | |- context [?a >? ?b] => rewrite (Z.gtb_ltb a b)
  end; cbn [andb orb negb].

(** ** Monad laws used for symbolic execution *)

Lemma bind_done {S A B} (m : M S A) (k : A → M S B) s a s' :
  m s = Done (a, s') → (m ≫= k) s = k a s'.
Proof. intros H. unfold mbind, M_bind. by rewrite H. Qed.

Lemma bind_done_inv {S A B} (m : M S A) (k : A → M S B) s r :
  (m ≫= k) s = Done r → ∃ a s', m s = Done (a, s') ∧ k a s' = Done r.
Proof.
  unfold mbind, M_bind. destruct (m s) as [[a s']| |]; [eauto | done | done].
Qed.

Lemma bind_panic {S A B} (m : M S A) (k : A → M S B) s :
  m s = Panic → (m ≫= k) s = Panic.
Proof. intros H. unfold mbind, M_bind. by rewrite H. Qed.

Lemma bind_assoc {S A B C} (m : M S A) (f : A → M S B) (g : B → M S C) s :
  ((m ≫= f) ≫= g) s = (m ≫= (λ a, f a ≫= g)) s.
Proof. unfold mbind, M_bind. by destruct (m s) as [[]| |]. Qed.

Lemma bind_mret {S A B} (a : A) (k : A → M S B) s : (mret a ≫= k) s = k a s.
Proof. done. Qed.

Lemma zoom_done {S T A} (get : S → T) set (m : M T A) s a t :
  m (get s) = Done (a, t) → zoom get set m s = Done (a, set t s).
Proof. intros H. unfold zoom. by rewrite H. Qed.

(** Execute the next command of the program in the goal, its specification
    given as an equation or found in the [shm] hint database. *)
Tactic Notation "mstep" uconstr(H) :=
  erewrite bind_done; [|solve [eapply H; first [eassumption | lia | eauto with shm]]]; cbv beta iota.
Ltac mauto := erewrite bind_done; [|solve [eauto with shm]]; cbv beta iota.

(** ** A calculus of preserved relations

    [keeps R m]: whenever [m] returns, the states before and after it are in
    the relation [R]. *)

Definition keeps {S A} (R : S → S → Prop) (m : M S A) : Prop := ∀ s a s', m s = Done (a, s') → R s s'.

Section keeps.
Context {S : Type} (R : S → S → Prop).

Lemma keeps_panic {A} : keeps R (@panic S A).
Proof. by intros s a s'. Qed.
Lemma keeps_fuel {A} : keeps R (@out_of_fuel S A).
Proof. by intros s a s'. Qed.
Lemma keeps_modify f : (∀ s, R s (f s)) → keeps R (modify_state f).
Proof. intros Hf s x s' [= _ <-]. apply Hf. Qed.
Lemma keeps_zoom {T A} (get : S → T) (set : T → S → S) (m : M T A) : (∀ s t, R s (set t s)) → keeps R (zoom get set m).
Proof. intros Hs s a s'. unfold zoom. destruct (m (get s)) as [[x t]| |]; [|done|done]. intros [= _ <-]. apply Hs. Qed.

Context `{!PreOrder R}.

Lemma keeps_ret {A} (a : A) : keeps R (mret a).
Proof. intros s x s' [= <- <-]. reflexivity. Qed.
Lemma keeps_reads {A} (f : S → A) : keeps R (reads f).
Proof. intros s x s' [= <- <-]. reflexivity. Qed.
Lemma keeps_get : keeps R get_state.
Proof. intros s x s' [= <- <-]. reflexivity. Qed.
Lemma keeps_of_option {A} (o : option A) : keeps R (of_option o).
Proof. destruct o; [apply keeps_ret|apply keeps_panic]. Qed.
Lemma keeps_bind {A B} (m : M S A) (f : A → M S B) : keeps R m → (∀ a, keeps R (f a)) → keeps R (m ≫= f).
Proof. intros Hm Hf s b s' (a&s1&E1&E2)%bind_done_inv. etransitivity; [by eapply Hm|by eapply Hf]. Qed.
End keeps.

(** A property of all results. *)
Definition returns {S A} (Q : A → Prop) (m : M S A) : Prop := ∀ s a s', m s = Done (a, s') → Q a.
Lemma returns_ret {S A} (Q : A → Prop) (a : A) : Q a → returns (S:=S) Q (mret a).
Proof. by intros Ha s x s' [= <- _]. Qed.
Lemma returns_bind {S A B} (Q : B → Prop) (m : M S A) (f : A → M S B) : (∀ a, returns Q (f a)) → returns Q (m ≫= f).
Proof. intros Hf s b s' (a&s1&_&E)%bind_done_inv. by eapply Hf. Qed.

Lemma bind_ext {S A B} (m : M S A) (f g : A → M S B) s : (∀ a s', f a s' = g a s') → (m ≫= f) s = (m ≫= g) s.
Proof. intros Hfg. unfold mbind, M_bind. destruct (m s) as [[a s']| |]; [apply Hfg|done|done]. Qed.

(** ** Facts on machine integers *)

Lemma u32_range x : 0 ≤ u32 x < 2 ^ 32.
Proof. apply Z.mod_pos_bound. lia. Qed.
Lemma u32_small x : 0 ≤ x < 2 ^ 32 → u32 x = x.
Proof. apply Z.mod_small. Qed.
Lemma u32_u32 x : u32 (u32 x) = u32 x.
Proof. apply u32_small, u32_range. Qed.
Lemma u64_small x : 0 ≤ x < 2 ^ 64 → u64 x = x.
Proof. apply Z.mod_small. Qed.
Lemma u8_small x : 0 ≤ x < 2 ^ 8 → u8 x = x.
Proof. apply Z.mod_small. Qed.
Lemma u16_small x : 0 ≤ x < 2 ^ 16 → u16 x = x.
Proof. apply Z.mod_small. Qed.

Lemma i32_small x : - 2 ^ 31 ≤ x < 2 ^ 31 → i32 x = x.
Proof. intros. unfold i32. rewrite Z.mod_small; lia. Qed.
Lemma i64_small x : - 2 ^ 63 ≤ x < 2 ^ 63 → i64 x = x.
Proof. intros. unfold i64. rewrite Z.mod_small; lia. Qed.

Lemma i64_u64 x : i64 (u64 x) = i64 x.
Proof. unfold i64, u64. by rewrite Z.add_mod_idemp_l by lia. Qed.
Lemma i32_u32 x : i32 (u32 x) = i32 x.
Proof. unfold i32, u32. by rewrite Z.add_mod_idemp_l by lia. Qed.

(** ** Facts on the codecs *)

Lemma length_le_bytes n v : length (le_bytes n v) = n.
Proof. revert v. induction n; intros v; cbn; [done | by rewrite IHn]. Qed.

Lemma length_be_bytes n v : length (be_bytes n v) = n.
Proof. unfold be_bytes. rewrite length_reverse. apply length_le_bytes. Qed.
#[global] Hint Rewrite length_le_bytes length_be_bytes : shm_len.

Lemma le_val_bytes n v : le_val (le_bytes n v) = v `mod` 256 ^ Z.of_nat n.
Proof.
  revert v. induction n as [|n IH]; intros v; cbn [le_bytes le_val].
  - by rewrite Z.mod_1_r.
  - rewrite IH, Nat2Z.inj_succ, Z.pow_succ_r by lia.
    rewrite Z.rem_mul_r by lia. lia.
Qed.

Lemma be_val_bytes n v : be_val (be_bytes n v) = v `mod` 256 ^ Z.of_nat n.
Proof. unfold be_val, be_bytes. by rewrite reverse_involutive, le_val_bytes. Qed.

Lemma le_bytes_is_byte n v : Forall is_byte (le_bytes n v).
Proof.
  revert v. induction n; intros v; cbn; constructor; [|done].
  apply Z.mod_pos_bound. lia.
Qed.

Lemma le_bytes_val bs :
  Forall is_byte bs → le_bytes (length bs) (le_val bs) = bs.
Proof.
  induction 1 as [|b bs Hb _ IH]; [done|]. cbn [length le_bytes le_val].
  unfold is_byte in Hb. f_equal.
  - rewrite Z.mul_comm, Z.mod_add by lia. apply Z.mod_small. lia.
  - rewrite Z.mul_comm, Z.div_add by lia. rewrite Z.div_small by lia. exact IH.
Qed.

Lemma le_val_range bs : Forall is_byte bs → 0 ≤ le_val bs < 256 ^ Z.of_nat (length bs).
Proof.
  induction 1 as [|b bs Hb _ IH]; cbn [length le_val]; [lia|].
  unfold is_byte in Hb. rewrite Nat2Z.inj_succ, Z.pow_succ_r by lia. lia.
Qed.

(** ** Facts on windows *)

Lemma read_at_Some bs o n l :
  read_at bs o n = Some l →
  0 ≤ o ∧ 0 ≤ n ∧ o + n ≤ Z.of_nat (length bs) ∧
  l = take (Z.to_nat n) (drop (Z.to_nat o) bs).
Proof.
  unfold read_at. destruct (_ && _) eqn:E; intros; simplify_eq; breflect; lia || auto.
Qed.

Lemma read_at_ok bs o n :
  0 ≤ o → 0 ≤ n → o + n ≤ Z.of_nat (length bs) →
  read_at bs o n = Some (take (Z.to_nat n) (drop (Z.to_nat o) bs)).
Proof. intros. unfold read_at. by bdecide. Qed.

Lemma read_at_length bs o n l : read_at bs o n = Some l → Z.of_nat (length l) = n.
Proof. intros (?&?&?&->)%read_at_Some. len. Qed.

Lemma write_at_Some bs o l bs' :
  write_at bs o l = Some bs' →
  0 ≤ o ∧ o + Z.of_nat (length l) ≤ Z.of_nat (length bs) ∧
  bs' = take (Z.to_nat o) bs ++ l ++ drop (Z.to_nat o + length l) bs.
Proof. unfold write_at. destruct (_ && _) eqn:E; intros; simplify_eq; breflect; auto. Qed.

Lemma write_at_ok bs o l :
  0 ≤ o → o + Z.of_nat (length l) ≤ Z.of_nat (length bs) →
  ∃ bs', write_at bs o l = Some bs'.
Proof. intros. unfold write_at. bdecide. eauto. Qed.

Lemma write_at_length bs o l bs' :
  write_at bs o l = Some bs' → length bs' = length bs.
Proof. intros (?&?&->)%write_at_Some. len. Qed.

Lemma read_write_same bs o l bs' :
  write_at bs o l = Some bs' → read_at bs' o (Z.of_nat (length l)) = Some l.
Proof.
  intros (?&?&->)%write_at_Some. rewrite read_at_ok by len.
  rewrite drop_app_length' by len. rewrite Nat2Z.id, take_app_length. done.
Qed.

(** A read that does not meet the written window is unchanged. *)
Lemma read_write_disjoint bs o l bs' o2 n :
  write_at bs o l = Some bs' →
  o2 + n ≤ o ∨ o + Z.of_nat (length l) ≤ o2 →
  read_at bs' o2 n = read_at bs o2 n.
Proof.
  intros Hw Hd. pose proof (write_at_length _ _ _ _ Hw) as Hlen.
  apply write_at_Some in Hw as (?&?&->).
  unfold read_at. rewrite Hlen. destruct (_ && _) eqn:E; [|done]. breflect.
  f_equal. destruct Hd.
  - rewrite !take_drop_commute. rewrite take_app_le by len.
    rewrite take_take, Nat.min_l by lia. done.
  - rewrite app_assoc, drop_app_ge by len. rewrite drop_drop. do 2 f_equal. len.
Qed.

(** Adjacent windows are concatenated. *)
Lemma read_at_app bs o n k l1 l2 :
  read_at bs o n = Some l1 → read_at bs (o + n) k = Some l2 →
  read_at bs o (n + k) = Some (l1 ++ l2).
Proof.
  intros (?&?&?&->)%read_at_Some (?&?&?&->)%read_at_Some.
  rewrite read_at_ok by lia. f_equal.
  rewrite !Z2Nat.inj_add by lia. rewrite <- take_take_drop, drop_drop. done.
Qed.

(** A prefix and the rest of a window. *)
Lemma read_at_take bs o n l k :
  read_at bs o n = Some l → 0 ≤ k ≤ n → read_at bs o k = Some (take (Z.to_nat k) l).
Proof.
  intros (?&?&?&->)%read_at_Some ?. rewrite read_at_ok by lia.
  rewrite take_take, Nat.min_l by lia. done.
Qed.

Lemma read_at_drop bs o n l k :
  read_at bs o n = Some l → 0 ≤ k ≤ n →
  read_at bs (o + k) (n - k) = Some (drop (Z.to_nat k) l).
Proof.
  intros (?&?&?&->)%read_at_Some ?. rewrite read_at_ok by lia.
  rewrite Z2Nat.inj_sub, Z2Nat.inj_add by lia. rewrite <- drop_drop.
  rewrite take_drop_commute. by rewrite <- Nat.le_add_sub by lia.
Qed.

(** Remove wrap-arounds whose argument is in range. *)
Ltac nowrap :=
  repeat match goal with
  | |- context [u8 ?x] => rewrite (u8_small x) by lia
  | |- context [u16 ?x] => rewrite (u16_small x) by lia
  | |- context [u32 ?x] => rewrite (u32_small x) by lia
  | |- context [u64 ?x] => rewrite (u64_small x) by lia
  | |- context [i32 ?x] => rewrite (i32_small x) by lia
  | |- context [i64 ?x] => rewrite (i64_small x) by lia
  end.
