(* ===== verification/GoMem.v ===== *)
(** * Byte memory: allocations, Go slices, unsafe pointers

    Every byte array of the program (a shared mapping, a [make([]byte, n)])
    is an allocation with an identifier.  A Go slice is a window of an
    allocation, a pointer obtained with [unsafe.Pointer(&s[i])] is an
    allocation and an offset.  Aliasing is therefore visible: two slices of
    one allocation see each other's writes.  Scalars are little endian (the
    supported targets, amd64 and arm64, are). *)

From Stdlib Require Import ZArith Lia.
From stdpp Require Import prelude list gmap strings.
From S2P Require Import Prelude.

(** ** Data *)

Abbreviation gmem := (gmap nat (list Z)).

Record ptr := Ptr { p_arr : nat; p_off : Z }.

Record gslice := GSlice {
  s_arr : nat;
  s_off : Z;
  s_len : Z;
  s_cap : Z
}.

#[global] Instance ptr_eq_dec : EqDecision ptr.
Proof. solve_decision. Defined.
#[global] Instance gslice_eq_dec : EqDecision gslice.
Proof. solve_decision. Defined.

(** ** Pure accesses *)

Definition peek (m : gmem) (p : ptr) (n : Z) : option (list Z) :=
  match m !! p_arr p with
  | Some bs => read_at bs (p_off p) n
  | None => None
  end.

Definition poke (m : gmem) (p : ptr) (l : list Z) : option gmem :=
  match m !! p_arr p with
  | Some bs =>
      match write_at bs (p_off p) l with
      | Some bs' => Some (<[p_arr p := bs']> m)
      | None => None
      end
  | None => None
  end.

Definition peek_u8 (m : gmem) (p : ptr) : option Z := le_val <$> peek m p 1.
Definition peek_u32 (m : gmem) (p : ptr) : option Z := le_val <$> peek m p 4.
Definition peek_u64 (m : gmem) (p : ptr) : option Z := le_val <$> peek m p 8.

Definition padd (p : ptr) (d : Z) : ptr := Ptr (p_arr p) (p_off p + d).

(** ** Loads and stores of the program *)

Definition load_bytes (p : ptr) (n : Z) : M gmem (list Z) := λ m,
  match peek m p n with Some l => Done (l, m) | None => Panic end.
Definition store_bytes (p : ptr) (l : list Z) : M gmem unit := λ m,
  match poke m p l with Some m' => Done (tt, m') | None => Panic end.

Definition load_u8 (p : ptr) : M gmem Z := l ← load_bytes p 1; mret (le_val l).
Definition load_u16 (p : ptr) : M gmem Z := l ← load_bytes p 2; mret (le_val l).
Definition load_u32 (p : ptr) : M gmem Z := l ← load_bytes p 4; mret (le_val l).
Definition load_i32 (p : ptr) : M gmem Z := l ← load_bytes p 4; mret (i32 (le_val l)).
Definition load_i64 (p : ptr) : M gmem Z := l ← load_bytes p 8; mret (i64 (le_val l)).
Definition store_u8 (p : ptr) (v : Z) : M gmem unit := store_bytes p (le_bytes 1 v).
Definition store_u16 (p : ptr) (v : Z) : M gmem unit := store_bytes p (le_bytes 2 v).
Definition store_u32 (p : ptr) (v : Z) : M gmem unit := store_bytes p (le_bytes 4 v).
Definition store_i64 (p : ptr) (v : Z) : M gmem unit := store_bytes p (le_bytes 8 v).

(** [sync/atomic]: executed in one step. *)
Definition atomic_add_i64 (p : ptr) (d : Z) : M gmem Z :=
  v ← load_i64 p; _ ← store_i64 p (i64 (v + d)); mret (i64 (v + d)).
Definition atomic_add_i32 (p : ptr) (d : Z) : M gmem Z :=
  v ← load_i32 p; _ ← store_u32 p (i32 (v + d)); mret (i32 (v + d)).
Definition atomic_cas_u32 (p : ptr) (old new : Z) : M gmem bool :=
  v ← load_u32 p;
  if v =? old then _ ← store_u32 p new; mret true else mret false.

(** [&s[i]]: an index check on the slice. *)
Definition index_ptr {S} (s : gslice) (i : Z) : M S ptr :=
  if (0 <=? i) && (i <? s_len s) then mret (Ptr (s_arr s) (s_off s + i)) else panic.

(** [s[lo:hi]]: Go checks against the capacity. *)
Definition subslice {S} (s : gslice) (lo hi : Z) : M S gslice :=
  if (0 <=? lo) && (lo <=? hi) && (hi <=? s_cap s)
  then mret (GSlice (s_arr s) (s_off s + lo) (hi - lo) (s_cap s - lo)) else panic.

(** [s[lo:]]: up to the length. *)
Definition subslice_from {S} (s : gslice) (lo : Z) : M S gslice := subslice s lo (s_len s).

Definition slice_ptr (s : gslice) : ptr := Ptr (s_arr s) (s_off s).

(** The bytes a slice denotes. *)
Definition slice_bytes (m : gmem) (s : gslice) : option (list Z) := peek m (slice_ptr s) (s_len s).

(** An identifier that is not in use. *)
Definition fresh_key {A} (m : gmap nat A) : nat := map_fold (λ k _ acc, Nat.max (S k) acc) 0%nat m.

(** A fresh allocation: [make([]byte, n)]. *)
Definition make_bytes (n : Z) : M gmem gslice := λ m,
  if n <? 0 then Panic
  else let a := fresh_key m in
       Done (GSlice a 0 n n, <[a := replicate (Z.to_nat n) 0]> m).

(** [copy(dst, src)]: the source is read before the destination is written
    (memmove); the number of bytes is the shorter length. *)
Definition go_copy (dst src : gslice) : M gmem Z :=
  let n := Z.min (s_len dst) (s_len src) in
  if n =? 0 then mret 0
  else
    l ← load_bytes (slice_ptr src) n;
    _ ← store_bytes (slice_ptr dst) l;
    mret n.

(** ** Relations *)

(** Two windows do not meet. *)
Definition disjoint_win (p : ptr) (n : Z) (q : ptr) (k : Z) : Prop :=
  p_arr p ≠ p_arr q ∨ p_off p + n ≤ p_off q ∨ p_off q + k ≤ p_off p.

#[global] Instance disjoint_win_dec p n q k : Decision (disjoint_win p n q k).
Proof. unfold disjoint_win. apply _. Defined.

(** A window lies inside of its allocation. *)
Definition in_mem (m : gmem) (p : ptr) (n : Z) : Prop :=
  0 ≤ p_off p ∧ 0 ≤ n ∧
  ∃ bs, m !! p_arr p = Some bs ∧ p_off p + n ≤ Z.of_nat (length bs).

(** [m'] differs from [m] only inside of the windows [ws]; allocations keep
    their lengths. *)
Definition changes_only (m m' : gmem) (ws : list (ptr * Z)) : Prop :=
  (∀ p n, Forall (λ w, disjoint_win w.1 w.2 p n) ws → peek m' p n = peek m p n) ∧
  (∀ p n, in_mem m p n → in_mem m' p n).

(** ** Accesses *)

Lemma padd_padd p a b : padd (padd p a) b = padd p (a + b).
Proof. unfold padd. cbn. by rewrite Z.add_assoc. Qed.
Lemma padd_0 p : padd p 0 = p.
Proof. unfold padd. rewrite Z.add_0_r. by destruct p. Qed.

Lemma peek_in_mem m p n l : peek m p n = Some l → in_mem m p n.
Proof.
  unfold peek, in_mem. destruct (m !! p_arr p) as [bs|]; [|done].
  intros (?&?&?&_)%read_at_Some. eauto.
Qed.

Lemma in_mem_peek m p n : in_mem m p n → ∃ l, peek m p n = Some l ∧ Z.of_nat (length l) = n.
Proof.
  intros (?&?&bs&Hbs&?). unfold peek. rewrite Hbs, read_at_ok by done.
  eexists; split; [done|]. len.
Qed.

Lemma peek_length m p n l : peek m p n = Some l → Z.of_nat (length l) = n.
Proof. unfold peek. destruct (m !! _); [apply read_at_length | done]. Qed.

Lemma in_mem_sub m p n d k :
  in_mem m p n → 0 ≤ d → 0 ≤ k → d + k ≤ n → in_mem m (padd p d) k.
Proof.
  intros (?&?&bs&?&?) ???. split_and!; cbn; try lia. exists bs. split; [done|lia].
Qed.

Lemma poke_ok m p l : in_mem m p (Z.of_nat (length l)) → ∃ m', poke m p l = Some m'.
Proof.
  intros (?&?&bs&Hbs&?). unfold poke. rewrite Hbs.
  destruct (write_at_ok bs (p_off p) l) as [bs' ->]; [done..|]. eauto.
Qed.

Lemma peek_poke_same m p l m' : poke m p l = Some m' → peek m' p (Z.of_nat (length l)) = Some l.
Proof.
  unfold poke, peek. destruct (m !! p_arr p) as [bs|]; [|done].
  destruct (write_at bs (p_off p) l) as [bs'|] eqn:E; [|done]. intros [= <-].
  rewrite lookup_insert_eq. by eapply read_write_same.
Qed.

Lemma peek_poke_disjoint m p l m' q n :
  poke m p l = Some m' → disjoint_win p (Z.of_nat (length l)) q n →
  peek m' q n = peek m q n.
Proof.
  unfold poke, peek, disjoint_win. destruct (m !! p_arr p) as [bs|] eqn:Hbs; [|done].
  destruct (write_at bs (p_off p) l) as [bs'|] eqn:E; [|done]. intros [= <-] Hd.
  destruct (decide (p_arr p = p_arr q)) as [Heq|Hne].
  - rewrite <- Heq, lookup_insert_eq, Hbs.
    eapply read_write_disjoint; [done|]. destruct Hd as [|[|]]; [done|lia|lia].
  - by rewrite lookup_insert_ne.
Qed.

Lemma in_mem_poke m p l m' q n : poke m p l = Some m' → in_mem m q n → in_mem m' q n.
Proof.
  unfold poke, in_mem. destruct (m !! p_arr p) as [bs|] eqn:Hbs; [|done].
  destruct (write_at bs (p_off p) l) as [bs'|] eqn:E; [|done]. intros [= <-].
  apply write_at_length in E. intros (?&?&bs2&Hbs2&?). split_and!; [done..|].
  destruct (decide (p_arr p = p_arr q)) as [Heq|Hne].
  - rewrite <- Heq in *. exists bs'. rewrite lookup_insert_eq.
    simplify_eq. split; [done|lia].
  - exists bs2. by rewrite lookup_insert_ne.
Qed.

Lemma poke_changes m p l m' :
  poke m p l = Some m' → changes_only m m' [(p, Z.of_nat (length l))].
Proof.
  intros H. split.
  - intros q n Hd. eapply peek_poke_disjoint; [done|]. by inversion_clear Hd.
  - intros. by eapply in_mem_poke.
Qed.

Lemma peek_app m p n k l1 l2 :
  peek m p n = Some l1 → peek m (padd p n) k = Some l2 → peek m p (n + k) = Some (l1 ++ l2).
Proof. unfold peek. cbn. destruct (m !! p_arr p); [apply read_at_app|done]. Qed.

Lemma peek_take m p n l k :
  peek m p n = Some l → 0 ≤ k ≤ n → peek m p k = Some (take (Z.to_nat k) l).
Proof. unfold peek. destruct (m !! p_arr p); [apply read_at_take|done]. Qed.

Lemma peek_drop m p n l k :
  peek m p n = Some l → 0 ≤ k ≤ n → peek m (padd p k) (n - k) = Some (drop (Z.to_nat k) l).
Proof. unfold peek. cbn. destruct (m !! p_arr p); [apply read_at_drop|done]. Qed.

Lemma peek_nil m p n : in_mem m p n → peek m p 0 = Some [].
Proof.
  intros (?&?&bs&Hbs&?). unfold peek. by rewrite Hbs, read_at_ok by lia.
Qed.

(** ** Disjointness *)

Lemma disjoint_win_sym p n q k : disjoint_win p n q k → disjoint_win q k p n.
Proof. unfold disjoint_win. intros [|[|]]; [left; congruence | right; lia | right; lia]. Qed.

(** A part of a window is apart from what the window is apart from. *)
Lemma disjoint_win_sub p n q k d j :
  disjoint_win p n q k → 0 ≤ d → d + j ≤ k → disjoint_win p n (padd q d) j.
Proof. unfold disjoint_win. cbn. intros [|[|]] ??; [by left | right; lia | right; lia]. Qed.

Lemma Forall_disjoint_sub (ws : list (ptr * Z)) q k d j :
  Forall (λ w, disjoint_win w.1 w.2 q k) ws → 0 ≤ d → d + j ≤ k →
  Forall (λ w, disjoint_win w.1 w.2 (padd q d) j) ws.
Proof. intros H ??. eapply Forall_impl; [exact H|]. intros x Hx. by eapply (disjoint_win_sub _ _ _ _ _ _ Hx). Qed.

(** ** Fresh allocations *)

Lemma fresh_key_gt {A} (m : gmap nat A) k x : m !! k = Some x → (k < fresh_key m)%nat.
Proof.
  unfold fresh_key. revert k x.
  apply (map_fold_weak_ind (λ r (m : gmap nat A), ∀ k x, m !! k = Some x → (k < r)%nat)).
  - intros k x. by rewrite lookup_empty.
  - intros i y m' r Hi IH k x. destruct (decide (i = k)) as [->|].
    + intros _. lia.
    + rewrite lookup_insert_ne by done. intros ?%IH. lia.
Qed.

Lemma fresh_key_None {A} (m : gmap nat A) : m !! fresh_key m = None.
Proof.
  destruct (m !! fresh_key m) as [bs|] eqn:E; [|done].
  apply fresh_key_gt in E. lia.
Qed.

(** ** [changes_only] *)

Lemma changes_only_refl m ws : changes_only m m ws.
Proof. by split. Qed.

Lemma changes_only_trans m1 m2 m3 ws1 ws2 :
  changes_only m1 m2 ws1 → changes_only m2 m3 ws2 → changes_only m1 m3 (ws1 ++ ws2).
Proof.
  intros [H1 K1] [H2 K2]. split; [|by auto].
  intros p n [??]%Forall_app. rewrite H2 by done. by apply H1.
Qed.

Lemma changes_only_weaken m m' ws ws' :
  changes_only m m' ws → ws ⊆ ws' → changes_only m m' ws'.
Proof.
  intros [H K] Hs. split; [|done]. intros p n Hd. apply H.
  rewrite Forall_forall in *. intros w Hw. apply Hd. apply Hs. exact Hw.
Qed.

Lemma changes_only_seq m1 m2 m3 ws :
  changes_only m1 m2 ws → changes_only m2 m3 ws → changes_only m1 m3 ws.
Proof.
  intros H1 H2. pose proof (changes_only_trans _ _ _ _ _ H1 H2) as H.
  eapply changes_only_weaken; [exact H|]. intros w Hw. by apply elem_of_app in Hw as [|].
Qed.

(** Windows may be enlarged. *)
Definition win_in (w w' : ptr * Z) : Prop :=
  p_arr w.1 = p_arr w'.1 ∧ p_off w'.1 ≤ p_off w.1 ∧ p_off w.1 + w.2 ≤ p_off w'.1 + w'.2.

Lemma changes_only_enlarge m m' ws ws' :
  changes_only m m' ws → Forall (λ w, Exists (win_in w) ws') ws → changes_only m m' ws'.
Proof.
  intros [H K] Hs. split; [|done]. intros p n Hd. apply H.
  rewrite Forall_forall in Hs |- *. intros w Hw.
  specialize (Hs w Hw). rewrite Exists_exists in Hs. destruct Hs as (w'&Hw'&?&?&?).
  rewrite Forall_forall in Hd. specialize (Hd w' Hw').
  unfold disjoint_win in *. destruct Hd as [|[|]]; [left; congruence | right; lia | right; lia].
Qed.

(** ** Scalars *)

Lemma le_val_bytes_u32 v : le_val (le_bytes 4 v) = u32 v.
Proof. by rewrite le_val_bytes. Qed.
Lemma le_val_bytes_u64 v : le_val (le_bytes 8 v) = u64 v.
Proof. by rewrite le_val_bytes. Qed.
Lemma le_val_bytes_u8 v : le_val (le_bytes 1 v) = u8 v.
Proof. by rewrite le_val_bytes. Qed.
Lemma le_val_bytes_u16 v : le_val (le_bytes 2 v) = u16 v.
Proof. by rewrite le_val_bytes. Qed.

Lemma load_u32_ok m p v : peek_u32 m p = Some v → load_u32 p m = Done (v, m).
Proof.
  unfold peek_u32, load_u32, load_bytes. intros H.
  destruct (peek m p 4) as [l|] eqn:E; [|done]. injection H as <-.
  unfold mbind, M_bind. by rewrite E.
Qed.
Lemma load_u8_ok m p v : peek_u8 m p = Some v → load_u8 p m = Done (v, m).
Proof.
  unfold peek_u8, load_u8, load_bytes. intros H.
  destruct (peek m p 1) as [l|] eqn:E; [|done]. injection H as <-.
  unfold mbind, M_bind. by rewrite E.
Qed.
Lemma load_i32_ok m p v : peek_u32 m p = Some v → load_i32 p m = Done (i32 v, m).
Proof.
  unfold peek_u32, load_i32, load_bytes. intros H.
  destruct (peek m p 4) as [l|] eqn:E; [|done]. injection H as <-.
  unfold mbind, M_bind. by rewrite E.
Qed.
Lemma load_i64_ok m p v : peek_u64 m p = Some v → load_i64 p m = Done (i64 v, m).
Proof.
  unfold peek_u64, load_i64, load_bytes. intros H.
  destruct (peek m p 8) as [l|] eqn:E; [|done]. injection H as <-.
  unfold mbind, M_bind. by rewrite E.
Qed.

(** A store of [n] little-endian bytes: it succeeds inside of the
    allocation, is read back, and changes nothing else. *)
Lemma store_le_ok (n : nat) m p v :
  in_mem m p (Z.of_nat n) →
  ∃ m', store_bytes p (le_bytes n v) m = Done (tt, m') ∧
        le_val <$> peek m' p (Z.of_nat n) = Some (v `mod` 256 ^ Z.of_nat n) ∧
        changes_only m m' [(p, Z.of_nat n)].
Proof.
  intros Hin. destruct (poke_ok m p (le_bytes n v)) as [m' Hm'].
  { by rewrite length_le_bytes. }
  exists m'. unfold store_bytes. rewrite Hm'. split; [done|].
  pose proof (peek_poke_same _ _ _ _ Hm') as Hs. rewrite length_le_bytes in Hs.
  rewrite Hs. cbn. rewrite le_val_bytes. split; [done|].
  apply poke_changes in Hm'. by rewrite length_le_bytes in Hm'.
Qed.

Lemma store_u32_ok m p v :
  in_mem m p 4 →
  ∃ m', store_u32 p v m = Done (tt, m') ∧ peek_u32 m' p = Some (u32 v) ∧
        changes_only m m' [(p, 4)].
Proof. apply (store_le_ok 4). Qed.
Lemma store_u8_ok m p v :
  in_mem m p 1 →
  ∃ m', store_u8 p v m = Done (tt, m') ∧ peek_u8 m' p = Some (u8 v) ∧
        changes_only m m' [(p, 1)].
Proof. apply (store_le_ok 1). Qed.
Lemma store_i64_ok m p v :
  in_mem m p 8 →
  ∃ m', store_i64 p v m = Done (tt, m') ∧ peek_u64 m' p = Some (u64 v) ∧
        changes_only m m' [(p, 8)].
Proof. apply (store_le_ok 8). Qed.

Lemma atomic_add_i64_ok m p v d :
  peek_u64 m p = Some v →
  ∃ m', atomic_add_i64 p d m = Done (i64 (i64 v + d), m') ∧
        peek_u64 m' p = Some (u64 (i64 (i64 v + d))) ∧ changes_only m m' [(p, 8)].
Proof.
  intros Hv. destruct (store_i64_ok m p (i64 (i64 v + d))) as (m'&Hs&Hp&Hc).
  { unfold peek_u64 in Hv. destruct (peek m p 8) eqn:E; [|done]. by eapply peek_in_mem. }
  exists m'. split; [|done]. unfold atomic_add_i64.
  erewrite bind_done by (by apply load_i64_ok). cbv beta.
  by erewrite bind_done by exact Hs.
Qed.

Lemma atomic_add_i32_ok m p v d :
  peek_u32 m p = Some v →
  ∃ m', atomic_add_i32 p d m = Done (i32 (i32 v + d), m') ∧
        peek_u32 m' p = Some (u32 (i32 (i32 v + d))) ∧ changes_only m m' [(p, 4)].
Proof.
  intros Hv. destruct (store_u32_ok m p (i32 (i32 v + d))) as (m'&Hs&Hp&Hc).
  { unfold peek_u32 in Hv. destruct (peek m p 4) eqn:E; [|done]. by eapply peek_in_mem. }
  exists m'. split; [|done]. unfold atomic_add_i32.
  erewrite bind_done by (by apply load_i32_ok). cbv beta.
  by erewrite bind_done by exact Hs.
Qed.

Lemma peek_u32_in_mem m p v : peek_u32 m p = Some v → in_mem m p 4.
Proof. unfold peek_u32. destruct (peek m p 4) eqn:E; [|done]. intros _. by eapply peek_in_mem. Qed.
Lemma peek_u64_in_mem m p v : peek_u64 m p = Some v → in_mem m p 8.
Proof. unfold peek_u64. destruct (peek m p 8) eqn:E; [|done]. intros _. by eapply peek_in_mem. Qed.
Lemma peek_u8_in_mem m p v : peek_u8 m p = Some v → in_mem m p 1.
Proof. unfold peek_u8. destruct (peek m p 1) eqn:E; [|done]. intros _. by eapply peek_in_mem. Qed.

(** Scalars outside of the changed windows keep their value. *)
Lemma changes_peek_u32 m m' ws p v :
  changes_only m m' ws → Forall (λ w, disjoint_win w.1 w.2 p 4) ws →
  peek_u32 m p = Some v → peek_u32 m' p = Some v.
Proof. intros [H _] Hd. unfold peek_u32. by rewrite H. Qed.
Lemma changes_peek_u64 m m' ws p v :
  changes_only m m' ws → Forall (λ w, disjoint_win w.1 w.2 p 8) ws →
  peek_u64 m p = Some v → peek_u64 m' p = Some v.
Proof. intros [H _] Hd. unfold peek_u64. by rewrite H. Qed.
Lemma changes_peek_u8 m m' ws p v :
  changes_only m m' ws → Forall (λ w, disjoint_win w.1 w.2 p 1) ws →
  peek_u8 m p = Some v → peek_u8 m' p = Some v.
Proof. intros [H _] Hd. unfold peek_u8. by rewrite H. Qed.

Lemma index_ptr_ok {S} (st : S) s i :
  0 ≤ i < s_len s → index_ptr s i st = Done (Ptr (s_arr s) (s_off s + i), st).
Proof. intros. unfold index_ptr. bdecide. done. Qed.

Lemma index_ptr_oob {S} (st : S) s i :
  i < 0 ∨ s_len s ≤ i → index_ptr s i st = Panic.
Proof.
  intros H. unfold index_ptr.
  destruct (0 <=? i) eqn:E1, (i <? s_len s) eqn:E2; breflect; cbn; lia || done.
Qed.

Lemma subslice_ok {S} (st : S) s lo hi :
  0 ≤ lo ≤ hi → hi ≤ s_cap s →
  subslice s lo hi st = Done (GSlice (s_arr s) (s_off s + lo) (hi - lo) (s_cap s - lo), st).
Proof. intros. unfold subslice. bdecide. done. Qed.

#[export] Hint Resolve load_u32_ok load_u8_ok load_i32_ok load_i64_ok : shm.
#[export] Hint Resolve peek_u32_in_mem peek_u64_in_mem peek_u8_in_mem : shm.

(** Solve a disjointness side condition by arithmetic on the offsets. *)
Ltac solve_disj :=
  repeat match goal with
  | |- Forall _ [] => constructor
  | |- Forall _ (_ :: _) => constructor
  | |- Forall _ (_ ++ _) => apply Forall_app; split
  | |- disjoint_win _ _ _ _ => unfold disjoint_win; cbn
  end; cbn; first [ left; congruence | right; lia | lia ].

(** Solve the side condition of [changes_only_enlarge] on concrete windows. *)
Ltac solve_win_in := unfold win_in; cbn; split_and!; [first [reflexivity | congruence] | lia | lia].
Ltac solve_exists :=
  first [ apply Exists_cons_hd; solve [solve_win_in] | apply Exists_cons_tl; solve_exists ].
Ltac solve_enlarge :=
  cbn [app]; repeat (apply Forall_cons; split); first [apply Forall_nil_2 | solve_exists].

(** Windows of one array do not concern the others. *)
Lemma changes_other_array m m' ws a0 k : changes_only m m' ws → Forall (λ w : ptr * Z, p_arr w.1 = a0) ws → k ≠ a0 → m' !! k = m !! k.
Proof.
  intros [Hc _] Hw Hk.
  assert (∀ n, peek m' (Ptr k 0) n = peek m (Ptr k 0) n) as Hp.
  { intros n. apply Hc. eapply Forall_impl; [exact Hw|]. intros w Ew. left. cbn. congruence. }
  unfold peek in Hp. cbn in Hp. destruct (m !! k) as [bs|] eqn:E, (m' !! k) as [bs'|] eqn:E'; cbn in Hp; try done.
  - assert (∀ l, read_at l 0 (Z.of_nat (length l)) = Some l) as Hall by (intros l; rewrite read_at_ok by lia; cbn; by rewrite drop_0, Nat2Z.id, firstn_all).
    f_equal. pose proof (Hp (Z.of_nat (length bs))) as H1. pose proof (Hp (Z.of_nat (length bs'))) as H2. rewrite Hall in H1, H2.
    apply read_at_Some in H1 as (_&_&?&E1). symmetry in H2. apply read_at_Some in H2 as (_&_&?&E2). rewrite E1. rewrite drop_0, Nat2Z.id, take_ge by lia. done.
  - specialize (Hp 0). by rewrite read_at_ok in Hp by lia.
  - specialize (Hp 0). by rewrite read_at_ok in Hp by lia.
Qed.
