(* ===== verification/Queue.v ===== *)
(** * The io queue ([queue.go])

    A bounded ring of 12-byte elements in shared memory, one per direction.
    The creator writes the layout, the peer maps the same bytes.  The
    operations are translated at the level of the loads and stores on the
    mapping; the specification is a bounded FIFO with a working flag. *)

From Stdlib Require Import ZArith Lia.
From stdpp Require Import prelude list gmap strings.
From S2P Require Import Prelude GoMem.

(** ** Data and constants *)

Definition queueHeaderLength : Z := 24.
Definition queueElementLen : Z := 12.
Definition queueCount : Z := 2.

Inductive MemMapType := MemMapTypeDevShmFile | MemMapTypeMemFd.

Record queue := Queue {
  q_head : ptr;
  q_tail : ptr;
  q_workingFlag : ptr;
  q_cap : Z;
  q_bytes : gslice
}.

Record queueElement := QueueElement {
  seqID : Z;
  offsetInShmBuf : Z;
  status : Z
}.

Record queueManager := QueueManager {
  qm_path : string;
  qm_sendQueue : queue;
  qm_recvQueue : queue;
  qm_mem : gslice;
  qm_mmapMapType : MemMapType;
  qm_memFd : Z
}.

(** The states of a stream ([stream.go]); the low byte of [status] carries one. *)
Definition streamOpened : Z := 0.
Definition streamClosed : Z := 1.
Definition streamHalfClosed : Z := 2.

#[global] Instance queueElement_eq_dec : EqDecision queueElement.
Proof. solve_decision. Defined.

(** ** Layout *)

Definition countQueueMemSize (queueCap : Z) : Z := queueHeaderLength + queueElementLen * queueCap.

Definition mappingQueueFromBytes (isArmArch : bool) (data : gslice) : M gmem queue :=
  p0 ← index_ptr data 0;
  cap ← load_u32 p0;
  let queueStartOffset := queueHeaderLength in
  let queueEndOffset := u32 (queueHeaderLength + u32 (cap * queueElementLen)) in
  if isArmArch then
    wf ← index_ptr data 4;
    hd ← index_ptr data 8;
    tl ← index_ptr data 16;
    bytes ← subslice data queueStartOffset queueEndOffset;
    mret (Queue hd tl wf cap bytes)
  else
    hd ← index_ptr data 4;
    tl ← index_ptr data 12;
    wf ← index_ptr data 20;
    bytes ← subslice data queueStartOffset queueEndOffset;
    mret (Queue hd tl wf cap bytes).

Definition createQueueFromBytes (isArmArch : bool) (data : gslice) (cap : Z) : M gmem queue :=
  p0 ← index_ptr data 0;
  _ ← store_u32 p0 cap;
  q ← mappingQueueFromBytes isArmArch data;
  _ ← store_i64 (q_head q) 0;
  _ ← store_i64 (q_tail q) 0;
  _ ← store_u32 (q_workingFlag q) 0;
  mret q.

Definition createQueue (isArmArch : bool) (cap : Z) : M gmem queue :=
  data ← make_bytes (queueHeaderLength + u32 (cap * queueElementLen));
  createQueueFromBytes isArmArch data cap.

(** ** Operations *)

(** [a % b] on [int64]: truncated, and a zero divisor panics. *)
Definition go_rem {S} (a b : Z) : M S Z := if b =? 0 then panic else mret (Z.rem a b).

Definition queue_size (q : queue) : M gmem Z :=
  tail ← load_i64 (q_tail q);
  head ← load_i64 (q_head q);
  mret (i64 (tail - head)).

Definition queue_isFull (q : queue) : M gmem bool :=
  n ← queue_size q; mret (n =? q_cap q).

Definition queue_isEmpty (q : queue) : M gmem bool :=
  n ← queue_size q; mret (n =? 0).

Definition queue_pop (q : queue) : M gmem (error + queueElement) :=
  head ← load_i64 (q_head q);
  tail ← load_i64 (q_tail q);
  if head >=? tail then mret (inl errQueueEmpty)
  else
    r ← go_rem head (q_cap q);
    let queueOffset := i64 (r * queueElementLen) in
    p ← index_ptr (q_bytes q) queueOffset;
    sid ← load_u32 p;
    p ← index_ptr (q_bytes q) (queueOffset + 4);
    off ← load_u32 p;
    p ← index_ptr (q_bytes q) (queueOffset + 8);
    st ← load_u32 p;
    _ ← atomic_add_i64 (q_head q) 1;
    mret (inr (QueueElement sid off st)).

(** [put] runs under the queue's mutex; the interleaving with the peer is
    the subject of the step relation of the concurrent model. *)
Definition queue_put (q : queue) (e : queueElement) : M gmem (option error) :=
  tail ← load_i64 (q_tail q);
  head ← load_i64 (q_head q);
  if i64 (tail - head) >=? q_cap q then mret (Some ErrQueueFull)
  else
    r ← go_rem tail (q_cap q);
    let queueOffset := i64 (r * queueElementLen) in
    p ← index_ptr (q_bytes q) queueOffset;
    _ ← store_u32 p (seqID e);
    p ← index_ptr (q_bytes q) (queueOffset + 4);
    _ ← store_u32 p (offsetInShmBuf e);
    p ← index_ptr (q_bytes q) (queueOffset + 8);
    _ ← store_u32 p (status e);
    _ ← atomic_add_i64 (q_tail q) 1;
    mret None.

Definition consumerIsWorking (q : queue) : M gmem bool :=
  f ← load_u32 (q_workingFlag q); mret (f >? 0).

Definition markWorking (q : queue) : M gmem bool :=
  atomic_cas_u32 (q_workingFlag q) 0 1.

Definition markNotWorking (q : queue) : M gmem bool :=
  _ ← store_u32 (q_workingFlag q) 0;
  n ← queue_size q;
  if n =? 0 then mret true
  else
    _ ← store_u32 (q_workingFlag q) 1;
    mret false.

(** ** Specification: a bounded FIFO with a working flag *)

Record fifo := Fifo { f_items : list queueElement; f_working : bool }.

Definition fifo_put (cap : Z) (e : queueElement) (f : fifo) : option error * fifo :=
  if Z.of_nat (length (f_items f)) >=? cap then (Some ErrQueueFull, f)
  else (None, Fifo (f_items f ++ [e]) (f_working f)).

Definition fifo_pop (f : fifo) : (error + queueElement) * fifo :=
  match f_items f with
  | [] => (inl errQueueEmpty, f)
  | e :: xs => (inr e, Fifo xs (f_working f))
  end.

Definition fifo_markWorking (f : fifo) : bool * fifo :=
  (negb (f_working f), Fifo (f_items f) true).

Definition fifo_markNotWorking (f : fifo) : bool * fifo :=
  match f_items f with
  | [] => (true, Fifo [] false)
  | _ => (false, Fifo (f_items f) true)
  end.

Inductive qop := OpPut (e : queueElement) | OpPop | OpMarkWorking | OpMarkNotWorking.
Inductive qres := RPut (e : option error) | RPop (r : error + queueElement) | RFlag (b : bool).

Definition run_qop (q : queue) (o : qop) : M gmem qres :=
  match o with
  | OpPut e => r ← queue_put q e; mret (RPut r)
  | OpPop => r ← queue_pop q; mret (RPop r)
  | OpMarkWorking => b ← markWorking q; mret (RFlag b)
  | OpMarkNotWorking => b ← markNotWorking q; mret (RFlag b)
  end.

Definition spec_qop (cap : Z) (o : qop) (f : fifo) : qres * fifo :=
  match o with
  | OpPut e => let r := fifo_put cap e f in (RPut r.1, r.2)
  | OpPop => let r := fifo_pop f in (RPop r.1, r.2)
  | OpMarkWorking => let r := fifo_markWorking f in (RFlag r.1, r.2)
  | OpMarkNotWorking => let r := fifo_markNotWorking f in (RFlag r.1, r.2)
  end.

Fixpoint run_qops (q : queue) (os : list qop) : M gmem (list qres) :=
  match os with
  | [] => mret []
  | o :: os => r ← run_qop q o; rs ← run_qops q os; mret (r :: rs)
  end.

Fixpoint spec_qops (cap : Z) (os : list qop) (f : fifo) : list qres * fifo :=
  match os with
  | [] => ([], f)
  | o :: os =>
      let r := spec_qop cap o f in
      let rs := spec_qops cap os r.2 in
      (r.1 :: rs.1, rs.2)
  end.

Definition qop_ok (o : qop) : Prop :=
  match o with
  | OpPut e => 0 ≤ seqID e < 2 ^ 32 ∧ 0 ≤ offsetInShmBuf e < 2 ^ 32 ∧ 0 ≤ status e < 2 ^ 32
  | _ => True
  end.

(** ** Queue managers

    The system calls are parameters; a queue manager is two queues over one
    mapping, the creator's send queue being the mapper's receive queue. *)

Record os_ops := OsOps {
  os_memfd_create : string → M gmem (error + Z);
  os_ftruncate : Z → Z → M gmem (option error);
  os_fstat_size : Z → M gmem (error + Z);
  os_mmap : Z → Z → M gmem (error + gslice);
  os_munmap : gslice → M gmem (option error);
  os_close : Z → M gmem (option error);
  os_remove : string → M gmem (option error);
  os_mkdir_parent : string → M gmem unit;  (* MkdirAll(filepath.Dir(p)), its error ignored *)
  os_stat : string → M gmem (option bool);  (* None: no error; Some b: an error e with IsExist(e) = b *)
  os_dev_shm_free : M gmem (option Z);  (* disk.Usage of /dev/shm; None: an error *)
  os_open : string → bool → M gmem (error + Z)
}.

Definition memfdCreateName : string := "shmipc".

(** The name of the file in memory has a prefix; the flags are dropped. *)
Definition MemfdCreate (os : os_ops) (name : string) (flags : Z) : M gmem (error + Z) :=
  r ← os_memfd_create os (String.append memfdCreateName name);
  match r with
  | inl e => mret (inl e)
  | inr memFd => mret (inr memFd)
  end.

(** [for i := 0; i < len(mem); i++ { mem[i] = 0 }] *)
Fixpoint zero_loop (n : nat) (mem : gslice) (i : Z) : M gmem unit :=
  match n with
  | O => mret tt
  | S n =>
      p ← index_ptr mem i;
      _ ← store_u8 p 0;
      zero_loop n mem (i + 1)
  end.

(** The part shared by both creators: clear the mapping, lay out two queues. *)
Definition layoutQueueManager (isArmArch : bool) (path : string) (mem : gslice) (memSize queueCap : Z)
    (ty : MemMapType) (fd : Z) : M gmem queueManager :=
  _ ← zero_loop (Z.to_nat (s_len mem)) mem 0;
  lo ← subslice mem 0 (memSize `div` 2);
  send ← createQueueFromBytes isArmArch lo queueCap;
  hi ← subslice_from mem (memSize `div` 2);
  recv ← createQueueFromBytes isArmArch hi queueCap;
  mret (QueueManager path send recv mem ty fd).

Definition createQueueManagerWithMemFd (os : os_ops) (isArmArch : bool)
    (queuePathName : string) (queueCap : Z) : M gmem (error + queueManager) :=
  r ← MemfdCreate os queuePathName 0;
  match r with
  | inl e => mret (inl e)
  | inr memFd =>
      let memSize := countQueueMemSize queueCap * queueCount in
      e ← os_ftruncate os memFd memSize;
      match e with
      | Some _ => mret (inl (Errorf "createQueueManagerWithMemFd truncate share memory failed"))
      | None =>
          r ← os_mmap os memFd memSize;
          match r with
          | inl e => mret (inl e)
          | inr mem =>
              qm ← layoutQueueManager isArmArch queuePathName mem memSize queueCap MemMapTypeMemFd memFd;
              mret (inr qm)
          end
      end
  end.

Definition pathExists (os : os_ops) (path : string) : M gmem bool :=
  err ← os_stat os path;
  match err with
  | Some isExist => mret isExist
  | None => mret true
  end.

Definition canCreateOnDevShm (os : os_ops) (isLinux : bool) (size : Z) (path : string) : M gmem bool :=
  if isLinux && str_contains path "/dev/shm" then
    r ← os_dev_shm_free os;
    match r with
    | None => mret false
    | Some free => mret (free >=? size)
    end
  else mret true.

Definition createQueueManager (os : os_ops) (isArmArch isLinux : bool)
    (shmPath : string) (queueCap : Z) : M gmem (error + queueManager) :=
  _ ← os_mkdir_parent os shmPath;
  ex ← pathExists os shmPath;
  if (ex : bool) then mret (inl (Errorf "queue was existed"))
  else
    let memSize := countQueueMemSize queueCap * queueCount in
    ok ← canCreateOnDevShm os isLinux (u64 memSize) shmPath;
    if negb ok then mret (inl (Errorf "share memory had not left space"))
    else
      r ← os_open os shmPath true;
      match r with
      | inl e => mret (inl e)
      | inr fd =>
          e ← os_ftruncate os fd memSize;
          match e with
          | Some _ => _ ← os_close os fd; mret (inl (Errorf "truncate share memory failed"))
          | None =>
              r ← os_mmap os fd memSize;
              match r with
              | inl e => _ ← os_close os fd; mret (inl e)
              | inr mem =>
                  qm ← layoutQueueManager isArmArch shmPath mem memSize queueCap MemMapTypeDevShmFile 0;
                  _ ← os_close os fd;
                  mret (inr qm)
              end
          end
      end.

Definition mapQueueManager (isArmArch : bool) (path : string) (mem : gslice) (mappingSize : Z)
    (ty : MemMapType) (fd : Z) : M gmem queueManager :=
  hi ← subslice_from mem (mappingSize `div` 2);
  send ← mappingQueueFromBytes isArmArch hi;
  lo ← subslice mem 0 (mappingSize `div` 2);
  recv ← mappingQueueFromBytes isArmArch lo;
  mret (QueueManager path send recv mem ty fd).

Definition mappingQueueManagerMemfd (os : os_ops) (isArmArch : bool)
    (queuePathName : string) (memFd : Z) : M gmem (error + queueManager) :=
  r ← os_fstat_size os memFd;
  match r with
  | inl e => mret (inl e)
  | inr mappingSize =>
      if isArmArch && negb (mappingSize `mod` 16 =? 0)
      then mret (inl (Errorf "the memory size of queue should be a multiple of 16"))
      else
        r ← os_mmap os memFd mappingSize;
        match r with
        | inl e => mret (inl e)
        | inr mem =>
            qm ← mapQueueManager isArmArch queuePathName mem mappingSize MemMapTypeMemFd memFd;
            mret (inr qm)
        end
  end.

Definition mappingQueueManager (os : os_ops) (isArmArch : bool) (shmPath : string)
    : M gmem (error + queueManager) :=
  r ← os_open os shmPath false;
  match r with
  | inl e => mret (inl e)
  | inr fd =>
      r ← os_fstat_size os fd;
      match r with
      | inl e => _ ← os_close os fd; mret (inl e)
      | inr mappingSize =>
          if isArmArch && negb (mappingSize `mod` 16 =? 0)
          then _ ← os_close os fd;
               mret (inl (Errorf "the memory size of queue should be a multiple of 16"))
          else
            r ← os_mmap os fd mappingSize;
            match r with
            | inl e => _ ← os_close os fd; mret (inl e)
            | inr mem =>
                qm ← mapQueueManager isArmArch shmPath mem mappingSize MemMapTypeDevShmFile 0;
                _ ← os_close os fd;
                mret (inr qm)
            end
      end
  end.

Definition queueManager_unmap (os : os_ops) (q : queueManager) : M gmem unit :=
  _ ← os_munmap os (qm_mem q);
  match qm_mmapMapType q with
  | MemMapTypeDevShmFile => _ ← os_remove os (qm_path q); mret tt
  | MemMapTypeMemFd => _ ← os_close os (qm_memFd q); mret tt
  end.

(** ** Representation *)

Definition elem_ptr (q : queue) (k : Z) : ptr :=
  Ptr (s_arr (q_bytes q)) (s_off (q_bytes q) + k * queueElementLen).

Definition elem_at (m : gmem) (q : queue) (k : Z) (e : queueElement) : Prop :=
  peek_u32 m (elem_ptr q k) = Some (seqID e) ∧
  peek_u32 m (padd (elem_ptr q k) 4) = Some (offsetInShmBuf e) ∧
  peek_u32 m (padd (elem_ptr q k) 8) = Some (status e).

(** The bytes a queue owns. *)
Definition queue_footprint (q : queue) : list (ptr * Z) :=
  [(q_head q, 8); (q_tail q, 8); (q_workingFlag q, 4);
   (slice_ptr (q_bytes q), q_cap q * queueElementLen)].

Definition elem_ok (e : queueElement) : Prop :=
  0 ≤ seqID e < 2 ^ 32 ∧ 0 ≤ offsetInShmBuf e < 2 ^ 32 ∧ 0 ≤ status e < 2 ^ 32.

(** Layout: the four parts of the queue are apart. *)
Record queue_layout (q : queue) : Prop := {
  ql_cap : 0 < q_cap q < 2 ^ 32;
  ql_len : s_len (q_bytes q) = q_cap q * queueElementLen;
  ql_ht : disjoint_win (q_head q) 8 (q_tail q) 8;
  ql_hf : disjoint_win (q_head q) 8 (q_workingFlag q) 4;
  ql_hb : disjoint_win (q_head q) 8 (slice_ptr (q_bytes q)) (q_cap q * queueElementLen);
  ql_tf : disjoint_win (q_tail q) 8 (q_workingFlag q) 4;
  ql_tb : disjoint_win (q_tail q) 8 (slice_ptr (q_bytes q)) (q_cap q * queueElementLen);
  ql_fb : disjoint_win (q_workingFlag q) 4 (slice_ptr (q_bytes q)) (q_cap q * queueElementLen)
}.

(** [queue_rep m q h f]: in memory [m] the queue [q] has consumed [h]
    elements so far and holds the FIFO [f]. *)
Record queue_rep (m : gmem) (q : queue) (h : Z) (f : fifo) : Prop := {
  qr_layout : queue_layout q;
  qr_bytes : in_mem m (slice_ptr (q_bytes q)) (q_cap q * queueElementLen);
  qr_head : peek_u64 m (q_head q) = Some h;
  qr_tail : peek_u64 m (q_tail q) = Some (h + Z.of_nat (length (f_items f)));
  qr_flag : peek_u32 m (q_workingFlag q) = Some (if f_working f then 1 else 0);
  qr_h : 0 ≤ h;
  qr_size : Z.of_nat (length (f_items f)) ≤ q_cap q;
  qr_items : ∀ i e, f_items f !! i = Some e →
             elem_at m q ((h + Z.of_nat i) `mod` q_cap q) e
}.

(** ** Lemmas *)

Section rep.
Context (q : queue).

Lemma elem_ptr_padd k : elem_ptr q k = padd (slice_ptr (q_bytes q)) (k * queueElementLen).
Proof. done. Qed.

(** Any word of element [k] lies inside of the queue's bytes. *)
Lemma elem_word_disjoint (ws : list (ptr * Z)) k d :
  Forall (λ w, disjoint_win w.1 w.2 (slice_ptr (q_bytes q)) (q_cap q * queueElementLen)) ws →
  0 ≤ k < q_cap q → 0 ≤ d ≤ 8 →
  Forall (λ w, disjoint_win w.1 w.2 (padd (elem_ptr q k) d) 4) ws.
Proof.
  intros H ??. rewrite elem_ptr_padd, padd_padd.
  eapply Forall_disjoint_sub; [exact H | unfold queueElementLen; nia..].
Qed.

Lemma elem_at_frame m m' ws k e :
  changes_only m m' ws →
  Forall (λ w, disjoint_win w.1 w.2 (slice_ptr (q_bytes q)) (q_cap q * queueElementLen)) ws →
  0 ≤ k < q_cap q → elem_at m q k e → elem_at m' q k e.
Proof.
  intros Hc Hd Hk (H0&H4&H8).
  assert (∀ d, 0 ≤ d ≤ 8 → Forall (λ w, disjoint_win w.1 w.2 (padd (elem_ptr q k) d) 4) ws)
    as Hw by (intros; by apply elem_word_disjoint).
  split_and!; eapply changes_peek_u32; eauto with lia.
  rewrite <- (padd_0 (elem_ptr q k)). apply Hw. lia.
Qed.

Lemma elem_at_other m m' k k' e :
  changes_only m m' [(elem_ptr q k, 12)] → k ≠ k' → elem_at m q k' e → elem_at m' q k' e.
Proof.
  intros Hc Hne (?&?&?).
  split_and!; (eapply changes_peek_u32; [exact Hc | | done]);
    (constructor; [|done]); unfold disjoint_win; cbn; unfold queueElementLen; right; lia.
Qed.

(** The representation only depends on the footprint. *)
Lemma queue_rep_frame m m' ws h f :
  queue_rep m q h f → changes_only m m' ws →
  Forall (λ v, Forall (λ w, disjoint_win w.1 w.2 v.1 v.2) ws) (queue_footprint q) →
  queue_rep m' q h f.
Proof.
  intros [] Hc Hd. unfold queue_footprint in Hd.
  repeat match goal with H : Forall _ (_ :: _) |- _ => inversion_clear H end. cbn in *.
  constructor; try done.
  - by apply Hc.
  - by eapply changes_peek_u64.
  - by eapply changes_peek_u64.
  - by eapply changes_peek_u32.
  - intros i e Hi. eapply elem_at_frame; eauto.
    apply Z.mod_pos_bound. destruct qr_layout0. lia.
Qed.

(** Two slots of the ring that are less than [cap] apart are different. *)
Lemma ring_index_inj a b :
  0 < q_cap q → a `mod` q_cap q = b `mod` q_cap q → Z.abs (a - b) < q_cap q → a = b.
Proof.
  intros Hc E ?. pose proof (Z.div_mod a (q_cap q)). pose proof (Z.div_mod b (q_cap q)).
  assert (a `div` q_cap q = b `div` q_cap q) by nia. nia.
Qed.

Lemma elem_win_disjoint p n k :
  disjoint_win p n (slice_ptr (q_bytes q)) (q_cap q * queueElementLen) →
  0 ≤ k < q_cap q → disjoint_win p n (elem_ptr q k) 12.
Proof.
  intros Hd ?. rewrite elem_ptr_padd.
  eapply disjoint_win_sub; [exact Hd | unfold queueElementLen; lia..].
Qed.

Lemma elem_win_in k :
  0 ≤ k < q_cap q →
  win_in (elem_ptr q k, 12) (slice_ptr (q_bytes q), q_cap q * queueElementLen).
Proof. unfold win_in, queueElementLen. cbn. unfold queueElementLen. lia. Qed.

Lemma elem_in_bytes m k d :
  in_mem m (slice_ptr (q_bytes q)) (q_cap q * queueElementLen) →
  0 ≤ k < q_cap q → 0 ≤ d ≤ 8 → in_mem m (padd (elem_ptr q k) d) 4.
Proof.
  intros H ??. rewrite elem_ptr_padd, padd_padd.
  eapply in_mem_sub; [exact H | unfold queueElementLen; nia..].
Qed.

(** The three stores of [put] write one element and touch nothing outside of
    its 12 bytes. *)
Lemma write_elem m k e :
  in_mem m (slice_ptr (q_bytes q)) (q_cap q * queueElementLen) →
  0 ≤ k < q_cap q → elem_ok e →
  ∃ m1 m2 m3,
    store_u32 (elem_ptr q k) (seqID e) m = Done (tt, m1) ∧
    store_u32 (padd (elem_ptr q k) 4) (offsetInShmBuf e) m1 = Done (tt, m2) ∧
    store_u32 (padd (elem_ptr q k) 8) (status e) m2 = Done (tt, m3) ∧
    elem_at m3 q k e ∧
    changes_only m m3 [(elem_ptr q k, 12)].
Proof.
  intros Hin Hk (?&?&?).
  assert (∀ m' d, in_mem m' (slice_ptr (q_bytes q)) (q_cap q * queueElementLen) →
          0 ≤ d ≤ 8 → in_mem m' (padd (elem_ptr q k) d) 4) as Hi
    by (intros; by apply elem_in_bytes).
  destruct (store_u32_ok m (elem_ptr q k) (seqID e)) as (m1&S1&P1&C1).
  { specialize (Hi m 0 Hin). unfold padd in Hi. rewrite Z.add_0_r in Hi. apply Hi. lia. }
  destruct (store_u32_ok m1 (padd (elem_ptr q k) 4) (offsetInShmBuf e)) as (m2&S2&P2&C2).
  { apply Hi; [by apply C1 | lia]. }
  destruct (store_u32_ok m2 (padd (elem_ptr q k) 8) (status e)) as (m3&S3&P3&C3).
  { apply Hi; [apply C2, C1; done | lia]. }
  rewrite u32_small in P1, P2, P3 by done.
  exists m1, m2, m3. split_and!; [done..| |].
  - split_and!; [| |done].
    + eapply changes_peek_u32; [exact C3 | solve_disj |].
      eapply changes_peek_u32; [exact C2 | solve_disj | done].
    + eapply changes_peek_u32; [exact C3 | solve_disj | done].
  - eapply changes_only_enlarge.
    + exact (changes_only_trans _ _ _ _ _ C1 (changes_only_trans _ _ _ _ _ C2 C3)).
    + repeat constructor; cbn; lia.
Qed.
End rep.

Section ops.
Context (m : gmem) (q : queue) (h : Z) (f : fifo).
Context (Hrep : queue_rep m q h f).
#[local] Abbreviation n := (Z.of_nat (length (f_items f))).

Lemma queue_size_spec :
  h + n < 2 ^ 63 → queue_size q m = Done (n, m).
Proof.
  intros Hb. destruct Hrep. destruct qr_layout0. unfold queue_size.
  mauto. mauto. nowrap.
  unfold mret, M_ret. do 2 f_equal. lia.
Qed.

Lemma ring_slot_range x : 0 ≤ x → 0 ≤ x `mod` q_cap q < q_cap q.
Proof. intros. apply Z.mod_pos_bound. destruct Hrep, qr_layout0. lia. Qed.

(** [queueOffset] of the code is the offset of the ring slot. *)
Lemma queue_offset_spec x :
  0 ≤ x →
  i64 (Z.rem x (q_cap q) * queueElementLen) = (x `mod` q_cap q) * queueElementLen ∧
  0 ≤ (x `mod` q_cap q) * queueElementLen ∧
  (x `mod` q_cap q) * queueElementLen + 12 ≤ s_len (q_bytes q).
Proof.
  intros Hx. pose proof (ring_slot_range x Hx). destruct Hrep, qr_layout0.
  rewrite Z.rem_mod_nonneg by lia. unfold queueElementLen in *.
  rewrite i64_small by lia. split_and!; [done | lia | rewrite ql_len0; lia].
Qed.
End ops.

Lemma elem_index_ptr {S} (st : S) q x d :
  0 ≤ d → 0 ≤ (x `mod` q_cap q) * queueElementLen + d < s_len (q_bytes q) →
  index_ptr (q_bytes q) ((x `mod` q_cap q) * queueElementLen + d) st =
  Done (padd (elem_ptr q (x `mod` q_cap q)) d, st).
Proof.
  intros ??. rewrite index_ptr_ok by done. unfold elem_ptr, padd. cbn. by rewrite Z.add_assoc.
Qed.

Lemma queue_put_full m q h f e :
  queue_rep m q h f → h + Z.of_nat (length (f_items f)) < 2 ^ 63 →
  q_cap q ≤ Z.of_nat (length (f_items f)) →
  queue_put q e m = Done (Some ErrQueueFull, m).
Proof.
  intros Hrep Hb Hfull. pose proof Hrep as []. destruct qr_layout0.
  unfold queue_put. mauto. mauto. nowrap. bdecide. done.
Qed.

(** After the element and the new tail are written, the FIFO has grown. *)
Lemma queue_rep_put m m3 m4 q h f e :
  queue_rep m q h f → Z.of_nat (length (f_items f)) < q_cap q →
  elem_at m3 q ((h + Z.of_nat (length (f_items f))) `mod` q_cap q) e →
  changes_only m m3 [(elem_ptr q ((h + Z.of_nat (length (f_items f))) `mod` q_cap q), 12)] →
  peek_u64 m4 (q_tail q) = Some (h + Z.of_nat (length (f_items f)) + 1) →
  changes_only m3 m4 [(q_tail q, 8)] →
  queue_rep m4 q h (Fifo (f_items f ++ [e]) (f_working f)).
Proof.
  intros Hrep Hroom Hel C3 Htl C4. pose proof Hrep as []. pose proof qr_layout0 as [].
  set (t := h + Z.of_nat (length (f_items f))) in *.
  pose proof (ring_slot_range _ _ _ _ Hrep t ltac:(lia)) as Hk.
  assert (∀ p n, disjoint_win p n (slice_ptr (q_bytes q)) (q_cap q * queueElementLen) →
    Forall (λ w, disjoint_win w.1 w.2 p n) [(elem_ptr q (t `mod` q_cap q), 12)]) as Hel3.
  { intros p n Hd. constructor; [|done]. by apply disjoint_win_sym, elem_win_disjoint. }
  assert (∀ p n, disjoint_win (q_tail q) 8 p n → Forall (λ w, disjoint_win w.1 w.2 p n) [(q_tail q, 8)])
    as Htl4 by (intros; by apply Forall_singleton).
  constructor; cbn [f_items f_working]; try done.
  - apply C4, C3. done.
  - eapply changes_peek_u64; [exact C4 | by apply Htl4, disjoint_win_sym |].
    eapply changes_peek_u64; [exact C3 | by apply Hel3 | done].
  - rewrite Htl. f_equal. unfold t. len.
  - eapply changes_peek_u32; [exact C4 | by apply Htl4 |].
    eapply changes_peek_u32; [exact C3 | by apply Hel3 | done].
  - len.
  - intros i x Hx. eapply elem_at_frame; [exact C4 | by apply Htl4 | apply (ring_slot_range _ _ _ _ Hrep); lia |].
    apply lookup_app_Some in Hx as [Hx|[Hi Hx]].
    + pose proof (lookup_lt_Some _ _ _ Hx).
      assert ((h + Z.of_nat i) `mod` q_cap q ≠ t `mod` q_cap q) as Hne.
      { intros E%ring_index_inj; lia. }
      pose proof (ring_slot_range _ _ _ _ Hrep (h + Z.of_nat i) ltac:(lia)).
      eapply elem_at_other; [exact C3 | by apply not_eq_sym | by apply qr_items0].
    + apply list_lookup_singleton_Some in Hx as [Hi0 <-].
      replace (Z.of_nat i) with (Z.of_nat (length (f_items f))) by lia. done.
Qed.

Lemma queue_put_room m q h f e :
  queue_rep m q h f → elem_ok e → h + Z.of_nat (length (f_items f)) + 1 < 2 ^ 63 →
  Z.of_nat (length (f_items f)) < q_cap q →
  ∃ m', queue_put q e m = Done (None, m') ∧
        queue_rep m' q h (Fifo (f_items f ++ [e]) (f_working f)) ∧
        changes_only m m' (queue_footprint q).
Proof.
  intros Hrep He Hb Hroom. pose proof Hrep as []. pose proof qr_layout0 as [].
  set (t := h + Z.of_nat (length (f_items f))) in *.
  pose proof (ring_slot_range _ _ _ _ Hrep t ltac:(lia)) as Hk.
  destruct (queue_offset_spec _ _ _ _ Hrep t ltac:(lia)) as (Eo&?&?).
  destruct (write_elem q m (t `mod` q_cap q) e) as (m1&m2&m3&S1&S2&S3&Hel&Hc); [done..|].
  assert (peek_u64 m3 (q_tail q) = Some t) as Ht3.
  { eapply changes_peek_u64; [exact Hc | | done]. constructor; [|done].
    by apply disjoint_win_sym, elem_win_disjoint. }
  destruct (atomic_add_i64_ok m3 (q_tail q) t 1 Ht3) as (m4&A4&P4&C4).
  rewrite !(i64_small t), !(i64_small (t + 1)), u64_small in P4 by lia.
  exists m4. split_and!.
  - unfold queue_put. mauto. mauto. nowrap. bdecide.
    unfold go_rem. bdecide. rewrite bind_mret, Eo.
    rewrite <- (Z.add_0_r (_ * _)) at 1.
    mstep elem_index_ptr. rewrite padd_0. mstep S1.
    mstep elem_index_ptr. mstep S2. mstep elem_index_ptr. mstep S3. mstep A4. done.
  - by eapply queue_rep_put.
  - eapply changes_only_enlarge; [exact (changes_only_trans _ _ _ _ _ Hc C4)|].
    constructor; [|constructor; [|done]].
    + do 3 right. left. by apply elem_win_in.
    + right. left. unfold win_in. cbn. lia.
Qed.

Lemma queue_pop_empty m q h f :
  queue_rep m q h f → h < 2 ^ 63 → f_items f = [] →
  queue_pop q m = Done (inl errQueueEmpty, m).
Proof.
  intros Hrep Hb He. pose proof Hrep as []. rewrite He in *. cbn in *.
  unfold queue_pop. mauto. mauto. nowrap. bdecide. done.
Qed.

Lemma queue_pop_head m q h f e xs :
  queue_rep m q h f → h + Z.of_nat (length (f_items f)) < 2 ^ 63 → f_items f = e :: xs →
  ∃ m', queue_pop q m = Done (inr e, m') ∧
        queue_rep m' q (h + 1) (Fifo xs (f_working f)) ∧
        changes_only m m' [(q_head q, 8)].
Proof.
  intros Hrep Hb He. pose proof Hrep as []. pose proof qr_layout0 as [].
  rewrite He in *. cbn [length] in *.
  pose proof (ring_slot_range _ _ _ _ Hrep h ltac:(lia)) as Hk.
  destruct (queue_offset_spec _ _ _ _ Hrep h ltac:(lia)) as (Eo&?&?).
  destruct (qr_items0 0%nat e eq_refl) as (E0&E4&E8). rewrite Z.add_0_r in E0, E4, E8.
  destruct (atomic_add_i64_ok m (q_head q) h 1 qr_head0) as (m'&A&P&C).
  rewrite (i64_small h), (i64_small (h + 1)), u64_small in P by lia.
  assert (∀ p n, disjoint_win (q_head q) 8 p n → Forall (λ w, disjoint_win w.1 w.2 p n) [(q_head q, 8)])
    as Hh by (intros; by apply Forall_singleton).
  exists m'. split_and!; [| |done].
  - unfold queue_pop. mauto. mauto. nowrap. bdecide.
    unfold go_rem. bdecide. rewrite bind_mret, Eo.
    rewrite <- (Z.add_0_r (_ * _)) at 1. mstep elem_index_ptr. rewrite padd_0. mauto.
    mstep elem_index_ptr. mauto. mstep elem_index_ptr. mauto. mstep A. by destruct e.
  - constructor; cbn [f_items f_working]; try done.
    + by apply C.
    + eapply changes_peek_u64; [exact C | by apply Hh |]. rewrite qr_tail0. f_equal. lia.
    + eapply changes_peek_u32; [exact C | by apply Hh | done].
    + lia.
    + lia.
    + intros i x Hx. eapply elem_at_frame; [exact C | by apply Hh | apply Z.mod_pos_bound; lia |].
      replace (h + 1 + Z.of_nat i) with (h + Z.of_nat (S i)) by lia. by apply qr_items0.
Qed.

Lemma queue_rep_flag m m' q h f b :
  queue_rep m q h f → changes_only m m' [(q_workingFlag q, 4)] →
  peek_u32 m' (q_workingFlag q) = Some (if b : bool then 1 else 0) →
  queue_rep m' q h (Fifo (f_items f) b).
Proof.
  intros [] C P. pose proof qr_layout0 as [].
  assert (∀ p n, disjoint_win p n (q_workingFlag q) 4 →
    Forall (λ w, disjoint_win w.1 w.2 p n) [(q_workingFlag q, 4)]) as Hf
    by (intros; by apply Forall_singleton, disjoint_win_sym).
  constructor; cbn [f_items f_working]; try done.
  - by apply C.
  - eapply changes_peek_u64; [exact C | by apply Hf | done].
  - eapply changes_peek_u64; [exact C | by apply Hf | done].
  - intros i x Hx. eapply elem_at_frame; [exact C | by apply Hf, disjoint_win_sym | apply Z.mod_pos_bound; lia |].
    by apply qr_items0.
Qed.

Lemma store_flag m q h f b :
  queue_rep m q h f →
  ∃ m', store_u32 (q_workingFlag q) (if b : bool then 1 else 0) m = Done (tt, m') ∧
        queue_rep m' q h (Fifo (f_items f) b) ∧ changes_only m m' [(q_workingFlag q, 4)].
Proof.
  intros Hrep. pose proof Hrep as [].
  destruct (store_u32_ok m (q_workingFlag q) (if b then 1 else 0)) as (m'&S&P&C); [eauto with shm|].
  exists m'. split_and!; [done | | done]. eapply queue_rep_flag; [done..|].
  rewrite P. destruct b; done.
Qed.

(** A test-and-set on the flag. *)
Lemma markWorking_spec m q h f :
  queue_rep m q h f →
  ∃ m', markWorking q m = Done ((fifo_markWorking f).1, m') ∧
        queue_rep m' q h (fifo_markWorking f).2 ∧ changes_only m m' (queue_footprint q).
Proof.
  intros Hrep. pose proof Hrep as []. unfold markWorking, atomic_cas_u32, fifo_markWorking. cbn [fst snd].
  destruct (f_working f) eqn:Hf.
  - exists m. split_and!; [|destruct f; cbn in *; by subst | apply changes_only_refl].
    mauto. done.
  - destruct (store_flag m q h f true Hrep) as (m'&S&R&C). exists m'. split_and!.
    + mauto. cbn [Z.eqb]. mstep S. done.
    + done.
    + eapply changes_only_enlarge; [exact C|]. constructor; [|done].
      do 2 right. left. unfold win_in. cbn. lia.
Qed.

Lemma markNotWorking_spec m q h f :
  queue_rep m q h f → h + Z.of_nat (length (f_items f)) < 2 ^ 63 →
  ∃ m', markNotWorking q m = Done ((fifo_markNotWorking f).1, m') ∧
        queue_rep m' q h (fifo_markNotWorking f).2 ∧ changes_only m m' (queue_footprint q).
Proof.
  intros Hrep Hb. unfold markNotWorking.
  assert (∀ m1 m2, changes_only m1 m2 [(q_workingFlag q, 4)] → changes_only m1 m2 (queue_footprint q)) as Hen.
  { intros m1 m2 C. eapply changes_only_enlarge; [exact C|]. constructor; [|done].
    do 2 right. left. unfold win_in. cbn. lia. }
  destruct (store_flag m q h f false Hrep) as (m1&S1&R1&C1).
  pose proof (queue_size_spec m1 q h _ R1 Hb) as Hsz. cbn [f_items] in Hsz.
  unfold fifo_markNotWorking. destruct (f_items f) as [|e xs] eqn:Hi; cbn [fst snd].
  - exists m1. split_and!; [|done|by apply Hen]. mstep S1. mstep Hsz. done.
  - destruct (store_flag m1 q h _ true R1) as (m2&S2&R2&C2). exists m2. split_and!.
    + mstep S1. mstep Hsz. cbn [length]. bdecide. mstep S2. done.
    + done.
    + eapply changes_only_seq; by apply Hen.
Qed.

(** ** Refinement *)

Lemma queue_step_sim m q h f o :
  queue_rep m q h f → qop_ok o → h + Z.of_nat (length (f_items f)) + 1 < 2 ^ 63 →
  ∃ m' h', run_qop q o m = Done ((spec_qop (q_cap q) o f).1, m') ∧
           queue_rep m' q h' (spec_qop (q_cap q) o f).2 ∧
           h ≤ h' ∧
           h' + Z.of_nat (length (f_items (spec_qop (q_cap q) o f).2)) ≤
             h + Z.of_nat (length (f_items f)) + 1 ∧
           changes_only m m' (queue_footprint q).
Proof.
  intros Hrep Hok Hb. destruct o as [e| | |]; cbn [run_qop spec_qop fst snd].
  - unfold fifo_put. destruct (_ >=? _) eqn:E; breflect; cbn [fst snd].
    + exists m, h. split_and!; [|done|lia|lia|apply changes_only_refl].
      mstep queue_put_full. done.
    + destruct (queue_put_room m q h f e) as (m'&R&Hr&C); [done..|lia|lia|].
      exists m', h. split_and!; [|done|lia|cbn; len|done]. by mstep R.
  - unfold fifo_pop. destruct (f_items f) as [|e xs] eqn:E; cbn [fst snd].
    + exists m, h. rewrite E. split_and!; [|done|lia|cbn; lia|apply changes_only_refl].
      cbn in Hb. mstep queue_pop_empty. done.
    + destruct (queue_pop_head m q h f e xs) as (m'&R&Hr&C); [done|rewrite E; lia|done|].
      exists m', (h + 1). split_and!; [|done|lia|cbn; lia|].
      * by mstep R.
      * eapply changes_only_enlarge; [exact C|]. constructor; [|done].
        left. unfold win_in. cbn. lia.
  - destruct (markWorking_spec m q h f Hrep) as (m'&R&Hr&C).
    exists m', h. split_and!; [|done|lia|cbn; lia|done]. by mstep R.
  - destruct (markNotWorking_spec m q h f Hrep) as (m'&R&Hr&C); [lia|].
    exists m', h. split_and!; [|done|lia| |done]; [by mstep R|].
    unfold fifo_markNotWorking. destruct (f_items f); cbn; lia.
Qed.

(** [C1] Any sequence of operations on the shared-memory queue is
    indistinguishable from the same sequence on the bounded FIFO: elements
    come out in the order they went in, none lost, none duplicated, and the
    bytes outside of the queue are untouched. *)
Theorem queue_trace_refines os : ∀ m q h f,
  queue_rep m q h f → Forall qop_ok os →
  h + Z.of_nat (length (f_items f)) + Z.of_nat (length os) < 2 ^ 63 →
  ∃ m' h', run_qops q os m = Done ((spec_qops (q_cap q) os f).1, m') ∧
           queue_rep m' q h' (spec_qops (q_cap q) os f).2 ∧
           changes_only m m' (queue_footprint q).
Proof.
  induction os as [|o os IH]; intros m q h f Hrep Hok Hb; cbn [run_qops spec_qops length] in *.
  - exists m, h. split_and!; [done..|apply changes_only_refl].
  - inversion_clear Hok as [|?? Ho Hos].
    destruct (queue_step_sim m q h f o) as (m1&h1&R1&Hr1&?&?&C1); [done..|lia|].
    destruct (IH m1 q h1 _ Hr1 Hos) as (m2&h2&R2&Hr2&C2); [lia|].
    exists m2, h2. split_and!; [|done|].
    + mstep R1. mstep R2. done.
    + by eapply changes_only_seq.
Qed.

(** ** Layout *)

(** The queue that lives in [data]: the fields' offsets depend on the
    architecture (8-byte alignment of head and tail on arm). *)
Definition queue_of (isArmArch : bool) (data : gslice) (cap : Z) : queue :=
  let p := slice_ptr data in
  let bytes := GSlice (s_arr data) (s_off data + queueHeaderLength)
                 (cap * queueElementLen) (s_cap data - queueHeaderLength) in
  if isArmArch then Queue (padd p 8) (padd p 16) (padd p 4) cap bytes
  else Queue (padd p 4) (padd p 12) (padd p 20) cap bytes.

(** [data] can hold a queue of [cap] elements, with offsets below 2^32. *)
Record queue_room (m : gmem) (data : gslice) (cap : Z) : Prop := {
  qm_cap : 0 < cap;
  qm_u32 : countQueueMemSize cap < 2 ^ 32;
  qm_len : countQueueMemSize cap ≤ s_len data ≤ s_cap data;
  qm_in : in_mem m (slice_ptr data) (s_len data)
}.

Lemma queue_of_layout arm data cap :
  0 < cap → countQueueMemSize cap < 2 ^ 32 → queue_layout (queue_of arm data cap).
Proof.
  unfold countQueueMemSize, queueHeaderLength, queueElementLen. intros ??.
  destruct arm; constructor; unfold disjoint_win; cbn;
    unfold queueHeaderLength, queueElementLen; lia.
Qed.

Lemma mappingQueueFromBytes_spec arm data cap m :
  queue_room m data cap → peek_u32 m (slice_ptr data) = Some cap →
  mappingQueueFromBytes arm data m = Done (queue_of arm data cap, m).
Proof.
  intros [] Hcap. unfold countQueueMemSize in *.
  assert (queueHeaderLength = 24 ∧ queueElementLen = 12) as [E1 E2] by done.
  unfold mappingQueueFromBytes.
  mstep index_ptr_ok. rewrite Z.add_0_r. mstep (load_u32_ok _ _ cap). nowrap.
  assert (∀ lo hi, 0 ≤ lo ≤ hi → hi ≤ s_cap data →
    subslice data lo hi m = Done (GSlice (s_arr data) (s_off data + lo) (hi - lo) (s_cap data - lo), m))
    as Hsub by (intros; by apply subslice_ok).
  destruct arm; do 3 mstep index_ptr_ok; mstep Hsub;
    unfold mret, M_ret, queue_of, padd; cbn; repeat f_equal; lia.
Qed.

Lemma queue_of_fields_in arm data cap m :
  queue_room m data cap →
  in_mem m (q_head (queue_of arm data cap)) 8 ∧ in_mem m (q_tail (queue_of arm data cap)) 8 ∧
  in_mem m (q_workingFlag (queue_of arm data cap)) 4 ∧
  in_mem m (slice_ptr (q_bytes (queue_of arm data cap))) (cap * queueElementLen).
Proof.
  intros []. unfold countQueueMemSize, queueHeaderLength, queueElementLen in *.
  destruct arm; split_and!; eapply (in_mem_sub _ _ _ _ _ qm_in0);
    unfold queueHeaderLength, queueElementLen; lia.
Qed.

Lemma createQueueFromBytes_spec arm data cap m :
  queue_room m data cap →
  ∃ m', createQueueFromBytes arm data cap m = Done (queue_of arm data cap, m') ∧
        queue_rep m' (queue_of arm data cap) 0 (Fifo [] false) ∧
        peek_u32 m' (slice_ptr data) = Some cap ∧
        changes_only m m' [(slice_ptr data, countQueueMemSize cap)].
Proof.
  intros Hroom. pose proof Hroom as []. unfold countQueueMemSize in *.
  assert (queueHeaderLength = 24 ∧ queueElementLen = 12) as [EH EL] by done.
  set (q := queue_of arm data cap). pose proof (queue_of_layout arm data cap qm_cap0 qm_u33) as HL.
  fold q in HL. pose proof HL as [].
  destruct (queue_of_fields_in arm data cap m Hroom) as (Ih&It&If&Ib). fold q in Ih, It, If, Ib.
  destruct (store_u32_ok m (slice_ptr data) cap) as (m0&S0&P0&C0).
  { rewrite <- (padd_0 (slice_ptr data)). eapply in_mem_sub; [exact qm_in0|lia..]. }
  rewrite u32_small in P0 by lia.
  assert (queue_room m0 data cap) as Hroom0 by (constructor; [done..|by apply C0]).
  destruct (store_i64_ok m0 (q_head q) 0) as (m1&S1&P1&C1); [by apply C0|].
  destruct (store_i64_ok m1 (q_tail q) 0) as (m2&S2&P2&C2); [by apply C1, C0|].
  destruct (store_u32_ok m2 (q_workingFlag q) 0) as (m3&S3&P3&C3); [by apply C2, C1, C0|].
  assert (peek_u32 m3 (slice_ptr data) = Some cap) as Pc.
  { destruct arm; (eapply changes_peek_u32; [exact C3|apply Forall_singleton; unfold disjoint_win; cbn; lia|]);
    (eapply changes_peek_u32; [exact C2|apply Forall_singleton; unfold disjoint_win; cbn; lia|]);
    (eapply changes_peek_u32; [exact C1|apply Forall_singleton; unfold disjoint_win; cbn; lia|]); done. }
  exists m3. split_and!; [| |done|].
  - unfold createQueueFromBytes. mstep index_ptr_ok. rewrite Z.add_0_r.
    change (Ptr (s_arr data) (s_off data)) with (slice_ptr data). mstep S0.
    rewrite (bind_done _ _ _ _ _ (mappingQueueFromBytes_spec arm data cap m0 Hroom0 P0)).
    fold q. mstep S1. mstep S2. mstep S3. done.
  - constructor; cbn [f_items f_working length]; try done.
    + replace (q_cap q) with cap by (by destruct arm). by apply C3, C2, C1, C0.
    + eapply changes_peek_u64; [exact C3|by apply Forall_singleton, disjoint_win_sym|].
      eapply changes_peek_u64; [exact C2|by apply Forall_singleton, disjoint_win_sym|]. done.
    + eapply changes_peek_u64; [exact C3|by apply Forall_singleton, disjoint_win_sym|]. done.
    + lia.
  - eapply changes_only_enlarge.
    + exact (changes_only_trans _ _ _ _ _ C0 (changes_only_trans _ _ _ _ _ C1
              (changes_only_trans _ _ _ _ _ C2 C3))).
    + destruct arm; repeat constructor; cbn; lia.
Qed.

Lemma zero_loop_spec n : ∀ m mem i,
  in_mem m (slice_ptr mem) (s_len mem) → 0 ≤ i → i + Z.of_nat n ≤ s_len mem →
  ∃ m', zero_loop n mem i m = Done (tt, m') ∧ changes_only m m' [(slice_ptr mem, s_len mem)].
Proof.
  induction n as [|n IH]; intros m mem i Hin Hi Hn; cbn [zero_loop].
  { exists m. split; [done|apply changes_only_refl]. }
  destruct (store_u8_ok m (padd (slice_ptr mem) i) 0) as (m1&S1&_&C1).
  { eapply in_mem_sub; [exact Hin|lia..]. }
  destruct (IH m1 mem (i + 1)) as (m2&S2&C2); [by apply C1|lia|lia|].
  exists m2. split.
  - mstep index_ptr_ok. mstep S1. done.
  - eapply changes_only_seq; [|exact C2]. eapply changes_only_enlarge; [exact C1|].
    apply Forall_singleton. left. unfold win_in. cbn. lia.
Qed.

(** The footprint of a queue lies in the bytes it was laid out in. *)
Lemma queue_of_footprint_in arm data cap w :
  w ∈ queue_footprint (queue_of arm data cap) → 0 < cap →
  win_in w (slice_ptr data, countQueueMemSize cap).
Proof.
  unfold queue_footprint, countQueueMemSize. intros Hw Hc.
  assert (queueHeaderLength = 24 ∧ queueElementLen = 12) as [EH EL] by done.
  rewrite !list_elem_of_In in Hw. cbn in Hw.
  destruct arm; cbn in Hw; destruct Hw as [<-|[<-|[<-|[<-|[]]]]]; unfold win_in; cbn; lia.
Qed.

Lemma win_in_disjoint w w' v v' :
  win_in w w' → win_in v v' → disjoint_win w'.1 w'.2 v'.1 v'.2 → disjoint_win w.1 w.2 v.1 v.2.
Proof.
  unfold win_in, disjoint_win. intros (?&?&?) (?&?&?) [|[|]]; [left; congruence | right; lia | right; lia].
Qed.

Lemma queue_of_footprints arm data data' cap w v :
  0 < cap → disjoint_win (slice_ptr data) (countQueueMemSize cap) (slice_ptr data') (countQueueMemSize cap) →
  w ∈ queue_footprint (queue_of arm data cap) → v ∈ queue_footprint (queue_of arm data' cap) →
  disjoint_win w.1 w.2 v.1 v.2.
Proof.
  intros Hc Hd Hw Hv.
  exact (win_in_disjoint w (_, _) v (_, _) (queue_of_footprint_in _ _ _ _ Hw Hc) (queue_of_footprint_in _ _ _ _ Hv Hc) Hd).
Qed.

(** Two queues side by side in one mapping of exactly their size. *)
Lemma layoutQueueManager_spec arm path mem cap ty fd m :
  0 < cap → countQueueMemSize cap < 2 ^ 32 →
  s_len mem = countQueueMemSize cap * queueCount → s_len mem ≤ s_cap mem →
  in_mem m (slice_ptr mem) (s_len mem) →
  let half := countQueueMemSize cap in
  let lo := GSlice (s_arr mem) (s_off mem + 0) half (s_cap mem) in
  let hi := GSlice (s_arr mem) (s_off mem + half) half (s_cap mem - half) in
  ∃ m', layoutQueueManager arm path mem (countQueueMemSize cap * queueCount) cap ty fd m =
          Done (QueueManager path (queue_of arm lo cap) (queue_of arm hi cap) mem ty fd, m') ∧
        queue_rep m' (queue_of arm lo cap) 0 (Fifo [] false) ∧
        queue_rep m' (queue_of arm hi cap) 0 (Fifo [] false) ∧
        queue_room m' lo cap ∧ queue_room m' hi cap ∧
        peek_u32 m' (slice_ptr lo) = Some cap ∧ peek_u32 m' (slice_ptr hi) = Some cap.
Proof.
  intros Hcap H32 Hlen Hscap Hin half lo hi. unfold queueCount in *. fold half in Hlen, H32.
  assert (24 < half) as Hhalf by (unfold half, countQueueMemSize, queueHeaderLength, queueElementLen; lia).
  destruct (zero_loop_spec (Z.to_nat (s_len mem)) m mem 0) as (m0&S0&C0); [done|lia|lia|].
  assert (in_mem m0 (slice_ptr mem) (s_len mem)) as Hin0 by by apply C0.
  assert (in_mem m0 (slice_ptr lo) half) as Ilo.
  { eapply (in_mem_sub _ _ _ 0 half Hin0); lia. }
  assert (in_mem m0 (slice_ptr hi) half) as Ihi.
  { eapply (in_mem_sub _ _ _ half half Hin0); lia. }
  destruct (createQueueFromBytes_spec arm lo cap m0) as (m1&S1&R1&P1&C1).
  { constructor; cbn; fold half; try done; lia. }
  destruct (createQueueFromBytes_spec arm hi cap m1) as (m2&S2&R2&P2&C2).
  { constructor; cbn; fold half; try done; [lia|]. by apply C1. }
  exists m2. split_and!; try done.
  - unfold layoutQueueManager. mstep S0. fold half.
    replace ((half * 2) `div` 2) with half by (rewrite Z.div_mul; lia).
    mstep subslice_ok. rewrite Z.sub_0_r, Z.sub_0_r. fold lo. mstep S1.
    unfold subslice_from. rewrite Hlen. fold half.
    mstep subslice_ok. replace (half * 2 - half) with half by lia. fold hi. mstep S2. done.
  - eapply queue_rep_frame; [exact R1|exact C2|].
    rewrite Forall_forall. intros v Hv. apply Forall_singleton. apply disjoint_win_sym.
    eapply (win_in_disjoint v (slice_ptr lo, half) (slice_ptr hi, half) (slice_ptr hi, half));
      [by apply (queue_of_footprint_in arm)|unfold win_in; cbn; lia|unfold disjoint_win; cbn; lia].
  - constructor; cbn; fold half; try done; [lia|]. by apply C2, C1.
  - constructor; cbn; fold half; try done; [lia|]. by apply C2, C1.
  - eapply changes_peek_u32; [exact C2| |done]. apply Forall_singleton.
    unfold disjoint_win; cbn; fold half; lia.
Qed.

Lemma mapQueueManager_spec arm path mem cap ty fd m :
  let half := countQueueMemSize cap in
  let lo := GSlice (s_arr mem) (s_off mem + 0) half (s_cap mem) in
  let hi := GSlice (s_arr mem) (s_off mem + half) half (s_cap mem - half) in
  s_len mem = half * queueCount → s_len mem ≤ s_cap mem →
  queue_room m lo cap → queue_room m hi cap →
  peek_u32 m (slice_ptr lo) = Some cap → peek_u32 m (slice_ptr hi) = Some cap →
  mapQueueManager arm path mem (half * queueCount) ty fd m =
    Done (QueueManager path (queue_of arm hi cap) (queue_of arm lo cap) mem ty fd, m).
Proof.
  intros half lo hi Hlen Hcap Rlo Rhi Plo Phi. unfold queueCount in *.
  assert (24 < half).
  { destruct Rlo. unfold half, countQueueMemSize, queueHeaderLength, queueElementLen in *. lia. }
  unfold mapQueueManager. replace ((half * 2) `div` 2) with half by (rewrite Z.div_mul; lia).
  unfold subslice_from. rewrite Hlen. mstep subslice_ok.
  replace (half * 2 - half) with half by lia. fold hi. mstep mappingQueueFromBytes_spec.
  mstep subslice_ok. rewrite !Z.sub_0_r. fold lo. mstep mappingQueueFromBytes_spec. done.
Qed.

Lemma MemfdCreate_ok os name flags m fd m' :
  os_memfd_create os (String.append "shmipc" name) m = Done (inr fd, m') → MemfdCreate os name flags m = Done (inr fd, m').
Proof. intros E. unfold MemfdCreate. by erewrite bind_done by exact E. Qed.

(** [C14] When the client creates a queue manager in a mapping and the server
    maps the same bytes, the two sides are wired crosswise: the client's send
    queue is the server's receive queue and conversely, with the layout of
    the architecture; both queues are empty, not marked working, and lie in
    disjoint bytes. *)
Theorem queue_manager_mirrored arm os fd cap mem pathC pathS m0 m1 m2 m3 :
  0 < cap → countQueueMemSize cap < 2 ^ 32 →
  s_len mem = countQueueMemSize cap * queueCount → s_len mem ≤ s_cap mem →
  (arm = true → (countQueueMemSize cap * queueCount) `mod` 16 = 0) →
  os_memfd_create os (String.append "shmipc" pathC) m0 = Done (inr fd, m1) →
  os_ftruncate os fd (countQueueMemSize cap * queueCount) m1 = Done (None, m2) →
  os_mmap os fd (countQueueMemSize cap * queueCount) m2 = Done (inr mem, m3) →
  in_mem m3 (slice_ptr mem) (s_len mem) →
  ∃ qm m4,
    createQueueManagerWithMemFd os arm pathC cap m0 = Done (inr qm, m4) ∧
    queue_rep m4 (qm_sendQueue qm) 0 (Fifo [] false) ∧
    queue_rep m4 (qm_recvQueue qm) 0 (Fifo [] false) ∧
    (∀ w v, w ∈ queue_footprint (qm_sendQueue qm) → v ∈ queue_footprint (qm_recvQueue qm) →
       disjoint_win w.1 w.2 v.1 v.2) ∧
    ∀ os' fd',
      os_fstat_size os' fd' m4 = Done (inr (countQueueMemSize cap * queueCount), m4) →
      os_mmap os' fd' (countQueueMemSize cap * queueCount) m4 = Done (inr mem, m4) →
      ∃ qm', mappingQueueManagerMemfd os' arm pathS fd' m4 = Done (inr qm', m4) ∧
             qm_sendQueue qm' = qm_recvQueue qm ∧ qm_recvQueue qm' = qm_sendQueue qm.
Proof.
  intros Hcap H32 Hlen Hsc Harm Hfd Htr Hmm Hin.
  destruct (layoutQueueManager_spec arm pathC mem cap MemMapTypeMemFd fd m3) as (m4&S&R1&R2&Q1&Q2&P1&P2);
    [done..|].
  set (lo := GSlice _ _ _ _) in R1. set (hi := GSlice _ _ _ _) in R2. fold lo hi in S, Q1, Q2, P1, P2.
  exists (QueueManager pathC (queue_of arm lo cap) (queue_of arm hi cap) mem MemMapTypeMemFd fd), m4.
  split_and!; [|exact R1|exact R2| |].
  - unfold createQueueManagerWithMemFd. apply (MemfdCreate_ok os pathC 0) in Hfd. mstep Hfd. mstep Htr. mstep Hmm. mstep S. done.
  - cbn [qm_sendQueue qm_recvQueue]. intros w v Hw Hv. eapply queue_of_footprints; [done| |exact Hw|exact Hv].
    unfold disjoint_win. cbn. lia.
  - intros os' fd' Hst Hmm'.
    exists (QueueManager pathS (queue_of arm hi cap) (queue_of arm lo cap) mem MemMapTypeMemFd fd').
    split_and!; [|done..].
    unfold mappingQueueManagerMemfd. mstep Hst.
    replace (arm && negb _) with false.
    2:{ destruct arm; [|done]. rewrite Harm by done. done. }
    cbv iota. mstep Hmm'. rewrite (bind_done _ _ _ _ _ (mapQueueManager_spec arm pathS mem cap MemMapTypeMemFd fd' m4 Hlen Hsc Q1 Q2 P1 P2)).
    done.
Qed.

(** ** Concrete instances *)

Definition demo_mem : gmem := {[ 0%nat := le_bytes 4 2 ++ replicate 44 0 ]}.
Definition demo_queue : queue := queue_of false (GSlice 0 0 48 48) 2.
Definition demo_elem (i : Z) : queueElement := QueueElement i (100 + i) 0.

Lemma demo_queue_rep : queue_rep demo_mem demo_queue 0 (Fifo [] false).
Proof.
  constructor; try reflexivity; try (cbn; lia).
  - by apply queue_of_layout.
  - split_and!; [vm_compute; discriminate..|]. eexists. split; [reflexivity|]. vm_compute. discriminate.
  - intros i e. cbn [f_items]. rewrite lookup_nil. discriminate.
Defined.

(** A full ring, a refused element, then wrap-around. *)
Definition demo_ops : list qop :=
  [OpPut (demo_elem 1); OpMarkWorking; OpPut (demo_elem 2); OpPut (demo_elem 3); OpPop;
   OpPut (demo_elem 4); OpMarkNotWorking; OpPop; OpPop; OpPop; OpMarkNotWorking].

Lemma queue_trace_refines_witness :
  (spec_qops 2 demo_ops (Fifo [] false)).1 =
    [RPut None; RFlag true; RPut None; RPut (Some ErrQueueFull); RPop (inr (demo_elem 1));
     RPut None; RFlag false; RPop (inr (demo_elem 2)); RPop (inr (demo_elem 4));
     RPop (inl errQueueEmpty); RFlag true] ∧
  ∃ m' h', run_qops demo_queue demo_ops demo_mem = Done ((spec_qops 2 demo_ops (Fifo [] false)).1, m') ∧
           queue_rep m' demo_queue h' (spec_qops 2 demo_ops (Fifo [] false)).2 ∧
           changes_only demo_mem m' (queue_footprint demo_queue).
Proof.
  split; [reflexivity|].
  apply (queue_trace_refines demo_ops demo_mem demo_queue 0 (Fifo [] false)).
  - apply demo_queue_rep.
  - unfold demo_ops, demo_elem. repeat constructor; cbn; lia.
  - cbn. lia.
Defined.

(** Both processes see one allocation: an operating system in which every
    call succeeds and [mmap] returns the mapping of 96 bytes. *)
Definition demo_map : gslice := GSlice 0 0 96 96.
Definition demo_os : os_ops := {|
  os_memfd_create := λ _, mret (inr 3);
  os_ftruncate := λ _ _, mret None;
  os_fstat_size := λ _, mret (inr 96);
  os_mmap := λ _ _, mret (inr demo_map);
  os_munmap := λ _, mret None;
  os_close := λ _, mret None;
  os_remove := λ _, mret None;
  os_mkdir_parent := λ _, mret tt;
  os_stat := λ _, mret (Some false);
  os_dev_shm_free := mret (Some 1000);
  os_open := λ _ _, mret (inr 4)
|}.
Definition demo_map_mem : gmem := {[ 0%nat := replicate 96 7 ]}.

Lemma queue_manager_mirrored_witness :
  ∃ qm m4,
    createQueueManagerWithMemFd demo_os true "q" 2 demo_map_mem = Done (inr qm, m4) ∧
    queue_rep m4 (qm_sendQueue qm) 0 (Fifo [] false) ∧
    ∃ qm', mappingQueueManagerMemfd demo_os true "q" 5 m4 = Done (inr qm', m4) ∧
           qm_sendQueue qm' = qm_recvQueue qm ∧ qm_recvQueue qm' = qm_sendQueue qm.
Proof.
  destruct (queue_manager_mirrored true demo_os 3 2 demo_map "q" "q"
              demo_map_mem demo_map_mem demo_map_mem demo_map_mem)
    as (qm&m4&H1&H2&_&_&H5);
    [reflexivity|reflexivity|reflexivity|discriminate|reflexivity|reflexivity|reflexivity|reflexivity| |].
  - split_and!; [vm_compute; discriminate..|]. eexists. split; [reflexivity|]. vm_compute. discriminate.
  - exists qm, m4. split_and!; [exact H1|exact H2|]. apply H5; reflexivity.
Defined.
