(* ===== verification/QueueConc.v ===== *)
(** * The io queue under interleaving ([queue.go], [wakeUpPeer], [handlePolling])

    One direction of a session: any number of producer goroutines that call
    [put] under the queue's mutex and then [wakeUpPeer]; one consumer, the
    peer's event loop, that runs [handlePolling] when a polling event
    arrives.  A step is one atomic load, store, add or compare-and-swap, one
    32-bit word of an element, one mutex operation, or the transmission of an
    event.  Go's atomics and the mutex are sequentially consistent.  Counters
    are natural numbers here: the wrap-around of [int64] is out of reach.

    [handlePolling] has one way out without [markNotWorking]: an element that
    announces an open stream which this process does not have, and whose slice
    cannot be read, ends the handler with the error; [onEventData] then closes
    the session and the loop reads no further event of it.  Whether a stream is
    known and whether its slice can be read is the choice of the step. *)

From Stdlib Require Import Lia Arith.
From stdpp Require Import prelude list functions.
From S2P Require Import Prelude GoMem Queue.

#[local] Open Scope nat_scope.

(** ** States *)

(** Program points of a producer in [put] and [wakeUpPeer]. *)
Inductive ppc :=
| PIdle
| PLocked (e : queueElement)
| PTail (e : queueElement) (t : nat)
| PWriteSeq (e : queueElement) (t : nat)
| PWriteOff (e : queueElement) (t : nat)
| PWriteStatus (e : queueElement) (t : nat)
| PAddTail (e : queueElement) (t : nat)
| PUnlock (ok : bool)
| PMark
| PNotify.

(** Program points of the consumer in [handlePolling]. *)
Inductive cpc :=
| CIdle
| CLoadHead
| CLoadTail (h : nat)
| CReadSeq (h : nat)
| CReadOff (h : nat) (sid : Z)
| CReadStatus (h : nat) (sid off : Z)
| CAddHead (e : queueElement)
| CHandle (e : queueElement)
| CFailed (e : queueElement)
| CStore0
| CSizeTail
| CSizeHead (t : nat)
| CStore1.

#[global] Instance ppc_eq_dec : EqDecision ppc.
Proof. solve_decision. Defined.
#[global] Instance cpc_eq_dec : EqDecision cpc.
Proof. solve_decision. Defined.

(** [g_sent] and [g_rcvd] are history variables: the elements made visible by
    the add on tail, the elements handed to [handleStreamMessage]. *)
Record qconc := QConc {
  g_head : nat;
  g_tail : nat;
  g_slot : nat → queueElement;
  g_flag : bool;
  g_lock : option nat;
  g_prod : nat → ppc;
  g_cons : cpc;
  g_events : nat;
  g_sent : list queueElement;
  g_rcvd : list queueElement
}.

Definition set_prod (s : qconc) (i : nat) (pc : ppc) : qconc :=
  QConc (g_head s) (g_tail s) (g_slot s) (g_flag s) (g_lock s) (<[i := pc]> (g_prod s))
    (g_cons s) (g_events s) (g_sent s) (g_rcvd s).
Definition set_cons (s : qconc) (pc : cpc) : qconc :=
  QConc (g_head s) (g_tail s) (g_slot s) (g_flag s) (g_lock s) (g_prod s)
    pc (g_events s) (g_sent s) (g_rcvd s).
Definition set_lock (s : qconc) (l : option nat) : qconc :=
  QConc (g_head s) (g_tail s) (g_slot s) (g_flag s) l (g_prod s)
    (g_cons s) (g_events s) (g_sent s) (g_rcvd s).
Definition set_flag (s : qconc) (b : bool) : qconc :=
  QConc (g_head s) (g_tail s) (g_slot s) b (g_lock s) (g_prod s)
    (g_cons s) (g_events s) (g_sent s) (g_rcvd s).
Definition set_events (s : qconc) (n : nat) : qconc :=
  QConc (g_head s) (g_tail s) (g_slot s) (g_flag s) (g_lock s) (g_prod s)
    (g_cons s) n (g_sent s) (g_rcvd s).
Definition set_slot (s : qconc) (k : nat) (e : queueElement) : qconc :=
  QConc (g_head s) (g_tail s) (<[k := e]> (g_slot s)) (g_flag s) (g_lock s) (g_prod s)
    (g_cons s) (g_events s) (g_sent s) (g_rcvd s).
(** [atomic.AddInt64(q.tail, 1)] publishes the element. *)
Definition publish (s : qconc) (e : queueElement) : qconc :=
  QConc (g_head s) (S (g_tail s)) (g_slot s) (g_flag s) (g_lock s) (g_prod s)
    (g_cons s) (g_events s) (g_sent s ++ [e]) (g_rcvd s).
(** [atomic.AddInt64(q.head, 1)] consumes it. *)
Definition consume (s : qconc) (e : queueElement) : qconc :=
  QConc (S (g_head s)) (g_tail s) (g_slot s) (g_flag s) (g_lock s) (g_prod s)
    (g_cons s) (g_events s) (g_sent s) (g_rcvd s ++ [e]).

Definition qconc_init (slots : nat → queueElement) : qconc :=
  QConc 0 0 slots false None (λ _, PIdle) CIdle 0 [] [].

(** ** Steps *)

(** A goroutine of the sending process. *)
Inductive prod_step (cap : nat) (s : qconc) : qconc → Prop :=
(* put: q.Lock() *)
| step_lock i e :
    g_prod s i = PIdle → g_lock s = None →
    prod_step cap s (set_prod (set_lock s (Some i)) i (PLocked e))
(* tail := atomic.LoadInt64(q.tail) *)
| step_load_tail i e :
    g_prod s i = PLocked e → prod_step cap s (set_prod s i (PTail e (g_tail s)))
(* if tail-atomic.LoadInt64(q.head) >= q.cap *)
| step_full i e t :
    g_prod s i = PTail e t → cap ≤ t - g_head s →
    prod_step cap s (set_prod s i (PUnlock false))
| step_room i e t :
    g_prod s i = PTail e t → t - g_head s < cap →
    prod_step cap s (set_prod s i (PWriteSeq e t))
(* the three words of the element *)
| step_write_seq i e t :
    g_prod s i = PWriteSeq e t →
    let o := g_slot s (t mod cap) in
    prod_step cap s (set_prod (set_slot s (t mod cap)
      (QueueElement (seqID e) (offsetInShmBuf o) (status o))) i (PWriteOff e t))
| step_write_off i e t :
    g_prod s i = PWriteOff e t →
    let o := g_slot s (t mod cap) in
    prod_step cap s (set_prod (set_slot s (t mod cap)
      (QueueElement (seqID o) (offsetInShmBuf e) (status o))) i (PWriteStatus e t))
| step_write_status i e t :
    g_prod s i = PWriteStatus e t →
    let o := g_slot s (t mod cap) in
    prod_step cap s (set_prod (set_slot s (t mod cap)
      (QueueElement (seqID o) (offsetInShmBuf o) (status e))) i (PAddTail e t))
(* atomic.AddInt64(q.tail, 1) *)
| step_add_tail i e t :
    g_prod s i = PAddTail e t →
    prod_step cap s (set_prod (publish s e) i (PUnlock true))
(* q.Unlock() *)
| step_unlock_full i :
    g_prod s i = PUnlock false → prod_step cap s (set_prod (set_lock s None) i PIdle)
| step_unlock_ok i :
    g_prod s i = PUnlock true → prod_step cap s (set_prod (set_lock s None) i PMark)
(* wakeUpPeer: markWorking() *)
| step_mark_fail i :
    g_prod s i = PMark → g_flag s = true → prod_step cap s (set_prod s i PIdle)
| step_mark_ok i :
    g_prod s i = PMark → g_flag s = false →
    prod_step cap s (set_prod (set_flag s true) i PNotify)
(* the polling event is written to the connection *)
| step_notify i :
    g_prod s i = PNotify → prod_step cap s (set_prod (set_events s (S (g_events s))) i PIdle).

(** The event loop of the receiving process. *)
Inductive cons_step (cap : nat) (s : qconc) : qconc → Prop :=
(* the peer reads a polling event: handlePolling *)
| step_event :
    g_cons s = CIdle → 0 < g_events s →
    cons_step cap s (set_cons (set_events s (pred (g_events s))) CLoadHead)
(* pop: head, tail *)
| step_c_head : g_cons s = CLoadHead → cons_step cap s (set_cons s (CLoadTail (g_head s)))
| step_c_empty h :
    g_cons s = CLoadTail h → g_tail s ≤ h → cons_step cap s (set_cons s CStore0)
| step_c_some h :
    g_cons s = CLoadTail h → h < g_tail s → cons_step cap s (set_cons s (CReadSeq h))
(* the three words of the element *)
| step_c_seq h :
    g_cons s = CReadSeq h →
    cons_step cap s (set_cons s (CReadOff h (seqID (g_slot s (h mod cap)))))
| step_c_off h sid :
    g_cons s = CReadOff h sid →
    cons_step cap s (set_cons s (CReadStatus h sid (offsetInShmBuf (g_slot s (h mod cap)))))
| step_c_status h sid off :
    g_cons s = CReadStatus h sid off →
    cons_step cap s (set_cons s (CAddHead (QueueElement sid off (status (g_slot s (h mod cap))))))
(* atomic.AddInt64(q.head, 1) *)
| step_c_add e :
    g_cons s = CAddHead e → cons_step cap s (set_cons (consume s e) (CHandle e))
(* handleStreamMessage, or the slice of an unknown stream is recycled; next pop *)
| step_c_handled e :
    g_cons s = CHandle e → cons_step cap s (set_cons s CLoadHead)
(* return headerSize, false, err: the slice of an unknown open stream cannot be read *)
| step_c_error e :
    g_cons s = CHandle e → Z.land (status e) 255 = streamOpened →
    cons_step cap s (set_cons s (CFailed e))
(* markNotWorking: store 0, size(), maybe store 1 *)
| step_c_store0 : g_cons s = CStore0 → cons_step cap s (set_cons (set_flag s false) CSizeTail)
| step_c_size_tail : g_cons s = CSizeTail → cons_step cap s (set_cons s (CSizeHead (g_tail s)))
| step_c_done t :
    g_cons s = CSizeHead t → t - g_head s = 0 → cons_step cap s (set_cons s CIdle)
| step_c_again t :
    g_cons s = CSizeHead t → t - g_head s ≠ 0 → cons_step cap s (set_cons s CStore1)
| step_c_store1 : g_cons s = CStore1 → cons_step cap s (set_cons (set_flag s true) CLoadHead).


Definition qstep (cap : nat) (s s' : qconc) : Prop := prod_step cap s s' ∨ cons_step cap s s'.

Definition reachable (cap : nat) (slots : nat → queueElement) (s : qconc) : Prop :=
  rtc (qstep cap) (qconc_init slots) s.

(** ** The invariant *)

Definition holds_lock (pc : ppc) : bool :=
  match pc with PIdle | PMark | PNotify => false | _ => true end.

(** What a producer inside of the critical section knows. *)
Definition pok (cap : nat) (s : qconc) (pc : ppc) : Prop :=
  match pc with
  | PTail _ t => t = g_tail s
  | PWriteSeq _ t => t = g_tail s ∧ g_tail s < g_head s + cap
  | PWriteOff e t => t = g_tail s ∧ g_tail s < g_head s + cap ∧
      seqID (g_slot s (t mod cap)) = seqID e
  | PWriteStatus e t => t = g_tail s ∧ g_tail s < g_head s + cap ∧
      seqID (g_slot s (t mod cap)) = seqID e ∧
      offsetInShmBuf (g_slot s (t mod cap)) = offsetInShmBuf e
  | PAddTail e t => t = g_tail s ∧ g_tail s < g_head s + cap ∧ g_slot s (t mod cap) = e
  | _ => True
  end.

(** What the consumer knows. *)
Definition cok (cap : nat) (s : qconc) (pc : cpc) : Prop :=
  match pc with
  | CLoadTail h => h = g_head s
  | CReadSeq h => h = g_head s ∧ g_head s < g_tail s
  | CReadOff h sid => h = g_head s ∧ g_head s < g_tail s ∧
      sid = seqID (g_slot s (h mod cap))
  | CReadStatus h sid off => h = g_head s ∧ g_head s < g_tail s ∧
      sid = seqID (g_slot s (h mod cap)) ∧ off = offsetInShmBuf (g_slot s (h mod cap))
  | CAddHead e => g_head s < g_tail s ∧ e = g_slot s (g_head s mod cap)
  | CHandle e => list.last (g_rcvd s) = Some e
  | CFailed e => list.last (g_rcvd s) = Some e ∧ Z.land (status e) 255 = streamOpened
  | CSizeHead t => t ≤ g_tail s ∧ g_head s ≤ t
  | _ => True
  end.

(** A notification is on its way. *)
Definition notified (s : qconc) : Prop := 0 < g_events s ∨ ∃ i, g_prod s i = PNotify.
(** A producer has published and will still test the flag. *)
Definition will_mark (s : qconc) : Prop :=
  ∃ i, g_prod s i = PUnlock true ∨ g_prod s i = PMark.

(** The consumer will go idle unless it finds the queue non-empty, or is idle. *)
Definition off_duty (pc : cpc) : bool :=
  match pc with CIdle | CSizeTail | CSizeHead _ => true | _ => false end.
(** The consumer goes idle without looking at the tail again. *)
Definition leaving (s : qconc) : Prop :=
  match g_cons s with CIdle => True | CSizeHead t => t = g_head s | _ => False end.

Record qinv (cap : nat) (s : qconc) : Prop := {
  i_tail : g_tail s = length (g_sent s);
  i_rcvd : g_rcvd s = take (g_head s) (g_sent s);
  i_le : g_head s ≤ g_tail s ≤ g_head s + cap;
  i_slot : ∀ i, g_head s ≤ i < g_tail s → g_sent s !! i = Some (g_slot s (i mod cap));
  i_lock : ∀ i, holds_lock (g_prod s i) = true ↔ g_lock s = Some i;
  i_prod : ∀ i, pok cap s (g_prod s i);
  i_cons : cok cap s (g_cons s);
  i_flag : off_duty (g_cons s) = true → g_flag s = true → notified s;
  i_wake : leaving s → g_head s < g_tail s → g_flag s = false → will_mark s
}.

(** ** Lemmas *)

Lemma ring_distinct cap a b : a < b < a + cap → a mod cap ≠ b mod cap.
Proof.
  intros Hab E. assert (a / cap ≤ b / cap) as Hd by (apply Nat.Div0.div_le_mono; lia).
  pose proof (Nat.div_mod_eq a cap) as Ha. pose proof (Nat.div_mod_eq b cap) as Hb.
  rewrite E in Ha. revert Hd Ha Hb. generalize (a / cap), (b / cap), (b mod cap). clear E.
  intros qa qb r Hd Ha Hb. assert (qa = qb ∨ S qa ≤ qb) as [->|Hq] by lia; [lia|].
  apply (Nat.mul_le_mono_l _ _ cap) in Hq. lia.
Qed.

Lemma pok_free cap s pc : holds_lock pc = false → pok cap s pc.
Proof. by destruct pc. Qed.

Lemma qinv_init cap slots : qinv cap (qconc_init slots).
Proof. constructor; cbn; try done; lia || done. Qed.

Section preservation.
Context (cap : nat) (s : qconc) (Hinv : qinv cap s).

Lemma lock_update i pc :
  holds_lock pc = holds_lock (g_prod s i) →
  ∀ j, holds_lock (<[i:=pc]> (g_prod s) j) = true ↔ g_lock s = Some j.
Proof.
  intros E j. destruct (decide (i = j)) as [->|].
  - rewrite fn_lookup_insert, E. apply Hinv.
  - rewrite fn_lookup_insert_ne by done. apply Hinv.
Qed.

Lemma others_free i j : holds_lock (g_prod s i) = true → i ≠ j → holds_lock (g_prod s j) = false.
Proof.
  intros Hi Hne. apply not_true_iff_false. intros Hj.
  apply (i_lock _ _ Hinv) in Hi, Hj. congruence.
Qed.

Lemma prod_update i pc s' :
  g_head s' = g_head s → g_tail s' = g_tail s → g_slot s' = g_slot s →
  pok cap s pc → ∀ j, pok cap s' (<[i:=pc]> (g_prod s) j).
Proof.
  intros E1 E2 E3 Hpc j.
  assert (∀ pc, pok cap s pc → pok cap s' pc) as Hmono
    by (intros []; cbn; by rewrite ?E1, ?E2, ?E3).
  apply Hmono. destruct (decide (i = j)) as [->|].
  - by rewrite fn_lookup_insert.
  - rewrite fn_lookup_insert_ne by done. apply Hinv.
Qed.

(** The lock holder may change what it owns: the others know nothing of it. *)
Lemma prod_update_owner i pc s' :
  holds_lock (g_prod s i) = true → pok cap s' pc →
  ∀ j, pok cap s' (<[i:=pc]> (g_prod s) j).
Proof.
  intros Hi Hpc j. destruct (decide (i = j)) as [->|].
  - by rewrite fn_lookup_insert.
  - rewrite fn_lookup_insert_ne by done. by apply pok_free, (others_free i).
Qed.

Lemma notified_update i pc s' :
  g_prod s i ≠ PNotify → g_events s' = g_events s → g_prod s' = <[i:=pc]> (g_prod s) →
  notified s → notified s'.
Proof.
  intros Hi He Hp [?|[j Hj]]; [left; lia|]. right. exists j. rewrite Hp.
  rewrite fn_lookup_insert_ne; [done|]. by intros ->.
Qed.

Lemma will_mark_update i pc s' :
  g_prod s i ≠ PUnlock true → g_prod s i ≠ PMark → g_prod s' = <[i:=pc]> (g_prod s) →
  will_mark s → will_mark s'.
Proof.
  intros ?? Hp [j Hj]. exists j. rewrite Hp, fn_lookup_insert_ne; [done|].
  intros ->. by destruct Hj.
Qed.

Lemma will_mark_now i pc s' :
  pc = PUnlock true ∨ pc = PMark → g_prod s' = <[i:=pc]> (g_prod s) → will_mark s'.
Proof. intros ? Hp. exists i. by rewrite Hp, fn_lookup_insert. Qed.

(** A producer step inside of the critical section that keeps counters,
    flag, lock and slots. *)
Lemma inv_producer_local i pc :
  holds_lock pc = holds_lock (g_prod s i) → pok cap s pc →
  g_prod s i ≠ PNotify → g_prod s i ≠ PUnlock true → g_prod s i ≠ PMark →
  qinv cap (set_prod s i pc).
Proof.
  intros Hl Hp ???. pose proof Hinv as []. constructor; cbn; try done.
  - by apply lock_update.
  - by apply prod_update.
  - intros. eapply notified_update; [done..|]. by apply i_flag0.
  - intros. eapply will_mark_update; [done..|]. by apply i_wake0.
Qed.

(** A word of the slot at [tail] is written: no visible slot changes. *)
Lemma inv_producer_write i pc e' :
  holds_lock (g_prod s i) = true → holds_lock pc = true →
  g_prod s i ≠ PUnlock true → g_tail s < g_head s + cap →
  pok cap (set_slot s (g_tail s mod cap) e') pc →
  qinv cap (set_prod (set_slot s (g_tail s mod cap) e') i pc).
Proof.
  intros Hl Hl' Hu Hroom Hp. pose proof Hinv as [].
  assert (∀ k, g_head s ≤ k < g_tail s →
    <[g_tail s mod cap := e']> (g_slot s) (k mod cap) = g_slot s (k mod cap)) as Hother.
  { intros k Hk. apply fn_lookup_insert_ne. apply not_eq_sym, ring_distinct. lia. }
  constructor; cbn; try done.
  - intros k Hk. rewrite Hother by done. by apply i_slot0.
  - apply lock_update. by rewrite Hl, Hl'.
  - by apply prod_update_owner.
  - destruct (g_cons s); cbn in *; try done; rewrite ?Hother by lia; try done.
    all: destruct i_cons0 as (->&?&?); rewrite Hother by lia; done.
  - intros. eapply notified_update; [|done..|by apply i_flag0]. intros E. by rewrite E in Hl.
  - intros. eapply will_mark_update; [done| |done|by apply i_wake0]. intros E. by rewrite E in Hl.
Qed.

Lemma inv_unlock i ok pc :
  g_prod s i = PUnlock ok → holds_lock pc = false → pc = PIdle ∨ pc = PMark →
  (ok = true → pc = PMark) → qinv cap (set_prod (set_lock s None) i pc).
Proof.
  intros Hpc Hl Hcase Hok. pose proof Hinv as [].
  assert (g_lock s = Some i) as Hli by (apply i_lock0; by rewrite Hpc).
  constructor; cbn; try done.
  - intros j. destruct (decide (i = j)) as [->|Hne].
    + rewrite fn_lookup_insert, Hl. done.
    + rewrite fn_lookup_insert_ne by done. rewrite i_lock0, Hli. split; [congruence|done].
  - apply prod_update; [done..|]. by apply pok_free.
  - intros. eapply notified_update; [by rewrite Hpc|done..|by apply i_flag0].
  - intros. destruct ok.
    + eapply (will_mark_now i pc); [right; by apply Hok|done].
    + eapply will_mark_update; [by rewrite Hpc..|done|by apply i_wake0].
Qed.
End preservation.

Lemma inv_add_tail cap s i e t :
  qinv cap s → g_prod s i = PAddTail e t → qinv cap (set_prod (publish s e) i (PUnlock true)).
Proof.
  intros Hinv Hpc. pose proof Hinv as [].
  pose proof (i_prod0 i) as Hpok. rewrite Hpc in Hpok. cbn in Hpok.
  destruct Hpok as (->&?&Hslot). constructor; cbn; try done.
  - rewrite i_tail0. len.
  - rewrite take_app_le by lia. done.
  - lia.
  - intros k Hk. destruct (decide (k = g_tail s)) as [->|].
    + rewrite Hslot, i_tail0. by rewrite lookup_app_r, Nat.sub_diag by lia.
    + rewrite lookup_app_l by lia. apply i_slot0. lia.
  - apply (lock_update cap s Hinv); by rewrite Hpc.
  - apply (prod_update_owner cap s Hinv); [by rewrite Hpc|done].
  - destruct (g_cons s); cbn in *; intuition lia.
  - intros. eapply notified_update; [by rewrite Hpc|done..|by apply i_flag0].
  - intros. eapply (will_mark_now s i (PUnlock true)); [by left|done].
Qed.

Lemma prod_step_inv cap s s' : qinv cap s → prod_step cap s s' → qinv cap s'.
Proof.
  intros Hinv Hs. pose proof Hinv as [].
  destruct Hs as
    [i e Hpc Hfree|i e Hpc|i e t Hpc Hfull|i e t Hpc Hroom|i e t Hpc o|i e t Hpc o|i e t Hpc o
    |i e t Hpc|i Hpc|i Hpc|i Hpc Hf|i Hpc Hf|i Hpc];
  pose proof (i_prod0 i) as Hpok; rewrite Hpc in Hpok; cbn in Hpok.
  - constructor; cbn; try done.
    + intros j. destruct (decide (i = j)) as [->|Hne]; [by rewrite fn_lookup_insert|].
      rewrite fn_lookup_insert_ne by done. rewrite i_lock0, Hfree. split; [done|congruence].
    + by apply prod_update.
    + intros. eapply notified_update; [by rewrite Hpc|done..|by apply i_flag0].
    + intros. eapply will_mark_update; [by rewrite Hpc..|done|by apply i_wake0].
  - apply inv_producer_local; rewrite ?Hpc; done.
  - apply inv_producer_local; rewrite ?Hpc; done.
  - apply inv_producer_local; rewrite ?Hpc; try done. cbn. lia.
  - destruct Hpok as (->&?). apply inv_producer_write; rewrite ?Hpc; try done.
    cbn. by rewrite fn_lookup_insert.
  - destruct Hpok as (->&?&E1). apply inv_producer_write; rewrite ?Hpc; try done.
    cbn. by rewrite fn_lookup_insert.
  - destruct Hpok as (->&?&E1&E2). apply inv_producer_write; rewrite ?Hpc; try done.
    cbn. rewrite fn_lookup_insert. unfold o. rewrite E1, E2. by destruct e.
  - by eapply inv_add_tail.
  - eapply inv_unlock; [done|exact Hpc|done|by left|done].
  - eapply inv_unlock; [done|exact Hpc|done|by right|done].
  - constructor; cbn; try done.
    + apply (lock_update cap s Hinv); by rewrite Hpc.
    + by apply prod_update.
    + intros. eapply notified_update; [by rewrite Hpc|done..|by apply i_flag0].
    + congruence.
  - constructor; cbn; try done.
    + apply (lock_update cap s Hinv); by rewrite Hpc.
    + by apply prod_update.
    + intros. right. exists i. cbn. by rewrite fn_lookup_insert.
  - constructor; cbn; try done.
    + apply (lock_update cap s Hinv); by rewrite Hpc.
    + by apply prod_update.
    + intros. left. cbn. lia.
    + intros. eapply will_mark_update; [by rewrite Hpc..|done|by apply i_wake0].
Qed.

Lemma cons_step_inv cap s s' : qinv cap s → cons_step cap s s' → qinv cap s'.
Proof.
  intros Hinv Hs. pose proof Hinv as [].
  destruct Hs as
    [Hpc Hev|Hpc|h Hpc He|h Hpc He|h Hpc|h sid Hpc|h sid off Hpc|e Hpc
    |e Hpc|e Hpc Hst|Hpc|Hpc|t Hpc Ht|t Hpc Ht|Hpc].
  - constructor; rewrite ?Hpc in *; cbn in *; try done.
  - constructor; rewrite ?Hpc in *; cbn; try done. 
  - constructor; rewrite ?Hpc in *; cbn; try done.
  - constructor; rewrite ?Hpc in *; cbn in *; try done. by subst.
  - constructor; rewrite ?Hpc in *; cbn in *; try done. by destruct i_cons0 as [-> ?].
  - constructor; rewrite ?Hpc in *; cbn in *; try done. by destruct i_cons0 as (->&?&->).
  - constructor; rewrite ?Hpc in *; cbn in *; try done. destruct i_cons0 as (->&?&->&->).
    split; [done|]. by destruct (g_slot s _).
  - rewrite Hpc in i_cons0. destruct i_cons0 as [Hlt He].
    constructor; cbn; try done.
    + rewrite i_rcvd0. symmetry. apply (take_S_r _ (g_head s)). rewrite He. apply i_slot0. lia.
    + lia.
    + intros k Hk. apply i_slot0. lia.
    + intros j. specialize (i_prod0 j). destruct (g_prod s j); cbn in *; intuition lia.
    + by rewrite last_snoc.
  - constructor; rewrite ?Hpc in *; cbn in *; try done.
  - constructor; rewrite ?Hpc in *; cbn in *; try done.
  - constructor; rewrite ?Hpc in *; cbn in *; try done.
  - constructor; rewrite ?Hpc in *; cbn in *; try done; lia.
  - constructor; rewrite ?Hpc in *; cbn in *; try done.
    intros _ ? ?. apply i_wake0; try done. unfold leaving. rewrite Hpc. lia.
  - constructor; rewrite ?Hpc in *; cbn in *; try done.
  - constructor; rewrite ?Hpc in *; cbn in *; try done.
Qed.

Lemma qstep_inv cap s s' : qinv cap s → qstep cap s s' → qinv cap s'.
Proof. intros ? [?|?]; [by eapply prod_step_inv | by eapply cons_step_inv]. Qed.

Lemma rtc_qstep_inv cap s s' : qinv cap s → rtc (qstep cap) s s' → qinv cap s'.
Proof. intros H Hr. induction Hr; [done|]. apply IHHr. by eapply qstep_inv. Qed.

Lemma reachable_inv cap slots s : reachable cap slots s → qinv cap s.
Proof. apply rtc_qstep_inv, qinv_init. Qed.

(** ** Draining *)

(** A step of the system in which no producer starts a new [put]. *)
Definition settling (cap : nat) (s s' : qconc) : Prop :=
  qstep cap s s' ∧ ∀ i, g_prod s i = PIdle → g_prod s' i = PIdle.

(** Steps that are left to a producer, and what it may still add to the work of the
    consumer: an element costs 21, an event 12. *)
Definition prank (pc : ppc) : nat :=
  match pc with
  | PIdle => 0 | PUnlock false => 1 | PNotify => 13 | PMark => 14 | PUnlock true => 15
  | PAddTail _ _ => 37 | PWriteStatus _ _ => 38 | PWriteOff _ _ => 39 | PWriteSeq _ _ => 40
  | PTail _ _ => 41 | PLocked _ => 42
  end.

(** Steps of the consumer until it is idle, the elements in the queue not counted. *)
Definition crank (s : qconc) : nat :=
  let waiting := negb (g_tail s =? g_head s) in
  match g_cons s with
  | CIdle | CFailed _ => 0
  | CSizeHead t => if t =? g_head s then 1 else 14
  | CSizeTail => if waiting then 15 else 2
  | CStore0 => if waiting then 16 else 3
  | CStore1 => 13 | CHandle _ => 12 | CLoadHead => 11 | CLoadTail _ => 10
  | CReadSeq _ => 9 | CReadOff _ _ => 8 | CReadStatus _ _ _ => 7 | CAddHead _ => 6
  end.

Fixpoint psum (n : nat) (f : nat → ppc) : nat :=
  match n with O => 0 | S n => prank (f n) + psum n f end.

(** The work that is left, of the producers below [n] and of the consumer. *)
Definition work (n : nat) (s : qconc) : nat :=
  8 * (g_tail s - g_head s) + 12 * g_events s + crank s + psum n (g_prod s).

(** All producers from [n] on are idle. *)
Definition active_below (n : nat) (s : qconc) : Prop := ∀ i, n ≤ i → g_prod s i = PIdle.

Lemma psum_ext n f g : (∀ i, i < n → f i = g i) → psum n f = psum n g.
Proof. induction n as [|n IH]; intros H; cbn; [done|]. rewrite H, IH by auto with lia. done. Qed.

Lemma psum_update n f i pc : i < n → psum n (<[i:=pc]> f) + prank (f i) = psum n f + prank pc.
Proof.
  induction n as [|n IH]; intros Hi; [lia|]. cbn. destruct (decide (i = n)) as [->|Hne].
  - rewrite fn_lookup_insert, (psum_ext n (<[n:=pc]> f) f); [lia|].
    intros j Hj. apply fn_lookup_insert_ne. lia.
  - rewrite fn_lookup_insert_ne by done. specialize (IH ltac:(lia)). lia.
Qed.

Section drain.
Context (cap : nat).

Lemma active_below_reachable slots s : reachable cap slots s → ∃ n, active_below n s.
Proof.
  intros Hr. refine (rtc_ind_r (λ s, ∃ n, active_below n s) _ _ _ _ Hr); [by exists 0|].
  intros s1 s2 _ [Hs|Hs] [n Hn].
  - assert (∃ i pc, g_prod s2 = <[i:=pc]> (g_prod s1)) as (i&pc&E)
      by (destruct Hs; do 2 eexists; reflexivity).
    exists (n `max` S i). intros j Hj. rewrite E, fn_lookup_insert_ne by lia. apply Hn. lia.
  - exists n. intros j Hj. rewrite <- (Hn j Hj). by destruct Hs.
Qed.

Lemma settling_active n s s' : active_below n s → settling cap s s' → active_below n s'.
Proof. intros Hn [_ Hs] i Hi. by apply Hs, Hn. Qed.

Lemma work_local n s i pc :
  i < n → prank pc < prank (g_prod s i) → work n (set_prod s i pc) < work n s.
Proof. intros Hi Hr. pose proof (psum_update n (g_prod s) i pc Hi). unfold work, crank in *. cbn. lia. Qed.

Lemma prod_work n s s' :
  qinv cap s → active_below n s → prod_step cap s s' →
  (∀ i, g_prod s i = PIdle → g_prod s' i = PIdle) → work n s' < work n s.
Proof.
  intros Hinv Hn Hs Hold.
  assert (∀ i, g_prod s i ≠ PIdle → i < n) as Hlt
    by (intros i Hi; destruct (decide (i < n)); [done|]; destruct Hi; apply Hn; lia).
  destruct Hs as
    [i e Hpc Hfree|i e Hpc|i e t Hpc Hfull|i e t Hpc Hroom|i e t Hpc o|i e t Hpc o|i e t Hpc o
    |i e t Hpc|i Hpc|i Hpc|i Hpc Hf|i Hpc Hf|i Hpc].
  { specialize (Hold i Hpc). cbn in Hold. by rewrite fn_lookup_insert in Hold. }
  all: specialize (Hlt i ltac:(by rewrite Hpc)).
  all: lazymatch goal with |- work ?m (set_prod _ ?j ?pc) < work _ ?s => pose proof (psum_update m (g_prod s) j pc Hlt) as Hsum end.
  all: rewrite Hpc in Hsum; unfold work, crank in *; cbn -[Nat.eqb Nat.mul] in *; try lia.
  pose proof (i_le _ _ Hinv). destruct (g_cons s); repeat case_match; cbn -[Nat.eqb Nat.mul] in *; try lia.
Qed.

Lemma cons_work n s s' : qinv cap s → cons_step cap s s' → work n s' < work n s.
Proof.
  intros Hinv Hs. pose proof (i_cons _ _ Hinv) as Hc. pose proof (i_le _ _ Hinv) as Hle.
  destruct Hs; unfold work, crank; rewrite H in Hc |- *; cbn -[Nat.eqb Nat.mul] in *;
    repeat case_match; rewrite ?negb_true_iff, ?negb_false_iff, ?Nat.eqb_eq, ?Nat.eqb_neq in *; lia.
Qed.

Lemma settling_work n s s' :
  qinv cap s → active_below n s → settling cap s s' → work n s' < work n s.
Proof. intros ?? [[?|?] ?]; [by eapply prod_work | by eapply cons_work]. Qed.

Lemma settling_bounded n k s s' :
  qinv cap s → active_below n s → nsteps (settling cap) k s s' → k + work n s' ≤ work n s.
Proof.
  intros Hinv Hn Hs. induction Hs as [|k s1 s2 s3 Hs _ IH]; [lia|].
  pose proof (settling_work n _ _ Hinv Hn Hs).
  assert (qinv cap s2) as Hinv2 by (destruct Hs; by eapply qstep_inv).
  specialize (IH Hinv2 (settling_active n _ _ Hn Hs)). lia.
Qed.

Lemma settling_rtc s s' : rtc (settling cap) s s' → rtc (qstep cap) s s'.
Proof. apply rtc_subrel. by intros ?? []. Qed.

(** What was published stays published. *)
Lemma sent_prefix s s' : rtc (qstep cap) s s' → g_sent s `prefix_of` g_sent s'.
Proof.
  induction 1 as [|s1 s2 s3 Hs _ IH]; [done|]. etrans; [|exact IH].
  destruct Hs as [[]|[]]; cbn; try done. by apply prefix_app_r.
Qed.

(** A producer in the middle of [put] or [wakeUpPeer] can go on. *)
Lemma producer_moves s i : g_prod s i ≠ PIdle → red (settling cap) s.
Proof.
  intros Hi. assert (∃ s', prod_step cap s s' ∧ ∃ pc, g_prod s' = <[i:=pc]> (g_prod s)) as (s'&Hs&pc&E).
  { destruct (g_prod s i) as [|e|e t|e t|e t|e t|e t|[]| |] eqn:Hpc; [done|..].
    2: destruct (decide (cap ≤ t - g_head s)).
    10: destruct (g_flag s) eqn:Hf.
    all: eexists; split; [first
      [ by eapply step_load_tail | by eapply step_full | eapply step_room; [done|lia]
      | by eapply step_write_seq | by eapply step_write_off | by eapply step_write_status
      | by eapply step_add_tail | by eapply step_unlock_ok | by eapply step_unlock_full
      | by eapply step_mark_fail | by eapply step_mark_ok | by eapply step_notify ]|by eexists]. }
  exists s'. split; [by left|]. intros j Hj. rewrite E, fn_lookup_insert_ne; [done|]. by intros ->.
Qed.

(** So can a consumer in [handlePolling]. *)
Lemma consumer_moves s :
  g_cons s ≠ CIdle → (∀ e, g_cons s ≠ CFailed e) → red (settling cap) s.
Proof.
  intros Hi Hf. assert (∃ s', cons_step cap s s' ∧ g_prod s' = g_prod s) as (s'&Hs&E).
  { destruct (g_cons s) as [| |h|h|h sid|h sid off|e|e|e| | |t|] eqn:Hpc; try done.
    2: destruct (decide (g_tail s ≤ h)).
    12: destruct (decide (t - g_head s = 0)).
    all: try by destruct (Hf e).
    all: eexists; split; [first
      [ by eapply step_c_head | by eapply step_c_empty | eapply step_c_some; [done|lia]
      | by eapply step_c_seq | by eapply step_c_off | by eapply step_c_status | by eapply step_c_add
      | by eapply step_c_handled | by eapply step_c_store0 | by eapply step_c_size_tail
      | by eapply step_c_done | by eapply step_c_again | by eapply step_c_store1 ]|done]. }
  exists s'. split; [by right|]. by rewrite E.
Qed.

Lemma event_moves s : g_cons s = CIdle → 0 < g_events s → red (settling cap) s.
Proof. intros. eexists. split; [right; by apply step_event|done]. Qed.

End drain.

(** The handler left with an error: the last element it took announces an open stream. *)
Definition gave_up (s : qconc) : Prop :=
  ∃ e, g_cons s = CFailed e ∧ list.last (g_rcvd s) = Some e ∧ Z.land (status e) 255 = streamOpened.

(** An idle consumer with elements to read has been or will be notified. *)
Lemma idle_notified cap s :
  qinv cap s → g_cons s = CIdle → g_head s < g_tail s →
  0 < g_events s ∨ ∃ i, g_prod s i = PUnlock true ∨ g_prod s i = PMark ∨ g_prod s i = PNotify.
Proof.
  intros [] Hpc Hlt. destruct (g_flag s) eqn:Hf.
  - destruct i_flag0 as [?|[i ?]]; [by rewrite Hpc|done|by left|right; eauto].
  - destruct i_wake0 as [i [?|?]]; [unfold leaving; by rewrite Hpc|done..|right; eauto|right; eauto].
Qed.

Lemma failed_gave_up cap s e : qinv cap s → g_cons s = CFailed e → gave_up s.
Proof. intros [] Hpc. rewrite Hpc in i_cons0. destruct i_cons0. by exists e. Qed.

(** When nothing can go on, everything was delivered. *)
Lemma settled_drained cap s :
  qinv cap s → nf (settling cap) s →
  (∀ i, g_prod s i = PIdle) ∧ (gave_up s ∨ g_cons s = CIdle ∧ g_events s = 0 ∧ g_rcvd s = g_sent s).
Proof.
  intros Hinv Hnf.
  assert (∀ i, g_prod s i = PIdle) as Hidle.
  { intros i. destruct (decide (g_prod s i = PIdle)); [done|]. by destruct Hnf; eapply producer_moves. }
  split; [done|]. destruct (g_cons s) eqn:Hpc;
    try by destruct Hnf; apply consumer_moves; rewrite Hpc.
  - right. assert (g_events s = 0) as He.
    { destruct (g_events s) eqn:He; [done|]. destruct Hnf. apply event_moves; [done|lia]. }
    split_and!; [done..|]. destruct (decide (g_head s < g_tail s)) as [Hlt|Hge].
    + destruct (idle_notified cap s) as [?|(i&Hi)]; [done..|lia|].
      rewrite Hidle in Hi. naive_solver.
    + destruct Hinv. rewrite i_rcvd0, take_ge; [done|lia].
  - left. by eapply failed_gave_up.
Qed.

(** ** Properties *)

(** [C5] Under every interleaving of producers and consumer, what the
    consumer hands on is a prefix of what was published, in order and
    without a torn, lost or duplicated element; the backlog never exceeds
    the capacity; and no visible slot is overwritten before it is read. *)
Theorem queue_spsc_safe cap slots s :
  reachable cap slots s →
  g_rcvd s = take (length (g_rcvd s)) (g_sent s) ∧
  length (g_rcvd s) = g_head s ∧ length (g_sent s) = g_tail s ∧
  g_head s ≤ g_tail s ≤ g_head s + cap ∧
  ∀ i, g_head s ≤ i < g_tail s → g_sent s !! i = Some (g_slot s (i mod cap)).
Proof.
  intros [] %reachable_inv.
  assert (length (g_rcvd s) = g_head s) as E by (rewrite i_rcvd0; len).
  rewrite E. split_and!; try done; lia.
Qed.

(** [C6] No wake-up is lost: whenever an element is visible, the consumer is
    in its loop, or a polling event is in flight, or a producer that published
    is still on its way to test the working flag or to send the event; the one
    exception is a handler that returned the error of an element, on which the
    session is closed. *)
Theorem queue_no_lost_wakeup cap slots s :
  reachable cap slots s → g_head s < g_tail s →
  (g_cons s ≠ CIdle ∧ ∀ e, g_cons s ≠ CFailed e) ∨ 0 < g_events s ∨
  (∃ i, g_prod s i = PUnlock true ∨ g_prod s i = PMark ∨ g_prod s i = PNotify) ∨
  gave_up s.
Proof.
  intros Hinv%reachable_inv Hlt.
  destruct (decide (g_cons s = CIdle)) as [Hpc|].
  - destruct (idle_notified cap s Hinv Hpc Hlt); auto.
  - destruct (g_cons s) eqn:Hpc; try by left. do 3 right. by eapply failed_gave_up.
Qed.

(** [C7] The queue drains: from every reachable state the steps of the system, in
    any order, come to an end as long as no new [put] starts; and where they end
    every producer is out of [put] and [wakeUpPeer], no event is pending, and the
    consumer is idle and was given everything published, unless the handler
    returned the error of the last element it took. *)
Theorem queue_drains cap slots s :
  reachable cap slots s →
  (∃ n, ∀ k s', nsteps (settling cap) k s s' → k ≤ n) ∧
  ∀ s', rtc (settling cap) s s' → nf (settling cap) s' →
    g_sent s `prefix_of` g_sent s' ∧ (∀ i, g_prod s' i = PIdle) ∧
    (gave_up s' ∨ g_cons s' = CIdle ∧ g_events s' = 0 ∧ g_rcvd s' = g_sent s').
Proof.
  intros Hr. pose proof (reachable_inv _ _ _ Hr) as Hinv.
  destruct (active_below_reachable cap slots s Hr) as [n Hn]. split.
  - exists (work n s). intros k s' Hs. pose proof (settling_bounded cap n k s s' Hinv Hn Hs). lia.
  - intros s' Hs%settling_rtc Hnf. split; [by eapply sent_prefix|].
    apply (settled_drained cap); [by eapply rtc_qstep_inv|done].
Qed.

(** ** Concrete instances *)

Definition demo_slots : nat → queueElement := λ _, QueueElement 0 0 0.

(** Producer 7 has published one element and has not unlocked yet. *)
Definition demo_published : qconc :=
  let e := demo_elem 5 in
  let s0 := qconc_init demo_slots in
  let s1 := set_prod (set_lock s0 (Some 7)) 7 (PLocked e) in
  let s2 := set_prod s1 7 (PTail e 0) in
  let s3 := set_prod s2 7 (PWriteSeq e 0) in
  let s4 := set_prod (set_slot s3 0 (QueueElement 5 0 0)) 7 (PWriteOff e 0) in
  let s5 := set_prod (set_slot s4 0 (QueueElement 5 105 0)) 7 (PWriteStatus e 0) in
  let s6 := set_prod (set_slot s5 0 (QueueElement 5 105 0)) 7 (PAddTail e 0) in
  set_prod (publish s6 e) 7 (PUnlock true).

Lemma demo_published_reachable : reachable 2 demo_slots demo_published.
Proof.
  unfold reachable, demo_published. cbv zeta.
  eapply rtc_l; [left; by apply (step_lock _ _ 7 (demo_elem 5))|].
  eapply rtc_l; [left; by eapply (step_load_tail _ _ 7)|].
  eapply rtc_l; [left; eapply (step_room _ _ 7); [reflexivity|cbn; lia]|].
  eapply rtc_l; [left; by eapply (step_write_seq _ _ 7)|].
  eapply rtc_l; [left; by eapply (step_write_off _ _ 7)|].
  eapply rtc_l; [left; by eapply (step_write_status _ _ 7)|].
  eapply rtc_l; [left; by eapply (step_add_tail _ _ 7)|].
  apply rtc_refl.
Defined.

Lemma queue_spsc_safe_witness :
  reachable 2 demo_slots demo_published ∧
  g_rcvd demo_published = take (length (g_rcvd demo_published)) (g_sent demo_published) ∧
  g_sent demo_published = [demo_elem 5] ∧
  g_head demo_published ≤ g_tail demo_published ≤ g_head demo_published + 2.
Proof.
  pose proof demo_published_reachable as H. split; [exact H|].
  destruct (queue_spsc_safe 2 demo_slots demo_published H) as (H1&_&_&H4&_).
  split; [exact H1|]. split; [reflexivity|exact H4].
Defined.

Lemma queue_no_lost_wakeup_witness :
  g_head demo_published < g_tail demo_published ∧
  ((g_cons demo_published ≠ CIdle ∧ ∀ e, g_cons demo_published ≠ CFailed e) ∨
   0 < g_events demo_published ∨
   (∃ i, g_prod demo_published i = PUnlock true ∨ g_prod demo_published i = PMark ∨
        g_prod demo_published i = PNotify) ∨ gave_up demo_published).
Proof.
  assert (g_head demo_published < g_tail demo_published) as Hlt by (cbn; lia).
  split; [exact Hlt|].
  exact (queue_no_lost_wakeup 2 demo_slots demo_published demo_published_reachable Hlt).
Defined.

(** The element of [demo_published] is not lost: the runs from there end. *)
Lemma queue_drains_witness :
  reachable 2 demo_slots demo_published ∧
  (∃ n, ∀ k s', nsteps (settling 2) k demo_published s' → k ≤ n) ∧
  ∀ s', rtc (settling 2) demo_published s' → nf (settling 2) s' →
    [demo_elem 5] `prefix_of` g_sent s' ∧ (∀ i, g_prod s' i = PIdle) ∧
    (gave_up s' ∨ g_cons s' = CIdle ∧ g_events s' = 0 ∧ g_rcvd s' = g_sent s').
Proof.
  split; [exact demo_published_reachable|].
  exact (queue_drains 2 demo_slots demo_published demo_published_reachable).
Defined.
