(* ===== verification/BufferSlice.v ===== *)
(** * Buffer slices and slice lists ([buffer_slice.go])

    A [bufferSlice] is a Go object over a window of bytes, in shared memory
    (with a 20-byte header in front) or in process memory.  Objects live in a
    store and are referred to by pointers, because the slice lists link them
    through their [nextSlice] field and several parts of the program hold
    pointers to one object.  Objects are recycled through [bufferSlicePool]. *)

From Stdlib Require Import ZArith Lia.
From stdpp Require Import prelude list gmap strings.
From S2P Require Import Prelude GoMem.

(** ** Data *)

Definition bufferHeaderSize : Z := 20.
Definition bufferCapOffset : Z := 0.
Definition bufferSizeOffset : Z := 4.
Definition bufferDataStartOffset : Z := 8.
Definition nextBufferOffset : Z := 12.
Definition bufferFlagOffset : Z := 16.
Definition hasNextBufferFlag : Z := 1.
Definition sliceInUsedFlag : Z := 2.

Record bufferSlice := BufferSlice {
  bs_header : option gslice;
  bs_data : gslice;
  bs_cap : Z;
  bs_start : Z;
  bs_offsetInShm : Z;
  bs_readIndex : Z;
  bs_writeIndex : Z;
  bs_isFromShm : bool;
  bs_next : option nat
}.

Record sliceList := SliceList {
  sl_front : option nat;
  sl_write : option nat;
  sl_back : option nat;
  sl_len : Z
}.

(** The store: bytes, objects, and the pool of recycled objects. *)
Record heap := Heap {
  h_mem : gmem;
  h_slices : gmap nat bufferSlice;
  h_pool : list nat
}.

Definition nil_slice : gslice := GSlice 0 0 0 0.
Definition zero_bufferSlice : bufferSlice := BufferSlice None nil_slice 0 0 0 0 0 false None.
Definition newSliceList : sliceList := SliceList None None None 0.

Definition set_mem (m : gmem) (h : heap) : heap := Heap m (h_slices h) (h_pool h).
Definition on_mem {A} (c : M gmem A) : M heap A := zoom h_mem set_mem c.

(** Dereference of a [*bufferSlice]; a nil or dangling pointer faults. *)
Definition get_slice (p : nat) : M heap bufferSlice := λ h,
  match h_slices h !! p with Some b => Done (b, h) | None => Panic end.
Definition set_slice (p : nat) (b : bufferSlice) : M heap unit :=
  modify_state (λ h, Heap (h_mem h) (<[p := b]> (h_slices h)) (h_pool h)).
Definition deref (p : option nat) : M heap nat := of_option p.

Definition with_indices (b : bufferSlice) (r w : Z) : bufferSlice :=
  BufferSlice (bs_header b) (bs_data b) (bs_cap b) (bs_start b) (bs_offsetInShm b)
    r w (bs_isFromShm b) (bs_next b).
Definition with_next (b : bufferSlice) (n : option nat) : bufferSlice :=
  BufferSlice (bs_header b) (bs_data b) (bs_cap b) (bs_start b) (bs_offsetInShm b)
    (bs_readIndex b) (bs_writeIndex b) (bs_isFromShm b) n.

(** ** The header in shared memory *)

Definition header_nextBufferOffset (hd : gslice) : M gmem Z :=
  p ← index_ptr hd nextBufferOffset; load_u32 p.

Definition header_hasNext (hd : gslice) : M gmem bool :=
  p ← index_ptr hd bufferFlagOffset;
  b ← load_u8 p;
  mret (Z.land b hasNextBufferFlag >? 0).

Definition header_clearFlag (hd : gslice) : M gmem unit :=
  p ← index_ptr hd bufferFlagOffset; store_u8 p 0.

Definition header_setInUsed (hd : gslice) : M gmem unit :=
  p ← index_ptr hd bufferFlagOffset;
  b ← load_u8 p;
  store_u8 p (Z.lor b sliceInUsedFlag).

Definition header_isInUsed (hd : gslice) : M gmem bool :=
  p ← index_ptr hd bufferFlagOffset;
  b ← load_u8 p;
  mret (Z.land b sliceInUsedFlag >? 0).

Definition header_linkNext (hd : gslice) (next : Z) : M gmem unit :=
  p ← index_ptr hd nextBufferOffset;
  _ ← store_u32 p next;
  q ← index_ptr hd bufferFlagOffset;
  b ← load_u8 q;
  store_u8 q (Z.lor b hasNextBufferFlag).

(** The header of a slice as a Go slice: indexing a nil header panics. *)
Definition header_of (b : bufferSlice) : gslice := default nil_slice (bs_header b).

(** ** Objects *)

(** [bufferSlicePool.Get()]: a recycled object if there is one, else a new one. *)
Definition pool_get : M heap nat := λ h,
  match h_pool h with
  | p :: ps => Done (p, Heap (h_mem h) (h_slices h) ps)
  | [] => let p := fresh_key (h_slices h) in
          Done (p, Heap (h_mem h) (<[p := zero_bufferSlice]> (h_slices h)) [])
  end.

Definition newBufferSlice (header : option gslice) (data : gslice) (offsetInShm : Z)
    (isFromShm : bool) : M heap nat :=
  p ← pool_get;
  s ← get_slice p;
  s' ← match header with
       | Some hd =>
           if isFromShm then
             q0 ← index_ptr hd bufferCapOffset;
             cap ← on_mem (load_u32 q0);
             q1 ← index_ptr hd bufferDataStartOffset;
             start ← on_mem (load_u32 q1);
             q2 ← index_ptr hd bufferSizeOffset;
             size ← on_mem (load_u32 q2);
             mret (BufferSlice (bs_header s) (bs_data s) cap start (bs_offsetInShm s)
                     start (u32 (start + size)) (bs_isFromShm s) (bs_next s))
           else mret (BufferSlice (bs_header s) (bs_data s) (u32 (s_cap data)) (bs_start s)
                        (bs_offsetInShm s) (bs_readIndex s) (bs_writeIndex s)
                        (bs_isFromShm s) (bs_next s))
       | None => mret (BufferSlice (bs_header s) (bs_data s) (u32 (s_cap data)) (bs_start s)
                        (bs_offsetInShm s) (bs_readIndex s) (bs_writeIndex s)
                        (bs_isFromShm s) (bs_next s))
       end;
  _ ← set_slice p (BufferSlice header data (bs_cap s') (bs_start s') offsetInShm
                     (bs_readIndex s') (bs_writeIndex s') isFromShm (bs_next s'));
  mret p.

Definition putBackBufferSlice (p : nat) : M heap unit :=
  _ ← get_slice p;
  _ ← set_slice p zero_bufferSlice;
  modify_state (λ h, Heap (h_mem h) (h_slices h) (p :: h_pool h)).

Definition slice_size (b : bufferSlice) : Z := bs_writeIndex b - bs_readIndex b.
Definition slice_remain (b : bufferSlice) : Z := bs_cap b - bs_writeIndex b.
Definition slice_capacity (b : bufferSlice) : Z := bs_cap b.

Definition slice_update (p : nat) : M heap unit :=
  s ← get_slice p;
  match bs_header s with
  | None => mret tt
  | Some hd =>
      q1 ← index_ptr hd bufferSizeOffset;
      _ ← on_mem (store_u32 q1 (u32 (slice_size s)));
      q2 ← index_ptr hd bufferDataStartOffset;
      _ ← on_mem (store_u32 q2 (bs_start s));
      match bs_next s with
      | None => mret tt
      | Some n => ns ← get_slice n; on_mem (header_linkNext hd (bs_offsetInShm ns))
      end
  end.

Definition slice_reset (p : nat) : M heap unit :=
  s ← get_slice p;
  _ ← match bs_header s with
      | None => mret tt
      | Some hd =>
          q1 ← index_ptr hd bufferSizeOffset;
          _ ← on_mem (store_u32 q1 0);
          q2 ← index_ptr hd bufferDataStartOffset;
          _ ← on_mem (store_u32 q2 0);
          on_mem (header_clearFlag hd)
      end;
  set_slice p (with_next (with_indices s 0 0) None).

Definition slice_reserve (p : nat) (size : Z) : M heap (error + gslice) :=
  s ← get_slice p;
  let start := bs_writeIndex s in
  let remain := slice_remain s in
  if remain >=? size then
    let w := bs_writeIndex s + size in
    _ ← set_slice p (with_indices s (bs_readIndex s) w);
    d ← subslice (bs_data s) start w;
    mret (inr d)
  else mret (inl ErrNoMoreBuffer).

(** The argument is the value of the caller's bytes. *)
Definition slice_append (p : nat) (data : list Z) : M heap Z :=
  if Z.of_nat (length data) =? 0 then mret 0
  else
    s ← get_slice p;
    dst ← subslice_from (bs_data s) (bs_writeIndex s);
    let copySize := Z.min (s_len dst) (Z.of_nat (length data)) in
    _ ← (if copySize =? 0 then mret tt
         else on_mem (store_bytes (slice_ptr dst) (take (Z.to_nat copySize) data)));
    _ ← set_slice p (with_indices s (bs_readIndex s) (bs_writeIndex s + copySize));
    mret copySize.

Definition slice_read (p : nat) (size : Z) : M heap (gslice * option error) :=
  s ← get_slice p;
  let unRead := slice_size s in
  let size' := if unRead <? size then unRead else size in
  let err := if unRead <? size then Some ErrNotEnoughData else None in
  d ← subslice (bs_data s) (bs_readIndex s) (bs_readIndex s + size');
  _ ← set_slice p (with_indices s (bs_readIndex s + size') (bs_writeIndex s));
  mret (d, err).

Definition slice_peek (p : nat) (size : Z) : M heap (gslice * option error) :=
  s ← get_slice p;
  let origin := bs_readIndex s in
  r ← slice_read p size;
  s ← get_slice p;
  _ ← set_slice p (with_indices s origin (bs_writeIndex s));
  mret r.

Definition slice_skip (p : nat) (size : Z) : M heap Z :=
  s ← get_slice p;
  let unRead := slice_size s in
  if unRead >? size then
    _ ← set_slice p (with_indices s (bs_readIndex s + size) (bs_writeIndex s));
    mret size
  else
    _ ← set_slice p (with_indices s (bs_readIndex s + unRead) (bs_writeIndex s));
    mret unRead.

Definition slice_next (p : nat) : M heap (option nat) :=
  s ← get_slice p; mret (bs_next s).

(** ** Slice lists *)

Definition sl_pushBack (l : sliceList) (s : option nat) : M heap sliceList :=
  match s with
  | None => mret l
  | Some p =>
      front ← (if sl_len l >? 0 then
                 b ← deref (sl_back l);
                 bs ← get_slice b;
                 _ ← set_slice b (with_next bs (Some p));
                 mret (sl_front l)
               else mret (Some p));
      mret (SliceList front (sl_write l) (Some p) (sl_len l + 1))
  end.

Definition sl_popFront (l : sliceList) : M heap (option nat * sliceList) :=
  let r := sl_front l in
  l1 ← (if sl_len l >? 0 then
          f ← deref (sl_front l);
          fs ← get_slice f;
          mret (SliceList (bs_next fs) (sl_write l) (sl_back l) (sl_len l - 1))
        else mret l);
  let l2 := if sl_len l1 =? 0 then SliceList None (sl_write l1) None (sl_len l1) else l1 in
  mret (r, l2).

(** [for s := head; s != nil; s = s.nextSlice { n++ }] *)
Fixpoint count_chain (fuel : nat) (s : option nat) : M heap Z :=
  match s with
  | None => mret 0
  | Some p =>
      match fuel with
      | O => out_of_fuel
      | S fuel => b ← get_slice p; n ← count_chain fuel (bs_next b); mret (n + 1)
      end
  end.

Definition sl_splitFromWrite (l : sliceList) : M heap (option nat * sliceList) :=
  w ← deref (sl_write l);
  ws ← get_slice w;
  let nextListHead := bs_next ws in
  _ ← set_slice w (with_next ws None);
  h ← get_state;
  nextListSize ← count_chain (size (h_slices h)) nextListHead;
  mret (nextListHead, SliceList (sl_front l) (sl_write l) (sl_write l) (sl_len l - nextListSize)).

(** ** Well-formed slices and their content *)

Record slice_wf (m : gmem) (b : bufferSlice) : Prop := {
  sw_idx : 0 ≤ bs_readIndex b ≤ bs_writeIndex b;
  sw_cap : bs_writeIndex b ≤ bs_cap b;
  sw_len : s_len (bs_data b) = bs_cap b;
  sw_scap : s_len (bs_data b) ≤ s_cap (bs_data b);
  sw_mem : in_mem m (slice_ptr (bs_data b)) (s_len (bs_data b))
}.

(** The unread bytes. *)
Definition slice_content (m : gmem) (b : bufferSlice) : option (list Z) :=
  peek m (padd (slice_ptr (bs_data b)) (bs_readIndex b)) (slice_size b).

Definition upd_slice (h : heap) (p : nat) (b : bufferSlice) : heap :=
  Heap (h_mem h) (<[p := b]> (h_slices h)) (h_pool h).

Lemma get_slice_ok h p b : h_slices h !! p = Some b → get_slice p h = Done (b, h).
Proof. intros H. unfold get_slice. by rewrite H. Qed.
#[export] Hint Resolve get_slice_ok : shm.

Lemma set_slice_ok h p b : set_slice p b h = Done (tt, upd_slice h p b).
Proof. done. Qed.

Lemma on_mem_ok {A} (c : M gmem A) h a m :
  c (h_mem h) = Done (a, m) → on_mem c h = Done (a, set_mem m h).
Proof. apply zoom_done. Qed.

Lemma slice_wf_content m b :
  slice_wf m b → ∃ l, slice_content m b = Some l ∧ Z.of_nat (length l) = slice_size b.
Proof.
  intros []. apply in_mem_peek. eapply in_mem_sub; [done|lia|unfold slice_size; lia|].
  unfold slice_size. lia.
Qed.

Lemma slice_wf_frame m m' ws b :
  slice_wf m b → changes_only m m' ws → slice_wf m' b.
Proof. intros [] Hc. constructor; try done. by apply Hc. Qed.

Lemma slice_content_frame m m' ws b :
  slice_wf m b → changes_only m m' ws →
  Forall (λ w, disjoint_win w.1 w.2 (slice_ptr (bs_data b)) (s_len (bs_data b))) ws →
  slice_content m' b = slice_content m b.
Proof.
  intros [] [Hc _] Hd. unfold slice_content. apply Hc.
  eapply Forall_disjoint_sub; [exact Hd|lia|]. unfold slice_size. lia.
Qed.

Lemma with_indices_id b : with_indices b (bs_readIndex b) (bs_writeIndex b) = b.
Proof. by destruct b. Qed.

Lemma upd_slice_id h p b : h_slices h !! p = Some b → upd_slice (set_mem (h_mem h) h) p b = h.
Proof. intros H. destruct h. unfold upd_slice, set_mem. cbn in *. by rewrite insert_id. Qed.

(** [append] copies as much of the data as fits: it returns
    [min(remain, len)], the unread content grows by exactly that prefix, and
    only the free part of the slice's own window is written. *)
Lemma slice_append_spec h p b data l :
  h_slices h !! p = Some b → slice_wf (h_mem h) b → slice_content (h_mem h) b = Some l →
  let n := Z.min (slice_remain b) (Z.of_nat (length data)) in
  let b' := with_indices b (bs_readIndex b) (bs_writeIndex b + n) in
  ∃ m', slice_append p data h = Done (n, upd_slice (set_mem m' h) p b') ∧
        slice_wf m' b' ∧
        slice_content m' b' = Some (l ++ take (Z.to_nat n) data) ∧
        changes_only (h_mem h) m' [(padd (slice_ptr (bs_data b)) (bs_writeIndex b), n)].
Proof.
  intros Hp Hwf Hl n b'. pose proof Hwf as []. unfold slice_remain in *.
  destruct (decide (n = 0)) as [Hn|Hn].
  { exists (h_mem h). unfold b'. rewrite Hn, Z.add_0_r, with_indices_id, take_0, app_nil_r.
    rewrite upd_slice_id by done. split_and!; [|done|done|apply changes_only_refl].
    unfold slice_append. destruct (_ =? 0) eqn:E; [done|]. breflect.
    mauto. unfold subslice_from. mstep subslice_ok. cbn [s_len].
    replace (Z.min _ _) with 0 by lia. cbn [Z.eqb]. rewrite bind_mret.
    rewrite Z.add_0_r, with_indices_id. erewrite bind_done by apply set_slice_ok. cbv beta.
    rewrite <- (upd_slice_id h p b Hp) at 2. by destruct h. }
  assert (Z.of_nat (length (take (Z.to_nat n) data)) = n) as Hlen by len.
  set (q := padd (slice_ptr (bs_data b)) (bs_writeIndex b)).
  destruct (poke_ok (h_mem h) q (take (Z.to_nat n) data)) as [m' Hm'].
  { rewrite Hlen. eapply in_mem_sub; [exact sw_mem0|lia..]. }
  pose proof (poke_changes _ _ _ _ Hm') as Hc. rewrite Hlen in Hc.
  pose proof (peek_poke_same _ _ _ _ Hm') as Hr. rewrite Hlen in Hr.
  exists m'. split_and!; [| | |done].
  - unfold slice_append. bdecide. mauto. unfold subslice_from. mstep subslice_ok. cbn [s_len s_arr s_off].
    rewrite sw_len0. fold n. bdecide.
    erewrite (bind_done (on_mem _)); [|apply on_mem_ok; unfold store_bytes; change (slice_ptr (GSlice _ _ _ _)) with q; by rewrite Hm'].
    done.
  - unfold b', with_indices. constructor; cbn; try done; try lia. by apply Hc.
  - unfold slice_content, slice_size, b', with_indices in *. cbn.
    replace (bs_writeIndex b + n - bs_readIndex b) with (bs_writeIndex b - bs_readIndex b + n) by lia.
    apply peek_app.
    + rewrite <- Hl. apply Hc. apply Forall_singleton. unfold disjoint_win. cbn. right. lia.
    + rewrite <- Hr. f_equal. unfold q, padd. cbn. f_equal. lia.
Qed.

(** [read] returns a view of the first unread bytes, with [ErrNotEnoughData]
    and what there is when there are fewer; memory is not written. *)
Lemma slice_read_spec h p b l size :
  h_slices h !! p = Some b → slice_wf (h_mem h) b → slice_content (h_mem h) b = Some l →
  0 ≤ size →
  let k := Z.min size (slice_size b) in
  let b' := with_indices b (bs_readIndex b + k) (bs_writeIndex b) in
  ∃ d, slice_read p size h =
         Done ((d, if slice_size b <? size then Some ErrNotEnoughData else None), upd_slice h p b') ∧
       s_len d = k ∧ s_arr d = s_arr (bs_data b) ∧
       slice_bytes (h_mem h) d = Some (take (Z.to_nat k) l) ∧
       slice_wf (h_mem h) b' ∧
       slice_content (h_mem h) b' = Some (drop (Z.to_nat k) l).
Proof.
  intros Hp Hwf Hl Hsz k b'. pose proof Hwf as []. unfold slice_size in *.
  assert ((if bs_writeIndex b - bs_readIndex b <? size then bs_writeIndex b - bs_readIndex b else size) = k)
    as Ek by (destruct (_ <? _) eqn:E; breflect; lia).
  eexists. split_and!.
  - unfold slice_read. mauto. unfold slice_size. rewrite Ek. mstep subslice_ok. done.
  - cbn. lia.
  - done.
  - unfold slice_bytes, slice_ptr. cbn [s_arr s_off s_len].
    replace (bs_readIndex b + k - bs_readIndex b) with k by lia.
    eapply peek_take; [exact Hl|unfold slice_size; lia].
  - unfold b', with_indices. constructor; cbn; try done; lia.
  - unfold slice_content, slice_size, b', with_indices. cbn.
    replace (bs_writeIndex b - (bs_readIndex b + k)) with (bs_writeIndex b - bs_readIndex b - k) by lia.
    rewrite <- padd_padd. eapply peek_drop; [exact Hl|unfold slice_size; lia].
Qed.

Lemma slice_peek_spec h p b l size :
  h_slices h !! p = Some b → slice_wf (h_mem h) b → slice_content (h_mem h) b = Some l →
  0 ≤ size →
  let k := Z.min size (slice_size b) in
  ∃ d, slice_peek p size h =
         Done ((d, if slice_size b <? size then Some ErrNotEnoughData else None), h) ∧
       s_len d = k ∧ s_arr d = s_arr (bs_data b) ∧ slice_bytes (h_mem h) d = Some (take (Z.to_nat k) l).
Proof.
  intros Hp Hwf Hl Hsz k.
  destruct (slice_read_spec h p b l size) as (d&R&Hd&Ha&Hb&_); [done..|].
  exists d. split_and!; [|done..]. unfold slice_peek. mauto. mstep R.
  erewrite bind_done by (apply get_slice_ok; cbn; apply lookup_insert_eq). cbv beta.
  erewrite bind_done by apply set_slice_ok. cbv beta.
  unfold mret, M_ret, upd_slice. cbn. rewrite insert_insert_eq.
  unfold with_indices. cbn. rewrite insert_id; [by destruct h|]. by destruct b.
Qed.

Lemma slice_skip_spec h p b l size :
  h_slices h !! p = Some b → slice_wf (h_mem h) b → slice_content (h_mem h) b = Some l →
  0 ≤ size →
  let k := Z.min size (slice_size b) in
  let b' := with_indices b (bs_readIndex b + k) (bs_writeIndex b) in
  slice_skip p size h = Done (k, upd_slice h p b') ∧
  slice_wf (h_mem h) b' ∧ slice_content (h_mem h) b' = Some (drop (Z.to_nat k) l).
Proof.
  intros Hp Hwf Hl Hsz k b'.
  destruct (slice_read_spec h p b l size) as (d&_&_&_&_&?&?); [done..|].
  split_and!; [|done..]. unfold slice_skip. mauto.
  destruct (slice_size b >? size) eqn:E; breflect; unfold b';
    [replace k with size by lia|replace k with (slice_size b) by lia]; done.
Qed.

(** [reserve] hands out a window of the free part, or [ErrNoMoreBuffer]. *)
Lemma slice_reserve_spec h p b size :
  h_slices h !! p = Some b → slice_wf (h_mem h) b → 0 ≤ size →
  let b' := with_indices b (bs_readIndex b) (bs_writeIndex b + size) in
  (size ≤ slice_remain b →
   ∃ d, slice_reserve p size h = Done (inr d, upd_slice h p b') ∧
        slice_ptr d = padd (slice_ptr (bs_data b)) (bs_writeIndex b) ∧ s_len d = size ∧
        slice_wf (h_mem h) b') ∧
  (slice_remain b < size → slice_reserve p size h = Done (inl ErrNoMoreBuffer, h)).
Proof.
  intros Hp Hwf Hsz b'. pose proof Hwf as []. unfold slice_remain in *.
  split; intros Hc; unfold slice_reserve, slice_remain.
  - eexists. split_and!.
    + mauto. bdecide. erewrite bind_done by apply set_slice_ok. cbv beta. mstep subslice_ok. done.
    + done.
    + cbn. lia.
    + unfold b', with_indices. constructor; cbn; try done; lia.
  - mauto. bdecide. done.
Qed.

(** ** Slice lists represent lists of pointers *)

(** The objects [ps] are linked in order; the last one points to [e]. *)
Definition links (T : gmap nat bufferSlice) (ps : list nat) (e : option nat) : Prop :=
  ∀ i p, ps !! i = Some p →
    ∃ b, T !! p = Some b ∧ bs_next b = match ps !! (i + 1)%nat with Some q => Some q | None => e end.

Record slist_rep (T : gmap nat bufferSlice) (l : sliceList) (ps : list nat) (e : option nat) : Prop := {
  sr_len : sl_len l = Z.of_nat (length ps);
  sr_front : sl_front l = head ps;
  sr_back : sl_back l = last ps;
  sr_links : links T ps e;
  sr_nodup : NoDup ps
}.

Lemma links_lookup T ps e p : links T ps e → p ∈ ps → is_Some (T !! p).
Proof. intros H [i Hi]%list_elem_of_lookup. destruct (H i p Hi) as (b&?&_). eauto. Qed.

(** Only the [nextSlice] fields matter. *)
Lemma links_mono T T' ps e :
  links T ps e →
  (∀ p b, p ∈ ps → T !! p = Some b → ∃ b', T' !! p = Some b' ∧ bs_next b' = bs_next b) →
  links T' ps e.
Proof.
  intros H Hm i p Hi. destruct (H i p Hi) as (b&Hb&En).
  destruct (Hm p b) as (b'&Hb'&En'); [by eapply list_elem_of_lookup_2|done|].
  exists b'. by rewrite En'.
Qed.

Lemma links_insert_ne T ps e p b : p ∉ ps → links T ps e → links (<[p:=b]> T) ps e.
Proof.
  intros Hp H. eapply links_mono; [exact H|]. intros q bq Hq Hbq. exists bq.
  rewrite lookup_insert_ne; [done|]. by intros ->.
Qed.

Lemma links_insert_same T ps e p b b' :
  T !! p = Some b → bs_next b' = bs_next b → links T ps e → links (<[p:=b']> T) ps e.
Proof.
  intros Hb En H. eapply links_mono; [exact H|]. intros q bq Hq Hbq.
  destruct (decide (p = q)) as [->|].
  - exists b'. rewrite lookup_insert_eq. split; [done|congruence].
  - exists bq. by rewrite lookup_insert_ne.
Qed.

Lemma links_tail T p ps e : links T (p :: ps) e → links T ps e.
Proof. intros H i q Hi. exact (H (S i) q Hi). Qed.

Lemma links_head T p ps e :
  links T (p :: ps) e → ∃ b, T !! p = Some b ∧ bs_next b = match head ps with Some q => Some q | None => e end.
Proof. intros H. destruct (H 0%nat p eq_refl) as (b&?&?). exists b. by destruct ps. Qed.

Lemma links_snoc T ps p q b bq :
  NoDup (ps ++ [p; q]) → T !! p = Some b → T !! q = Some bq →
  (∃ e, links T (ps ++ [p]) e) →
  links (<[p := with_next b (Some q)]> T) (ps ++ [p; q]) (bs_next bq).
Proof.
  intros Hnd Hb Hq [e H] i r Hi.
  assert (p ≠ q) as Hpq. { apply NoDup_app in Hnd as (_&_&Hnd). inversion_clear Hnd. set_solver. }
  assert ((p ∉ ps) ∧ (q ∉ ps)) as [Hp Hqn] by (apply NoDup_app in Hnd as (_&Hd&_); set_solver).
  destruct (decide (i < length ps)%nat) as [Hlt|Hge].
  - rewrite lookup_app_l in Hi by done.
    assert (r ≠ p) by (intros ->; by apply Hp; eapply list_elem_of_lookup_2).
    destruct (H i r) as (br&?&En); [by rewrite lookup_app_l|].
    exists br. rewrite lookup_insert_ne by done. split; [done|]. rewrite En.
    destruct (decide (i + 1 < length ps)%nat).
    + rewrite !lookup_app_l by lia.
      destruct (lookup_lt_is_Some_2 ps (i + 1)%nat) as [x ->]; [lia|done].
    + rewrite !lookup_app_r by lia. by replace (i + 1 - length ps)%nat with 0%nat by lia.
  - rewrite lookup_app_r in Hi by lia. rewrite (lookup_app_r ps) by lia.
    replace (i + 1 - length ps)%nat with (S (i - length ps)) by lia.
    destruct (i - length ps)%nat as [|[|]] eqn:E; cbn in Hi; simplify_eq; cbn.
    + eexists. by rewrite lookup_insert_eq.
    + exists bq. by rewrite lookup_insert_ne.
Qed.

Lemma slist_rep_empty T e : slist_rep T newSliceList [] e.
Proof. constructor; try done. constructor. Qed.

(** The store after [pushBack]: the last object is linked to the new one. *)
Definition link_last (T : gmap nat bufferSlice) (ps : list nat) (p : nat) : gmap nat bufferSlice :=
  match last ps with
  | None => T
  | Some q => match T !! q with Some b => <[q := with_next b (Some p)]> T | None => T end
  end.

Lemma sl_pushBack_spec h l ps e p b :
  slist_rep (h_slices h) l ps e → p ∉ ps → h_slices h !! p = Some b →
  sl_pushBack l (Some p) h =
    Done (SliceList (head (ps ++ [p])) (sl_write l) (Some p) (sl_len l + 1),
          Heap (h_mem h) (link_last (h_slices h) ps p) (h_pool h)) ∧
  slist_rep (link_last (h_slices h) ps p)
    (SliceList (head (ps ++ [p])) (sl_write l) (Some p) (sl_len l + 1)) (ps ++ [p]) (bs_next b).
Proof.
  intros [] Hp Hb. unfold link_last, sl_pushBack.
  destruct ps as [|q ps' _] using rev_ind.
  - cbn in *. bdecide. split; [by destruct h|].
    constructor; cbn; try done; try lia.
    + intros [|i] r Hi; cbn in Hi; simplify_eq. exists b. done.
    + apply NoDup_singleton.
  - destruct (links_lookup _ _ _ q sr_links0) as [bq Hbq]; [set_solver|].
    rewrite last_snoc. rewrite Hbq. rewrite last_snoc in sr_back0.
    split.
    + rewrite length_app in sr_len0. cbn in sr_len0. bdecide. rewrite sr_back0. cbn [deref of_option].
      rewrite bind_assoc, bind_mret, bind_assoc. mauto. rewrite bind_assoc.
      erewrite bind_done by apply set_slice_ok. cbv beta. rewrite bind_mret, sr_front0.
      unfold mret, M_ret, upd_slice. do 2 f_equal. destruct ps'; done.
    + constructor; cbn; try done.
      * len.
      * by rewrite last_snoc.
      * rewrite <- app_assoc. eapply links_snoc; [| |done|eauto]; [|done].
        change [q; p] with ([q] ++ [p]). rewrite app_assoc. apply NoDup_app. split_and!; [done|set_solver|apply NoDup_singleton].
      * apply NoDup_app. split_and!; [done|set_solver|apply NoDup_singleton].
Qed.

Lemma slist_rep_cons_pop T l p ps e :
  slist_rep T l (p :: ps) e →
  ∃ b, T !! p = Some b ∧
    slist_rep T (SliceList (head ps) (sl_write l) (last ps) (sl_len l - 1)) ps e ∧
    (ps ≠ [] → bs_next b = head ps ∧ sl_back l = last ps).
Proof.
  intros []. destruct (links_head _ _ _ _ sr_links0) as (b&Hb&En).
  exists b. split_and!; [done| |].
  - constructor; cbn; try done; [len|by eapply links_tail|by inversion_clear sr_nodup0].
  - intros Hne. destruct ps as [|q ps]; [done|]. split; [done|].
    rewrite sr_back0. by destruct ps.
Qed.

(** [popFront] removes the first pointer, and returns nil on an empty list. *)
Lemma sl_popFront_spec h l ps e :
  slist_rep (h_slices h) l ps e →
  ∃ l', sl_popFront l h = Done ((head ps, l'), h) ∧ sl_write l' = sl_write l ∧
        slist_rep (h_slices h) l' (tail ps) e.
Proof.
  intros Hr. pose proof Hr as []. unfold sl_popFront. destruct ps as [|p ps].
  - cbn in *. exists l. bdecide. rewrite bind_mret. rewrite sr_len0. cbn.
    rewrite sr_front0. split_and!; [|done|done].
    destruct l. cbn in *. by simplify_eq.
  - destruct (slist_rep_cons_pop _ _ _ _ _ Hr) as (b&Hb&Hr'&Hn).
    cbn [length] in *. bdecide. rewrite sr_front0. cbn [deref of_option head].
    rewrite bind_assoc, bind_mret, bind_assoc. mauto. rewrite bind_mret. cbn [sl_len tail].
    destruct ps as [|q ps].
    + replace (sl_len l - 1) with 0 by (cbn in *; lia). cbn. eexists. split_and!; [done|done|].
      eapply (slist_rep_cons_pop _ _ _ _ _) in Hr as (?&_&?&_).
      by replace (sl_len l - 1) with 0 in * by (cbn in *; lia).
    + destruct Hn as [-> ->]; [done|]. cbn [length] in *. bdecide.
      eexists. split_and!; [done|done|exact Hr'].
Qed.

(** The loop that counts a chain ends: an acyclic chain is shorter than the store. *)
Lemma count_chain_spec h ps : ∀ fuel,
  links (h_slices h) ps None → (length ps ≤ fuel)%nat →
  count_chain fuel (head ps) h = Done (Z.of_nat (length ps), h).
Proof.
  induction ps as [|p ps IH]; intros [|fuel] Hl Hf; cbn [length head] in *; try done; [lia|].
  destruct (links_head _ _ _ _ Hl) as (b&Hb&En). cbn [count_chain]. mauto. rewrite En.
  replace (match head ps with Some q => Some q | None => None end) with (head ps) by by destruct ps.
  erewrite bind_done by (apply IH; [by eapply links_tail|lia]). cbv beta.
  unfold mret, M_ret. do 2 f_equal. lia.
Qed.

Lemma links_length_le T ps e : links T ps e → NoDup ps → (length ps ≤ size T)%nat.
Proof.
  intros Hl Hnd. rewrite <- size_dom, <- (size_list_to_set (C := gset nat)) by done.
  apply subseteq_size. intros p Hp%elem_of_list_to_set. apply elem_of_dom.
  by eapply links_lookup.
Qed.

Lemma links_app_r T ps qs e : links T (ps ++ qs) e → links T qs e.
Proof. induction ps as [|p ps IH]; [done|]. cbn. intros H%links_tail. auto. Qed.

Lemma links_cut T ps w bw qs e :
  links T (ps ++ w :: qs) e → NoDup (ps ++ w :: qs) → T !! w = Some bw →
  links (<[w := with_next bw None]> T) (ps ++ [w]) None ∧
  links (<[w := with_next bw None]> T) qs e.
Proof.
  intros Hl Hnd Hw. apply NoDup_app in Hnd as (_&Hd&Hnd).
  assert (w ∉ ps) by set_solver. apply NoDup_cons in Hnd as [Hwq _]. split.
  - intros i r Hi. destruct (decide (i < length ps)%nat).
    + rewrite lookup_app_l in Hi by done.
      assert (r ≠ w) by (intros ->; by eapply list_elem_of_lookup_2 in Hi).
      destruct (Hl i r) as (b&Hb&En); [by rewrite lookup_app_l|].
      exists b. rewrite lookup_insert_ne by done. split; [done|]. rewrite En.
      destruct (decide (i + 1 < length ps)%nat).
      * rewrite !lookup_app_l by lia.
        destruct (lookup_lt_is_Some_2 ps (i + 1)%nat) as [x ->]; [lia|done].
      * rewrite !lookup_app_r by lia. by replace (i + 1 - length ps)%nat with 0%nat by lia.
    + apply lookup_lt_Some in Hi as Hlt. rewrite lookup_app_r in Hi by lia.
      rewrite (lookup_ge_None_2 _ (i + 1)) by len.
      replace (i - length ps)%nat with 0%nat in Hi by len. cbn in Hi. simplify_eq.
      eexists. by rewrite lookup_insert_eq.
  - apply links_insert_ne; [done|]. by eapply (links_tail _ w), links_app_r.
Qed.

Lemma slist_rep_cut T l ps w bw qs :
  slist_rep T l (ps ++ w :: qs) None → T !! w = Some bw → sl_write l = Some w →
  slist_rep (<[w := with_next bw None]> T)
    (SliceList (sl_front l) (sl_write l) (sl_write l) (sl_len l - Z.of_nat (length qs))) (ps ++ [w]) None.
Proof.
  intros [] Hw Hwr. destruct (links_cut _ _ _ _ _ _ sr_links0 sr_nodup0 Hw) as [Hl _].
  constructor; cbn; try done.
  - len.
  - rewrite sr_front0. by destruct ps.
  - by rewrite last_snoc.
  - change (w :: qs) with ([w] ++ qs) in sr_nodup0. rewrite app_assoc in sr_nodup0.
    by apply NoDup_app in sr_nodup0 as [? _].
Qed.

(** [splitFromWrite] cuts the list behind the write slice. *)
Lemma sl_splitFromWrite_spec h l ps w qs :
  slist_rep (h_slices h) l (ps ++ w :: qs) None → sl_write l = Some w →
  ∃ bw, h_slices h !! w = Some bw ∧
    let h' := upd_slice h w (with_next bw None) in
    let l' := SliceList (sl_front l) (sl_write l) (sl_write l) (sl_len l - Z.of_nat (length qs)) in
    sl_splitFromWrite l h = Done ((head qs, l'), h') ∧
    slist_rep (h_slices h') l' (ps ++ [w]) None ∧ links (h_slices h') qs None.
Proof.
  intros Hr Hw. pose proof Hr as [].
  destruct (links_lookup _ _ _ w sr_links0) as [bw Hbw]; [set_solver|]. exists bw. split; [done|].
  destruct (links_cut _ _ _ _ _ _ sr_links0 sr_nodup0 Hbw) as [_ Hqs]. cbn zeta.
  split_and!; [|by apply slist_rep_cut|exact Hqs].
  unfold sl_splitFromWrite. rewrite Hw. cbn [deref of_option]. rewrite bind_mret. mauto.
  erewrite bind_done by apply set_slice_ok. cbv beta.
  erewrite bind_done by done. cbv beta.
  destruct (links_head _ _ _ _ (links_app_r _ _ _ _ sr_links0)) as (bw'&Hbw'&En). simplify_eq.
  rewrite En. replace (match head qs with Some q => Some q | None => None end) with (head qs) by by destruct qs.
  erewrite bind_done; [done|]. apply count_chain_spec; [exact Hqs|].
  eapply links_length_le; [exact Hqs|].
  apply NoDup_app in sr_nodup0 as (_&_&Hnd). by inversion_clear Hnd.
Qed.

(** ** A slice is a bounded byte FIFO *)

Inductive slice_op := SAppend (data : list Z) | SRead (n : Z) | SPeek (n : Z) | SSkip (n : Z).
Inductive slice_res := RCount (n : Z) | RBytes (bs : option (list Z)) (err : option error).

Definition run_slice_op (p : nat) (o : slice_op) : M heap slice_res :=
  match o with
  | SAppend data => n ← slice_append p data; mret (RCount n)
  | SRead n => r ← slice_read p n; h ← get_state; mret (RBytes (slice_bytes (h_mem h) r.1) r.2)
  | SPeek n => r ← slice_peek p n; h ← get_state; mret (RBytes (slice_bytes (h_mem h) r.1) r.2)
  | SSkip n => k ← slice_skip p n; mret (RCount k)
  end.

Fixpoint run_slice_ops (p : nat) (os : list slice_op) : M heap (list slice_res) :=
  match os with
  | [] => mret []
  | o :: os => r ← run_slice_op p o; rs ← run_slice_ops p os; mret (r :: rs)
  end.

(** The specification: the room that is left and the unread bytes. *)
Definition byte_fifo_op (o : slice_op) (room : Z) (c : list Z) : slice_res * (Z * list Z) :=
  let short n := if Z.of_nat (length c) <? n then Some ErrNotEnoughData else None in
  match o with
  | SAppend data =>
      let k := Z.min room (Z.of_nat (length data)) in
      (RCount k, (room - k, c ++ take (Z.to_nat k) data))
  | SRead n => (RBytes (Some (take (Z.to_nat n) c)) (short n), (room, drop (Z.to_nat n) c))
  | SPeek n => (RBytes (Some (take (Z.to_nat n) c)) (short n), (room, c))
  | SSkip n => (RCount (Z.min n (Z.of_nat (length c))), (room, drop (Z.to_nat n) c))
  end.

Fixpoint byte_fifo_ops (os : list slice_op) (room : Z) (c : list Z) : list slice_res * (Z * list Z) :=
  match os with
  | [] => ([], (room, c))
  | o :: os =>
      let '(r, (room', c')) := byte_fifo_op o room c in
      let '(rs, st) := byte_fifo_ops os room' c' in (r :: rs, st)
  end.

Definition slice_op_ok (o : slice_op) : Prop :=
  match o with SAppend _ => True | SRead n | SPeek n | SSkip n => 0 ≤ n end.

Record slice_fifo (h : heap) (p : nat) (room : Z) (c : list Z) : Prop := {
  sf_obj : ∃ b, h_slices h !! p = Some b ∧ slice_wf (h_mem h) b ∧
                slice_content (h_mem h) b = Some c ∧ slice_remain b = room
}.

Lemma take_min_length {A} (n : Z) (c : list A) :
  0 ≤ n → take (Z.to_nat (Z.min n (Z.of_nat (length c)))) c = take (Z.to_nat n) c.
Proof.
  intros. destruct (decide (n ≤ Z.of_nat (length c))); [by rewrite Z.min_l|].
  rewrite Z.min_r, Nat2Z.id, firstn_all by lia. by rewrite take_ge by lia.
Qed.
Lemma drop_min_length {A} (n : Z) (c : list A) :
  0 ≤ n → drop (Z.to_nat (Z.min n (Z.of_nat (length c)))) c = drop (Z.to_nat n) c.
Proof.
  intros. destruct (decide (n ≤ Z.of_nat (length c))); [by rewrite Z.min_l|].
  rewrite Z.min_r, Nat2Z.id, drop_all by lia. by rewrite drop_ge by lia.
Qed.

Lemma slice_fifo_step h p room c o :
  slice_fifo h p room c → slice_op_ok o →
  ∃ h', run_slice_op p o h = Done ((byte_fifo_op o room c).1, h') ∧
        slice_fifo h' p (byte_fifo_op o room c).2.1 (byte_fifo_op o room c).2.2.
Proof.
  intros [(b&Hb&Hwf&Hc&Hr)] Ho.
  assert (slice_size b = Z.of_nat (length c)) as Hsz.
  { unfold slice_content in Hc. apply peek_length in Hc. done. }
  destruct o as [data|n|n|n]; cbn [run_slice_op byte_fifo_op slice_op_ok fst snd] in *.
  - destruct (slice_append_spec h p b data c) as (m'&E&Hwf'&Hc'&_); [done..|].
    eexists. split; [by erewrite bind_done by exact E; rewrite Hr|].
    constructor. eexists. cbn. rewrite lookup_insert_eq. rewrite <- Hr in *. split_and!; try done.
    unfold slice_remain. cbn. lia.
  - destruct (slice_read_spec h p b c n) as (d&E&_&_&Hbs&Hwf'&Hc'); [done..|].
    rewrite Hsz, ?take_min_length, ?drop_min_length in * by done.
    eexists. split.
    + erewrite bind_done by exact E. cbv beta. erewrite bind_done by done. cbn. by rewrite Hbs.
    + constructor. eexists. cbn. rewrite lookup_insert_eq. by split_and!.
  - destruct (slice_peek_spec h p b c n) as (d&E&_&_&Hbs); [done..|].
    rewrite Hsz, ?take_min_length in * by done.
    eexists. split.
    + erewrite bind_done by exact E. cbv beta. erewrite bind_done by done. cbn. by rewrite Hbs.
    + constructor. by exists b.
  - destruct (slice_skip_spec h p b c n) as (E&Hwf'&Hc'); [done..|].
    rewrite Hsz, ?drop_min_length in * by done.
    eexists. split; [by erewrite bind_done by exact E|].
    constructor. eexists. cbn. rewrite lookup_insert_eq. by split_and!.
Qed.

(** [C36] Any sequence of [append], [read], [peek] and [skip] on a well-formed
    slice returns what a byte FIFO of bounded room returns: an append takes
    the prefix that fits, reads return the oldest unread bytes (short reads
    report [ErrNotEnoughData] and still hand over what there is), a peek
    changes nothing; the slice stays well formed and never panics. *)
Theorem slice_io_refines os : ∀ h p room c,
  slice_fifo h p room c → Forall slice_op_ok os →
  ∃ h', run_slice_ops p os h = Done ((byte_fifo_ops os room c).1, h') ∧
        slice_fifo h' p (byte_fifo_ops os room c).2.1 (byte_fifo_ops os room c).2.2.
Proof.
  induction os as [|o os IH]; intros h p room c Hf Hok; cbn [run_slice_ops byte_fifo_ops].
  - by exists h.
  - apply Forall_cons in Hok as [Ho Hok].
    destruct (slice_fifo_step h p room c o Hf Ho) as (h1&E1&Hf1).
    destruct (byte_fifo_op o room c) as [r [room' c']]. cbn [fst snd] in *.
    destruct (IH h1 p room' c' Hf1 Hok) as (h2&E2&Hf2).
    destruct (byte_fifo_ops os room' c') as [rs [room'' c'']]. cbn [fst snd] in *.
    exists h2. split; [|done]. erewrite bind_done by exact E1. cbv beta.
    by erewrite bind_done by exact E2.
Qed.

(** ** A slice list is a list of objects *)

Inductive slist_op := LPush (p : nat) | LPop.

Fixpoint run_slist_ops (os : list slist_op) (l : sliceList) : M heap (list (option nat) * sliceList) :=
  match os with
  | [] => mret ([], l)
  | LPush p :: os => l' ← sl_pushBack l (Some p); run_slist_ops os l'
  | LPop :: os =>
      r ← sl_popFront l;
      rs ← run_slist_ops os r.2; mret (r.1 :: rs.1, rs.2)
  end.

Fixpoint list_ops (os : list slist_op) (ps : list nat) : list (option nat) * list nat :=
  match os with
  | [] => ([], ps)
  | LPush p :: os => list_ops os (ps ++ [p])
  | LPop :: os => let r := list_ops os (tail ps) in (head ps :: r.1, r.2)
  end.

(** Objects that are pushed are live and not in the list already. *)
Fixpoint slist_ops_ok (h : heap) (os : list slist_op) (ps : list nat) : Prop :=
  match os with
  | [] => True
  | LPush p :: os => (p ∉ ps) ∧ is_Some (h_slices h !! p) ∧ slist_ops_ok h os (ps ++ [p])
  | LPop :: os => slist_ops_ok h os (tail ps)
  end.

Lemma link_last_dom T ps p q : is_Some (link_last T ps p !! q) ↔ is_Some (T !! q).
Proof.
  unfold link_last. destruct (last ps) as [r|]; [|done].
  destruct (T !! r) as [b|] eqn:E; [|done].
  destruct (decide (r = q)) as [->|]; [rewrite lookup_insert_eq, E|by rewrite lookup_insert_ne].
  split; eauto.
Qed.

Lemma slist_ops_ok_mono os : ∀ h h' ps,
  (∀ q, is_Some (h_slices h !! q) → is_Some (h_slices h' !! q)) →
  slist_ops_ok h os ps → slist_ops_ok h' os ps.
Proof. induction os as [|[p|] os IH]; intros h h' ps Hm; cbn; naive_solver. Qed.

(** A slice list, whose objects are linked through their [nextSlice]
    fields, behaves as a list of pointers: [pushBack] appends, [popFront]
    returns and removes the first one, and nil when there is none, over any
    sequence of operations. *)
Theorem slice_list_refines os : ∀ h l ps e,
  slist_rep (h_slices h) l ps e → slist_ops_ok h os ps →
  ∃ l' h' e', run_slist_ops os l h = Done (((list_ops os ps).1, l'), h') ∧
    slist_rep (h_slices h') l' (list_ops os ps).2 e' ∧ h_mem h' = h_mem h.
Proof.
  induction os as [|[p|] os IH]; intros h l ps e Hr Hok; cbn [run_slist_ops list_ops slist_ops_ok] in *.
  - exists l, h, e. done.
  - destruct Hok as (Hp&[b Hb]&Hok).
    destruct (sl_pushBack_spec h l ps e p b Hr Hp Hb) as [E Hr'].
    set (h1 := Heap (h_mem h) (link_last (h_slices h) ps p) (h_pool h)) in *.
    destruct (IH h1 _ _ _ Hr') as (l'&h'&e'&E'&?&?).
    { eapply slist_ops_ok_mono; [|done]. intros q Hq. by apply link_last_dom. }
    exists l', h', e'. split_and!; [|done|done]. erewrite bind_done by exact E. exact E'.
  - destruct (sl_popFront_spec h l ps e Hr) as (l1&E&_&Hr').
    destruct (IH h l1 _ _ Hr' Hok) as (l'&h'&e'&E'&?&?).
    exists l', h', e'. split_and!; [|done|done].
    erewrite bind_done by exact E. cbn. by erewrite bind_done by exact E'.
Qed.

(** ** Witnesses *)

Definition demo_slice (next : option nat) : bufferSlice :=
  BufferSlice None (GSlice 0 0 4 4) 4 0 0 0 0 false next.
Definition demo_heap : heap :=
  Heap {[ 0%nat := [0; 0; 0; 0] ]} {[ 1%nat := demo_slice None; 2%nat := demo_slice None ]} [].

Lemma slice_io_refines_witness :
  ∃ h', run_slice_ops 1 [SAppend [7; 8; 9]; SPeek 2; SRead 2; SAppend [5; 6]; SRead 9] demo_heap
    = Done ([RCount 3; RBytes (Some [7; 8]) None; RBytes (Some [7; 8]) None; RCount 1;
             RBytes (Some [9; 5]) (Some ErrNotEnoughData)], h').
Proof.
  destruct (slice_io_refines [SAppend [7; 8; 9]; SPeek 2; SRead 2; SAppend [5; 6]; SRead 9]
              demo_heap 1 4 []) as (h'&E&_).
  - constructor. exists (demo_slice None). split_and!; try reflexivity.
    constructor; cbn; try lia. split_and!; cbn; try lia. eexists; split; [reflexivity|cbn; lia].
  - repeat constructor; cbn; lia.
  - exists h'. exact E.
Defined.

Lemma slice_list_refines_witness :
  ∃ l' h', run_slist_ops [LPush 1; LPush 2; LPop; LPop; LPop] newSliceList demo_heap
    = Done (([Some 1%nat; Some 2%nat; None], l'), h').
Proof.
  destruct (slice_list_refines [LPush 1; LPush 2; LPop; LPop; LPop] demo_heap newSliceList [] None)
    as (l'&h'&e'&E&_).
  - apply slist_rep_empty.
  - cbn. split_and!; try set_solver; eexists; reflexivity.
  - exists l', h'. exact E.
Defined.
