(* ===== verification/BufferList.v ===== *)
(** * Free buffer lists ([buffer_manager.go], [bufferList])

    A [bufferList] is a region of equal slots in shared memory, each a 20-byte
    header and [capPerBuffer] bytes, with the free slots linked through their
    headers from [head] to [tail].  Both processes work on the lists at once;
    here the operations run one at a time, so the compare-and-swap of a value
    just loaded succeeds.  The specification is a FIFO of slots. *)

From Stdlib Require Import ZArith Lia.
From stdpp Require Import prelude list gmap strings.
From S2P Require Import Prelude GoMem BufferSlice.

(** ** Data *)

Definition bufferListHeaderSize : Z := 36.

Record bufferList := BufferList {
  bl_size : ptr;
  bl_cap : ptr;
  bl_head : ptr;
  bl_tail : ptr;
  bl_capPerBuffer : ptr;
  bl_counter : ptr;
  bl_bufferRegion : gslice;
  bl_bufferRegionOffsetInShm : Z;
  bl_offsetInShm : Z
}.

(** ** Free lists: layout *)

Definition countBufferListMemSize (bufferNum capPerBuffer : Z) : Z :=
  u32 (bufferListHeaderSize + u32 (bufferNum * u32 (capPerBuffer + bufferHeaderSize))).

(** The loop that writes the slot headers. *)
Fixpoint create_slots (n : nat) (region : gslice) (bufferNum capPerBuffer i current : Z) : M gmem unit :=
  match n with
  | O => mret tt
  | S n =>
      let next := u32 (current + capPerBuffer + bufferHeaderSize) in
      p0 ← index_ptr region current;
      _ ← store_u32 p0 capPerBuffer;
      p1 ← index_ptr region (u32 (current + bufferSizeOffset));
      _ ← store_u32 p1 0;
      p2 ← index_ptr region (u32 (current + bufferDataStartOffset));
      _ ← store_u32 p2 0;
      _ ← (if i <? u32 (bufferNum - 1) then
             p3 ← index_ptr region (u32 (current + nextBufferOffset));
             _ ← store_u32 p3 next;
             p4 ← index_ptr region (u32 (current + bufferFlagOffset));
             f ← load_u8 p4;
             store_u8 p4 (Z.lor f hasNextBufferFlag)
           else mret tt);
      create_slots n region bufferNum capPerBuffer (i + 1) next
  end.

Definition createFreeBufferList (bufferNum capPerBuffer : Z) (mem : gslice) (offsetInMem : Z)
    : M gmem (error + bufferList) :=
  if (bufferNum =? 0) || (capPerBuffer =? 0)
  then mret (inl (Errorf "bufferNum or capPerBuffer cannot be 0"))
  else
    let atLeastSize := countBufferListMemSize bufferNum capPerBuffer in
    if (s_len mem <? u32 (offsetInMem + atLeastSize)) || (offsetInMem >? u32 (s_len mem))
       || (atLeastSize >? u32 (s_len mem))
    then mret (inl (Errorf "mem's size is too small"))
    else
      let bufferRegionStart := u32 (offsetInMem + bufferListHeaderSize) in
      let bufferRegionEnd := u32 (offsetInMem + atLeastSize) in
      if bufferRegionEnd <=? bufferRegionStart
      then mret (inl (Errorf "slice bounds out of range"))
      else
        size ← index_ptr mem (u32 (offsetInMem + 0));
        cap ← index_ptr mem (u32 (offsetInMem + 4));
        head ← index_ptr mem (u32 (offsetInMem + 8));
        tail ← index_ptr mem (u32 (offsetInMem + 12));
        capPer ← index_ptr mem (u32 (offsetInMem + 16));
        counter ← index_ptr mem (u32 (offsetInMem + 20));
        region ← subslice mem (u32 (offsetInMem + bufferListHeaderSize)) (u32 (offsetInMem + atLeastSize));
        let b := BufferList size cap head tail capPer counter region
                   (u32 (offsetInMem + bufferListHeaderSize)) offsetInMem in
        let lastOffset := u32 (u32 (bufferNum - 1) * u32 (capPerBuffer + bufferHeaderSize)) in
        _ ← store_u32 size bufferNum;
        _ ← store_u32 cap bufferNum;
        _ ← store_u32 head 0;
        _ ← store_u32 tail lastOffset;
        _ ← store_u32 capPer capPerBuffer;
        _ ← store_u32 counter 0;
        _ ← create_slots (Z.to_nat bufferNum) region bufferNum capPerBuffer 0 0;
        t ← load_u32 tail;
        hd ← subslice_from region t;
        _ ← header_clearFlag hd;
        mret (inr b).

Definition mappingFreeBufferList (mem : gslice) (offset : Z) : M gmem (error + bufferList) :=
  if s_len mem <? bufferListHeaderSize + offset
  then mret (inl (Errorf "mappingFreeBufferList failed, mem's size is too small"))
  else
    size ← index_ptr mem (u32 (offset + 0));
    cap ← index_ptr mem (u32 (offset + 4));
    head ← index_ptr mem (u32 (offset + 8));
    tail ← index_ptr mem (u32 (offset + 12));
    capPer ← index_ptr mem (u32 (offset + 16));
    counter ← index_ptr mem (u32 (offset + 24));
    c ← load_u32 cap;
    cp ← load_u32 capPer;
    let needSize := countBufferListMemSize c cp in
    if (u32 (offset + needSize) >? u32 (s_len mem))
       || (u32 (offset + needSize) <? u32 (offset + bufferListHeaderSize))
    then mret (inl (Errorf "mappingFreeBufferList failed"))
    else
      region ← subslice mem (u32 (offset + bufferListHeaderSize)) (u32 (offset + needSize));
      mret (inr (BufferList size cap head tail capPer counter region
                   (u32 (offset + bufferListHeaderSize)) offset)).

(** ** Free lists: operations *)

(** The retry loop of [pop]: 200 rounds, then it gives up. *)
Fixpoint pop_loop (rounds : nat) (b : bufferList) (oldHead : Z) : M heap (error + nat) :=
  match rounds with
  | O => _ ← on_mem (atomic_add_i32 (bl_size b) 1); mret (inl ErrNoMoreBuffer)
  | S rounds =>
      bh ← subslice (bl_bufferRegion b) oldHead (u32 (oldHead + bufferHeaderSize));
      hasNext ← on_mem (header_hasNext bh);
      if (hasNext : bool) then
        next ← on_mem (header_nextBufferOffset bh);
        swapped ← on_mem (atomic_cas_u32 (bl_head b) oldHead next);
        if (swapped : bool) then
          h ← subslice (bl_bufferRegion b) oldHead (u32 (oldHead + bufferHeaderSize));
          _ ← on_mem (header_clearFlag h);
          _ ← on_mem (header_setInUsed h);
          _ ← on_mem (atomic_add_i32 (bl_counter b) 1);
          cp ← on_mem (load_u32 (bl_capPerBuffer b));
          data ← subslice (bl_bufferRegion b) (u32 (oldHead + bufferHeaderSize))
                          (u32 (oldHead + bufferHeaderSize + cp));
          p ← newBufferSlice (Some h) data (u32 (oldHead + bl_bufferRegionOffsetInShm b)) true;
          mret (inr p)
        else
          oldHead' ← on_mem (load_u32 (bl_head b));
          pop_loop rounds b oldHead'
      else
        sz ← on_mem (load_i32 (bl_size b));
        if sz <=? 1 then
          _ ← on_mem (atomic_add_i32 (bl_size b) 1);
          mret (inl ErrNoMoreBuffer)
        else
          oldHead' ← on_mem (load_u32 (bl_head b));
          pop_loop rounds b oldHead'
  end.

Definition bufferList_pop (b : bufferList) : M heap (error + nat) :=
  oldHead ← on_mem (load_u32 (bl_head b));
  remain ← on_mem (atomic_add_i32 (bl_size b) (-1));
  if remain <=? 0 then
    _ ← on_mem (atomic_add_i32 (bl_size b) 1);
    mret (inl ErrNoMoreBuffer)
  else pop_loop 200 b oldHead.

(** The retry loop of [push]; fuel bounds the retries. *)
Fixpoint push_loop (fuel : nat) (b : bufferList) (p : nat) : M heap unit :=
  match fuel with
  | O => out_of_fuel
  | S fuel =>
      oldTail ← on_mem (load_u32 (bl_tail b));
      s ← get_slice p;
      let newTail := u32 (bs_offsetInShm s - bl_bufferRegionOffsetInShm b) in
      swapped ← on_mem (atomic_cas_u32 (bl_tail b) oldTail newTail);
      if (swapped : bool) then
        bh ← subslice (bl_bufferRegion b) oldTail (u32 (oldTail + bufferHeaderSize));
        _ ← on_mem (header_linkNext bh newTail);
        _ ← on_mem (atomic_add_i32 (bl_size b) 1);
        _ ← on_mem (atomic_add_i32 (bl_counter b) (-1));
        mret tt
      else push_loop fuel b p
  end.

Definition push_fuel : nat := 1.

Definition bufferList_push (b : bufferList) (p : nat) : M heap unit :=
  _ ← slice_reset p;
  push_loop push_fuel b p.

Definition bufferList_remain (b : bufferList) : M heap Z :=
  n ← on_mem (load_i32 (bl_size b)); mret (i32 (n - 1)).

(** Execute the next command, whose result is known from [E]. *)
Ltac mrun E :=
  erewrite bind_done;
  [|first [ exact E | apply on_mem_ok; exact E
          | apply load_u32_ok; exact E | apply load_i32_ok; exact E | apply load_u8_ok; exact E
          | apply get_slice_ok; exact E
          | apply on_mem_ok, load_u32_ok; exact E | apply on_mem_ok, load_i32_ok; exact E ]];
  cbv beta iota.
Ltac mby tac := erewrite bind_done; [|solve [tac]]; cbv beta iota.

(** ** Headers *)

Definition flag_next (f : Z) : bool := Z.land f hasNextBufferFlag >? 0.

Lemma flag_next_odd f : flag_next f = Z.odd f.
Proof.
  unfold flag_next, hasNextBufferFlag. change 1 with (Z.ones 1). rewrite Z.land_ones by lia.
  change (2 ^ 1) with 2. rewrite Zmod_odd.
  by destruct (Z.odd f).
Qed.

Lemma flag_next_link f : flag_next (u8 (Z.lor f hasNextBufferFlag)) = true.
Proof.
  rewrite flag_next_odd, <- Z.bit0_odd. unfold u8, hasNextBufferFlag.
  rewrite Z.mod_pow2_bits_low, Z.lor_spec by lia. cbn. apply orb_true_r.
Qed.

Section header.
Context (hd : gslice) (Hlen : bufferHeaderSize ≤ s_len hd).

Lemma header_ptr {S} (st : S) i :
  0 ≤ i < bufferHeaderSize → index_ptr hd i st = Done (padd (slice_ptr hd) i, st).
Proof. intros. unfold bufferHeaderSize in *. rewrite index_ptr_ok by lia. done. Qed.

Lemma header_hasNext_ok m f :
  peek_u8 m (padd (slice_ptr hd) bufferFlagOffset) = Some f →
  header_hasNext hd m = Done (flag_next f, m).
Proof.
  intros Hf. unfold header_hasNext.
  erewrite bind_done by (apply header_ptr; unfold bufferFlagOffset, bufferHeaderSize; lia). cbv beta.
  by erewrite bind_done by (by apply load_u8_ok).
Qed.

Lemma header_next_ok m v :
  peek_u32 m (padd (slice_ptr hd) nextBufferOffset) = Some v →
  header_nextBufferOffset hd m = Done (v, m).
Proof.
  intros Hf. unfold header_nextBufferOffset.
  erewrite bind_done by (apply header_ptr; unfold nextBufferOffset, bufferHeaderSize; lia). cbv beta.
  by apply load_u32_ok.
Qed.

Lemma header_clearFlag_ok m :
  in_mem m (slice_ptr hd) bufferHeaderSize →
  ∃ m', header_clearFlag hd m = Done (tt, m') ∧
        peek_u8 m' (padd (slice_ptr hd) bufferFlagOffset) = Some 0 ∧
        changes_only m m' [(padd (slice_ptr hd) bufferFlagOffset, 1)].
Proof.
  intros Hin. destruct (store_u8_ok m (padd (slice_ptr hd) bufferFlagOffset) 0) as (m'&E&?&?).
  { eapply in_mem_sub; [exact Hin|unfold bufferFlagOffset, bufferHeaderSize; lia..]. }
  exists m'. split_and!; [|done..]. unfold header_clearFlag.
  by erewrite bind_done by (apply header_ptr; unfold bufferFlagOffset, bufferHeaderSize; lia).
Qed.

Lemma header_setInUsed_ok m f :
  peek_u8 m (padd (slice_ptr hd) bufferFlagOffset) = Some f →
  ∃ m', header_setInUsed hd m = Done (tt, m') ∧
        peek_u8 m' (padd (slice_ptr hd) bufferFlagOffset) = Some (u8 (Z.lor f sliceInUsedFlag)) ∧
        changes_only m m' [(padd (slice_ptr hd) bufferFlagOffset, 1)].
Proof.
  intros Hf. destruct (store_u8_ok m (padd (slice_ptr hd) bufferFlagOffset) (Z.lor f sliceInUsedFlag)) as (m'&E&?&?).
  { eauto with shm. }
  exists m'. split_and!; [|done..]. unfold header_setInUsed.
  erewrite bind_done by (apply header_ptr; unfold bufferFlagOffset, bufferHeaderSize; lia). cbv beta.
  by erewrite bind_done by (by apply load_u8_ok).
Qed.

Lemma header_linkNext_ok m f next :
  in_mem m (slice_ptr hd) bufferHeaderSize →
  peek_u8 m (padd (slice_ptr hd) bufferFlagOffset) = Some f →
  ∃ m', header_linkNext hd next m = Done (tt, m') ∧
        peek_u32 m' (padd (slice_ptr hd) nextBufferOffset) = Some (u32 next) ∧
        peek_u8 m' (padd (slice_ptr hd) bufferFlagOffset) = Some (u8 (Z.lor f hasNextBufferFlag)) ∧
        changes_only m m' [(padd (slice_ptr hd) nextBufferOffset, 5)].
Proof.
  intros Hin Hf. unfold bufferFlagOffset, nextBufferOffset, bufferHeaderSize in *.
  destruct (store_u32_ok m (padd (slice_ptr hd) 12) next) as (m1&E1&H1&C1).
  { eapply in_mem_sub; [exact Hin|lia..]. }
  assert (peek_u8 m1 (padd (slice_ptr hd) 16) = Some f) as Hf1.
  { eapply changes_peek_u8; [exact C1| |done]. solve_disj. }
  destruct (store_u8_ok m1 (padd (slice_ptr hd) 16) (Z.lor f hasNextBufferFlag)) as (m2&E2&H2&C2).
  { eauto with shm. }
  exists m2. split_and!; [| |done|].
  - unfold header_linkNext, nextBufferOffset, bufferFlagOffset.
    erewrite bind_done by (apply header_ptr; unfold bufferHeaderSize; lia). cbv beta.
    erewrite bind_done by exact E1. cbv beta.
    erewrite bind_done by (apply header_ptr; unfold bufferHeaderSize; lia). cbv beta.
    by erewrite bind_done by (by apply load_u8_ok).
  - eapply changes_peek_u32; [exact C2| |done]. solve_disj.
  - eapply changes_only_enlarge; [by eapply changes_only_trans|].
    repeat constructor; cbn; lia.
Qed.
End header.

(** ** What the lists promise *)

(** The place and the shape of a list: its base address, its offset in the
    mapping, where its counter is, the bytes per slot, the number of slots,
    and the capacity of the Go slice of the region. *)
Record geom := Geom {
  g_base : ptr; g_off : Z; g_co : Z; g_cap : Z; g_num : Z; g_scap : Z
}.

Definition g_step (g : geom) : Z := g_cap g + bufferHeaderSize.
Definition g_bytes (g : geom) : Z := g_num g * g_step g.
Definition g_region (g : geom) : gslice :=
  GSlice (p_arr (g_base g)) (p_off (g_base g) + bufferListHeaderSize) (g_bytes g) (g_scap g).
Definition list_of (g : geom) : bufferList :=
  BufferList (g_base g) (padd (g_base g) 4) (padd (g_base g) 8) (padd (g_base g) 12) (padd (g_base g) 16)
    (padd (g_base g) (g_co g)) (g_region g) (g_off g + bufferListHeaderSize) (g_off g).

Record geom_ok (g : geom) : Prop := {
  go_cap : 0 < g_cap g;
  go_num : 0 < g_num g;
  go_scap : g_bytes g ≤ g_scap g;
  go_off : 0 ≤ g_off g;
  go_end : g_off g + bufferListHeaderSize + g_bytes g < 2 ^ 32;
  go_co : g_co g = 20 ∨ g_co g = 24
}.

(** The slot that starts at offset [s] of the region. *)
Definition is_slot (g : geom) (s : Z) : Prop :=
  0 ≤ s ∧ s + g_step g ≤ g_bytes g ∧ s `mod` g_step g = 0.

#[global] Instance is_slot_dec g s : Decision (is_slot g s).
Proof. unfold is_slot. apply _. Defined.

Definition slot_ptr (g : geom) (s : Z) : ptr := padd (g_base g) (bufferListHeaderSize + s).

(** A free slot: no data, and the link to the next free slot if there is one. *)
Record free_slot (m : gmem) (g : geom) (s : Z) (next : option Z) : Prop := {
  fs_size : peek_u32 m (padd (slot_ptr g s) bufferSizeOffset) = Some 0;
  fs_start : peek_u32 m (padd (slot_ptr g s) bufferDataStartOffset) = Some 0;
  fs_flag : ∃ f, peek_u8 m (padd (slot_ptr g s) bufferFlagOffset) = Some f ∧
                 flag_next f = match next with Some _ => true | None => false end;
  fs_next : ∀ t, next = Some t → peek_u32 m (padd (slot_ptr g s) nextBufferOffset) = Some t
}.

(** A word that holds the value [k], up to the wrap-around. *)
Definition counts (m : gmem) (p : ptr) (k : Z) : Prop := ∃ v, peek_u32 m p = Some v ∧ u32 v = u32 k.

(** The free list [fl] in the memory; [k] is the value of the counter. *)
Record blist_rep (m : gmem) (g : geom) (k : Z) (fl : list Z) : Prop := {
  br_geom : geom_ok g;
  br_mem : in_mem m (g_base g) (bufferListHeaderSize + g_bytes g);
  br_size : peek_u32 m (g_base g) = Some (Z.of_nat (length fl));
  br_num : peek_u32 m (padd (g_base g) 4) = Some (g_num g);
  br_head : ∃ s, head fl = Some s ∧ peek_u32 m (padd (g_base g) 8) = Some s;
  br_tail : ∃ s, last fl = Some s ∧ peek_u32 m (padd (g_base g) 12) = Some s;
  br_cap : peek_u32 m (padd (g_base g) 16) = Some (g_cap g);
  br_counter : counts m (padd (g_base g) (g_co g)) k;
  br_slots : Forall (is_slot g) fl;
  br_nodup : NoDup fl;
  br_caps : ∀ s, is_slot g s → peek_u32 m (slot_ptr g s) = Some (g_cap g);
  br_free : ∀ i s, fl !! i = Some s → free_slot m g s (fl !! (i + 1)%nat)
}.

(** The object that stands for slot [s] in use. *)
Definition slot_header (g : geom) (s : Z) : gslice :=
  GSlice (p_arr (g_base g)) (p_off (g_base g) + bufferListHeaderSize + s) bufferHeaderSize (g_scap g - s).
Definition slot_data (g : geom) (s : Z) : gslice :=
  GSlice (p_arr (g_base g)) (p_off (g_base g) + bufferListHeaderSize + (s + bufferHeaderSize)) (g_cap g)
    (g_scap g - (s + bufferHeaderSize)).
Definition slot_slice (g : geom) (s : Z) : bufferSlice :=
  BufferSlice (Some (slot_header g s)) (slot_data g s) (g_cap g) 0 (s + (g_off g + bufferListHeaderSize))
    0 0 true None.

(** Everything a list operation on slot [s] may write. *)
Definition list_win (g : geom) : ptr * Z := (g_base g, bufferListHeaderSize).
Definition slot_win (g : geom) (s : Z) : ptr * Z := (slot_ptr g s, bufferHeaderSize).

(** Recycled objects are zeroed and distinct. *)
Record pool_ok (h : heap) : Prop := {
  po_zero : Forall (λ p, h_slices h !! p = Some zero_bufferSlice) (h_pool h);
  po_nodup : NoDup (h_pool h)
}.

Ltac consts := unfold g_step in *; unfold bufferListHeaderSize, bufferHeaderSize, bufferSizeOffset, bufferDataStartOffset,
  nextBufferOffset, bufferFlagOffset, bufferCapOffset in *.

Lemma geom_num_small g : geom_ok g → g_num g < 2 ^ 28.
Proof.
  intros []. unfold g_bytes in *. consts.
  assert (g_num g * 21 ≤ g_num g * (g_cap g + 20)) by (apply Z.mul_le_mono_nonneg_l; lia).
  lia.
Qed.

Lemma slot_apart g s t :
  geom_ok g → is_slot g s → is_slot g t → s ≠ t → s + g_step g ≤ t ∨ t + g_step g ≤ s.
Proof.
  intros [] (?&_&Hs) (?&_&Ht) Hne. assert (0 < g_step g) by (consts; lia).
  apply Z.mod_divide in Hs as [a ->]; [|lia]. apply Z.mod_divide in Ht as [b ->]; [|lia].
  generalize dependent (g_step g). intros st **.
  destruct (Z.lt_trichotomy a b) as [|[->|]]; [left; nia|done|right; nia].
Qed.

Lemma slots_length g fl :
  geom_ok g → Forall (is_slot g) fl → NoDup fl → Z.of_nat (length fl) ≤ g_num g.
Proof.
  intros Hg Hs Hnd. pose proof Hg as []. assert (0 < g_step g) by (consts; lia).
  set (idx := (λ s, s `div` g_step g)).
  assert (NoDup (idx <$> fl)) as Hnd'.
  { apply NoDup_fmap_2_strong; [|done]. intros x y Hx Hy Heq. rewrite Forall_forall in Hs.
    destruct (Hs x Hx) as (_&_&E1), (Hs y Hy) as (_&_&E2). unfold idx in Heq.
    rewrite (Z.div_mod x (g_step g)), (Z.div_mod y (g_step g)) by lia. lia. }
  assert (idx <$> fl ⊆+ seqZ 0 (g_num g)) as Hsub%submseteq_length.
  { apply NoDup_submseteq; [done|]. intros x (s&->&Hin)%list_elem_of_fmap.
    rewrite Forall_forall in Hs. destruct (Hs s Hin) as (?&Hb&_). apply elem_of_seqZ. unfold idx.
    split; [apply Z.div_pos; lia|]. apply Z.div_lt_upper_bound; [lia|]. unfold g_bytes in Hb. lia. }
  rewrite length_fmap, length_seqZ in Hsub. lia.
Qed.

(** ** Frames *)

Lemma slot_ptr_padd g s d : padd (slot_ptr g s) d = padd (g_base g) (bufferListHeaderSize + s + d).
Proof. unfold slot_ptr. by rewrite padd_padd. Qed.

Lemma free_slot_frame m m' ws g s nx :
  free_slot m g s nx → changes_only m m' ws →
  Forall (λ w, disjoint_win w.1 w.2 (slot_ptr g s) bufferHeaderSize) ws →
  free_slot m' g s nx.
Proof.
  intros [? ? (f&Hf&?) Hn] Hc Hd. consts.
  assert (∀ d k, 0 ≤ d → d + k ≤ 20 →
            Forall (λ w, disjoint_win w.1 w.2 (padd (slot_ptr g s) d) k) ws) as Hs.
  { intros d k ??. eapply Forall_disjoint_sub; [exact Hd|lia..]. }
  constructor; consts.
  - eapply changes_peek_u32; [exact Hc| |done]. apply Hs; lia.
  - eapply changes_peek_u32; [exact Hc| |done]. apply Hs; lia.
  - exists f. split; [|done]. eapply changes_peek_u8; [exact Hc| |done]. apply Hs; lia.
  - intros t Ht. eapply changes_peek_u32; [exact Hc| |by apply Hn]. apply Hs; lia.
Qed.

(** A list is not affected by writes that avoid its header, the headers of its
    free slots and the capacity words. *)
Lemma blist_rep_frame m m' ws g k fl :
  blist_rep m g k fl → changes_only m m' ws →
  Forall (λ w, disjoint_win w.1 w.2 (g_base g) bufferListHeaderSize) ws →
  (∀ s, s ∈ fl → Forall (λ w, disjoint_win w.1 w.2 (slot_ptr g s) bufferHeaderSize) ws) →
  (∀ s, is_slot g s → Forall (λ w, disjoint_win w.1 w.2 (slot_ptr g s) 4) ws) →
  blist_rep m' g k fl.
Proof.
  intros [] Hc Hh Hf Hcap. pose proof br_geom0 as [].
  assert (∀ d v, 0 ≤ d → d + 4 ≤ 36 → peek_u32 m (padd (g_base g) d) = Some v →
            peek_u32 m' (padd (g_base g) d) = Some v) as Hw.
  { intros d v ?? Hp. eapply changes_peek_u32; [exact Hc| |done].
    eapply Forall_disjoint_sub; [exact Hh|consts; lia..]. }
  constructor; try done.
  - by apply Hc.
  - specialize (Hw 0). rewrite padd_0 in Hw. apply Hw; [lia..|done].
  - apply Hw; [lia..|done].
  - destruct br_head0 as (s&?&?). exists s. split; [done|]. apply Hw; [lia..|done].
  - destruct br_tail0 as (s&?&?). exists s. split; [done|]. apply Hw; [lia..|done].
  - apply Hw; [lia..|done].
  - destruct br_counter0 as (v&?&?). exists v. split; [|done]. apply Hw; [lia..|done].
  - intros s Hs. eapply changes_peek_u32; [exact Hc|by apply Hcap|by apply br_caps0].
  - intros i s Hi. eapply free_slot_frame; [by apply br_free0|exact Hc|].
    apply Hf. by eapply list_elem_of_lookup_2.
Qed.

Lemma counter_add k d : u32 (i32 (i32 k + d)) = u32 (k + d).
Proof.
  assert (∀ x, (x `mod` 2 ^ 32 - 2 ^ 31) `mod` 2 ^ 32 = (x - 2 ^ 31) `mod` 2 ^ 32) as Hm by (intros; apply Zminus_mod_idemp_l).
  unfold u32, i32. rewrite Hm. replace (((k + 2 ^ 31) `mod` 2 ^ 32 - 2 ^ 31 + d + 2 ^ 31) - 2 ^ 31) with ((k + 2 ^ 31) `mod` 2 ^ 32 + (d - 2 ^ 31)) by lia.
  rewrite Zplus_mod_idemp_l. f_equal. lia.
Qed.

Lemma counter_step v k d : u32 v = u32 k → u32 (i32 (i32 v + d)) = u32 (k + d).
Proof. intros E. rewrite counter_add. unfold u32 in *. by rewrite <- Zplus_mod_idemp_l, E, Zplus_mod_idemp_l. Qed.

Lemma counts_exact m p k : peek_u32 m p = Some (u32 k) → counts m p k.
Proof. intros E. exists (u32 k). split; [done|]. unfold u32. by rewrite Zmod_mod. Qed.

Lemma size_step_i n d : 0 ≤ n < 2 ^ 31 → 0 ≤ n + d < 2 ^ 31 → i32 (i32 n + d) = n + d.
Proof. intros. rewrite (i32_small n) by lia. apply i32_small. lia. Qed.
Lemma size_step_u n d : 0 ≤ n < 2 ^ 31 → 0 ≤ n + d < 2 ^ 31 → u32 (i32 (i32 n + d)) = n + d.
Proof. intros. rewrite size_step_i by done. apply u32_small. lia. Qed.

(** ** Objects *)

Lemma pool_get_ok h :
  pool_ok h →
  ∃ p h', pool_get h = Done (p, h') ∧ (p ∈ h_pool h ∨ h_slices h !! p = None) ∧
    h_mem h' = h_mem h ∧ h_pool h' = tail (h_pool h) ∧ h_slices h' = <[p := zero_bufferSlice]> (h_slices h) ∧
    p ∉ h_pool h'.
Proof.
  intros [Hz Hnd]. unfold pool_get. destruct (h_pool h) as [|p ps] eqn:E.
  - eexists _, _. split; [done|]. cbn. split_and!; try done; [|set_solver].
    right. apply fresh_key_None.
  - apply Forall_cons in Hz as [Hz _]. apply NoDup_cons in Hnd as [? _].
    exists p. eexists. split; [done|]. cbn.
    split_and!; try done; [set_solver|]. by rewrite insert_id.
Qed.

(** The object made from a header in shared memory. *)
Lemma newBufferSlice_shm h hd data off c st sz :
  pool_ok h → bufferHeaderSize ≤ s_len hd →
  peek_u32 (h_mem h) (padd (slice_ptr hd) bufferCapOffset) = Some c →
  peek_u32 (h_mem h) (padd (slice_ptr hd) bufferDataStartOffset) = Some st →
  peek_u32 (h_mem h) (padd (slice_ptr hd) bufferSizeOffset) = Some sz →
  ∃ p h', newBufferSlice (Some hd) data off true h = Done (p, h') ∧
    (p ∈ h_pool h ∨ h_slices h !! p = None) ∧ pool_ok h' ∧ (p ∉ h_pool h') ∧ h_pool h' = tail (h_pool h) ∧
    h_mem h' = h_mem h ∧
    h_slices h' = <[p := BufferSlice (Some hd) data c st off st (u32 (st + sz)) true None]> (h_slices h).
Proof.
  intros Hpool Hlen Hc Hst Hsz. destruct (pool_get_ok h Hpool) as (p&h1&E&Hp&Em&Ep&Es&Hnp).
  exists p. eexists. split.
  - unfold newBufferSlice. erewrite bind_done by exact E. cbv beta.
    erewrite bind_done by (apply get_slice_ok; rewrite Es; apply lookup_insert_eq). cbv beta.
    rewrite bind_assoc. erewrite bind_done by (apply header_ptr; consts; lia). cbv beta.
    rewrite bind_assoc. erewrite bind_done by (apply on_mem_ok, load_u32_ok; rewrite Em; exact Hc). cbv beta.
    rewrite bind_assoc. erewrite bind_done by (apply header_ptr; consts; lia). cbv beta.
    rewrite bind_assoc. erewrite bind_done by (apply on_mem_ok, load_u32_ok; cbn; rewrite Em; exact Hst). cbv beta.
    rewrite bind_assoc. erewrite bind_done by (apply header_ptr; consts; lia). cbv beta.
    rewrite bind_assoc. erewrite bind_done by (apply on_mem_ok, load_u32_ok; cbn; rewrite Em; exact Hsz). cbv beta.
    rewrite bind_mret. erewrite bind_done by apply set_slice_ok. cbv beta. done.
  - cbn. destruct Hpool as [Hz Hnd]. split_and!; try done.
    + constructor; cbn.
      * rewrite Ep. rewrite Ep in Hnp. rewrite Forall_forall in Hz |- *. intros q Hq.
        rewrite Es. rewrite !lookup_insert_ne by (by intros ->).
        apply Hz. destruct (h_pool h); [done|]. by right.
      * rewrite Ep. destruct (h_pool h); [done|]. by inversion_clear Hnd.
    + by rewrite Es, insert_insert_eq.
Qed.

(** ** [pop] *)

Section list_ops.
Context (g : geom).
Abbreviation b := (list_of g).

Lemma region_sub {S} (st : S) lo hi :
  geom_ok g → 0 ≤ lo ≤ hi → hi ≤ g_bytes g →
  subslice (bl_bufferRegion b) lo hi st =
    Done (GSlice (p_arr (g_base g)) (p_off (g_base g) + bufferListHeaderSize + lo) (hi - lo) (g_scap g - lo), st).
Proof. intros [] ??. rewrite subslice_ok; [done|done|]. cbn. lia. Qed.

Lemma slot_header_ptr s : slice_ptr (slot_header g s) = slot_ptr g s.
Proof. unfold slice_ptr, slot_header, slot_ptr, padd. cbn. f_equal. lia. Qed.

Lemma slot_in_mem m s k fl :
  blist_rep m g k fl → is_slot g s → in_mem m (slot_ptr g s) (g_step g).
Proof.
  intros [] (?&?&_). pose proof br_geom0 as []. unfold slot_ptr.
  eapply in_mem_sub; [exact br_mem0|consts; lia..].
Qed.

Lemma slot_header_in_mem m s k fl :
  blist_rep m g k fl → is_slot g s → in_mem m (slot_ptr g s) bufferHeaderSize.
Proof.
  intros Hr Hs. pose proof (br_geom _ _ _ _ Hr) as []. rewrite <- (padd_0 (slot_ptr g s)).
  eapply in_mem_sub; [by eapply slot_in_mem|consts; lia..].
Qed.

(** The slot header as the Go code cuts it from the region. *)
Lemma region_header {S} (st : S) s :
  geom_ok g → is_slot g s →
  subslice (bl_bufferRegion b) s (u32 (s + bufferHeaderSize)) st = Done (slot_header g s, st).
Proof.
  intros Hg (?&?&_). pose proof Hg as []. rewrite u32_small by (consts; lia).
  rewrite region_sub by (done || consts; lia). unfold slot_header. do 3 f_equal. lia.
Qed.

Lemma region_data {S} (st : S) s :
  geom_ok g → is_slot g s →
  subslice (bl_bufferRegion b) (u32 (s + bufferHeaderSize)) (u32 (s + bufferHeaderSize + g_cap g)) st
    = Done (slot_data g s, st).
Proof.
  intros Hg (?&?&_). pose proof Hg as []. rewrite !u32_small by (consts; lia).
  rewrite region_sub by (done || consts; lia). unfold slot_data. do 3 f_equal. lia.
Qed.

Lemma atomic_cas_hit m p old new :
  peek_u32 m p = Some old → 
  ∃ m', atomic_cas_u32 p old new m = Done (true, m') ∧ peek_u32 m' p = Some (u32 new) ∧
        changes_only m m' [(p, 4)].
Proof.
  intros Hp. destruct (store_u32_ok m p new) as (m'&E&?&?); [eauto with shm|].
  exists m'. split_and!; [|done..]. unfold atomic_cas_u32.
  erewrite bind_done by (by apply load_u32_ok). cbv beta. rewrite Z.eqb_refl.
  by erewrite bind_done by exact E.
Qed.

Definition pop_wins (s : Z) : list (ptr * Z) :=
  [(g_base g, 4); (padd (g_base g) 8, 4); (padd (g_base g) (g_co g), 4); (padd (slot_ptr g s) bufferFlagOffset, 1)].

(** The memory effect of taking the first free slot. *)
Lemma pop_memory m k s t fl :
  blist_rep m g k (s :: t :: fl) →
  ∃ m1 m2 m3 m4 m5,
    atomic_add_i32 (bl_size b) (-1) m = Done (Z.of_nat (length (t :: fl)), m1) ∧
    header_hasNext (slot_header g s) m1 = Done (true, m1) ∧
    header_nextBufferOffset (slot_header g s) m1 = Done (t, m1) ∧
    atomic_cas_u32 (bl_head b) s t m1 = Done (true, m2) ∧
    header_clearFlag (slot_header g s) m2 = Done (tt, m3) ∧
    header_setInUsed (slot_header g s) m3 = Done (tt, m4) ∧
    (∃ v, atomic_add_i32 (bl_counter b) 1 m4 = Done (v, m5)) ∧
    peek_u32 m5 (g_base g) = Some (Z.of_nat (length (t :: fl))) ∧
    peek_u32 m5 (padd (g_base g) 8) = Some t ∧
    peek_u32 m5 (padd (g_base g) (g_co g)) = Some (u32 (k + 1)) ∧
    changes_only m m5 (pop_wins s) ∧
    ∃ f, peek_u8 m5 (padd (slot_ptr g s) bufferFlagOffset) = Some f ∧ flag_next f = false.
Proof.
  intros Hr. pose proof Hr as []. pose proof br_geom0 as Hg. pose proof Hg as [].
  pose proof (slots_length _ _ Hg br_slots0 br_nodup0) as Hln. pose proof (geom_num_small _ Hg).
  destruct (br_free0 0%nat s eq_refl) as [_ _ (f&Hf&Hfn) Hnx]. specialize (Hnx t eq_refl). cbn in Hfn.
  destruct br_head0 as (s'&Hs'&Hhd). cbn in Hs'. injection Hs' as <-.
  assert (is_slot g s ∧ is_slot g t) as [Hs Ht].
  { apply Forall_cons in br_slots0 as [? [? ?]%Forall_cons]. done. }
  destruct (atomic_add_i32_ok m (g_base g) _ (-1) br_size0) as (m1&E1&H1&C1).
  pose proof Hs as (Hs0&Hs1&_). pose proof Ht as (Ht0&Ht1&_).
  rewrite slot_ptr_padd in *. cbn [length] in *.
  rewrite size_step_i in E1 by lia. rewrite size_step_u in H1 by lia.
  replace (Z.of_nat (S (S (length fl))) + -1) with (Z.of_nat (S (length fl))) in * by lia.
  rewrite <- (padd_0 (g_base g)) in C1, H1.
  assert (peek_u32 m1 (padd (g_base g) 8) = Some s) as Hhd1
    by (eapply changes_peek_u32; [exact C1|solve_disj|done]).
  destruct (atomic_cas_hit m1 _ s t Hhd1) as (m2&E2&H2&C2). rewrite u32_small in H2 by (consts; lia).
  assert (bufferHeaderSize ≤ s_len (slot_header g s)) as Hlen by done.
  destruct (header_clearFlag_ok _ Hlen m2) as (m3&E3&H3&C3).
  { rewrite slot_header_ptr. apply C2, C1. by eapply slot_header_in_mem. }
  destruct (header_setInUsed_ok _ Hlen m3 _ H3) as (m4&E4&H4&C4).
  rewrite slot_header_ptr, slot_ptr_padd in *.
  destruct br_counter0 as (v0&Hv0&Ev0). assert (peek_u32 m4 (padd (g_base g) (g_co g)) = Some v0) as Hco.
  { consts. eapply changes_peek_u32; [exact C4|solve_disj|]. eapply changes_peek_u32; [exact C3|solve_disj|].
    eapply changes_peek_u32; [exact C2|solve_disj|]. eapply changes_peek_u32; [exact C1|solve_disj|done]. }
  destruct (atomic_add_i32_ok m4 _ _ 1 Hco) as (m5&E5&H5&C5). rewrite (counter_step _ k) in H5 by done.
  exists m1, m2, m3, m4, m5. split_and!.
  - exact E1.
  - erewrite header_hasNext_ok; [by rewrite Hfn|done|]. rewrite slot_header_ptr, slot_ptr_padd. consts.
    eapply changes_peek_u8; [exact C1|solve_disj|done].
  - erewrite header_next_ok; [done|done|]. rewrite slot_header_ptr, slot_ptr_padd. consts.
    eapply changes_peek_u32; [exact C1|solve_disj|done].
  - exact E2.
  - exact E3.
  - exact E4.
  - eexists. exact E5.
  - consts. rewrite <- (padd_0 (g_base g)). eapply changes_peek_u32; [exact C5|solve_disj|].
    eapply changes_peek_u32; [exact C4|solve_disj|]. eapply changes_peek_u32; [exact C3|solve_disj|].
    eapply changes_peek_u32; [exact C2|solve_disj|done].
  - consts. eapply changes_peek_u32; [exact C5|solve_disj|].
    eapply changes_peek_u32; [exact C4|solve_disj|]. eapply changes_peek_u32; [exact C3|solve_disj|done].
  - done.
  - eapply changes_only_enlarge.
    + eapply changes_only_trans; [exact C1|]. eapply changes_only_trans; [exact C2|].
      eapply changes_only_trans; [exact C3|]. eapply changes_only_trans; [exact C4|exact C5].
    + unfold pop_wins. rewrite ?slot_ptr_padd. consts. solve_enlarge.
  - exists (u8 (Z.lor 0 sliceInUsedFlag)). split; [|by vm_compute]. consts. eapply changes_peek_u8; [exact C5|solve_disj|exact H4].
Qed.

Lemma slot_win_apart s t (d k : Z) :
  geom_ok g → is_slot g s → is_slot g t → s ≠ t → 0 ≤ d → d + k ≤ bufferHeaderSize →
  disjoint_win (padd (slot_ptr g s) d) k (slot_ptr g t) bufferHeaderSize.
Proof.
  intros Hg Hs Ht Hne ??. destruct (slot_apart _ _ _ Hg Hs Ht Hne); pose proof Hg as [];
    unfold slot_ptr; consts; solve_disj.
Qed.

(** The list after its first slot was taken. *)
Lemma pop_rep m m' k s t fl :
  blist_rep m g k (s :: t :: fl) →
  peek_u32 m' (g_base g) = Some (Z.of_nat (length (t :: fl))) →
  peek_u32 m' (padd (g_base g) 8) = Some t →
  peek_u32 m' (padd (g_base g) (g_co g)) = Some (u32 (k + 1)) →
  changes_only m m' (pop_wins s) →
  blist_rep m' g (k + 1) (t :: fl).
Proof.
  intros Hr H1 H2 H3 Hc. pose proof Hr as []. pose proof br_geom0 as Hg. pose proof Hg as [].
  apply Forall_cons in br_slots0 as [Hs Hsl]. apply NoDup_cons in br_nodup0 as [Hni Hnd].
  pose proof Hs as (?&?&_).
  constructor; try done.
  - by apply Hc.
  - eapply changes_peek_u32; [exact Hc| |done]. unfold pop_wins. rewrite slot_ptr_padd. consts. solve_disj.
  - by exists t.
  - destruct br_tail0 as (s'&?&?). exists s'. split; [done|].
    eapply changes_peek_u32; [exact Hc| |done]. unfold pop_wins. rewrite slot_ptr_padd. consts. solve_disj.
  - eapply changes_peek_u32; [exact Hc| |done]. unfold pop_wins. rewrite slot_ptr_padd. consts. solve_disj.
  - by apply counts_exact.
  - intros u Hu. eapply changes_peek_u32; [exact Hc| |by apply br_caps0].
    pose proof Hu as (?&?&_). unfold pop_wins, slot_ptr. rewrite padd_padd.
    destruct (decide (s = u)) as [->|Hne]; [consts; solve_disj|].
    destruct (slot_apart _ _ _ Hg Hs Hu Hne); consts; solve_disj.
  - intros i u Hi. eapply free_slot_frame; [exact (br_free0 (S i) u Hi)|exact Hc|].
    apply list_elem_of_lookup_2 in Hi. rewrite Forall_forall in Hsl. pose proof (Hsl u Hi) as Hu.
    pose proof Hu as (?&?&_).
    assert (s ≠ u) as Hne by (by intros ->). unfold pop_wins.
    repeat (apply Forall_cons; split); [unfold slot_ptr; consts; solve_disj..| |apply Forall_nil_2].
    apply slot_win_apart; try done; consts; lia.
Qed.

Record fresh_obj (h h' : heap) (p : nat) (o : bufferSlice) : Prop := {
  fo_new : p ∈ h_pool h ∨ h_slices h !! p = None;
  fo_pool : pool_ok h';
  fo_notpool : p ∉ h_pool h';
  fo_sub : h_pool h' = tail (h_pool h);
  fo_slices : h_slices h' = <[p := o]> (h_slices h)
}.

(** [pop] takes the first free slot when there are two; only the list header
    and the flag of that slot are written. *)
Lemma bufferList_pop_ok h k s t fl :
  blist_rep (h_mem h) g k (s :: t :: fl) → pool_ok h →
  ∃ p h', bufferList_pop b h = Done (inr p, h') ∧ fresh_obj h h' p (slot_slice g s) ∧
    blist_rep (h_mem h') g (k + 1) (t :: fl) ∧ changes_only (h_mem h) (h_mem h') (pop_wins s) ∧
    ∃ f, peek_u8 (h_mem h') (padd (slot_ptr g s) bufferFlagOffset) = Some f ∧ flag_next f = false.
Proof.
  intros Hr Hp. pose proof (pop_memory _ _ _ _ _ Hr) as
    (m1&m2&m3&m4&m5&E1&E2&E3&E4&E5&E6&(v&E7)&H1&H2&H3&Hc&Hfl).
  pose proof (pop_rep _ _ _ _ _ _ Hr H1 H2 H3 Hc) as Hr'.
  pose proof Hr as []. destruct br_head0 as (s'&Hs'&Hhd). cbn in Hs'. injection Hs' as <-.
  assert (is_slot g s) as Hs by (by inversion_clear br_slots0).
  pose proof Hs as (?&?&_). pose proof br_geom0 as [].
  destruct (br_free0 0%nat s eq_refl) as [Hsz Hst _ _].
  destruct (newBufferSlice_shm (set_mem m5 h) (slot_header g s) (slot_data g s)
              (s + (g_off g + bufferListHeaderSize)) (g_cap g) 0 0) as (p&h'&E&?&?&?&?&Em&Es).
  { by destruct Hp. }
  { done. }
  { unfold bufferCapOffset. rewrite padd_0, slot_header_ptr. apply Hr'. exact Hs. }
  { rewrite slot_header_ptr. eapply changes_peek_u32; [exact Hc| |exact Hst].
    unfold pop_wins. rewrite ?slot_ptr_padd. consts. solve_disj. }
  { rewrite slot_header_ptr. eapply changes_peek_u32; [exact Hc| |exact Hsz].
    unfold pop_wins. rewrite ?slot_ptr_padd. consts. solve_disj. }
  exists p, h'. cbn in Em. rewrite Em. split_and!; [|constructor; try done|done|done|done].
  unfold bufferList_pop.
  mrun Hhd.
  mrun E1. cbn [length]. bdecide.
  change 200%nat with (S 199). generalize 199%nat as rounds. intros rounds. cbn [pop_loop].
  mby ltac:(by apply region_header).
  mrun E2.
  mrun E3.
  mrun E4.
  mby ltac:(by apply region_header).
  mrun E5.
  mrun E6.
  mrun E7.
  mrun (br_cap _ _ _ _ Hr').
  mby ltac:(by apply region_data).
  rewrite u32_small by (cbn; consts; lia). cbn [bl_bufferRegionOffsetInShm list_of].
  erewrite bind_done by exact E. done.
Qed.

(** The last free slot is never handed out. *)
Lemma bufferList_pop_empty h k s :
  blist_rep (h_mem h) g k [s] →
  ∃ m', bufferList_pop b h = Done (inl ErrNoMoreBuffer, set_mem m' h) ∧
    blist_rep m' g k [s] ∧ changes_only (h_mem h) m' [(g_base g, 4)].
Proof.
  intros Hr. pose proof Hr as []. pose proof br_geom0 as [].
  destruct br_head0 as (s'&Hs'&Hhd).
  destruct (atomic_add_i32_ok _ _ _ (-1) br_size0) as (m1&E1&H1&C1). cbn in E1, H1.
  destruct (atomic_add_i32_ok _ _ _ 1 H1) as (m2&E2&H2&C2). cbn in H2.
  pose proof (changes_only_seq _ _ _ _ C1 C2) as Hc.
  exists m2. split_and!; [| |done].
  - unfold bufferList_pop.
    mrun Hhd.
    mrun E1.
    rewrite size_step_i by (cbn; lia). cbn [length]. bdecide. by mrun E2.
  - assert (∀ d v, 4 ≤ d → d + 4 ≤ 36 → peek_u32 (h_mem h) (padd (g_base g) d) = Some v →
              peek_u32 m2 (padd (g_base g) d) = Some v) as Hw.
    { intros d v ?? Hp. eapply changes_peek_u32; [exact Hc|solve_disj|done]. }
    constructor; try done.
    + by apply Hc.
    + apply Hw; [lia..|done].
    + exists s'. split; [done|]. apply Hw; [lia..|done].
    + destruct br_tail0 as (s2&?&?). exists s2. split; [done|]. apply Hw; [lia..|done].
    + apply Hw; [lia..|done].
    + destruct br_counter0 as (v0&?&?). exists v0. split; [|done]. apply Hw; [lia..|done].
    + intros u Hu. pose proof Hu as (?&?&_).
      eapply changes_peek_u32; [exact Hc| |by apply br_caps0]. unfold slot_ptr. consts. solve_disj.
    + intros i u Hi. eapply free_slot_frame; [by apply br_free0|exact Hc|].
      rewrite Forall_forall in br_slots0. destruct (br_slots0 u) as (?&?&_); [by eapply list_elem_of_lookup_2|].
      unfold slot_ptr. consts. solve_disj.
Qed.

(** ** [push] *)

(** An object over slot [s], however it was made. *)
Record slot_obj (s : Z) (o : bufferSlice) : Prop := {
  so_hdr : ∃ hd, bs_header o = Some hd ∧ slice_ptr hd = slot_ptr g s ∧ s_len hd = bufferHeaderSize;
  so_data : slice_ptr (bs_data o) = padd (slot_ptr g s) bufferHeaderSize;
  so_len : s_len (bs_data o) = g_cap g;
  so_scap : s_len (bs_data o) ≤ s_cap (bs_data o);
  so_cap : bs_cap o = g_cap g;
  so_off : bs_offsetInShm o = s + (g_off g + bufferListHeaderSize);
  so_shm : bs_isFromShm o = true
}.

Lemma slot_slice_obj s : geom_ok g → is_slot g s → slot_obj s (slot_slice g s).
Proof.
  intros [] (?&?&_). constructor; try done; cbn.
  - eexists. split_and!; try done. apply slot_header_ptr.
  - unfold slot_ptr, slot_data, slice_ptr, padd. cbn. f_equal. consts. lia.
  - consts. lia.
Qed.

Definition reset_slice (o : bufferSlice) : bufferSlice := with_next (with_indices o 0 0) None.

(** [reset] empties the slice, in the object and in the shared header. *)
Lemma slice_reset_ok h p o hd :
  h_slices h !! p = Some o → bs_header o = Some hd → s_len hd = bufferHeaderSize →
  in_mem (h_mem h) (slice_ptr hd) bufferHeaderSize →
  ∃ m', slice_reset p h = Done (tt, upd_slice (set_mem m' h) p (reset_slice o)) ∧
    peek_u32 m' (padd (slice_ptr hd) bufferSizeOffset) = Some 0 ∧
    peek_u32 m' (padd (slice_ptr hd) bufferDataStartOffset) = Some 0 ∧
    peek_u8 m' (padd (slice_ptr hd) bufferFlagOffset) = Some 0 ∧
    changes_only (h_mem h) m' [(padd (slice_ptr hd) bufferSizeOffset, 8); (padd (slice_ptr hd) bufferFlagOffset, 1)].
Proof.
  intros Hp Hhd Hlen Hin. assert (bufferHeaderSize ≤ s_len hd) as Hlen' by lia.
  destruct (store_u32_ok (h_mem h) (padd (slice_ptr hd) bufferSizeOffset) 0) as (m1&E1&H1&C1).
  { eapply in_mem_sub; [exact Hin|consts; lia..]. }
  destruct (store_u32_ok m1 (padd (slice_ptr hd) bufferDataStartOffset) 0) as (m2&E2&H2&C2).
  { apply C1. eapply in_mem_sub; [exact Hin|consts; lia..]. }
  destruct (header_clearFlag_ok hd Hlen' m2) as (m3&E3&H3&C3); [by apply C2, C1|].
  exists m3. split_and!; [| | |done|].
  - unfold slice_reset. mrun Hp. rewrite Hhd. rewrite bind_assoc.
    mby ltac:(apply header_ptr; consts; lia). rewrite bind_assoc. mrun E1.
    rewrite bind_assoc. mby ltac:(apply header_ptr; consts; lia). rewrite bind_assoc. mrun E2.
    mrun E3. done.
  - consts. eapply changes_peek_u32; [exact C3|solve_disj|]. eapply changes_peek_u32; [exact C2|solve_disj|done].
  - consts. eapply changes_peek_u32; [exact C3|solve_disj|done].
  - eapply changes_only_enlarge.
    + eapply changes_only_trans; [exact C1|]. eapply changes_only_trans; [exact C2|exact C3].
    + consts. solve_enlarge.
Qed.

Definition push_wins (s l : Z) : list (ptr * Z) :=
  [(g_base g, 4); (padd (g_base g) 12, 4); (padd (g_base g) (g_co g), 4);
   (padd (slot_ptr g s) bufferSizeOffset, 8); (padd (slot_ptr g s) bufferFlagOffset, 1);
   (padd (slot_ptr g l) nextBufferOffset, 5)].

Definition link_wins (l : Z) : list (ptr * Z) :=
  [(g_base g, 4); (padd (g_base g) 12, 4); (padd (g_base g) (g_co g), 4); (padd (slot_ptr g l) nextBufferOffset, 5)].

(** The memory effect of linking a slot behind the last one. *)
Lemma push_memory m k fl l s f :
  blist_rep m g k fl → last fl = Some l → is_slot g s → s ∉ fl →
  peek_u8 m (padd (slot_ptr g l) bufferFlagOffset) = Some f →
  ∃ m1 m2 m3 m4,
    atomic_cas_u32 (bl_tail b) l s m = Done (true, m1) ∧
    header_linkNext (slot_header g l) s m1 = Done (tt, m2) ∧
    (∃ v, atomic_add_i32 (bl_size b) 1 m2 = Done (v, m3)) ∧
    (∃ v, atomic_add_i32 (bl_counter b) (-1) m3 = Done (v, m4)) ∧
    peek_u32 m4 (g_base g) = Some (Z.of_nat (length (fl ++ [s]))) ∧
    peek_u32 m4 (padd (g_base g) 12) = Some s ∧
    peek_u32 m4 (padd (g_base g) (g_co g)) = Some (u32 (k - 1)) ∧
    peek_u32 m4 (padd (slot_ptr g l) nextBufferOffset) = Some s ∧
    peek_u8 m4 (padd (slot_ptr g l) bufferFlagOffset) = Some (u8 (Z.lor f hasNextBufferFlag)) ∧
    changes_only m m4 (link_wins l).
Proof.
  intros Hr Hl Hs Hns Hf. pose proof Hr as []. pose proof br_geom0 as Hg. pose proof Hg as [].
  assert (is_slot g l) as Hsl.
  { rewrite Forall_forall in br_slots0. apply br_slots0. apply last_Some in Hl as [? ->]. set_solver. }
  assert (Z.of_nat (length (fl ++ [s])) ≤ g_num g) as Hn.
  { eapply slots_length; [done|apply Forall_app; split; [done|by apply Forall_singleton]|].
    apply NoDup_app. split_and!; [done|set_solver|apply NoDup_singleton]. }
  rewrite length_app in *. cbn [length] in *. pose proof (geom_num_small _ Hg).
  destruct br_tail0 as (l'&Hl'&Htl). rewrite Hl in Hl'. injection Hl' as <-.
  pose proof Hs as (?&?&_). pose proof Hsl as (?&?&_).
  destruct (atomic_cas_hit m _ l s Htl) as (m1&E1&P1&C1). rewrite u32_small in P1 by (consts; lia).
  assert (bufferHeaderSize ≤ s_len (slot_header g l)) as Hlen by done.
  rewrite <- slot_header_ptr in Hf.
  destruct (header_linkNext_ok _ Hlen m1 f s) as (m2&E2&P2&P2'&C2).
  { rewrite slot_header_ptr. apply C1. by eapply slot_header_in_mem. }
  { rewrite slot_header_ptr, slot_ptr_padd in *. consts. eapply changes_peek_u8; [exact C1|solve_disj|done]. }
  rewrite slot_header_ptr, slot_ptr_padd in *. rewrite u32_small in P2 by (consts; lia).
  destruct (atomic_add_i32_ok m2 (g_base g) (Z.of_nat (length fl)) 1) as (m3&E3&P3&C3).
  { rewrite <- (padd_0 (g_base g)) in *. rewrite ?padd_padd in *. consts.
    eapply changes_peek_u32; [exact C2|solve_disj|]. eapply changes_peek_u32; [exact C1|solve_disj|done]. }
  rewrite size_step_u in P3 by lia.
  destruct br_counter0 as (v0&Hv0&Ev0). destruct (atomic_add_i32_ok m3 (padd (g_base g) (g_co g)) v0 (-1)) as (m4&E4&P4&C4).
  { consts. eapply changes_peek_u32; [exact C3|solve_disj|]. eapply changes_peek_u32; [exact C2|solve_disj|].
    eapply changes_peek_u32; [exact C1|solve_disj|done]. }
  rewrite (counter_step _ k) in P4 by done.
  exists m1, m2, m3, m4. unfold link_wins. rewrite !slot_ptr_padd. consts. split_and!; try done.
  - by eexists.
  - by eexists.
  - rewrite Nat2Z.inj_add. eapply changes_peek_u32; [exact C4|solve_disj|done].
  - eapply changes_peek_u32; [exact C4|solve_disj|]. eapply changes_peek_u32; [exact C3|solve_disj|].
    eapply changes_peek_u32; [exact C2|solve_disj|done].
  - eapply changes_peek_u32; [exact C4|solve_disj|]. eapply changes_peek_u32; [exact C3|solve_disj|done].
  - eapply changes_peek_u8; [exact C4|solve_disj|]. eapply changes_peek_u8; [exact C3|solve_disj|done].
  - eapply changes_only_enlarge.
    + eapply changes_only_trans; [exact C1|]. eapply changes_only_trans; [exact C2|].
      eapply changes_only_trans; [exact C3|exact C4].
    + solve_enlarge.
Qed.

Lemma last_slot m k fl l : blist_rep m g k fl → last fl = Some l → l ∈ fl ∧ is_slot g l.
Proof.
  intros Hr Hl. assert (l ∈ fl) as Hin by (apply last_Some in Hl as [fl' ->]; set_solver).
  split; [done|]. pose proof (br_slots _ _ _ _ Hr) as Hs. rewrite Forall_forall in Hs. by apply Hs.
Qed.

Lemma link_wins_apart l u :
  geom_ok g → is_slot g l → is_slot g u → l ≠ u →
  Forall (λ w, disjoint_win w.1 w.2 (slot_ptr g u) bufferHeaderSize) (link_wins l).
Proof.
  intros Hg Hl Hu Hne. pose proof Hg as []. pose proof Hu as (?&?&_).
  unfold link_wins. repeat (apply Forall_cons; split);
    [unfold slot_ptr; consts; solve_disj..| |apply Forall_nil_2].
  apply slot_win_apart; try done; consts; lia.
Qed.

Lemma link_wins_cap l u :
  geom_ok g → is_slot g l → is_slot g u → Forall (λ w, disjoint_win w.1 w.2 (slot_ptr g u) 4) (link_wins l).
Proof.
  intros Hg Hl Hu. destruct (decide (l = u)) as [->|Hne].
  - pose proof Hg as []. pose proof Hu as (?&?&_). unfold link_wins. rewrite slot_ptr_padd.
    unfold slot_ptr. consts. solve_disj.
  - rewrite <- (padd_0 (slot_ptr g u)).
    eapply Forall_disjoint_sub; [by apply link_wins_apart|consts; lia..].
Qed.

(** The free slots after [s] was linked behind [l]. *)
Lemma push_free m m' k fl l s :
  blist_rep m g k fl → last fl = Some l → is_slot g s → s ∉ fl → free_slot m g s None →
  peek_u32 m' (padd (slot_ptr g l) nextBufferOffset) = Some s →
  (∃ f, peek_u8 m' (padd (slot_ptr g l) bufferFlagOffset) = Some (u8 (Z.lor f hasNextBufferFlag))) →
  changes_only m m' (link_wins l) →
  ∀ i u, (fl ++ [s]) !! i = Some u → free_slot m' g u ((fl ++ [s]) !! (i + 1)%nat).
Proof.
  intros Hr Hl Hs Hns Hfs Hnx [f Hf] Hc i u Hi. pose proof Hr as [].
  destruct (last_slot _ _ _ _ Hr Hl) as [Hlf Hls]. pose proof br_geom0 as [].
  pose proof Hls as (?&?&_). apply lookup_snoc_Some in Hi as [[Hlt Hi]|[-> <-]].
  - destruct (decide (u = l)) as [->|Hne].
    + assert (i = length fl - 1)%nat as ->.
      { eapply NoDup_lookup; [done|exact Hi|]. rewrite last_lookup in Hl.
        by replace (Nat.pred (length fl)) with (length fl - 1)%nat in Hl by lia. }
      replace (length fl - 1 + 1)%nat with (length fl) by lia.
      rewrite list_lookup_middle by done.
      destruct (br_free0 _ _ Hi) as [Hz1 Hz2 _ _].
      constructor; [| |eexists; split; [done|apply flag_next_link]|by intros t [= <-]].
      * eapply changes_peek_u32; [exact Hc| |exact Hz1]. unfold link_wins. rewrite !slot_ptr_padd. consts. solve_disj.
      * eapply changes_peek_u32; [exact Hc| |exact Hz2]. unfold link_wins. rewrite !slot_ptr_padd. consts. solve_disj.
    + assert (i + 1 < length fl)%nat.
      { destruct (decide (i + 1 < length fl)%nat); [done|]. exfalso. apply Hne.
        rewrite last_lookup in Hl. replace (Nat.pred (length fl)) with i in Hl by lia. congruence. }
      rewrite lookup_app_l by done. eapply free_slot_frame; [by apply br_free0|exact Hc|].
      apply link_wins_apart; try done. rewrite Forall_forall in br_slots0.
      apply br_slots0. by eapply list_elem_of_lookup_2.
  - rewrite (lookup_ge_None_2 (fl ++ [s])) by len.
    eapply free_slot_frame; [exact Hfs|exact Hc|]. apply link_wins_apart; try done. by intros ->.
Qed.

Lemma push_rep m m' k fl l s :
  blist_rep m g k fl → last fl = Some l → is_slot g s → s ∉ fl → free_slot m g s None →
  peek_u32 m' (g_base g) = Some (Z.of_nat (length (fl ++ [s]))) →
  peek_u32 m' (padd (g_base g) 12) = Some s →
  peek_u32 m' (padd (g_base g) (g_co g)) = Some (u32 (k - 1)) →
  peek_u32 m' (padd (slot_ptr g l) nextBufferOffset) = Some s →
  (∃ f, peek_u8 m' (padd (slot_ptr g l) bufferFlagOffset) = Some (u8 (Z.lor f hasNextBufferFlag))) →
  changes_only m m' (link_wins l) →
  blist_rep m' g (k - 1) (fl ++ [s]).
Proof.
  intros Hr Hl Hs Hns Hfs H1 H2 H3 H4 H5 Hc. pose proof Hr as [].
  destruct (last_slot _ _ _ _ Hr Hl) as [Hlf Hls]. pose proof br_geom0 as []. pose proof Hls as (?&?&_).
  constructor; try done.
  - by apply Hc.
  - eapply changes_peek_u32; [exact Hc| |done]. unfold link_wins. rewrite slot_ptr_padd. consts. solve_disj.
  - destruct br_head0 as (s'&Hs'&?). exists s'. split; [by destruct fl|].
    eapply changes_peek_u32; [exact Hc| |done]. unfold link_wins. rewrite slot_ptr_padd. consts. solve_disj.
  - exists s. by rewrite last_snoc.
  - eapply changes_peek_u32; [exact Hc| |done]. unfold link_wins. rewrite slot_ptr_padd. consts. solve_disj.
  - by apply counts_exact.
  - apply Forall_app; split; [done|by apply Forall_singleton].
  - apply NoDup_app. split_and!; [done|set_solver|apply NoDup_singleton].
  - intros u Hu. eapply changes_peek_u32; [exact Hc|by apply link_wins_cap|by apply br_caps0].
  - by eapply push_free.
Qed.

(** [push] appends the slot to the free list; only the list header, the
    header of the slot and the header of the last free slot are written. *)
Lemma bufferList_push_ok h k fl l s p o :
  blist_rep (h_mem h) g k fl → last fl = Some l → is_slot g s → s ∉ fl →
  h_slices h !! p = Some o → slot_obj s o →
  ∃ m', bufferList_push b p h = Done (tt, upd_slice (set_mem m' h) p (reset_slice o)) ∧
    blist_rep m' g (k - 1) (fl ++ [s]) ∧
    changes_only (h_mem h) m' [list_win g; slot_win g s; slot_win g l].
Proof.
  intros Hr Hl Hs Hns Hp [(hd&Hhd&Ehd&Hlen) ? ? ? ? Hoff ?]. pose proof (br_geom _ _ _ _ Hr) as Hg.
  pose proof Hg as []. destruct (last_slot _ _ _ _ Hr Hl) as [Hlf Hls].
  pose proof Hs as (?&?&_). pose proof Hls as (?&?&_).
  destruct (slice_reset_ok h p o hd Hp Hhd Hlen) as (m0&E0&Z1&Z2&Z3&C0).
  { rewrite Ehd. by eapply slot_header_in_mem. }
  rewrite Ehd in *.
  assert (blist_rep m0 g k fl) as Hr0.
  { eapply blist_rep_frame; [exact Hr|exact C0|..].
    - rewrite !slot_ptr_padd. consts. solve_disj.
    - intros u Hu. pose proof (br_slots _ _ _ _ Hr) as Hsl. rewrite Forall_forall in Hsl.
      assert (s ≠ u) by (by intros ->).
      repeat (apply Forall_cons; split); [..|apply Forall_nil_2]; (apply slot_win_apart; [done|done|by apply Hsl|done|cbn; consts; lia|cbn; consts; lia]).
    - intros u Hu. destruct (decide (s = u)) as [->|Hne].
      + rewrite !slot_ptr_padd. unfold slot_ptr. consts. solve_disj.
      + destruct (slot_apart _ _ _ Hg Hs Hu Hne); rewrite !slot_ptr_padd; unfold slot_ptr; consts; solve_disj. }
  assert (∃ i, fl !! i = Some l ∧ i = (length fl - 1)%nat) as (il&Hil&_).
  { rewrite last_lookup in Hl. eexists. split; [exact Hl|lia]. }
  destruct (br_free _ _ _ _ Hr0 _ _ Hil) as [_ _ (f&Hf&_) _].
  destruct (push_memory m0 k fl l s f) as (m1&m2&m3&m4&E1&E2&[v3 E3]&[v4 E4]&P1&P2&P3&P4&P5&C4); [done..|].
  exists m4. split_and!.
  - unfold bufferList_push. mrun E0. unfold push_fuel. cbn [push_loop].
    destruct (br_tail _ _ _ _ Hr0) as (l'&Hl'&Htl). rewrite Hl in Hl'. injection Hl' as <-.
    mrun Htl. mby ltac:(apply get_slice_ok; cbn; apply lookup_insert_eq).
    cbn [bs_offsetInShm reset_slice with_next with_indices bl_bufferRegionOffsetInShm list_of].
    replace (u32 _) with s by (rewrite u32_small, Hoff; consts; lia).
    mrun E1. mby ltac:(by apply region_header). mrun E2. mrun E3. mrun E4. done.
  - eapply push_rep; try done; [|by exists f].
    constructor; [done..|by exists 0|done].
  - eapply changes_only_enlarge; [eapply changes_only_trans; [exact C0|exact C4]|].
    unfold link_wins, list_win, slot_win. rewrite !slot_ptr_padd. unfold slot_ptr. consts. solve_enlarge.
Qed.
End list_ops.

(** ** A free list is a FIFO of slots *)

Inductive lop := LAlloc | LFree (i : nat).

(** Clients hold the objects [held]; [LFree i] gives the [i]-th one back the
    way [recycleBuffer] does.  The results are the offsets handed out. *)
Fixpoint run_lops (l : bufferList) (os : list lop) (held : list nat) : M heap (list (option Z) * list nat) :=
  match os with
  | [] => mret ([], held)
  | LAlloc :: os =>
      r ← bufferList_pop l;
      match r with
      | inr p =>
          o ← get_slice p;
          rs ← run_lops l os (held ++ [p]);
          mret (Some (bs_offsetInShm o) :: rs.1, rs.2)
      | inl _ => rs ← run_lops l os held; mret (None :: rs.1, rs.2)
      end
  | LFree i :: os =>
      match held !! i with
      | Some p =>
          _ ← bufferList_push l p;
          _ ← putBackBufferSlice p;
          run_lops l os (delete i held)
      | None => run_lops l os held
      end
  end.

Definition slot_offset (g : geom) (s : Z) : Z := s + (g_off g + bufferListHeaderSize).

Fixpoint spec_lops (g : geom) (os : list lop) (fl hs : list Z) : list (option Z) * (list Z * list Z) :=
  match os with
  | [] => ([], (fl, hs))
  | LAlloc :: os =>
      match fl with
      | s :: (_ :: _) as fl' => let r := spec_lops g os (tail fl) (hs ++ [s]) in (Some (slot_offset g s) :: r.1, r.2)
      | _ => let r := spec_lops g os fl hs in (None :: r.1, r.2)
      end
  | LFree i :: os =>
      match hs !! i with
      | Some s => spec_lops g os (fl ++ [s]) (delete i hs)
      | None => spec_lops g os fl hs
      end
  end.

(** Who owns what: every slot is free or held by one object, never both. *)
Record blist_own (h : heap) (g : geom) (fl hs : list Z) (held : list nat) : Prop := {
  bo_rep : blist_rep (h_mem h) g (Z.of_nat (length hs)) fl;
  bo_pool : pool_ok h;
  bo_objs : Forall2 (λ p s, ∃ o, h_slices h !! p = Some o ∧ slot_obj g s o) held hs;
  bo_slots : Forall (is_slot g) hs;
  bo_apart : NoDup (fl ++ hs);
  bo_held : NoDup held;
  bo_notpool : Forall (λ p, p ∉ h_pool h) held
}.

(** Objects that are not touched stay objects of their slots. *)
Lemma objs_mono g (T T' : gmap nat bufferSlice) held hs :
  Forall2 (λ p s, ∃ o, T !! p = Some o ∧ slot_obj g s o) held hs →
  (∀ p, p ∈ held → T' !! p = T !! p) →
  Forall2 (λ p s, ∃ o, T' !! p = Some o ∧ slot_obj g s o) held hs.
Proof.
  rewrite !Forall2_same_length_lookup. intros [Hl H] Hm. split; [done|].
  intros i p s Hp Hs. rewrite Hm by (by eapply list_elem_of_lookup_2). by eapply H.
Qed.

Lemma own_pop h g fl hs held s t h' p :
  blist_own h g (s :: t :: fl) hs held →
  fresh_obj h h' p (slot_slice g s) → blist_rep (h_mem h') g (Z.of_nat (length hs) + 1) (t :: fl) →
  blist_own h' g (t :: fl) (hs ++ [s]) (held ++ [p]).
Proof.
  intros [] [] Hr'. pose proof (br_geom _ _ _ _ Hr') as Hg.
  assert (is_slot g s) as Hs by (pose proof (br_slots _ _ _ _ bo_rep0) as F; by inversion_clear F).
  assert (p ∉ held) as Hph.
  { intros Hin. destruct fo_new0 as [Hpl|Hnone].
    - rewrite Forall_forall in bo_notpool0. by eapply bo_notpool0.
    - apply list_elem_of_lookup in Hin as [i Hi].
      destruct (Forall2_lookup_l _ _ _ _ _ bo_objs0 Hi) as (s'&_&o&?&_). congruence. }
  constructor.
  - rewrite length_app, Nat2Z.inj_add. exact Hr'.
  - done.
  - apply Forall2_app.
    + eapply objs_mono; [exact bo_objs0|]. intros q Hq. rewrite fo_slices0.
      apply lookup_insert_ne. by intros ->.
    + constructor; [|constructor]. eexists. rewrite fo_slices0, lookup_insert_eq.
      split; [done|]. by apply slot_slice_obj.
  - apply Forall_app. split; [done|by apply Forall_singleton].
  - rewrite app_assoc. apply NoDup_app in bo_apart0 as Hnd. cbn in bo_apart0.
    apply NoDup_cons in bo_apart0 as [??].
    apply NoDup_app. split_and!; [done|set_solver|apply NoDup_singleton].
  - apply NoDup_app. split_and!; [done|set_solver|apply NoDup_singleton].
  - apply Forall_app. split; [|by apply Forall_singleton].
    eapply Forall_impl; [exact bo_notpool0|]. intros q Hq. rewrite fo_sub0.
    destruct (h_pool h); [done|]. set_solver.
Qed.

(** The object goes back to the pool when the slot goes back to the list. *)
Definition recycled (h : heap) (m : gmem) (p : nat) : heap :=
  Heap m (<[p := zero_bufferSlice]> (h_slices h)) (p :: h_pool h).

Lemma pool_ok_recycled h m p : pool_ok h → p ∉ h_pool h → pool_ok (recycled h m p).
Proof.
  intros [Hz Hnd] Hp. constructor; cbn; [|by constructor].
  apply Forall_cons. split; [apply lookup_insert_eq|].
  rewrite Forall_forall in Hz |- *. intros q Hq. rewrite lookup_insert_ne; [by apply Hz|]. by intros ->.
Qed.

Lemma own_push h g fl hs held i p s m' :
  blist_own h g fl hs held → held !! i = Some p → hs !! i = Some s →
  blist_rep m' g (Z.of_nat (length hs) - 1) (fl ++ [s]) →
  blist_own (recycled h m' p) g (fl ++ [s]) (delete i hs) (delete i held).
Proof.
  intros [] Hp Hs Hr'.
  assert (p ∉ h_pool h) as Hnp by (by eapply Forall_lookup_1 in bo_notpool0).
  assert (p ∉ delete i held) as Hpd.
  { rewrite delete_take_drop. rewrite <- (take_drop_middle held i p Hp) in bo_held0.
    apply NoDup_app in bo_held0 as (_&Hd&Hnd). apply NoDup_cons in Hnd as [Hnd _]. set_solver. }
  constructor; cbn [h_mem h_slices h_pool recycled].
  - rewrite length_delete by eauto. apply lookup_lt_Some in Hs.
    replace (Z.of_nat (length hs - 1)) with (Z.of_nat (length hs) - 1) by lia. exact Hr'.
  - by apply pool_ok_recycled.
  - eapply objs_mono; [by apply Forall2_delete|]. intros q Hq. apply lookup_insert_ne. by intros ->.
  - rewrite Forall_forall in *. intros u Hu. apply bo_slots0. by eapply list_elem_of_delete_inv.
  - eapply NoDup_Permutation_proper; [|exact bo_apart0].
    rewrite <- app_assoc. f_equiv. rewrite delete_take_drop.
    rewrite <- (take_drop_middle hs i s Hs) at 3. cbn. by rewrite Permutation_middle.
  - rewrite delete_take_drop. rewrite <- (take_drop_middle held i p Hp) in bo_held0.
    rewrite <- Permutation_middle in bo_held0. by apply NoDup_cons in bo_held0 as [_ ?].
  - rewrite Forall_forall in *. intros q Hq.
    apply not_elem_of_cons. split; [by intros ->|]. apply bo_notpool0. by eapply list_elem_of_delete_inv.
Qed.

(** List operations write headers only: the bytes of no slot change. *)
Definition data_same (g : geom) (m m' : gmem) : Prop :=
  ∀ u, is_slot g u →
    peek m' (padd (slot_ptr g u) bufferHeaderSize) (g_cap g) = peek m (padd (slot_ptr g u) bufferHeaderSize) (g_cap g).

Lemma data_apart g s u :
  geom_ok g → is_slot g s → is_slot g u →
  disjoint_win (slot_ptr g s) bufferHeaderSize (padd (slot_ptr g u) bufferHeaderSize) (g_cap g).
Proof.
  intros Hg Hs Hu. pose proof Hg as []. rewrite slot_ptr_padd. unfold slot_ptr.
  destruct (decide (s = u)) as [->|Hne]; [consts; solve_disj|].
  destruct (slot_apart _ _ _ Hg Hs Hu Hne); consts; solve_disj.
Qed.

Lemma headers_data_same g m m' ss :
  geom_ok g → Forall (is_slot g) ss → changes_only m m' (list_win g :: (slot_win g <$> ss)) → data_same g m m'.
Proof.
  intros Hg Hss [Hc _] u Hu. apply Hc. pose proof Hg as []. pose proof Hu as (?&?&_).
  apply Forall_cons. split; [unfold list_win; rewrite slot_ptr_padd; consts; cbn; solve_disj|].
  apply Forall_fmap. eapply Forall_impl; [exact Hss|]. intros s Hs. by apply data_apart.
Qed.

Lemma pop_headers g m m' s :
  geom_ok g → is_slot g s → changes_only m m' (pop_wins g s) → changes_only m m' [list_win g; slot_win g s].
Proof.
  intros [] (?&?&_) Hc. eapply changes_only_enlarge; [exact Hc|].
  unfold pop_wins, list_win, slot_win. rewrite slot_ptr_padd. unfold slot_ptr. consts. solve_enlarge.
Qed.

Lemma data_same_trans g m1 m2 m3 : data_same g m1 m2 → data_same g m2 m3 → data_same g m1 m3.
Proof. intros H1 H2 u Hu. rewrite H2 by done. by apply H1. Qed.

Lemma putBack_ok h p o : h_slices h !! p = Some o →
  putBackBufferSlice p h = Done (tt, recycled h (h_mem h) p).
Proof. intros Hp. unfold putBackBufferSlice. mrun Hp. done. Qed.

(** One push of a held object, and its return to the pool. *)
Lemma own_push_run h g fl hs held i p s :
  blist_own h g fl hs held → held !! i = Some p → hs !! i = Some s →
  ∃ m' h1, bufferList_push (list_of g) p h = Done (tt, h1) ∧
    putBackBufferSlice p h1 = Done (tt, recycled h m' p) ∧
    blist_own (recycled h m' p) g (fl ++ [s]) (delete i hs) (delete i held) ∧ data_same g (h_mem h) m'.
Proof.
  intros Ho Hp Hs. pose proof Ho as []. pose proof (br_geom _ _ _ _ bo_rep0) as Hg.
  destruct (br_tail _ _ _ _ bo_rep0) as (l&Hl&_).
  destruct (last_slot _ _ _ _ _ bo_rep0 Hl) as [_ Hls].
  assert (is_slot g s) as Hslot by (by eapply Forall_lookup_1 in bo_slots0).
  assert (s ∉ fl) as Hns.
  { apply NoDup_app in bo_apart0 as (_&Hd&_). intros Hin. apply (Hd s Hin). by eapply list_elem_of_lookup_2. }
  destruct (Forall2_lookup_lr _ _ _ _ _ _ bo_objs0 Hp Hs) as (o&Hob&Hso).
  destruct (bufferList_push_ok g h (Z.of_nat (length hs)) fl l s p o) as (m'&E&Hr'&Hc); [done..|].
  exists m'. eexists. split_and!; [exact E| | |].
  - erewrite putBack_ok by (cbn; apply lookup_insert_eq). unfold recycled, upd_slice. cbn.
    by rewrite insert_insert_eq.
  - by apply own_push.
  - eapply (headers_data_same _ _ _ [s; l]); [done| |exact Hc].
    apply Forall_cons; split; [done|by apply Forall_singleton].
Qed.

(** [C8] A buffer list refines a FIFO of slots: over any sequence of
    allocations and releases, [pop] hands out the slot that has been free for
    the longest time (and [ErrNoMoreBuffer] when only one slot is left),
    [push] makes a slot the last one to be reused; no slot is ever held by
    two objects or free and held at once, the counter of the list is the
    number of slots in use, and the bytes of no slot are written. *)
Theorem buffer_list_refines os : ∀ h g fl hs held,
  blist_own h g fl hs held →
  ∃ h' held', run_lops (list_of g) os held h = Done (((spec_lops g os fl hs).1, held'), h') ∧
    blist_own h' g (spec_lops g os fl hs).2.1 (spec_lops g os fl hs).2.2 held' ∧
    data_same g (h_mem h) (h_mem h').
Proof.
  induction os as [|[|i] os IH]; intros h g fl hs held Ho; cbn [run_lops spec_lops].
  - by exists h, held.
  - pose proof Ho as []. pose proof (br_geom _ _ _ _ bo_rep0) as Hg.
    destruct fl as [|s [|t fl]].
    + by destruct (br_head _ _ _ _ bo_rep0) as (?&?&_).
    + destruct (bufferList_pop_empty g h _ s bo_rep0) as (m'&E&Hr'&Hc).
      destruct (IH (set_mem m' h) g [s] hs held) as (h'&held'&E'&Ho'&Hd).
      { constructor; try done. by destruct bo_pool0. }
      exists h', held'. split_and!; [|done|].
      * mrun E. by mrun E'.
      * eapply data_same_trans; [|exact Hd]. eapply (headers_data_same _ _ _ []); [done|constructor|].
        eapply changes_only_enlarge; [exact Hc|]. unfold list_win. consts. solve_enlarge.
    + destruct (bufferList_pop_ok g h _ s t fl bo_rep0 bo_pool0) as (p&h1&E&Hf&Hr'&Hc&_).
      assert (is_slot g s) as Hs by (pose proof (br_slots _ _ _ _ bo_rep0) as F; by inversion_clear F).
      destruct (IH h1 g (t :: fl) (hs ++ [s]) (held ++ [p])) as (h'&held'&E'&Ho'&Hd); [by eapply own_pop|].
      exists h', held'. split_and!; [|done|].
      * mrun E. mby ltac:(apply get_slice_ok; rewrite (fo_slices _ _ _ _ Hf); apply lookup_insert_eq). by mrun E'.
      * eapply data_same_trans; [|exact Hd]. eapply (headers_data_same _ _ _ [s]); [done|by apply Forall_singleton|].
        by apply pop_headers.
  - pose proof Ho as []. pose proof (Forall2_length _ _ _ bo_objs0) as Hlen.
    destruct (held !! i) as [p|] eqn:Hp.
    + destruct (lookup_lt_is_Some_2 hs i) as [s Hs]; [rewrite <- Hlen; by eapply lookup_lt_Some|].
      rewrite Hs. destruct (own_push_run _ _ _ _ _ _ _ _ Ho Hp Hs) as (m'&h1&E1&E2&Ho'&Hd').
      destruct (IH _ _ _ _ _ Ho') as (h'&held'&E'&Ho''&Hd).
      exists h', held'. split_and!; [|done|by eapply data_same_trans].
      mrun E1. mrun E2. exact E'.
    + rewrite (lookup_ge_None_2 hs i) by (rewrite <- Hlen; by apply lookup_ge_None_1).
      by apply IH.
Qed.

(** ** Creation *)

(** The list at offset [off] of a mapping. *)
Definition geom_at (mem : gslice) (off co cap num : Z) : geom :=
  Geom (padd (slice_ptr mem) off) off co cap num (s_cap mem - (off + bufferListHeaderSize)).

Definition slots_from (g : geom) (i : Z) (n : nat) : list Z := (λ j, j * g_step g) <$> seqZ i (Z.of_nat n).
Definition all_slots (g : geom) : list Z := slots_from g 0 (Z.to_nat (g_num g)).

(** What the loop has written for slot number [j]. *)
Record slot_init (m : gmem) (g : geom) (j : Z) : Prop := {
  si_cap : peek_u32 m (slot_ptr g (j * g_step g)) = Some (g_cap g);
  si_size : peek_u32 m (padd (slot_ptr g (j * g_step g)) bufferSizeOffset) = Some 0;
  si_start : peek_u32 m (padd (slot_ptr g (j * g_step g)) bufferDataStartOffset) = Some 0;
  si_next : j < g_num g - 1 →
    peek_u32 m (padd (slot_ptr g (j * g_step g)) nextBufferOffset) = Some ((j + 1) * g_step g) ∧
    ∃ f, peek_u8 m (padd (slot_ptr g (j * g_step g)) bufferFlagOffset) = Some f ∧ flag_next f = true
}.

Lemma slot_init_frame m m' ws g j :
  slot_init m g j → changes_only m m' ws →
  Forall (λ w, disjoint_win w.1 w.2 (slot_ptr g (j * g_step g)) bufferHeaderSize) ws → slot_init m' g j.
Proof.
  intros [H1 H2 H3 H4] Hc Hd.
  assert (∀ d k, 0 ≤ d → d + k ≤ 20 →
            Forall (λ w, disjoint_win w.1 w.2 (padd (slot_ptr g (j * g_step g)) d) k) ws) as Hs.
  { intros d k ??. eapply Forall_disjoint_sub; [exact Hd|unfold bufferHeaderSize; lia..]. }
  constructor.
  - rewrite <- (padd_0 (slot_ptr _ _)) in H1 |- *. eapply changes_peek_u32; [exact Hc|apply Hs; lia|done].
  - eapply changes_peek_u32; [exact Hc|apply Hs; unfold bufferSizeOffset; lia|done].
  - eapply changes_peek_u32; [exact Hc|apply Hs; unfold bufferDataStartOffset; lia|done].
  - intros (?&f&?&?)%H4. split.
    + eapply changes_peek_u32; [exact Hc|apply Hs; unfold nextBufferOffset; lia|done].
    + exists f. split; [|done]. eapply changes_peek_u8; [exact Hc|apply Hs; unfold bufferFlagOffset; lia|done].
Qed.

Section create.
Context (g : geom) (Hg : geom_ok g).

Lemma slot_num j : 0 ≤ j < g_num g → is_slot g (j * g_step g).
Proof.
  intros. pose proof Hg as []. unfold is_slot, g_bytes. assert (0 < g_step g) by (consts; lia).
  split_and!; [nia|nia|]. apply Z.mod_mul. lia.
Qed.

Lemma region_index {S} (st : S) s d :
  is_slot g s → 0 ≤ d < g_step g →
  index_ptr (g_region g) (u32 (s + d)) st = Done (padd (slot_ptr g s) d, st).
Proof.
  intros (?&?&_) ?. pose proof Hg as []. rewrite u32_small by (consts; lia).
  rewrite index_ptr_ok by (cbn; lia). unfold slot_ptr, padd. cbn. do 3 f_equal. consts. lia.
Qed.

Lemma region_index0 {S} (st : S) s :
  is_slot g s → index_ptr (g_region g) s st = Done (padd (slot_ptr g s) 0, st).
Proof.
  intros Hs. pose proof Hs as (?&?&_). pose proof Hg as [].
  rewrite <- (region_index st s 0) by (done || consts; lia). by rewrite u32_small, Z.add_0_r by (consts; lia).
Qed.

(** One round of the loop. *)
Lemma create_slot_step m j (n : nat) :
  0 ≤ j < g_num g → in_mem m (slot_ptr g (j * g_step g)) (g_step g) →
  ∃ m', create_slots (S n) (g_region g) (g_num g) (g_cap g) j (j * g_step g) m =
          create_slots n (g_region g) (g_num g) (g_cap g) (j + 1) ((j + 1) * g_step g) m' ∧
        slot_init m' g j ∧ changes_only m m' [(slot_ptr g (j * g_step g), g_step g)].
Proof.
  intros Hj Hin. pose proof (slot_num j Hj) as Hs. pose proof Hs as (?&?&_). pose proof Hg as [].
  set (P := slot_ptr g (j * g_step g)) in *.
  assert (∀ d k, 0 ≤ d → 0 ≤ k → d + k ≤ 20 → in_mem m (padd P d) k) as Hi.
  { intros. eapply in_mem_sub; [exact Hin|consts; lia..]. }
  destruct (store_u32_ok m (padd P 0) (g_cap g)) as (m1&E1&Q1&C1); [apply Hi; lia|].
  rewrite u32_small in Q1 by (unfold g_bytes in *; consts; nia).
  destruct (store_u32_ok m1 (padd P 4) 0) as (m2&E2&Q2&C2); [apply C1, Hi; lia|].
  destruct (store_u32_ok m2 (padd P 8) 0) as (m3&E3&Q3&C3); [apply C2, C1, Hi; lia|].
  assert (u32 (j * g_step g + g_cap g + bufferHeaderSize) = (j + 1) * g_step g) as Hnext.
  { rewrite u32_small; [consts; lia|]. consts; lia. }
  pose proof (geom_num_small _ Hg).
  assert (∃ m4, (if j <? u32 (g_num g - 1) then
             p3 ← index_ptr (g_region g) (u32 (j * g_step g + nextBufferOffset));
             _ ← store_u32 p3 ((j + 1) * g_step g);
             p4 ← index_ptr (g_region g) (u32 (j * g_step g + bufferFlagOffset));
             f ← load_u8 p4;
             store_u8 p4 (Z.lor f hasNextBufferFlag)
           else mret tt) m3 = Done (tt, m4) ∧
           (j < g_num g - 1 → peek_u32 m4 (padd P 12) = Some ((j + 1) * g_step g) ∧
              ∃ f, peek_u8 m4 (padd P 16) = Some f ∧ flag_next f = true) ∧
           changes_only m3 m4 [(padd P 12, 8)]) as (m4&E4&Q4&C4).
  { rewrite (u32_small (g_num g - 1)) by lia. destruct (j <? g_num g - 1) eqn:E; breflect.
    - destruct (in_mem_peek m3 (padd P 16) 1) as (fl&Hfl&_); [apply C3, C2, C1, Hi; lia|].
      destruct (store_u32_ok m3 (padd P 12) ((j + 1) * g_step g)) as (m5&E5&Q5&C5); [apply C3, C2, C1, Hi; lia|].
      assert (peek_u8 m5 (padd P 16) = Some (le_val fl)) as Hf.
      { eapply changes_peek_u8; [exact C5|solve_disj|]. unfold peek_u8. by rewrite Hfl. }
      destruct (store_u8_ok m5 (padd P 16) (Z.lor (le_val fl) hasNextBufferFlag)) as (m6&E6&Q6&C6); [eauto with shm|].
      exists m6. split_and!.
      + mby ltac:(apply region_index; [done|consts; lia]). mrun E5.
        mby ltac:(apply region_index; [done|consts; lia]). mrun Hf. exact E6.
      + intros _. split.
        * eapply changes_peek_u32; [exact C6|solve_disj|]. rewrite Q5. f_equal.
          apply u32_small. consts. lia.
        * eexists. split; [exact Q6|]. apply flag_next_link.
      + eapply changes_only_enlarge; [eapply changes_only_trans; [exact C5|exact C6]|]. solve_enlarge.
    - exists m3. split_and!; [done|lia|apply changes_only_refl]. }
  exists m4. split_and!.
  - cbn [create_slots]. rewrite Hnext.
    mby ltac:(by apply region_index0). fold P. mrun E1.
    mby ltac:(apply region_index; [done|consts; lia]). fold P. mrun E2.
    mby ltac:(apply region_index; [done|consts; lia]). fold P. mrun E3.
    by mrun E4.
  - constructor; fold P; consts.
    + rewrite <- (padd_0 P). eapply changes_peek_u32; [exact C4|solve_disj|].
      eapply changes_peek_u32; [exact C3|solve_disj|]. eapply changes_peek_u32; [exact C2|solve_disj|done].
    + eapply changes_peek_u32; [exact C4|solve_disj|]. eapply changes_peek_u32; [exact C3|solve_disj|done].
    + eapply changes_peek_u32; [exact C4|solve_disj|done].
    + done.
  - eapply changes_only_enlarge.
    + eapply changes_only_trans; [exact C1|]. eapply changes_only_trans; [exact C2|].
      eapply changes_only_trans; [exact C3|exact C4].
    + consts. solve_enlarge.
Qed.

Lemma create_slots_spec (n : nat) : ∀ m j,
  0 ≤ j → j + Z.of_nat n = g_num g → in_mem m (slot_ptr g (j * g_step g)) (Z.of_nat n * g_step g) →
  ∃ m', create_slots n (g_region g) (g_num g) (g_cap g) j (j * g_step g) m = Done (tt, m') ∧
    (∀ i, j ≤ i < g_num g → slot_init m' g i) ∧
    changes_only m m' [(slot_ptr g (j * g_step g), Z.of_nat n * g_step g)].
Proof.
  pose proof Hg as []. assert (0 < g_step g) by (consts; lia).
  induction n as [|n IH]; intros m j Hj Hn Hin.
  - exists m. split_and!; [done|lia|apply changes_only_refl].
  - rewrite Nat2Z.inj_succ in *.
    destruct (create_slot_step m j n) as (m1&E1&Hi&C1); [lia| |].
    { rewrite <- (padd_0 (slot_ptr _ _)). eapply in_mem_sub; [exact Hin|nia..]. }
    destruct (IH m1 (j + 1)) as (m2&E2&His&C2); [lia|lia| |].
    { apply C1. replace (slot_ptr g ((j + 1) * g_step g)) with (padd (slot_ptr g (j * g_step g)) (g_step g)).
      - eapply in_mem_sub; [exact Hin|nia..].
      - rewrite slot_ptr_padd. unfold slot_ptr. f_equal. lia. }
    exists m2. split_and!; [by rewrite E1| |].
    + intros i Hi'. destruct (decide (i = j)) as [->|]; [|apply His; lia].
      eapply slot_init_frame; [exact Hi|exact C2|]. unfold slot_ptr. constructor; [|constructor].
      unfold disjoint_win. cbn. right. consts. lia.
    + eapply changes_only_enlarge; [eapply changes_only_trans; [exact C1|exact C2]|].
      cbn [app]. repeat (apply Forall_cons; split); [..|apply Forall_nil_2]; apply Exists_cons_hd;
        unfold win_in, slot_ptr; cbn; split_and!; try done; nia.
Qed.

Lemma all_slots_lookup i s :
  all_slots g !! i = Some s ↔ s = Z.of_nat i * g_step g ∧ Z.of_nat i < g_num g.
Proof.
  unfold all_slots, slots_from. pose proof Hg as []. rewrite list_lookup_fmap, fmap_Some.
  setoid_rewrite lookup_seqZ. rewrite Z2Nat.id by lia. split.
  - intros (j&[-> ?]&->). by split.
  - intros [-> ?]. exists (Z.of_nat i). auto.
Qed.

Lemma all_slots_length : length (all_slots g) = Z.to_nat (g_num g).
Proof. unfold all_slots, slots_from. rewrite length_fmap, length_seqZ. lia. Qed.

Lemma all_slots_nodup : NoDup (all_slots g).
Proof.
  pose proof Hg as []. apply NoDup_alt. intros i j s [-> ?]%all_slots_lookup [? ?]%all_slots_lookup.
  assert (0 < g_step g) by (consts; lia). nia.
Qed.

Lemma all_slots_slots : Forall (is_slot g) (all_slots g).
Proof.
  apply Forall_lookup. intros i s [-> ?]%all_slots_lookup. apply slot_num. lia.
Qed.

Lemma slot_all s : is_slot g s → ∃ j, 0 ≤ j < g_num g ∧ s = j * g_step g.
Proof.
  intros (?&Hb&Hm). pose proof Hg as []. assert (0 < g_step g) by (consts; lia).
  apply Z.mod_divide in Hm as [j ->]; [|lia]. exists j. unfold g_bytes in Hb. split; [nia|done].
Qed.

(** The header words and the slots together represent the full list. *)
Lemma created_rep m :
  g_co g = 20 →
  in_mem m (g_base g) (bufferListHeaderSize + g_bytes g) →
  peek_u32 m (g_base g) = Some (g_num g) → peek_u32 m (padd (g_base g) 4) = Some (g_num g) →
  peek_u32 m (padd (g_base g) 8) = Some 0 →
  peek_u32 m (padd (g_base g) 12) = Some ((g_num g - 1) * g_step g) →
  peek_u32 m (padd (g_base g) 16) = Some (g_cap g) → peek_u32 m (padd (g_base g) 20) = Some 0 →
  (∀ i, 0 ≤ i < g_num g → slot_init m g i) →
  peek_u8 m (padd (slot_ptr g ((g_num g - 1) * g_step g)) bufferFlagOffset) = Some 0 →
  blist_rep m g 0 (all_slots g).
Proof.
  intros Hco Hin H1 H2 H3 H4 H5 H6 Hi Hz. pose proof Hg as [].
  constructor; try done.
  - rewrite all_slots_length, H1. f_equal. lia.
  - exists 0. split; [|done]. assert (all_slots g !! 0%nat = Some 0) as Hl by (apply all_slots_lookup; lia).
    destruct (all_slots g); cbn in *; congruence.
  - eexists. split; [|exact H4]. rewrite last_lookup, all_slots_length.
    apply all_slots_lookup. rewrite Nat2Z.inj_pred, Z2Nat.id by lia. lia.
  - rewrite Hco. by apply counts_exact.
  - apply all_slots_slots.
  - apply all_slots_nodup.
  - intros s (j&?&->)%slot_all. by apply Hi.
  - intros i s [-> Hlt]%all_slots_lookup. destruct (Hi (Z.of_nat i)) as [? ? ? Hn]; [lia|].
    destruct (decide (Z.of_nat i < g_num g - 1)) as [Hl|Hl].
    + assert (all_slots g !! (i + 1)%nat = Some ((Z.of_nat i + 1) * g_step g)) as ->
        by (apply all_slots_lookup; lia).
      destruct Hn as (?&f&?&?); [done|]. constructor; [done..|by exists f|by intros ? [= <-]].
    + assert (all_slots g !! (i + 1)%nat = None) as -> by (apply lookup_ge_None; rewrite all_slots_length; lia).
      constructor; [done..| |done]. exists 0. split; [|done].
      by replace (Z.of_nat i) with (g_num g - 1) by lia.
Qed.
End create.

Lemma countBufferListMemSize_ok num cap :
  0 ≤ num → 0 ≤ cap → bufferListHeaderSize + num * (cap + bufferHeaderSize) < 2 ^ 32 → cap + bufferHeaderSize < 2 ^ 32 →
  countBufferListMemSize num cap = bufferListHeaderSize + num * (cap + bufferHeaderSize).
Proof.
  intros. unfold countBufferListMemSize. consts. rewrite (u32_small (cap + 20)) by lia.
  rewrite (u32_small (num * _)) by nia. apply u32_small. nia.
Qed.

(** A mapping with room for a list. *)
Record list_room (m : gmem) (mem : gslice) (off cap num : Z) : Prop := {
  lr_num : 0 < num;
  lr_cap : 0 < cap;
  lr_off : 0 ≤ off;
  lr_end : off + bufferListHeaderSize + num * (cap + bufferHeaderSize) ≤ s_len mem;
  lr_len : s_len mem < 2 ^ 32;
  lr_scap : s_len mem ≤ s_cap mem;
  lr_mem : in_mem m (slice_ptr mem) (s_len mem)
}.

Lemma list_room_geom m mem off cap num co :
  list_room m mem off cap num → co = 20 ∨ co = 24 → geom_ok (geom_at mem off co cap num).
Proof. intros [] ?. constructor; unfold g_bytes, g_step; cbn; consts; lia || done. Qed.

Lemma list_room_index {S} (st : S) m mem off cap num d :
  list_room m mem off cap num → 0 ≤ d < bufferListHeaderSize →
  index_ptr mem (u32 (off + d)) st = Done (padd (padd (slice_ptr mem) off) d, st).
Proof.
  intros [] ?. rewrite u32_small by (consts; nia). rewrite index_ptr_ok by (consts; nia).
  unfold padd, slice_ptr. cbn. do 3 f_equal. lia.
Qed.

Lemma list_room_region {S} (st : S) m mem off co cap num :
  list_room m mem off cap num →
  subslice mem (u32 (off + bufferListHeaderSize))
    (u32 (off + (bufferListHeaderSize + num * (cap + bufferHeaderSize)))) st =
  Done (g_region (geom_at mem off co cap num), st).
Proof.
  intros []. rewrite !u32_small by (consts; nia). rewrite subslice_ok by (consts; nia).
  unfold g_region, g_bytes, g_step. cbn. do 3 f_equal; consts; lia.
Qed.

(** The six header words are written one after the other. *)
Lemma header_words_ok m B num tail cap :
  in_mem m B 24 → 0 ≤ num < 2 ^ 32 → 0 ≤ tail < 2 ^ 32 → 0 ≤ cap < 2 ^ 32 →
  ∃ m1 m2 m3 m4 m5 m6,
    store_u32 (padd B 0) num m = Done (tt, m1) ∧ store_u32 (padd B 4) num m1 = Done (tt, m2) ∧
    store_u32 (padd B 8) 0 m2 = Done (tt, m3) ∧ store_u32 (padd B 12) tail m3 = Done (tt, m4) ∧
    store_u32 (padd B 16) cap m4 = Done (tt, m5) ∧ store_u32 (padd B 20) 0 m5 = Done (tt, m6) ∧
    peek_u32 m6 (padd B 0) = Some num ∧ peek_u32 m6 (padd B 4) = Some num ∧ peek_u32 m6 (padd B 8) = Some 0 ∧
    peek_u32 m6 (padd B 12) = Some tail ∧ peek_u32 m6 (padd B 16) = Some cap ∧
    peek_u32 m6 (padd B 20) = Some 0 ∧ changes_only m m6 [(B, 24)].
Proof.
  intros Hin ???. assert (∀ d, 0 ≤ d → d + 4 ≤ 24 → in_mem m (padd B d) 4) as Hi.
  { intros. eapply in_mem_sub; [exact Hin|lia..]. }
  destruct (store_u32_ok m (padd B 0) num) as (m1&E1&Q1&C1); [apply Hi; lia|].
  destruct (store_u32_ok m1 (padd B 4) num) as (m2&E2&Q2&C2); [apply C1, Hi; lia|].
  destruct (store_u32_ok m2 (padd B 8) 0) as (m3&E3&Q3&C3); [apply C2, C1, Hi; lia|].
  destruct (store_u32_ok m3 (padd B 12) tail) as (m4&E4&Q4&C4); [apply C3, C2, C1, Hi; lia|].
  destruct (store_u32_ok m4 (padd B 16) cap) as (m5&E5&Q5&C5); [apply C4, C3, C2, C1, Hi; lia|].
  destruct (store_u32_ok m5 (padd B 20) 0) as (m6&E6&Q6&C6); [apply C5, C4, C3, C2, C1, Hi; lia|].
  rewrite u32_small in * by lia.
  exists m1, m2, m3, m4, m5, m6. split_and!; try done.
  - do 5 (eapply changes_peek_u32; [eassumption|solve_disj|]). done.
  - do 4 (eapply changes_peek_u32; [eassumption|solve_disj|]). done.
  - do 3 (eapply changes_peek_u32; [eassumption|solve_disj|]). done.
  - do 2 (eapply changes_peek_u32; [eassumption|solve_disj|]). done.
  - do 1 (eapply changes_peek_u32; [eassumption|solve_disj|]). done.
  - eapply changes_only_enlarge.
    + eapply changes_only_trans; [exact C1|]. eapply changes_only_trans; [exact C2|].
      eapply changes_only_trans; [exact C3|]. eapply changes_only_trans; [exact C4|].
      eapply changes_only_trans; [exact C5|exact C6].
    + solve_enlarge.
Qed.

Lemma list_room_region0 {S} (st : S) m mem off co cap num :
  list_room m mem off cap num → let g := geom_at mem off co cap num in
  subslice mem (off + bufferListHeaderSize) (off + (bufferListHeaderSize + g_bytes g)) st =
  Done (g_region g, st).
Proof.
  intros [] g. assert (g_bytes g = num * (cap + bufferHeaderSize)) as Hb by done.
  assert (0 ≤ g_bytes g) by (rewrite Hb; consts; nia).
  assert (off + bufferListHeaderSize + g_bytes g ≤ s_len mem) by (rewrite Hb; lia).
  rewrite subslice_ok by (consts; lia).
  unfold g_region. cbn. do 3 f_equal; consts; lia.
Qed.

(** Clearing the flag of the last slot keeps what the loop wrote. *)
Lemma slot_init_clear m m' g i :
  geom_ok g → slot_init m g i →
  changes_only m m' [(padd (g_base g) (bufferListHeaderSize + (g_num g - 1) * g_step g + bufferFlagOffset), 1)] →
  0 ≤ i < g_num g → slot_init m' g i.
Proof.
  intros Hg Hi Hc Hlt. pose proof Hg as []. rewrite <- slot_ptr_padd in Hc.
  destruct (decide (i = g_num g - 1)) as [->|Hne].
  - destruct Hi as [H1 H2 H3 _]. rewrite <- (padd_0 (slot_ptr _ _)) in H1. rewrite !slot_ptr_padd in *.
    constructor; [rewrite <- (padd_0 (slot_ptr _ _))| | |lia]; rewrite ?slot_ptr_padd;
      eapply changes_peek_u32; try exact Hc; try done; consts; solve_disj.
  - eapply slot_init_frame; [exact Hi|exact Hc|]. apply Forall_singleton.
    assert (0 < g_step g) by (consts; lia).
    apply slot_win_apart; [done|apply slot_num; [done|lia]|apply slot_num; [done|lia]
      |intros Heq; apply Z.mul_reg_r in Heq; lia|consts; lia|cbn; consts; lia].
Qed.

(** A new list has every slot free, in order of their addresses. *)
Lemma createFreeBufferList_ok m mem off cap num :
  list_room m mem off cap num →
  let g := geom_at mem off 20 cap num in
  ∃ m', createFreeBufferList num cap mem off m = Done (inr (list_of g), m') ∧
    blist_rep m' g 0 (all_slots g) ∧
    changes_only m m' [(g_base g, bufferListHeaderSize + g_bytes g)].
Proof.
  intros Hroom g. pose proof (list_room_geom _ _ _ _ _ 20 Hroom (or_introl eq_refl)) as Hg. fold g in Hg.
  pose proof Hroom as []. pose proof Hg as [].
  assert (0 < g_step g) by (consts; lia).
  assert (g_bytes g = num * g_step g) as Hb by done. pose proof (geom_num_small _ Hg) as Hn. cbn in Hn.
  assert (g_step g = cap + bufferHeaderSize) as Hst by done.
  assert (in_mem m (g_base g) (bufferListHeaderSize + g_bytes g)) as Hin.
  { eapply in_mem_sub; [exact lr_mem0|consts; lia..]. }
  destruct (header_words_ok m (g_base g) num ((num - 1) * g_step g) cap)
    as (m1&m2&m3&m4&m5&m6&E1&E2&E3&E4&E5&E6&Q1&Q2&Q3&Q4&Q5&Q6&C6).
  { rewrite <- (padd_0 (g_base g)). eapply in_mem_sub; [exact Hin|consts; lia..]. }
  1-3: consts; nia.
  destruct (create_slots_spec g Hg (Z.to_nat num) m6 0) as (m7&E7&His&C7); [lia|cbn; lia| |].
  { apply C6. rewrite Z2Nat.id by lia. unfold slot_ptr. eapply in_mem_sub; [exact Hin|consts; lia..]. }
  rewrite Z2Nat.id in C7 by lia. rewrite Z.mul_0_l in *. unfold slot_ptr in C7 at 1. rewrite Z.add_0_r in C7.
  set (L := (num - 1) * g_step g) in *.
  assert (is_slot g L) as HL by (apply (slot_num g Hg (num - 1)); cbn; lia). pose proof HL as (?&?&_).
  set (hd := GSlice (p_arr (g_base g)) (p_off (g_base g) + bufferListHeaderSize + L) (g_bytes g - L) (g_scap g - L)).
  assert (slice_ptr hd = slot_ptr g L) as Ehd by (unfold slice_ptr, slot_ptr, padd; cbn; f_equal; lia).
  assert (bufferHeaderSize ≤ s_len hd) as Hlen by (cbn; consts; lia).
  destruct (header_clearFlag_ok hd Hlen m7) as (m8&E8&Q8&C8).
  { rewrite Ehd. apply C7, C6. eapply in_mem_sub; [exact Hin|consts; lia..]. }
  rewrite Ehd, slot_ptr_padd in *.
  assert (∀ d v, 0 ≤ d → d + 4 ≤ 24 → peek_u32 m6 (padd (g_base g) d) = Some v →
            peek_u32 m8 (padd (g_base g) d) = Some v) as Hw.
  { intros d v ?? Hp. consts. eapply changes_peek_u32; [exact C8|solve_disj|].
    eapply changes_peek_u32; [exact C7|solve_disj|done]. }
  exists m8. split_and!.
  - assert (off + bufferListHeaderSize + g_bytes g ≤ s_len mem) as Hend by (rewrite Hb, Hst; lia).
    assert (countBufferListMemSize num cap = bufferListHeaderSize + g_bytes g) as Hcnt.
    { rewrite Hb, Hst. apply countBufferListMemSize_ok; rewrite <- ?Hst, <- ?Hb; consts; nia. }
    assert (0 < g_bytes g) by (rewrite Hb; apply Z.mul_pos_pos; lia).
    unfold createFreeBufferList. rewrite Hcnt.
    rewrite (u32_small (s_len mem)) by (consts; lia).
    rewrite (u32_small (off + (_ + _))), (u32_small (off + bufferListHeaderSize)) by (consts; lia).
    replace ((num =? 0) || (cap =? 0)) with false by (symmetry; bdecide; done). cbv iota.
    replace (_ || _) with false by (symmetry; consts; bdecide; done). cbv iota.
    replace (_ <=? _) with false by (symmetry; consts; bdecide; done). cbv iota.
    do 6 (mby ltac:(eapply list_room_index; [exact Hroom|unfold bufferListHeaderSize; lia])).
    mby ltac:(eapply list_room_region0; exact Hroom). change (padd (slice_ptr mem) off) with (g_base g).
    replace (u32 (u32 (num - 1) * _)) with L
      by (rewrite (u32_small (num - 1)), (u32_small (cap + bufferHeaderSize)), <- Hst by (consts; nia);
          symmetry; apply u32_small; consts; lia).
    mrun E1. mrun E2. mrun E3. mrun E4. mrun E5. mrun E6. mrun E7.
    assert (peek_u32 m7 (padd (g_base g) 12) = Some L) as Htl
      by (consts; eapply changes_peek_u32; [exact C7|solve_disj|done]).
    fold g. mrun Htl. unfold subslice_from.
    mby ltac:(eapply subslice_ok; cbn [g_region s_len s_cap]; consts; lia).
    cbn [g_region s_arr s_off s_len s_cap]. fold hd. mrun E8.
    by rewrite padd_0.
  - apply created_rep; try done.
    + by apply C8, C7, C6.
    + rewrite <- (padd_0 (g_base g)). apply Hw; [lia..|done].
    + apply Hw; [lia..|done].
    + apply Hw; [lia..|done].
    + apply Hw; [lia..|done].
    + apply Hw; [lia..|done].
    + apply Hw; [lia..|done].
    + intros i Hi.
      eapply slot_init_clear; [exact Hg|by apply His|exact C8|done].
    + cbn [g_num g geom_at]. fold L. by rewrite slot_ptr_padd.
  - eapply changes_only_enlarge.
    + eapply changes_only_trans; [exact C6|]. eapply changes_only_trans; [exact C7|exact C8].
    + consts. solve_enlarge.
Qed.

(** ** Mapping *)

Lemma mappingFreeBufferList_ok m mem off cap num :
  list_room m mem off cap num →
  peek_u32 m (padd (padd (slice_ptr mem) off) 4) = Some num →
  peek_u32 m (padd (padd (slice_ptr mem) off) 16) = Some cap →
  mappingFreeBufferList mem off m = Done (inr (list_of (geom_at mem off 24 cap num)), m).
Proof.
  intros Hroom Hn Hc. pose proof Hroom as []. pose proof (list_room_geom _ _ _ _ _ 24 Hroom (or_intror eq_refl)) as Hg.
  assert (0 < num * (cap + bufferHeaderSize)) by (apply Z.mul_pos_pos; consts; lia).
  unfold mappingFreeBufferList. replace (s_len mem <? _) with false by (symmetry; consts; bdecide; done).
  do 6 (mby ltac:(eapply list_room_index; [exact Hroom|unfold bufferListHeaderSize; lia])).
  mrun Hn. mrun Hc. assert (cap + bufferHeaderSize ≤ num * (cap + bufferHeaderSize)) by (consts; nia).
  rewrite countBufferListMemSize_ok by (consts; lia).
  rewrite (u32_small (s_len mem)) by (consts; lia).
  rewrite (u32_small (off + (_ + _))), (u32_small (off + bufferListHeaderSize)) by (consts; lia).
  replace (_ || _) with false by (symmetry; consts; bdecide; done). cbv iota.
  mby ltac:(eapply (list_room_region0 _ _ _ _ 24); exact Hroom). by rewrite padd_0.
Qed.

(** ** Witness *)

Definition demo_shm : gslice := GSlice 0 0 400 400.
Definition demo_shm_mem : gmem := {[ 0%nat := replicate 400 0 ]}.

(** A list of six slots, all free. *)
Definition demo_geom : geom := geom_at demo_shm 8 20 4 6.

Lemma demo_list_room : list_room demo_shm_mem demo_shm 8 4 6.
Proof.
  constructor; try (vm_compute; done).
  split_and!; cbn; try lia. eexists. split; [reflexivity|]. vm_compute. done.
Qed.

Lemma buffer_list_refines_witness :
  ∃ m h' held',
    createFreeBufferList 6 4 demo_shm 8 demo_shm_mem = Done (inr (list_of demo_geom), m) ∧
    run_lops (list_of demo_geom) [LAlloc; LAlloc; LFree 0; LAlloc; LAlloc; LAlloc; LAlloc; LAlloc; LFree 1] []
      (Heap m ∅ []) =
    Done (([Some 44; Some 68; Some 92; Some 116; Some 140; Some 164; None], held'), h').
Proof.
  destruct (createFreeBufferList_ok demo_shm_mem demo_shm 8 4 6 demo_list_room) as (m&E&Hr&_).
  destruct (buffer_list_refines [LAlloc; LAlloc; LFree 0; LAlloc; LAlloc; LAlloc; LAlloc; LAlloc; LFree 1]
              (Heap m ∅ []) demo_geom (all_slots demo_geom) [] []) as (h'&held'&E'&_).
  - constructor; [exact Hr|split; constructor|constructor|constructor| |constructor|constructor].
    rewrite app_nil_r. exact (br_nodup _ _ _ _ Hr).
  - exists m, h', held'. split; [exact E|]. rewrite E'. vm_compute. reflexivity.
Defined.

