(* ===== verification/BufferListConc.v ===== *)
(** * The buffer list under interleaving ([pop] and [push] of [buffer_manager.go])

    The goroutines of both processes take slots from the head of a list and give them back
    at its tail, without a lock.  A step is one load, store, add or compare-and-swap of a
    shared word.  Slots are named by their offsets in the region of the list; of a header
    only the link and the flags matter here.  The size of a list and the number of retries
    are those of the source; the counters are two, since each process counts in a word of
    its own. *)

From Stdlib Require Import ZArith Lia.
From stdpp Require Import relations prelude list gmap.
From S2P Require Import Prelude GoMem BufferSlice.

(** ** States *)

(** Where a goroutine is.  [pop]: [k] is the round of the loop, [old] the head it looked at;
    [push]: [x] is the slot that is given back. *)
Inductive blpc :=
| Idle
| ODec (old : Z)
| OFlag (k : nat) (old : Z)
| ONext (k : nat) (old : Z)
| OCas (k : nat) (old nx : Z)
| OSize (k : nat)
| OReload (k : nat)
| ORestore
| OClear (old : Z)
| OUsed (old : Z)
| OUsedStore (old f : Z)
| OCount (old : Z)
| PReset (x : Z)
| PTail (x : Z)
| PCas (x old : Z)
| PLink (old x : Z)
| PFlag (old : Z)
| PFlagStore (old f : Z)
| PSize
| PCount.
#[global] Instance blpc_eq_dec : EqDecision blpc.
Proof. solve_decision. Defined.

(** The link and the flags in the header of a slot. *)
Record hdr := Hdr { hd_next : Z; hd_flag : Z }.
#[global] Instance hdr_eq_dec : EqDecision hdr.
Proof. solve_decision. Defined.

(** [f_held]: the slots that the program has taken and not yet given back.  A goroutine
    [i] is of the process that created the list if [f_side i]. *)
Record blconc := Blconc {
  f_head : Z; f_tail : Z; f_size : Z; f_counter : bool → Z; f_hdr : gmap Z hdr;
  f_pcs : list blpc; f_held : list Z
}.

Definition set_pc (i : nat) (p : blpc) (s : blconc) : blconc :=
  Blconc (f_head s) (f_tail s) (f_size s) (f_counter s) (f_hdr s) (<[i := p]> (f_pcs s)) (f_held s).
Definition set_head (x : Z) (s : blconc) : blconc :=
  Blconc x (f_tail s) (f_size s) (f_counter s) (f_hdr s) (f_pcs s) (f_held s).
Definition set_tail (x : Z) (s : blconc) : blconc :=
  Blconc (f_head s) x (f_size s) (f_counter s) (f_hdr s) (f_pcs s) (f_held s).
Definition add_size (n : Z) (s : blconc) : blconc :=
  Blconc (f_head s) (f_tail s) (f_size s + n) (f_counter s) (f_hdr s) (f_pcs s) (f_held s).
Definition add_counter (b : bool) (n : Z) (s : blconc) : blconc :=
  Blconc (f_head s) (f_tail s) (f_size s)
    (λ b', if bool_decide (b = b') then f_counter s b' + n else f_counter s b') (f_hdr s) (f_pcs s) (f_held s).
Definition set_hdr (x : Z) (h : hdr) (s : blconc) : blconc :=
  Blconc (f_head s) (f_tail s) (f_size s) (f_counter s) (<[x := h]> (f_hdr s)) (f_pcs s) (f_held s).
Definition set_held (l : list Z) (s : blconc) : blconc :=
  Blconc (f_head s) (f_tail s) (f_size s) (f_counter s) (f_hdr s) (f_pcs s) l.

(** ** Steps *)

(** A retry loop of [pop] ends after this many rounds. *)
Definition maxRetry : nat := 200.
#[local] Arguments maxRetry : simpl never.
#[local] Arguments Nat.ltb : simpl never.

Definition has_next (f : Z) : bool := Z.land f hasNextBufferFlag >? 0.

(** One step of goroutine [i].  An offset that is not that of a slot has no header: the
    goroutine stops. *)
Definition pop_step (side : bool) (i : nat) (p : blpc) (s : blconc) : option blconc :=
  match p with
  | ODec old =>
      let remain := f_size s - 1 in
      Some (set_pc i (if remain <=? 0 then ORestore else OFlag 0 old) (add_size (-1) s))
  | OFlag k old =>
      h ← f_hdr s !! old;
      Some (set_pc i (if has_next (hd_flag h) then ONext k old else OSize k) s)
  | ONext k old => h ← f_hdr s !! old; Some (set_pc i (OCas k old (hd_next h)) s)
  | OCas k old nx =>
      if f_head s =? old then Some (set_pc i (OClear old) (set_head nx s)) else Some (set_pc i (OReload k) s)
  | OSize k => Some (set_pc i (if f_size s <=? 1 then ORestore else OReload k) s)
  | OReload k => Some (set_pc i (if (S k <? maxRetry)%nat then OFlag (S k) (f_head s) else ORestore) s)
  | ORestore => Some (set_pc i Idle (add_size 1 s))
  | OClear old => h ← f_hdr s !! old; Some (set_pc i (OUsed old) (set_hdr old (Hdr (hd_next h) 0) s))
  | OUsed old => h ← f_hdr s !! old; Some (set_pc i (OUsedStore old (hd_flag h)) s)
  | OUsedStore old f =>
      h ← f_hdr s !! old; Some (set_pc i (OCount old) (set_hdr old (Hdr (hd_next h) (Z.lor f sliceInUsedFlag)) s))
  | OCount old => Some (set_pc i Idle (set_held (old :: f_held s) (add_counter side 1 s)))
  | _ => None
  end.

Definition push_step (side : bool) (i : nat) (p : blpc) (s : blconc) : option blconc :=
  match p with
  | PReset x => h ← f_hdr s !! x; Some (set_pc i (PTail x) (set_hdr x (Hdr (hd_next h) 0) s))
  | PTail x => Some (set_pc i (PCas x (f_tail s)) s)
  | PCas x old =>
      if f_tail s =? old then Some (set_pc i (PLink old x) (set_tail x s)) else Some (set_pc i (PTail x) s)
  | PLink old x => h ← f_hdr s !! old; Some (set_pc i (PFlag old) (set_hdr old (Hdr x (hd_flag h)) s))
  | PFlag old => h ← f_hdr s !! old; Some (set_pc i (PFlagStore old (hd_flag h)) s)
  | PFlagStore old f =>
      h ← f_hdr s !! old; Some (set_pc i PSize (set_hdr old (Hdr (hd_next h) (Z.lor f hasNextBufferFlag)) s))
  | PSize => Some (set_pc i PCount (add_size 1 s))
  | PCount => Some (set_pc i Idle (add_counter side (-1) s))
  | _ => None
  end.

(** What happens next: a goroutine calls [pop] (and loads the head), or [push] with a slot
    that is held, or goes on; or a holder writes the link and the flags of its slot, as
    [update] does. *)
Inductive label := LPop (i : nat) | LPush (i : nat) (x : Z) | LRun (i : nat) | LWrite (x nx f : Z).

Definition rm (x : Z) (l : list Z) : list Z := match list_find (x =.) l with Some (k, _) => delete k l | None => l end.

Definition lstep (side : nat → bool) (l : label) (s : blconc) : option blconc :=
  match l with
  | LPop i => p ← f_pcs s !! i; if bool_decide (p = Idle) then Some (set_pc i (ODec (f_head s)) s) else None
  | LPush i x =>
      p ← f_pcs s !! i;
      if bool_decide (p = Idle ∧ x ∈ f_held s) then Some (set_pc i (PReset x) (set_held (rm x (f_held s)) s)) else None
  | LRun i =>
      p ← f_pcs s !! i;
      match pop_step (side i) i p s with Some s' => Some s' | None => push_step (side i) i p s end
  | LWrite x nx f => if bool_decide (x ∈ f_held s) then Some (set_hdr x (Hdr nx f) s) else None
  end.

Fixpoint run (side : nat → bool) (ls : list label) (s : blconc) : option blconc :=
  match ls with [] => Some s | l :: ls => s' ← lstep side l s; run side ls s' end.

(** A new list, as [createFreeBufferList] makes it in memory that is zero, and [n]
    goroutines. *)
Definition slot_at (c : Z) (k : nat) : Z := Z.of_nat k * (c + bufferHeaderSize).
Definition slot_offsets (num : nat) (c : Z) : list Z := slot_at c <$> seq 0 num.
Definition new_hdr (num : nat) (c : Z) (k : nat) : hdr :=
  if (S k <? num)%nat then Hdr (slot_at c (S k)) hasNextBufferFlag else Hdr 0 0.
Definition new_list (num : nat) (c : Z) (n : nat) : blconc :=
  Blconc 0 (slot_at c (num - 1)) (Z.of_nat num) (λ _, 0)
    (list_to_map ((λ k, (slot_at c k, new_hdr num c k)) <$> seq 0 num)) (replicate n Idle) [].

(** ** The invariant *)

(** The slot that a goroutine in the middle of [pop] or [push] has to itself. *)
Definition owned (p : blpc) : list Z :=
  match p with
  | OClear x | OUsed x | OUsedStore x _ | OCount x | PReset x | PTail x | PCas x _ => [x]
  | _ => []
  end.
Definition in_flight (pcs : list blpc) : list Z := pcs ≫= owned.

(** The former tail that a goroutine is about to link. *)
Definition linking (p : blpc) : option Z :=
  match p with PLink a _ | PFlag a | PFlagStore a _ => Some a | _ => None end.
Definition link_ok (p : blpc) (h : hdr) (b : Z) : Prop :=
  match p with PLink _ x => x = b | PFlag _ => hd_next h = b | PFlagStore _ f => hd_next h = b ∧ f = 0 | _ => False end.

(** The slot that a goroutine has reset and will append. *)
Definition reset_slot (p : blpc) : option Z := match p with PTail x | PCas x _ => Some x | _ => None end.

(** What a goroutine has added to the list and not to its size, or taken from the size
    and not from the list; the same for the counters. *)
Definition w_size (p : blpc) : Z :=
  match p with OFlag _ _ | ONext _ _ | OCas _ _ _ | OSize _ | OReload _ | ORestore | PLink _ _ | PFlag _ | PFlagStore _ _ | PSize => 1 | _ => 0 end.
Definition w_count (p : blpc) : Z :=
  match p with
  | OClear _ | OUsed _ | OUsedStore _ _ | OCount _ => 1
  | PLink _ _ | PFlag _ | PFlagStore _ _ | PSize | PCount => -1
  | _ => 0
  end.
Definition total (w : blpc → Z) (pcs : list blpc) : Z := foldr (λ p n, w p + n) 0 pcs.

(** [b] follows [a]. *)
Definition adj (Q : list Z) (a b : Z) : Prop := ∃ k, Q !! k = Some a ∧ Q !! S k = Some b.

(** The free slots [Q] in order: each is linked to the next or some goroutine is about to
    link it. *)
Record chain (Q : list Z) (s : blconc) : Prop := {
  ch_head : head Q = Some (f_head s);
  ch_tail : last Q = Some (f_tail s);
  ch_hdrs : ∀ x, x ∈ Q → is_Some (f_hdr s !! x);
  ch_last h : f_hdr s !! f_tail s = Some h → hd_flag h = 0;
  ch_links a b h : adj Q a b → f_hdr s !! a = Some h →
    (hd_flag h = hasNextBufferFlag ∧ hd_next h = b) ∨ (hd_flag h = 0 ∧ ∃ i p, f_pcs s !! i = Some p ∧ linking p = Some a);
  ch_linking i p a : f_pcs s !! i = Some p → linking p = Some a →
    ∃ b h, adj Q a b ∧ f_hdr s !! a = Some h ∧ hd_flag h = 0 ∧ link_ok p h b;
  ch_unique i j p q a : f_pcs s !! i = Some p → f_pcs s !! j = Some q → linking p = Some a → linking q = Some a → i = j;
  ch_clean i p x : f_pcs s !! i = Some p → reset_slot p = Some x → ∃ h, f_hdr s !! x = Some h ∧ hd_flag h = 0
}.

(** Every slot is free, held, or in the hands of one goroutine. *)
Record shared (all Q : list Z) (s : blconc) : Prop := {
  sh_slots : Q ++ f_held s ++ in_flight (f_pcs s) ≡ₚ all;
  sh_nodup : NoDup all;
  sh_hdrs : ∀ x, x ∈ all → is_Some (f_hdr s !! x);
  sh_size : f_size s + total w_size (f_pcs s) = Z.of_nat (length Q);
  sh_count : f_counter s true + f_counter s false + total w_count (f_pcs s) = Z.of_nat (length all) - Z.of_nat (length Q)
}.

(** A compare-and-swap of [pop] that succeeds has read the link that the head has now. *)
Definition fresh (s : blconc) : Prop :=
  ∀ i k nx, f_pcs s !! i = Some (OCas k (f_head s) nx) → f_hdr s !! f_head s = Some (Hdr nx hasNextBufferFlag).

(** ** Lists *)

Lemma total_insert w pcs i p p' : pcs !! i = Some p → total w (<[i := p']> pcs) = total w pcs - w p + w p'.
Proof.
  revert i. induction pcs as [|q pcs IH]; intros [|i] Hi; [done|done| |].
  - injection Hi as ->. cbn. fold (total w pcs). lia.
  - change (w q + total w (<[i := p']> pcs) = w q + total w pcs - w p + w p'). rewrite (IH i Hi). lia.
Qed.

Lemma in_flight_insert pcs i p p' : pcs !! i = Some p → in_flight (<[i := p']> pcs) ++ owned p ≡ₚ in_flight pcs ++ owned p'.
Proof.
  revert i. induction pcs as [|q pcs IH]; intros [|i] Hi; [done|done| |].
  - injection Hi as ->. cbn. solve_Permutation.
  - change ((owned q ++ in_flight (<[i := p']> pcs)) ++ owned p ≡ₚ (owned q ++ in_flight pcs) ++ owned p'). by rewrite <- !app_assoc, (IH i Hi).
Qed.

Lemma elem_in_flight pcs i p x : pcs !! i = Some p → x ∈ owned p → x ∈ in_flight pcs.
Proof. intros Hi Hx. apply list_elem_of_bind. exists p. split; [done|]. by eapply list_elem_of_lookup_2. Qed.

Lemma in_flight_once pcs i j p q x : NoDup (in_flight pcs) → pcs !! i = Some p → pcs !! j = Some q → x ∈ owned p → x ∈ owned q → i = j.
Proof.
  unfold in_flight. revert i j. induction pcs as [|r pcs IH]; intros [|i] [|j] Hn Hi Hj Hx Hy; cbn in *; simplify_eq; try done.
  - apply NoDup_app in Hn as (_&Hn&_). destruct (Hn x Hx). by eapply elem_in_flight.
  - apply NoDup_app in Hn as (_&Hn&_). destruct (Hn x Hy). by eapply elem_in_flight.
  - f_equal. apply NoDup_app in Hn as (_&_&Hn). by apply (IH i j).
Qed.

Lemma adj_in Q a b : adj Q a b → a ∈ Q.
Proof. intros (k&?&?). by eapply list_elem_of_lookup_2. Qed.

Lemma adj_cons x Q a b : adj (x :: Q) a b ↔ (a = x ∧ head Q = Some b) ∨ adj Q a b.
Proof.
  split.
  - intros ([|k]&?&?); cbn in *; [left; by destruct Q; simplify_eq|right; by exists k].
  - intros [[-> ?]|(k&?&?)]; [exists O; by destruct Q|by exists (S k)].
Qed.

Lemma adj_snoc Q x a b : adj (Q ++ [x]) a b ↔ adj Q a b ∨ (last Q = Some a ∧ b = x).
Proof.
  induction Q as [|y Q IH].
  - cbn. rewrite adj_cons. cbn. split; [intros [[? ?]|(k&?&?)]; done|intros [(k&?&?)|[? ?]]; done].
  - cbn [app]. rewrite !adj_cons, IH. destruct Q as [|z Q]; cbn; [|naive_solver].
    split; [intros [[-> [= ->]]|[(k&?&?)|[? ?]]]; auto; done|intros [[[? ?]|(k&?&?)]|[[= ->] ->]]; auto; done].
Qed.

Lemma adj_fun Q a b c : NoDup Q → adj Q a b → adj Q a c → b = c.
Proof. intros Hn (k&Hk&Hb) (k'&Hk'&Hc). assert (k = k') as <- by by eapply NoDup_lookup. congruence. Qed.

Lemma adj_last Q a b : NoDup Q → adj Q a b → last Q ≠ Some a.
Proof.
  intros Hn (k&Hk&Hb) Hl. rewrite last_lookup in Hl. assert (k = pred (length Q)) as -> by by eapply NoDup_lookup.
  apply lookup_lt_Some in Hb. lia.
Qed.

Lemma rm_perm x l : x ∈ l → x :: rm x l ≡ₚ l.
Proof.
  intros Hx. unfold rm. destruct (list_find (x =.) l) as [[k y]|] eqn:E.
  - apply list_find_Some in E as (Hk&->&_). symmetry. by apply delete_Permutation.
  - apply list_find_None in E. rewrite Forall_forall in E. by destruct (E x Hx).
Qed.

(** ** Steps keep the chain *)

(** A goroutine moves between points where it does not link. *)
Lemma chain_pc Q s i p p' : f_pcs s !! i = Some p → linking p = None → linking p' = None →
  (∀ x, reset_slot p' = Some x → ∃ h, f_hdr s !! x = Some h ∧ hd_flag h = 0) → chain Q s → chain Q (set_pc i p' s).
Proof.
  intros Hi Hp Hp' Hc [Hh Ht Hd Hl Hk Hg Hu Hcl].
  assert (∀ j q, <[i := p']> (f_pcs s) !! j = Some q → (j = i ∧ q = p') ∨ f_pcs s !! j = Some q) as Hback.
  { intros j q Hj. destruct (decide (i = j)) as [<-|?]; [|rewrite list_lookup_insert_ne in Hj; auto].
    rewrite list_lookup_insert_eq in Hj by by eapply lookup_lt_Some. simplify_eq. auto. }
  constructor; cbn [f_head f_tail f_hdr f_pcs set_pc]; try done.
  - intros a b h Ha Hb. destruct (Hk a b h Ha Hb) as [?|(?&j&q&Hj&Hq)]; [by left|right]. split; [done|]. exists j, q. split; [|done].
    rewrite list_lookup_insert_ne; [done|]. intros ->. simplify_eq.
  - intros j q a Hj Hq. destruct (Hback j q Hj) as [[_ ->]|Hj']; [congruence|]. by apply (Hg j q a).
  - intros j k q r a Hj Hr' Hq Hr. destruct (Hback j q Hj) as [[_ ->]|Hj']; [congruence|]. destruct (Hback k r Hr') as [[_ ->]|Hk']; [congruence|]. by apply (Hu j k q r a).
  - intros j q x Hj Hq. destruct (Hback j q Hj) as [[_ ->]|Hj']; [by apply Hc|]. by apply (Hcl j q x).
Qed.

(** The header of a slot that is not free and that nobody is about to append is written. *)
Lemma chain_hdr Q s x h : x ∉ Q → (∀ i p, f_pcs s !! i = Some p → reset_slot p ≠ Some x) → chain Q s → chain Q (set_hdr x h s).
Proof.
  intros Hx Hc [Hh Ht Hd Hl Hk Hg Hu Hcl].
  assert (∀ a, a ∈ Q → <[x := h]> (f_hdr s) !! a = f_hdr s !! a) as Hsame by (intros a Ha; apply lookup_insert_ne; intros ->; done).
  assert (f_tail s ∈ Q) as Htl by (apply last_Some_elem_of; done).
  constructor; cbn [f_head f_tail f_hdr f_pcs set_hdr]; try done.
  - intros a Ha. rewrite Hsame; auto.
  - intros h'. rewrite Hsame by done. apply Hl.
  - intros a b h' Ha. rewrite Hsame by by eapply adj_in. by apply Hk.
  - intros i p a Hi Hp. destruct (Hg i p a Hi Hp) as (b&h'&Ha&Hr). exists b, h'. rewrite Hsame by by eapply adj_in. done.
  - intros i p y Hi Hp. rewrite lookup_insert_ne; [by eapply Hcl|]. intros ->. by eapply Hc.
Qed.

(** [pop] takes the head. *)
Lemma chain_take Q s i k nx : NoDup Q → f_pcs s !! i = Some (OCas k (f_head s) nx) → fresh s → chain Q s →
  ∃ Q', Q = f_head s :: Q' ∧ chain Q' (set_pc i (OClear (f_head s)) (set_head nx s)).
Proof.
  intros Hn Hi Hf C. specialize (Hf i k nx Hi).
  assert (∃ x Q', Q = f_head s :: x :: Q') as (x&Q'&->).
  { destruct C as [Hh Ht _ Hl _ _ _ _]. destruct Q as [|y [|x Q']]; simplify_eq/=; [|eauto]. rewrite Hh in Hl. by specialize (Hl _ Hf). }
  exists (x :: Q'). split; [done|]. pose proof (NoDup_cons_1_1 _ _ Hn) as Hout. assert (adj (f_head s :: x :: Q') (f_head s) x) as Ha by (by exists O).
  destruct (ch_links _ _ C _ _ _ Ha Hf) as [[_ E]|[E _]]; [cbn in E; subst|done].
  apply (chain_pc _ (set_head x s) i (OCas k (f_head s) x)); try done. destruct C as [Hh Ht Hd Hl Hk Hg Hu Hcl].
  constructor; cbn [f_head f_tail f_hdr f_pcs set_head]; try done.
  - intros y Hy. apply Hd. set_solver.
  - intros a b h Hab. apply Hk. apply adj_cons. by right.
  - intros j p a Hj Hp. destruct (Hg j p a Hj Hp) as (b&h&Hab&Hr). exists b, h. split; [|done].
    apply adj_cons in Hab as [[-> _]|?]; [|done]. destruct Hr as (E&E'&_). rewrite Hf in E. simplify_eq.
Qed.

(** [push] makes its slot the tail. *)
Lemma chain_append Q s i x : NoDup Q → x ∉ Q → f_pcs s !! i = Some (PCas x (f_tail s)) → chain Q s →
  chain (Q ++ [x]) (set_pc i (PLink (f_tail s) x) (set_tail x s)).
Proof.
  intros Hn Hx Hi [Hh Ht Hd Hl Hk Hg Hu Hcl].
  assert (∀ j q, j ≠ i → <[i := PLink (f_tail s) x]> (f_pcs s) !! j = f_pcs s !! j) as Hne by (intros; by rewrite list_lookup_insert_ne).
  assert (<[i := PLink (f_tail s) x]> (f_pcs s) !! i = Some (PLink (f_tail s) x)) as He by (apply list_lookup_insert_eq; by eapply lookup_lt_Some).
  assert (∀ j p, f_pcs s !! j = Some p → linking p ≠ Some (f_tail s)) as Hnl.
  { intros j p Hj Hp. destruct (Hg j p _ Hj Hp) as (b&h&Ha&_). by apply (adj_last Q _ b Hn Ha). }
  destruct (Hcl i _ x Hi eq_refl) as (hx&Hhx&Hfx).
  constructor; cbn [f_head f_tail f_hdr f_pcs set_pc set_tail].
  - by destruct Q.
  - by rewrite last_snoc.
  - intros y [Hy|Hy]%elem_of_app; [by apply Hd|]. apply list_elem_of_singleton in Hy as ->. by eexists.
  - intros h Hh'. by simplify_eq.
  - intros a b h Ha Hb. apply adj_snoc in Ha as [Ha|[Ha ->]].
    + destruct (Hk a b h Ha Hb) as [?|(?&j&p&Hj&Hp)]; [by left|right]. split; [done|]. exists j, p. split; [|done]. rewrite Hne; [done|done|]. intros ->. by simplify_eq.
    + right. simplify_eq. split; [by apply Hl|]. by exists i, (PLink (f_tail s) x).
  - intros j p a Hj Hp. destruct (decide (j = i)) as [->|Hji].
    + rewrite He in Hj. injection Hj as <-. injection Hp as <-. destruct (Hd (f_tail s)) as [h Hh']; [by apply last_Some_elem_of|].
      exists x, h. split_and!; [apply adj_snoc; by right|done|by apply Hl|done].
    + rewrite Hne in Hj by done. destruct (Hg j p a Hj Hp) as (b&h&Ha&Hr). exists b, h. split; [|done]. apply adj_snoc. by left.
  - intros j k p q a Hj Hk' Hp Hq. destruct (decide (j = i)) as [->|Hji], (decide (k = i)) as [->|Hki]; try done.
    + rewrite He in Hj. rewrite Hne in Hk' by done. simplify_eq/=. by destruct (Hnl k q Hk').
    + rewrite He in Hk'. rewrite Hne in Hj by done. simplify_eq/=. by destruct (Hnl j p Hj).
    + rewrite Hne in Hj, Hk' by done. by apply (Hu j k p q a).
  - intros j p y Hj Hp. destruct (decide (j = i)) as [->|Hji]; [rewrite He in Hj; by simplify_eq|]. rewrite Hne in Hj by done. by apply (Hcl j p y).
Qed.

(** [linkNext] on the former tail, step by step. *)
Lemma chain_link Q s i p p' a h h' : NoDup Q → f_pcs s !! i = Some p → linking p = Some a → f_hdr s !! a = Some h →
  reset_slot p' = None → hd_flag h' = (match linking p' with Some _ => 0 | None => hasNextBufferFlag end) →
  (linking p' = Some a ∨ linking p' = None) →
  (∀ b, link_ok p h b → match linking p' with Some _ => link_ok p' h' b | None => hd_next h' = b end) →
  (∀ j q y, f_pcs s !! j = Some q → reset_slot q = Some y → y ∉ Q) →
  chain Q s → chain Q (set_pc i p' (set_hdr a h' s)).
Proof.
  intros Hn Hi Hp Ha Hc Hfl Hlk Hok Hout [Hh Ht Hd Hl Hk Hg Hu Hcl].
  assert (∀ j, j ≠ i → <[i := p']> (f_pcs s) !! j = f_pcs s !! j) as Hne by (intros; by rewrite list_lookup_insert_ne).
  assert (<[i := p']> (f_pcs s) !! i = Some p') as He by (apply list_lookup_insert_eq; by eapply lookup_lt_Some).
  destruct (Hg i p a Hi Hp) as (b&h0&Hab&Eh&Hf0&Hlo). simplify_eq. specialize (Hok b Hlo). pose proof (adj_last Q a b Hn Hab) as Hat.
  assert (f_tail s ≠ a) as Hta by (intros E; apply Hat; by rewrite Ht, E).
  constructor; cbn [f_head f_tail f_hdr f_pcs set_pc set_hdr]; try done.
  - intros x Hx. destruct (decide (a = x)) as [->|?]; [rewrite lookup_insert_eq; by eexists|rewrite lookup_insert_ne by done; by apply Hd].
  - intros h1. rewrite lookup_insert_ne by done. apply Hl.
  - intros c d h1 Hcd. destruct (decide (a = c)) as [<-|Hac].
    + rewrite lookup_insert_eq. intros [= <-]. assert (d = b) as -> by by eapply adj_fun. destruct (linking p') as [a'|] eqn:E; [|by left].
      right. split; [done|]. exists i, p'. destruct Hlk as [[= ->]|?]; [|done]. done.
    + rewrite lookup_insert_ne by done. intros Hh1. destruct (Hk c d h1 Hcd Hh1) as [?|(?&j&q&Hj&Hq)]; [by left|right]. split; [done|].
      exists j, q. rewrite Hne; [done|]. intros ->. by simplify_eq.
  - intros j q c Hj Hq. destruct (decide (j = i)) as [->|Hji].
    + rewrite He in Hj. injection Hj as <-. destruct Hlk as [E|E]; rewrite E in Hq; [|done]. injection Hq as <-. rewrite E in Hok, Hfl. exists b, h'. by rewrite lookup_insert_eq.
    + rewrite Hne in Hj by done. destruct (Hg j q c Hj Hq) as (d&h1&Hcd&Hh1&Hr). exists d, h1. rewrite lookup_insert_ne; [done|]. intros <-. by destruct Hji; apply (Hu j i q p a).
  - intros j k q r c Hj Hk' Hq Hr. destruct (decide (j = i)) as [->|Hji], (decide (k = i)) as [->|Hki]; try done.
    + rewrite He in Hj. rewrite Hne in Hk' by done. simplify_eq. destruct Hlk as [E|E]; rewrite E in Hq; simplify_eq. by apply (Hu i k p r c).
    + rewrite He in Hk'. rewrite Hne in Hj by done. simplify_eq. destruct Hlk as [E|E]; rewrite E in Hr; simplify_eq. by apply (Hu j i q p c).
    + rewrite Hne in Hj, Hk' by done. by apply (Hu j k q r c).
  - intros j q y Hj Hq. destruct (decide (j = i)) as [->|Hji]; [rewrite He in Hj; by simplify_eq|]. rewrite Hne in Hj by done.
    destruct (Hcl j q y Hj Hq) as (h1&Hh1&Hf1). rewrite lookup_insert_ne; [eauto|]. intros <-. destruct (Hout j q a Hj Hq). by eapply adj_in.
Qed.

Lemma chain_add_size Q s n : chain Q s → chain Q (add_size n s).
Proof. by intros []; constructor. Qed.
Lemma chain_add_counter Q s b n : chain Q s → chain Q (add_counter b n s).
Proof. by intros []; constructor. Qed.
Lemma chain_set_held Q s l : chain Q s → chain Q (set_held l s).
Proof. by intros []; constructor. Qed.

Lemma add_counter_sum b n s : f_counter (add_counter b n s) true + f_counter (add_counter b n s) false = f_counter s true + f_counter s false + n.
Proof. destruct b; cbn; repeat case_bool_decide; try done; lia. Qed.

(** ** Steps keep the slots *)

Lemma shared_move all Q Q' s s' i p p' : shared all Q s → f_pcs s !! i = Some p → f_pcs s' = <[i := p']> (f_pcs s) →
  Q' ++ f_held s' ++ owned p' ≡ₚ Q ++ f_held s ++ owned p →
  (∀ x, is_Some (f_hdr s !! x) → is_Some (f_hdr s' !! x)) →
  f_size s' + w_size p' - Z.of_nat (length Q') = f_size s + w_size p - Z.of_nat (length Q) →
  f_counter s' true + f_counter s' false + w_count p' + Z.of_nat (length Q') = f_counter s true + f_counter s false + w_count p + Z.of_nat (length Q) →
  shared all Q' s'.
Proof.
  intros [Hp Hn Hd Hs Hc] Hi Ep Hperm Hh Hsz Hct. constructor; rewrite ?Ep, ?(total_insert _ _ _ _ _ Hi); auto; [|lia|lia].
  rewrite <- Hp. apply (Permutation_app_inv_r (owned p)). pose proof (in_flight_insert (f_pcs s) i p p' Hi) as Hf.
  rewrite <- !app_assoc, Hf. transitivity ((Q' ++ f_held s' ++ owned p') ++ in_flight (f_pcs s)); [solve_Permutation|]. rewrite Hperm. solve_Permutation.
Qed.

Lemma reset_slot_owned p x : reset_slot p = Some x → x ∈ owned p.
Proof. destruct p; cbn; intros; simplify_eq; set_solver. Qed.

Section apart.
Context {all Q : list Z} {s : blconc} (S : shared all Q s).

Lemma free_nodup : NoDup Q.
Proof. destruct S as [Hp Hn _ _ _]. rewrite <- Hp in Hn. by apply NoDup_app in Hn as (?&_). Qed.
Lemma held_not_free x : x ∈ f_held s → x ∉ Q.
Proof. destruct S as [Hp Hn _ _ _]. rewrite <- Hp in Hn. apply NoDup_app in Hn as (_&Hn&_). intros Hx Hq. apply (Hn x Hq). set_solver. Qed.
Lemma owned_not_free i p x : f_pcs s !! i = Some p → x ∈ owned p → x ∉ Q ∧ x ∉ f_held s.
Proof.
  destruct S as [Hp Hn _ _ _]. rewrite <- Hp in Hn. apply NoDup_app in Hn as (_&Hn&Hn'). apply NoDup_app in Hn' as (_&Hn'&_).
  intros Hi Hx. pose proof (elem_in_flight _ _ _ _ Hi Hx). split; intros Hq; [apply (Hn x Hq); set_solver|by apply (Hn' x Hq)].
Qed.
Lemma owned_once i j p q x : f_pcs s !! i = Some p → f_pcs s !! j = Some q → x ∈ owned p → x ∈ owned q → i = j.
Proof.
  destruct S as [Hp Hn _ _ _]. rewrite <- Hp in Hn. apply NoDup_app in Hn as (_&_&Hn). apply NoDup_app in Hn as (_&_&Hn). by apply in_flight_once.
Qed.

(** A goroutine writes the header of the slot it has to itself. *)
Lemma chain_own i p x h : f_pcs s !! i = Some p → x ∈ owned p → reset_slot p = None → chain Q s → chain Q (set_hdr x h s).
Proof.
  intros Hi Hx Hc. apply chain_hdr; [by eapply owned_not_free|]. intros j q Hj Hq. assert (i = j) as <- by (eapply owned_once; eauto using reset_slot_owned). congruence.
Qed.
End apart.

Definition binv (all : list Z) (s : blconc) : Prop := ∃ Q, chain Q s ∧ shared all Q s.

(** The step of a goroutine from [p] to [p'] leaves the free slots as they are. *)
Ltac same_slots S Hi :=
  eapply (shared_move _ _ _ _ _ _ _ _ S Hi); [reflexivity|done| |cbn; lia|rewrite ?add_counter_sum; cbn; lia];
  cbn [f_hdr set_pc add_size add_counter set_hdr set_held]; intros ? ?; try done; by apply lookup_insert_is_Some'; right.

Lemma pop_step_inv side i p s s' all : fresh s → binv all s → f_pcs s !! i = Some p → pop_step side i p s = Some s' → binv all s'.
Proof.
  intros Hf (Q&C&S) Hi Hs. destruct p; cbn in Hs; try done.
  - simplify_eq. exists Q. split; [|destruct (_ <=? _); same_slots S Hi].
    destruct (_ <=? _); by apply (chain_pc _ (add_size (-1) s) i (ODec old)); [..|by apply chain_add_size].
  - destruct (f_hdr s !! old) as [h|]; cbn in Hs; simplify_eq. exists Q. split; [|destruct (has_next _); same_slots S Hi].
    destruct (has_next _); by apply (chain_pc _ _ _ _ _ Hi).
  - destruct (f_hdr s !! old) as [h|]; cbn in Hs; simplify_eq. exists Q. split; [by apply (chain_pc _ _ _ _ _ Hi)|same_slots S Hi].
  - destruct (f_head s =? old) eqn:E; simplify_eq; breflect.
    + subst old. destruct (chain_take Q s i k nx (free_nodup S) Hi Hf C) as (Q'&->&C'). exists Q'. split; [done|].
      eapply (shared_move _ _ _ _ _ _ _ _ S Hi); [reflexivity| |done|cbn; lia|cbn; lia]. cbn. rewrite app_nil_r. solve_Permutation.
    + exists Q. split; [by apply (chain_pc _ _ _ _ _ Hi)|same_slots S Hi].
  - simplify_eq. exists Q. split; [|destruct (_ <=? _); same_slots S Hi]. destruct (_ <=? _); by apply (chain_pc _ _ _ _ _ Hi).
  - simplify_eq. exists Q. split; [|case_match; same_slots S Hi]. case_match; by apply (chain_pc _ _ _ _ _ Hi).
  - simplify_eq. exists Q. split; [by apply (chain_pc _ (add_size 1 s) i ORestore); [..|by apply chain_add_size]|same_slots S Hi].
  - destruct (f_hdr s !! old) as [h|]; cbn in Hs; simplify_eq. exists Q.
    split; [apply (chain_pc _ (set_hdr _ _ s) i (OClear old)); [done..|]; eapply (chain_own S _ _ _ _ Hi); [set_solver|done|done]|same_slots S Hi].
  - destruct (f_hdr s !! old) as [h|]; cbn in Hs; simplify_eq. exists Q. split; [by apply (chain_pc _ _ _ _ _ Hi)|same_slots S Hi].
  - destruct (f_hdr s !! old) as [h|]; cbn in Hs; simplify_eq. exists Q.
    split; [apply (chain_pc _ (set_hdr _ _ s) i (OUsedStore old f)); [done..|]; eapply (chain_own S _ _ _ _ Hi); [set_solver|done|done]|same_slots S Hi].
  - simplify_eq. exists Q.
    split; [by apply (chain_pc _ (set_held _ (add_counter side 1 s)) i (OCount old)); [..|by apply chain_set_held, chain_add_counter]|].
    eapply (shared_move _ _ _ _ _ _ _ _ S Hi); [reflexivity| |done|cbn; lia|]; [cbn; solve_Permutation|].
    change (f_counter (add_counter side 1 s) true + f_counter (add_counter side 1 s) false + w_count Idle + Z.of_nat (length Q) =
            f_counter s true + f_counter s false + w_count (OCount old) + Z.of_nat (length Q)). rewrite add_counter_sum. cbn. lia.
Qed.

Lemma push_step_inv side i p s s' all : binv all s → f_pcs s !! i = Some p → push_step side i p s = Some s' → binv all s'.
Proof.
  intros (Q&C&S) Hi Hs.
  assert (∀ j q y, f_pcs s !! j = Some q → reset_slot q = Some y → y ∉ Q) as Hout by (intros j q y Hj Hq; eapply (owned_not_free S); eauto using reset_slot_owned).
  destruct p; cbn in Hs; try done.
  - destruct (f_hdr s !! x) as [h|]; cbn in Hs; simplify_eq. exists Q. split; [|same_slots S Hi].
    apply (chain_pc _ (set_hdr x _ s) i (PReset x)); [done..| |eapply (chain_own S _ _ _ _ Hi); [set_solver|done|done]].
    intros ? [= <-]. cbn. rewrite lookup_insert_eq. eauto.
  - simplify_eq. exists Q. split; [|same_slots S Hi]. apply (chain_pc _ _ _ _ _ Hi); [done..| |done]. intros ? [= <-]. by apply (ch_clean _ _ C i (PTail x)).
  - destruct (f_tail s =? old) eqn:E; simplify_eq; breflect.
    + subst old. destruct (owned_not_free S i _ x Hi) as [Hx _]; [set_solver|]. exists (Q ++ [x]). split; [by apply chain_append; [by apply (free_nodup S)|..]|].
      eapply (shared_move _ _ _ _ _ _ _ _ S Hi); [reflexivity| |done|cbn; len|cbn; len]. cbn. rewrite app_nil_r. solve_Permutation.
    + exists Q. split; [|same_slots S Hi]. apply (chain_pc _ _ _ _ _ Hi); [done..| |done]. intros ? [= <-]. by apply (ch_clean _ _ C i (PCas x old)).
  - destruct (ch_linking _ _ C i _ old Hi eq_refl) as (b&h0&_&Eh0&Hf0&_). rewrite Eh0 in Hs; cbn in Hs; simplify_eq. exists Q. split; [|same_slots S Hi].
    apply (chain_link Q s i (PLink old x) (PFlag old) old h0 _ (free_nodup S) Hi eq_refl Eh0); auto.
  - destruct (ch_linking _ _ C i _ old Hi eq_refl) as (b&h0&_&Eh0&Hf0&_). rewrite Eh0 in Hs; cbn in Hs; simplify_eq. exists Q. split; [|same_slots S Hi].
    replace s with (set_hdr old h0 s) by (destruct s; unfold set_hdr; cbn in *; by rewrite insert_id).
    apply (chain_link Q s i (PFlag old) (PFlagStore old (hd_flag h0)) old h0 _ (free_nodup S) Hi eq_refl Eh0); cbn; auto.
  - destruct (ch_linking _ _ C i _ old Hi eq_refl) as (b&h0&_&Eh0&Hf0&Hl). rewrite Eh0 in Hs; cbn in Hs; simplify_eq. exists Q. split; [|same_slots S Hi]. destruct Hl as [Hnx ->].
    apply (chain_link Q s i (PFlagStore old 0) PSize old h0 _ (free_nodup S) Hi eq_refl Eh0); cbn; auto. naive_solver.
  - simplify_eq. exists Q. split; [by apply (chain_pc _ (add_size 1 s) i PSize); [..|by apply chain_add_size]|same_slots S Hi].
  - simplify_eq. exists Q. split; [by apply (chain_pc _ (add_counter side (-1) s) i PCount); [..|by apply chain_add_counter]|].
    eapply (shared_move _ _ _ _ _ _ _ _ S Hi); [reflexivity|done|done|cbn; lia|].
    change (f_counter (add_counter side (-1) s) true + f_counter (add_counter side (-1) s) false + w_count Idle + Z.of_nat (length Q) =
            f_counter s true + f_counter s false + w_count PCount + Z.of_nat (length Q)). rewrite add_counter_sum. cbn. lia.
Qed.

Lemma lstep_inv side l s s' all : fresh s → binv all s → lstep side l s = Some s' → binv all s'.
Proof.
  intros Hf HI Hs. destruct l as [i|i x|i|x nx f]; cbn in Hs.
  - destruct (f_pcs s !! i) as [p|] eqn:Hi; cbn in Hs; [|done]. case_bool_decide; simplify_eq. destruct HI as (Q&C&S). exists Q.
    split; [by apply (chain_pc _ _ _ _ _ Hi)|same_slots S Hi].
  - destruct (f_pcs s !! i) as [p|] eqn:Hi; cbn in Hs; [|done]. case_bool_decide as Hx; simplify_eq. destruct Hx as [-> Hx]. destruct HI as (Q&C&S). exists Q.
    split; [by apply (chain_pc _ (set_held _ s) i Idle); [..|by apply chain_set_held]|].
    eapply (shared_move _ _ _ _ _ _ _ _ S Hi); [reflexivity| |done|cbn; lia|cbn; lia]. cbn. rewrite app_nil_r. apply Permutation_app_head.
    rewrite <- (rm_perm x (f_held s)) at 2 by done. solve_Permutation.
  - destruct (f_pcs s !! i) as [p|] eqn:Hi; cbn in Hs; [|done]. destruct (pop_step (side i) i p s) eqn:E; simplify_eq.
    + by eapply pop_step_inv.
    + by eapply push_step_inv.
  - case_bool_decide as Hx; simplify_eq. destruct HI as (Q&C&S). exists Q. split.
    + apply chain_hdr; [by apply (held_not_free S)| |done]. intros j q Hj Hq. by destruct (owned_not_free S j q x Hj (reset_slot_owned _ _ Hq)).
    + destruct S as [Hp Hn Hd Hsz Hc]. constructor; try done. intros y Hy. cbn. apply lookup_insert_is_Some'. right. by apply Hd.
Qed.

(** ** One goroutine at a time looks at the head *)

Definition in_pop (p : blpc) : bool :=
  match p with ODec _ | OFlag _ _ | ONext _ _ | OCas _ _ _ | OSize _ | OReload _ => true | _ => false end.
Definition one_popper (s : blconc) : Prop :=
  ∀ i j p q, f_pcs s !! i = Some p → f_pcs s !! j = Some q → in_pop p = true → in_pop q = true → i = j.

(** What that goroutine has seen still holds. *)
Definition sees (s : blconc) (p : blpc) : Prop :=
  match p with
  | ODec old | OFlag _ old => old = f_head s
  | ONext _ old => old = f_head s ∧ ∃ nx, f_hdr s !! old = Some (Hdr nx hasNextBufferFlag)
  | OCas _ old nx => old = f_head s ∧ f_hdr s !! old = Some (Hdr nx hasNextBufferFlag)
  | _ => True
  end.
Definition up_to_date (s : blconc) : Prop := ∀ i p, f_pcs s !! i = Some p → sees s p.

Lemma up_to_date_fresh s : up_to_date s → fresh s.
Proof. intros Hu i k nx Hi. by destruct (Hu i _ Hi). Qed.

Lemma has_next_linked Q s h : NoDup Q → chain Q s → f_hdr s !! f_head s = Some h → has_next (hd_flag h) = true → hd_flag h = hasNextBufferFlag.
Proof.
  intros Hn C Hh Hf. destruct Q as [|x [|y Q]]; [by destruct C|..].
  - destruct C as [E E' _ Hl _ _ _ _]. simplify_eq/=. rewrite E in Hl. rewrite (Hl h Hh) in Hf. done.
  - assert (x = f_head s) as -> by (destruct C; by simplify_eq/=). destruct (ch_links _ _ C (f_head s) y h) as [[? _]|[E _]]; [by exists O|done|done|].
    rewrite E in Hf. done.
Qed.

(** All the outcomes of a step. *)
Ltac step_eq Hs :=
  cbn in Hs; repeat match type of Hs with
  | context [mbind _ (lookup ?x (f_hdr ?s))] => destruct (f_hdr s !! x) eqn:?; cbn in Hs
  | context [if ?b then _ else _] => destruct b eqn:?; cbn in Hs
  end; try discriminate Hs; injection Hs as <-.

(** The header of the head, once it is linked, is not written. *)
Lemma head_hdr_stable side l s s' all nx : binv all s → lstep side l s = Some s' →
  f_hdr s !! f_head s = Some (Hdr nx hasNextBufferFlag) → f_hdr s' !! f_head s = Some (Hdr nx hasNextBufferFlag).
Proof.
  intros (Q&C&S) Hs Hh. assert (f_head s ∈ Q) as Hq by (destruct C as [E _ _ _ _ _ _ _]; destruct Q; simplify_eq/=; set_solver).
  assert (∀ i p, f_pcs s !! i = Some p → f_head s ∉ owned p) as Hown by (intros i p Hi Hx; by destruct (owned_not_free S i p _ Hi Hx)).
  assert (∀ i p, f_pcs s !! i = Some p → linking p ≠ Some (f_head s)) as Hlk.
  { intros i p Hi Hp. destruct (ch_linking _ _ C i p _ Hi Hp) as (b&h&_&E&E'&_). rewrite Hh in E. simplify_eq. }
  destruct l as [i|i x|i|x nx' f]; cbn in Hs; try (destruct (f_pcs s !! i) as [p|] eqn:Hi; cbn in Hs; [|done]).
  - case_bool_decide; simplify_eq. done.
  - case_bool_decide; simplify_eq. done.
  - specialize (Hown i p Hi). specialize (Hlk i p Hi).
    destruct p; cbn in Hown, Hlk; step_eq Hs; cbn [f_hdr set_pc add_size add_counter set_hdr set_held set_head set_tail]; try done.
    all: rewrite lookup_insert_ne; [done|set_solver].
  - case_bool_decide as Hx; simplify_eq. cbn. rewrite lookup_insert_ne; [done|]. intros ->. by apply (held_not_free S _ Hx).
Qed.

(** What another goroutine has seen does not change: a step that moves the head is one of
    the goroutine that looks at it. *)
Lemma sees_stable side l s s' all i p : binv all s → one_popper s → lstep side l s = Some s' →
  f_pcs s !! i = Some p → in_pop p = true → (∀ j, l = LRun j → j ≠ i) → sees s p → sees s' p.
Proof.
  intros HI Ho Hs Hi Hp Hl Hv.
  assert (f_head s' = f_head s) as Eh.
  { destruct l as [j|j x|j|x nx' f]; cbn in Hs; try (destruct (f_pcs s !! j) as [q|] eqn:Hj; cbn in Hs; [|done]).
    - by step_eq Hs.
    - by step_eq Hs.
    - destruct q; step_eq Hs; try done. destruct (Hl j eq_refl). by eapply Ho.
    - by step_eq Hs. }
  pose proof (head_hdr_stable side l s s' all) as Hh. destruct p; cbn in *; try done; try congruence.
  - destruct Hv as (->&nx&E). split; [congruence|]. exists nx. by apply Hh.
  - destruct Hv as (->&E). split; [congruence|]. by apply Hh.
Qed.

Definition who (l : label) : option nat := match l with LPop i | LPush i _ | LRun i => Some i | LWrite _ _ _ => None end.

Lemma lstep_others side l s s' j : lstep side l s = Some s' → who l ≠ Some j → f_pcs s' !! j = f_pcs s !! j.
Proof.
  intros Hs Hw. destruct l as [i|i x|i|x nx' f]; cbn in Hs, Hw; [| | |by step_eq Hs]; (destruct (f_pcs s !! i) as [r|] eqn:Hi; cbn in Hs; [|done]).
  all: try destruct r; step_eq Hs; cbn; rewrite list_lookup_insert_ne; congruence.
Qed.

Lemma up_to_date_step side l s s' all : binv all s → one_popper s → up_to_date s → lstep side l s = Some s' → up_to_date s'.
Proof.
  intros HI Ho Hu Hs j q Hj. destruct (in_pop q) eqn:Hq; [|by destruct q]. destruct (decide (who l = Some j)) as [Hw|Hn].
  - assert (∃ p, f_pcs s !! j = Some p) as [p Hp].
    { destruct l as [i|i x|i|x nx' f]; cbn in Hs, Hw; simplify_eq; (destruct (f_pcs s !! j) as [p|]; [eauto|done]). }
    pose proof (Hu j p Hp) as Hv. assert (j < length (f_pcs s))%nat as Hlt by by eapply lookup_lt_Some.
    destruct l as [i|i x|i|x nx' f]; cbn in Hs, Hw; simplify_eq; rewrite Hp in Hs; cbn in Hs.
    + step_eq Hs. cbn in Hj. rewrite list_lookup_insert_eq in Hj by done. by simplify_eq.
    + step_eq Hs. cbn in Hj. rewrite list_lookup_insert_eq in Hj by done. by simplify_eq.
    + destruct p; step_eq Hs; cbn in Hj; rewrite list_lookup_insert_eq in Hj by done; simplify_eq; try done; cbn in *.
      * subst old. split; [done|]. exists (hd_next h). destruct HI as (Q&C&S). rewrite <- (has_next_linked Q s h (free_nodup S) C Heqo Heqb). by destruct h.
      * destruct Hv as (->&nx&E). rewrite E in Heqo. by simplify_eq.
  - rewrite (lstep_others side l s s' j) in Hj by done. eapply sees_stable; try done; [|by apply (Hu j)]. intros i -> ->. by apply Hn.
Qed.

(** ** A new list *)

Lemma slot_at_inj c j k : 0 ≤ c → slot_at c j = slot_at c k → j = k.
Proof. unfold slot_at, bufferHeaderSize. intros. nia. Qed.

Lemma slot_offsets_lookup num c k : (k < num)%nat → slot_offsets num c !! k = Some (slot_at c k).
Proof. intros. unfold slot_offsets. rewrite list_lookup_fmap, lookup_seq_lt by done. done. Qed.

Lemma slot_offsets_length num c : length (slot_offsets num c) = num.
Proof. unfold slot_offsets. by rewrite length_fmap, length_seq. Qed.

Lemma slot_offsets_nodup num c : 0 ≤ c → NoDup (slot_offsets num c).
Proof. intros Hc. unfold slot_offsets. apply NoDup_fmap_2_strong; [|apply NoDup_seq]. intros j k _ _. by apply slot_at_inj. Qed.

Lemma new_hdr_lookup num c n k : 0 ≤ c → (k < num)%nat → f_hdr (new_list num c n) !! slot_at c k = Some (new_hdr num c k).
Proof.
  intros Hc Hk. cbn. apply elem_of_list_to_map_1.
  - rewrite <- list_fmap_compose. by apply (slot_offsets_nodup num c).
  - apply list_elem_of_fmap. exists k. split; [done|]. apply elem_of_seq. lia.
Qed.

Lemma new_list_idle num c n i p : f_pcs (new_list num c n) !! i = Some p → p = Idle.
Proof. intros Hi. by apply lookup_replicate_1 in Hi as [-> _]. Qed.

Lemma total_idle w n : w Idle = 0 → total w (replicate n Idle) = 0.
Proof. intros Hw. induction n as [|n IH]; [done|]. change (w Idle + total w (replicate n Idle) = 0). lia. Qed.

Lemma new_list_inv num c n : (0 < num)%nat → 0 ≤ c → binv (slot_offsets num c) (new_list num c n) ∧ up_to_date (new_list num c n).
Proof.
  intros Hn Hc. split; [|intros i p Hi; by rewrite (new_list_idle _ _ _ _ _ Hi)]. exists (slot_offsets num c).
  assert (∀ x, x ∈ slot_offsets num c → ∃ k, x = slot_at c k ∧ (k < num)%nat) as Hin.
  { intros x (k&->&Hk)%list_elem_of_fmap. exists k. apply elem_of_seq in Hk. split; [done|lia]. }
  split; constructor.
  - rewrite head_lookup, slot_offsets_lookup by done. done.
  - rewrite last_lookup, slot_offsets_length, slot_offsets_lookup by lia. cbn. f_equal. f_equal. lia.
  - intros x (k&->&Hk)%Hin. rewrite new_hdr_lookup by done. eauto.
  - intros h. cbn [f_tail new_list]. rewrite (new_hdr_lookup num c n (num - 1)) by lia. intros [= <-]. unfold new_hdr. by rewrite (proj2 (Nat.ltb_ge _ _)) by lia.
  - intros a b h (k&Ha&Hb) Hh. left. assert (S k < num)%nat as Hk by (apply lookup_lt_Some in Hb; by rewrite slot_offsets_length in Hb).
    rewrite slot_offsets_lookup in Ha, Hb by lia. simplify_eq. rewrite new_hdr_lookup in Hh by (done || lia). injection Hh as <-. unfold new_hdr.
    by rewrite (proj2 (Nat.ltb_lt _ _)) by lia.
  - intros i p a Hi. by rewrite (new_list_idle _ _ _ _ _ Hi).
  - intros i j p q a Hi. by rewrite (new_list_idle _ _ _ _ _ Hi).
  - intros i p x Hi. by rewrite (new_list_idle _ _ _ _ _ Hi).
  - change (slot_offsets num c ++ [] ++ in_flight (replicate n Idle) ≡ₚ slot_offsets num c).
    assert (in_flight (replicate n Idle) = []) as -> by (induction n; done). by rewrite app_nil_r.
  - by apply slot_offsets_nodup.
  - intros x (k&->&Hk)%Hin. rewrite new_hdr_lookup by done. eauto.
  - cbn [f_pcs f_size f_counter new_list]. rewrite total_idle, ?slot_offsets_length by done. lia.
  - cbn [f_pcs f_size f_counter new_list]. rewrite total_idle, ?slot_offsets_length by done. lia.
Qed.

(** ** Runs *)

Definition bstep (side : nat → bool) (s s' : blconc) : Prop := ∃ l, lstep side l s = Some s'.
Definition calm_step (side : nat → bool) (s s' : blconc) : Prop := one_popper s ∧ bstep side s s'.

Lemma calm_inv side num c n s : (0 < num)%nat → 0 ≤ c → rtc (calm_step side) (new_list num c n) s →
  binv (slot_offsets num c) s ∧ up_to_date s.
Proof.
  intros Hn Hc. apply (rtc_ind_r (λ s, binv (slot_offsets num c) s ∧ up_to_date s)); [by apply new_list_inv|].
  intros s1 s2 _ [Ho [l Hs]] [HI Hu]. split; [by eapply lstep_inv; [apply up_to_date_fresh|..]|by eapply up_to_date_step].
Qed.

(** No goroutine stops in the middle. *)
Lemma binv_progress side all s i p : binv all s → up_to_date s → f_pcs s !! i = Some p → p ≠ Idle → ∃ s', lstep side (LRun i) s = Some s'.
Proof.
  intros (Q&C&S) Hu Hi Hp. cbn. rewrite Hi. cbn.
  assert (is_Some (f_hdr s !! f_head s)) as [hh Hh].
  { apply (ch_hdrs _ _ C). destruct C as [E _ _ _ _ _ _ _]. destruct Q; simplify_eq/=. set_solver. }
  assert (∀ x, x ∈ owned p → is_Some (f_hdr s !! x)) as Hown.
  { intros x Hx. apply (sh_hdrs _ _ _ S). rewrite <- (sh_slots _ _ _ S). pose proof (elem_in_flight _ _ _ _ Hi Hx). set_solver. }
  assert (∀ a, linking p = Some a → is_Some (f_hdr s !! a)) as Hlk.
  { intros a Ha. destruct (ch_linking _ _ C i p a Hi Ha) as (b&h&_&->&_). eauto. }
  specialize (Hu i p Hi). destruct p; cbn in *; try done; eauto.
  all: try (destruct (_ =? _); by eauto).
  all: match goal with |- context [f_hdr ?st !! ?x] => assert (is_Some (f_hdr st !! x)) as [? ->]
         by (first [ apply Hown; set_solver | by apply Hlk | rewrite Hu; by eexists | destruct Hu as [-> _]; by eexists ]) end; cbn; eauto.
Qed.

(** [C9] When the calls of [pop] are made one at a time, and those of [push] in any number
    and in any interleaving with them and with each other, from both processes: every slot
    is at every moment free, held, or in the hands of one goroutine, and in no two of these
    places; the head and the tail are the first and the last free slot; the size and the
    sum of the two counters differ from the numbers of free and of used slots by what the
    goroutines have still to add; no goroutine runs into an offset that is not a slot; and
    when no goroutine is in the middle of a call the size and the counters are exact and all
    free slots are linked in order. *)
Theorem free_list_safe side num c n s : (0 < num)%nat → 0 ≤ c → rtc (calm_step side) (new_list num c n) s →
  ∃ Q, NoDup (Q ++ f_held s ++ in_flight (f_pcs s)) ∧ Q ++ f_held s ++ in_flight (f_pcs s) ≡ₚ slot_offsets num c ∧
    head Q = Some (f_head s) ∧ last Q = Some (f_tail s) ∧
    f_size s + total w_size (f_pcs s) = Z.of_nat (length Q) ∧
    f_counter s true + f_counter s false + total w_count (f_pcs s) = Z.of_nat num - Z.of_nat (length Q) ∧
    (∀ i p, f_pcs s !! i = Some p → p ≠ Idle → ∃ s', lstep side (LRun i) s = Some s') ∧
    (Forall (Idle =.) (f_pcs s) → f_size s = Z.of_nat (length Q) ∧ f_counter s true + f_counter s false = Z.of_nat num - Z.of_nat (length Q) ∧
       ∀ a b, adj Q a b → f_hdr s !! a = Some (Hdr b hasNextBufferFlag)).
Proof.
  intros Hn Hc Hr. destruct (calm_inv side num c n s Hn Hc Hr) as [HI Hu]. pose proof HI as (Q&C&S). exists Q. destruct S as [Hp Hnd Hd Hs Hct].
  rewrite slot_offsets_length in Hct. split_and!; try done; [by rewrite Hp|by apply C|by apply C|intros; by eapply binv_progress|].
  intros Hidle. assert (f_pcs s = replicate (length (f_pcs s)) Idle) as E by (symmetry; by apply replicate_as_Forall_2).
  rewrite E, !total_idle in Hs, Hct by done. split_and!; [lia|lia|]. intros a b Hab. destruct (ch_hdrs _ _ C a) as [h Hh]; [by eapply adj_in|].
  destruct (ch_links _ _ C a b h Hab Hh) as [[<- <-]|(_&i&p&Hi&Hl)]; [rewrite Hh; by destruct h|].
  rewrite E in Hi. apply lookup_replicate_1 in Hi as [-> _]. done.
Qed.

Definition pop_by (i : nat) : list label := LPop i :: replicate 8 (LRun i).
Definition push_by (i : nat) (x : Z) : list label := LPush i x :: replicate 8 (LRun i).

(** [C11] When two goroutines are in [pop] at the same time a slot is handed out twice: one
    reads the link of the head and is delayed; meanwhile the other takes slots and gives
    some back until the first slot is the head again, with another link; the delayed
    compare-and-swap succeeds and makes a slot the head that the other one holds; when that
    slot gets a link, as the slots of a message do, it is handed out to the first. *)
Theorem free_list_aba : ∃ ls s x, run (λ i, bool_decide (i = 0%nat)) ls (new_list 4 64 2) = Some s ∧
  Forall (Idle =.) (f_pcs s) ∧ x ∈ slot_offsets 4 64 ∧ ∃ rest, f_held s = x :: rest ∧ x ∈ rest.
Proof.
  exists ([LPop 0; LRun 0; LRun 0; LRun 0]%nat ++ pop_by 1 ++ push_by 1 (slot_at 64 0) ++ pop_by 1 ++ pop_by 1 ++ push_by 1 (slot_at 64 2) ++ pop_by 1 ++
     replicate 5 (LRun 0%nat) ++ [LWrite (slot_at 64 1) (slot_at 64 3) 3] ++ push_by 0 (slot_at 64 0) ++ pop_by 0).
  eexists _, (slot_at 64 1). split; [vm_compute; reflexivity|]. split; [repeat constructor|]. split; [vm_compute; set_solver|].
  eexists. split; [reflexivity|]. vm_compute. set_solver.
Qed.

(** ** Runs that can be computed *)

Definition poppers (pcs : list blpc) : nat := length (filter (λ p, in_pop p = true) pcs).

Lemma poppers_in pcs i p : pcs !! i = Some p → in_pop p = true → (1 ≤ poppers pcs)%nat.
Proof.
  intros Hi Hp. assert (p ∈ filter (λ p, in_pop p = true) pcs) as H by (apply list_elem_of_filter; split; [done|by eapply list_elem_of_lookup_2]).
  unfold poppers. destruct (filter _ _); [set_solver|cbn; lia].
Qed.

Lemma poppers_one s : (poppers (f_pcs s) ≤ 1)%nat → one_popper s.
Proof.
  unfold one_popper. generalize (f_pcs s) as pcs. induction pcs as [|r pcs IH]; intros H [|i] [|j] p q Hi Hj Hp Hq; cbn in Hi, Hj; simplify_eq; try done.
  - pose proof (poppers_in pcs j q Hj Hq). unfold poppers in *. rewrite filter_cons_True in H by done. cbn in H. lia.
  - pose proof (poppers_in pcs i p Hi Hp). unfold poppers in *. rewrite filter_cons_True in H by done. cbn in H. lia.
  - f_equal. eapply IH; [|done..]. unfold poppers in *. rewrite filter_cons in H. case_decide; cbn in H; lia.
Qed.

Fixpoint calm_run (side : nat → bool) (ls : list label) (s : blconc) : option blconc :=
  match ls with
  | [] => Some s
  | l :: ls => if (poppers (f_pcs s) <=? 1)%nat then s' ← lstep side l s; calm_run side ls s' else None
  end.

Lemma calm_run_rtc side ls s s' : calm_run side ls s = Some s' → rtc (calm_step side) s s'.
Proof.
  revert s. induction ls as [|l ls IH]; intros s H; cbn in H; [by simplify_eq|].
  destruct (poppers (f_pcs s) <=? 1)%nat eqn:E; [|done]. apply Nat.leb_le in E. destruct (lstep side l s) as [s1|] eqn:E1; [|done].
  eapply rtc_l; [split; [by apply poppers_one|by exists l]|by apply IH].
Qed.

(** One goroutine takes the first slot, another gives it back, and a third takes the next
    while the second has not linked it yet. *)
Definition demo_run : list label :=
  pop_by 0 ++ LPush 1 0 :: replicate 3 (LRun 1%nat) ++ [LPop 2; LRun 2; LRun 2; LRun 1; LRun 2; LRun 2]%nat.

Definition demo_side (i : nat) : bool := bool_decide (i = 0%nat).
Definition demo_state : blconc := default (new_list 3 64 3) (calm_run demo_side demo_run (new_list 3 64 3)).

Lemma free_list_safe_witness :
  calm_run demo_side demo_run (new_list 3 64 3) = Some demo_state ∧ f_pcs demo_state = [Idle; PFlag 168; OClear 84] ∧
  ∃ Q, Q ++ f_held demo_state ++ in_flight (f_pcs demo_state) ≡ₚ [0; 84; 168] ∧ head Q = Some 168 ∧ last Q = Some 0.
Proof.
  assert (calm_run demo_side demo_run (new_list 3 64 3) = Some demo_state) as E by (vm_compute; reflexivity).
  split; [exact E|]. split; [vm_compute; reflexivity|].
  destruct (free_list_safe demo_side 3 64 3 demo_state ltac:(lia) ltac:(lia) (calm_run_rtc demo_side demo_run _ _ E)) as (Q&_&Hp&Hh&Hl&_).
  exists Q. split; [exact Hp|]. split; [exact Hh|exact Hl].
Defined.

(** ** Calls end *)

(** How many steps of its own a goroutine in [pop] has at most to take. *)
Definition pop_left (p : blpc) : nat :=
  match p with
  | ODec _ => 5 * maxRetry + 5
  | OFlag k _ => 5 * (maxRetry - k) + 4
  | ONext k _ | OSize k => 5 * (maxRetry - k) + 3
  | OCas k _ _ => 5 * (maxRetry - k) + 2
  | OReload k => 5 * (maxRetry - k) + 1
  | OClear _ => 4 | OUsed _ => 3 | OUsedStore _ _ => 2 | OCount _ | ORestore => 1
  | _ => 0
  end.

(** The same for [push]; a compare-and-swap that was overtaken is made again. *)
Definition push_left (s : blconc) (p : blpc) : nat :=
  match p with
  | PReset _ => 8 | PTail _ => 7 | PCas _ old => if f_tail s =? old then 6 else 8
  | PLink _ _ => 5 | PFlag _ => 4 | PFlagStore _ _ => 3 | PSize => 2 | PCount => 1
  | _ => 0
  end.

Definition in_round (p : blpc) : Prop :=
  match p with OFlag k _ | ONext k _ | OCas k _ _ | OSize k | OReload k => (k < maxRetry)%nat | _ => True end.

(** The steps of goroutine [i], and how often the others moved the tail. *)
Fixpoint own_steps (i : nat) (ls : list label) : nat :=
  match ls with [] => 0 | LRun j :: ls => (if bool_decide (i = j) then 1 else 0) + own_steps i ls | _ :: ls => own_steps i ls end.
Fixpoint overtaken (side : nat → bool) (i : nat) (ls : list label) (s : blconc) : nat :=
  match ls with
  | [] => 0
  | l :: ls =>
      match lstep side l s with
      | Some s' => (if bool_decide (who l ≠ Some i) && negb (f_tail s' =? f_tail s) then 1 else 0) + overtaken side i ls s'
      | None => 0
      end
  end.

(** The goroutine is idle again at some moment of the run. *)
Definition returns (side : nat → bool) (i : nat) (ls : list label) (s : blconc) : Prop :=
  ∃ ls1 ls2 s1, ls = ls1 ++ ls2 ∧ run side ls1 s = Some s1 ∧ f_pcs s1 !! i = Some Idle.

Lemma returns_cons side i l ls s s' : lstep side l s = Some s' → returns side i ls s' → returns side i (l :: ls) s.
Proof. intros Hs (ls1&ls2&s1&->&Hr&Hi). exists (l :: ls1), ls2, s1. split_and!; [done| |done]. cbn. by rewrite Hs. Qed.

Lemma pop_step_left side i p s s' : f_pcs s !! i = Some p → pop_step side i p s = Some s' → in_round p →
  ∃ p', f_pcs s' !! i = Some p' ∧ in_round p' ∧ (p' = Idle ∨ 0 < pop_left p' < pop_left p)%nat.
Proof.
  intros Hi Hs Hk. assert (i < length (f_pcs s))%nat as Hlt by by eapply lookup_lt_Some.
  destruct p; step_eq Hs; cbn [f_pcs set_pc]; rewrite list_lookup_insert_eq by done; eexists; (split; [done|]); cbn [in_round pop_left] in *; unfold maxRetry in *;
    try (apply Nat.ltb_lt in Heqb); (split; [first [done | lia]|]); first [by left | right; lia].
Qed.

Lemma push_step_left side i p s s' : f_pcs s !! i = Some p → push_step side i p s = Some s' →
  ∃ p', f_pcs s' !! i = Some p' ∧ (p' = Idle ∨ 0 < push_left s' p' < push_left s p)%nat.
Proof.
  intros Hi Hs. assert (i < length (f_pcs s))%nat as Hlt by by eapply lookup_lt_Some.
  destruct p; step_eq Hs; cbn [f_pcs set_pc]; rewrite list_lookup_insert_eq by done; eexists; (split; [done|]); cbn;
    rewrite ?Z.eqb_refl, ?Heqb; first [by left | right; lia].
Qed.

Lemma pop_points p side i s s' : pop_step side i p s = Some s' → (0 < pop_left p)%nat.
Proof. destruct p; cbn; try done; intros; unfold maxRetry; lia. Qed.

(** A goroutine in [pop] comes back after that many steps. *)
Lemma pop_returns side i ls s s' p : f_pcs s !! i = Some p → in_round p → (0 < pop_left p)%nat → run side ls s = Some s' →
  (pop_left p ≤ own_steps i ls)%nat → returns side i ls s.
Proof.
  revert s p. induction ls as [|l ls IH]; intros s p Hi Hk Hp Hr Hc; cbn in Hr, Hc; [lia|].
  destruct (lstep side l s) as [s1|] eqn:Hs; [|done]. cbn in Hr. eapply returns_cons; [done|].
  destruct (decide (who l = Some i)) as [Hw|Hw].
  - destruct l as [j|j x|j|]; cbn in Hw; simplify_eq; cbn in Hs; rewrite Hi in Hs; cbn in Hs.
    + case_bool_decide; [subst; cbn in Hp; lia|done].
    + case_bool_decide as Hx; [destruct Hx as [-> _]; cbn in Hp; lia|done].
    + rewrite bool_decide_true in Hc by done. destruct (pop_step (side i) i p s) as [s2|] eqn:E; simplify_eq; [|by destruct p; cbn in *; try lia].
      destruct (pop_step_left _ _ _ _ _ Hi E Hk) as (p'&Hi'&Hk'&[->|Hlt]); [by exists [], ls, s1|].
      apply (IH s1 p'); auto; lia.
  - apply (IH s1 p); auto; [by rewrite (lstep_others side l s s1)|]. destruct l; cbn in Hw, Hc; auto. rewrite bool_decide_false in Hc by congruence. done.
Qed.

Lemma push_returns side i ls s s' p : f_pcs s !! i = Some p → (0 < push_left s p)%nat → run side ls s = Some s' →
  (push_left s p + 2 * overtaken side i ls s ≤ own_steps i ls)%nat → returns side i ls s.
Proof.
  revert s p. induction ls as [|l ls IH]; intros s p Hi Hp Hr Hc; cbn [run own_steps overtaken] in Hr, Hc; [lia|].
  destruct (lstep side l s) as [s1|] eqn:Hs; [|done]. cbn in Hr. eapply returns_cons; [done|].
  destruct (decide (who l = Some i)) as [Hw|Hw].
  - rewrite (bool_decide_false (who l ≠ Some i)) in Hc by naive_solver. cbn [andb] in Hc.
    destruct l as [j|j x|j|]; cbn in Hw; simplify_eq; cbn in Hs; rewrite Hi in Hs; cbn in Hs.
    + case_bool_decide; [subst; cbn in Hp; lia|done].
    + case_bool_decide as Hx; [destruct Hx as [-> _]; cbn in Hp; lia|done].
    + rewrite bool_decide_true in Hc by done. destruct (pop_step (side i) i p s) as [s2|] eqn:E; [destruct p; cbn in E, Hp; first [done | lia]|].
      destruct (push_step_left _ _ _ _ _ Hi Hs) as (p'&Hi'&[->|Hlt]); [by exists [], ls, s1|].
      apply (IH s1 p'); auto; lia.
  - assert (own_steps i (l :: ls) = own_steps i ls) as E by (destruct l; cbn in *; try done; by rewrite bool_decide_false by congruence).
    cbn [own_steps] in E. rewrite E in Hc.
    apply (IH s1 p); auto; [by rewrite (lstep_others side l s s1)| |].
    + destruct p; cbn in Hp |- *; try lia. repeat case_match; lia.
    + rewrite (bool_decide_true (who l ≠ Some i)) in Hc by done. cbn [andb] in Hc.
      assert (push_left s1 p ≤ push_left s p + (if negb (f_tail s1 =? f_tail s)%Z then 2 else 0))%nat as Hle.
      { destruct (f_tail s1 =? f_tail s) eqn:Et; cbn; [apply Z.eqb_eq in Et; destruct p; cbn; rewrite ?Et; lia|destruct p; cbn; repeat case_match; lia]. }
      destruct (negb _); lia.
Qed.

(** [C10] Calls end, whatever the other goroutines do: a [pop] returns after at most 1005
    steps of its own; a [push] returns after at most eight and two more for every time that
    another goroutine moved the tail in between, so that some call always makes progress. *)
Theorem list_calls_end side i ls s s' : run side ls s = Some s' →
  (∀ old, f_pcs s !! i = Some (ODec old) → (1005 ≤ own_steps i ls)%nat → returns side i ls s) ∧
  (∀ x, f_pcs s !! i = Some (PReset x) → (8 + 2 * overtaken side i ls s ≤ own_steps i ls)%nat → returns side i ls s).
Proof.
  intros Hr. split.
  - intros old Hi Hc. apply (pop_returns side i ls s s' (ODec old)); [done|done|cbn; unfold maxRetry; lia|done|cbn; unfold maxRetry; lia].
  - intros x Hi Hc. apply (push_returns side i ls s s' (PReset x)); auto. cbn. lia.
Qed.

Lemma list_calls_end_witness :
  ∃ s s', run demo_side (pop_by 0 ++ [LPush 0 0]) (new_list 3 64 1) = Some s ∧ run demo_side (replicate 8 (LRun 0%nat)) s = Some s' ∧
     returns demo_side 0 (replicate 8 (LRun 0%nat)) s.
Proof.
  eexists _, _. split; [vm_compute; reflexivity|]. split; [vm_compute; reflexivity|].
  eapply (list_calls_end demo_side 0 (replicate 8 (LRun 0%nat))); [vm_compute; reflexivity|reflexivity|]. vm_compute. lia.
Defined.
