(* ===== verification/BufferListTurns.v ===== *)
(** * The two models of a buffer list agree

    BufferList has [pop] and [push] as loads and stores of bytes, BufferListConc as steps
    between which other goroutines may run.  When every call runs to its end before the
    next one starts, both go through the same free lists and hand out the same slots. *)

From Stdlib Require Import ZArith Lia.
From stdpp Require Import prelude list gmap.
From S2P Require Import Prelude GoMem BufferSlice BufferList BufferListConc.

(** ** Between calls *)

(** Nobody is in a call; [Q] are the free slots and [hs] the slots in use. *)
Record at_rest (Q hs : list Z) (s : blconc) : Prop := {
  ar_idle : Forall (λ p, p = Idle) (f_pcs s);
  ar_head : head Q = Some (f_head s);
  ar_tail : last Q = Some (f_tail s);
  ar_size : f_size s = Z.of_nat (length Q);
  ar_nodup : NoDup (Q ++ hs);
  ar_hdrs : ∀ x, x ∈ Q ++ hs → is_Some (f_hdr s !! x);
  ar_links : ∀ a b, adj Q a b → f_hdr s !! a = Some (Hdr b hasNextBufferFlag);
  ar_last : ∃ nx, f_hdr s !! f_tail s = Some (Hdr nx 0);
  ar_held : f_held s ≡ₚ hs
}.

Lemma run_step side l ls s s' : lstep side l s = Some s' → run side (l :: ls) s = run side ls s'.
Proof. intros E. cbn [run]. by rewrite E. Qed.

Lemma idle_at Q hs s i : at_rest Q hs s → (i < length (f_pcs s))%nat → f_pcs s !! i = Some Idle.
Proof. intros H Hi. destruct (lookup_lt_is_Some_2 _ _ Hi) as [p Hp]. rewrite Hp. f_equal. exact (Forall_lookup_1 _ _ _ _ (ar_idle _ _ _ H) Hp). Qed.

Lemma idle_insert pcs i : Forall (λ p, p = Idle) pcs → Forall (λ p, p = Idle) (<[i := Idle]> pcs).
Proof. intros H. by apply Forall_insert. Qed.

(** A step of goroutine [i], whose place is on top. *)
Lemma run_pop side i p ls s s' : (i < length (f_pcs s))%nat → pop_step (side i) i p (set_pc i p s) = Some s' →
  run side (LRun i :: ls) (set_pc i p s) = run side ls s'.
Proof.
  intros Hi E. apply run_step. cbn [lstep]. change (f_pcs (set_pc i p s)) with (<[i := p]> (f_pcs s)). rewrite list_lookup_insert_eq by done. cbn. by rewrite E.
Qed.
Lemma run_push side i p ls s s' : (i < length (f_pcs s))%nat → pop_step (side i) i p (set_pc i p s) = None → push_step (side i) i p (set_pc i p s) = Some s' →
  run side (LRun i :: ls) (set_pc i p s) = run side ls s'.
Proof.
  intros Hi E E'. apply run_step. cbn [lstep]. change (f_pcs (set_pc i p s)) with (<[i := p]> (f_pcs s)). rewrite list_lookup_insert_eq by done. cbn. by rewrite E.
Qed.

Lemma set_pc_twice i p q s : set_pc i p (set_pc i q s) = set_pc i p s.
Proof. unfold set_pc. cbn. by rewrite list_insert_insert_eq. Qed.

(** The next step of the call that runs; [H] is what it reads. *)
Ltac fields := cbn [f_head f_tail f_size f_counter f_hdr f_pcs f_held set_pc set_head set_tail add_size add_counter set_hdr set_held].
Ltac in_range Hi := fields; rewrite ?length_insert; exact Hi.
Ltac pop_turn Hi tac := erewrite run_pop; [|in_range Hi|cbn [pop_step]; fields; tac; reflexivity].
Ltac push_turn Hi tac := erewrite run_push; [|in_range Hi|reflexivity|cbn [push_step]; fields; tac; reflexivity].

(** ** One call *)

(** [pop] with two free slots takes the first. *)
Lemma turn_pop side i x y Q hs s : at_rest (x :: y :: Q) hs s → (i < length (f_pcs s))%nat →
  ∃ s', run side (pop_by i) s = Some s' ∧ at_rest (y :: Q) (hs ++ [x]) s' ∧ length (f_pcs s') = length (f_pcs s).
Proof.
  intros H Hi. pose proof (idle_at _ _ _ _ H Hi) as Hp. destruct s as [hd tl sz ct hdrs pcs held].
  pose proof H as [Hid Hh Ht Hs Hn Hd Hl Hla Hhe]. cbn in Hi, Hp, Hid, Hh, Ht, Hs, Hn, Hd, Hl, Hla, Hhe. injection Hh as <-. subst sz.
  assert (adj (x :: y :: Q) x y) as Hxy by (by exists O). pose proof (Hl _ _ Hxy) as Hx.
  eexists. split; [|split].
  - unfold pop_by. erewrite run_step by (cbn [lstep]; fields; rewrite Hp; cbn; done). cbn [replicate].
    pop_turn Hi ltac:(replace (_ <=? 0) with false by (symmetry; apply Z.leb_gt; lia)).
    pop_turn Hi ltac:(rewrite Hx; cbn). change (has_next hasNextBufferFlag) with true. cbv iota.
    pop_turn Hi ltac:(rewrite Hx; cbn).
    pop_turn Hi ltac:(rewrite Z.eqb_refl).
    pop_turn Hi ltac:(rewrite Hx; cbn [mbind option_bind hd_next]).
    pop_turn Hi ltac:(rewrite lookup_insert_eq; cbn [mbind option_bind hd_flag]).
    pop_turn Hi ltac:(rewrite lookup_insert_eq; cbn [mbind option_bind hd_next]).
    pop_turn Hi idtac. reflexivity.
  - apply NoDup_cons in Hn as [Hxn Hn]. assert (∀ z, z ≠ x → <[x := Hdr y (Z.lor 0 sliceInUsedFlag)]> (<[x := Hdr y 0]> hdrs) !! z = hdrs !! z) as Hoth
      by (intros z Hz; by rewrite !lookup_insert_ne).
    constructor; fields.
    + rewrite !list_insert_insert_eq. by apply idle_insert.
    + done.
    + done.
    + cbn [length]. lia.
    + rewrite app_assoc. apply NoDup_app. split_and!; [done| |apply NoDup_singleton]. intros z Hz ->%list_elem_of_singleton. done.
    + intros z Hz. destruct (decide (z = x)) as [->|Hne]; [rewrite lookup_insert_eq; by eexists|]. rewrite Hoth by done. apply Hd. set_solver.
    + intros a b Hab. rewrite Hoth; [apply Hl, adj_cons; by right|]. intros ->. apply Hxn. apply adj_in in Hab. set_solver.
    + rewrite Hoth; [done|]. intros ->. apply Hxn. apply last_Some_elem_of in Ht. set_solver.
    + rewrite Hhe. by rewrite Permutation_app_comm.
  - fields. by rewrite !length_insert.
Qed.

(** With one free slot it takes nothing. *)
Lemma turn_pop_empty side i x hs s : at_rest [x] hs s → (i < length (f_pcs s))%nat →
  ∃ s', run side [LPop i; LRun i; LRun i] s = Some s' ∧ at_rest [x] hs s' ∧ length (f_pcs s') = length (f_pcs s).
Proof.
  intros H Hi. pose proof (idle_at _ _ _ _ H Hi) as Hp. destruct s as [hd tl sz ct hdrs pcs held].
  pose proof H as [Hid Hh Ht Hs Hn Hd Hl Hla Hhe]. cbn in Hi, Hp, Hid, Hh, Ht, Hs, Hn, Hd, Hl, Hla, Hhe. subst sz.
  eexists. split; [|split].
  - erewrite run_step by (cbn [lstep]; fields; rewrite Hp; cbn; done). pop_turn Hi ltac:(cbn). pop_turn Hi idtac. reflexivity.
  - constructor; fields; try done. rewrite !list_insert_insert_eq. by apply idle_insert.
  - fields. by rewrite !length_insert.
Qed.

(** [push] makes the slot the last one. *)
Lemma turn_push side i x Q hs1 hs2 s : at_rest Q (hs1 ++ x :: hs2) s → (i < length (f_pcs s))%nat →
  ∃ s', run side (push_by i x) s = Some s' ∧ at_rest (Q ++ [x]) (hs1 ++ hs2) s' ∧ length (f_pcs s') = length (f_pcs s).
Proof.
  intros H Hi. pose proof (idle_at _ _ _ _ H Hi) as Hp. destruct s as [hd tl sz ct hdrs pcs held].
  pose proof H as [Hid Hh Ht Hs Hn Hd Hl (nx&Hla) Hhe]. cbn in Hi, Hp, Hid, Hh, Ht, Hs, Hn, Hd, Hl, Hla, Hhe. subst sz.
  destruct (Hd x) as [[nxx fx] Hx]; [set_solver|]. assert (tl ∈ Q) as Htl by (by apply last_Some_elem_of).
  assert (Q ++ hs1 ++ x :: hs2 ≡ₚ x :: Q ++ hs1 ++ hs2) as HP by (rewrite (app_assoc Q), <- Permutation_middle; by rewrite app_assoc).
  pose proof Hn as Hn'. rewrite HP in Hn'. apply NoDup_cons in Hn' as [Hxn Hn']. assert (tl ≠ x) as Hne by (intros ->; apply Hxn; set_solver).
  assert (x ∈ held) as Hxh by (rewrite Hhe; set_solver).
  eexists. split; [|split].
  - unfold push_by. erewrite run_step; [|cbn [lstep]; fields; rewrite Hp; cbn; rewrite bool_decide_true by done; reflexivity]. cbn [replicate].
    push_turn Hi ltac:(rewrite Hx; cbn [mbind option_bind hd_next]).
    push_turn Hi idtac.
    push_turn Hi ltac:(rewrite Z.eqb_refl).
    push_turn Hi ltac:(rewrite lookup_insert_ne, Hla by done; cbn [mbind option_bind hd_flag]).
    push_turn Hi ltac:(rewrite lookup_insert_eq; cbn [mbind option_bind hd_flag]).
    push_turn Hi ltac:(rewrite lookup_insert_eq; cbn [mbind option_bind hd_next]).
    push_turn Hi idtac. push_turn Hi idtac. reflexivity.
  - assert (∀ z, z ≠ x → z ≠ tl → <[tl := Hdr x (Z.lor 0 hasNextBufferFlag)]> (<[tl := Hdr x 0]> (<[x := Hdr nxx 0]> hdrs)) !! z = hdrs !! z) as Hoth
      by (intros z Hz Hz'; by rewrite !lookup_insert_ne).
    constructor; fields.
    + rewrite !list_insert_insert_eq. by apply idle_insert.
    + rewrite head_app, Hh. done.
    + by rewrite last_snoc.
    + rewrite length_app. cbn [length]. lia.
    + rewrite <- app_assoc. cbn. by rewrite <- Permutation_middle, NoDup_cons.
    + intros z Hz. destruct (decide (z = tl)) as [->|Hz1]; [rewrite lookup_insert_eq; by eexists|].
      destruct (decide (z = x)) as [->|Hz2]; [rewrite !lookup_insert_ne, lookup_insert_eq by done; by eexists|]. rewrite Hoth by done. apply Hd. rewrite HP. set_solver.
    + intros a b [Hab|[Ha ->]]%adj_snoc.
      * rewrite Hoth; [by apply Hl|intros ->; apply Hxn; apply adj_in in Hab; set_solver|].
        intros ->. eapply adj_last; [|exact Hab|exact Ht]. by apply NoDup_app in Hn as [? _].
      * rewrite Ht in Ha. injection Ha as <-. by rewrite lookup_insert_eq.
    + exists nxx. rewrite !lookup_insert_ne, lookup_insert_eq by done. done.
    + apply (Permutation_cons_inv (a := x)). rewrite rm_perm by done. by rewrite Hhe, Permutation_middle.
  - fields. by rewrite !length_insert.
Qed.

(** ** Calls in turn *)

Lemma run_app side ls1 ls2 s s1 : run side ls1 s = Some s1 → run side (ls1 ++ ls2) s = run side ls2 s1.
Proof.
  revert s. induction ls1 as [|l ls1 IH]; intros s E; [by injection E as ->|]. cbn [run app] in *. destruct (lstep side l s); [|done]. by apply IH.
Qed.

(** One call of goroutine [o.1], as the FIFO specification of BufferList has it. *)
Lemma turn side g o os Q hs s : at_rest Q hs s → (o.1 < length (f_pcs s))%nat →
  ∃ ls s' Q' hs', run side ls s = Some s' ∧ at_rest Q' hs' s' ∧ length (f_pcs s') = length (f_pcs s) ∧
    (spec_lops g (o.2 :: os) Q hs).2 = (spec_lops g os Q' hs').2.
Proof.
  intros H Hi. destruct o as [i [|k]]; cbn [fst snd] in *.
  - destruct Q as [|x [|y Q]]; [discriminate (ar_head _ _ _ H)| |].
    + destruct (turn_pop_empty side i x hs s H Hi) as (s'&E&H'&Hl). by exists [LPop i; LRun i; LRun i], s', [x], hs.
    + destruct (turn_pop side i x y Q hs s H Hi) as (s'&E&H'&Hl). by exists (pop_by i), s', (y :: Q), (hs ++ [x]).
  - destruct (hs !! k) as [x|] eqn:Ek.
    + pose proof (take_drop_middle _ _ _ Ek) as Eh. pose proof H as H0. rewrite <- Eh in H0. destruct (turn_push side i x Q _ _ s H0 Hi) as (s'&E&H'&Hl).
      exists (push_by i x), s', (Q ++ [x]), (delete k hs). split_and!; try done; [by rewrite delete_take_drop|]. cbn [spec_lops]. by rewrite Ek.
    + exists [], s, Q, hs. split_and!; try done. cbn [spec_lops]. by rewrite Ek.
Qed.

(** When every call of a goroutine ends before the next one begins, the interleaved model
    goes through the same free lists and the same slots in use as the FIFO that the model
    in bytes refines ([buffer_list_refines]), whoever makes the calls. *)
Theorem calls_in_turn side g os : ∀ Q hs s, at_rest Q hs s → Forall (λ o, (o.1 < length (f_pcs s))%nat) os →
  ∃ ls s', run side ls s = Some s' ∧ at_rest (spec_lops g os.*2 Q hs).2.1 (spec_lops g os.*2 Q hs).2.2 s'.
Proof.
  induction os as [|o os IH]; intros Q hs s H Ho; [by exists [], s|]. apply Forall_cons in Ho as [Hi Ho].
  destruct (turn side g o os.*2 Q hs s H Hi) as (ls&s1&Q1&hs1&E&H1&Hl&Es). destruct (IH Q1 hs1 s1 H1) as (ls2&s2&E2&H2).
  { eapply Forall_impl; [exact Ho|]. intros o'. by rewrite Hl. }
  exists (ls ++ ls2), s2. split; [by rewrite (run_app _ _ _ _ _ E)|]. rewrite fmap_cons, Es. exact H2.
Qed.

(** A new list is at rest. *)
Lemma new_list_at_rest num c n : (0 < num)%nat → 0 ≤ c → at_rest (slot_offsets num c) [] (new_list num c n).
Proof.
  intros Hn Hc. destruct (new_list_inv num c n Hn Hc) as [(Q&_&Sh) _]. constructor; cbn [new_list f_pcs f_head f_tail f_size f_held].
  - by apply Forall_replicate.
  - rewrite (head_lookup (slot_offsets num c)), slot_offsets_lookup by done. done.
  - rewrite last_lookup, slot_offsets_length. replace (pred num) with (num - 1)%nat by lia. by rewrite slot_offsets_lookup by lia.
  - by rewrite slot_offsets_length.
  - rewrite app_nil_r. by apply slot_offsets_nodup.
  - intros x. rewrite app_nil_r. apply (sh_hdrs _ _ _ Sh).
  - intros a b (k&Ha&Hb). pose proof (lookup_lt_Some _ _ _ Hb) as Hk. rewrite slot_offsets_length in Hk. rewrite slot_offsets_lookup in Ha, Hb by lia.
    injection Ha as <-. injection Hb as <-. change (f_hdr (new_list num c n) !! slot_at c k = Some (Hdr (slot_at c (S k)) hasNextBufferFlag)). rewrite new_hdr_lookup by (done || lia).
    unfold new_hdr. by rewrite (proj2 (Nat.ltb_lt _ _)) by lia.
  - exists 0. change (f_hdr (new_list num c n) !! slot_at c (num - 1) = Some (Hdr 0 0)). rewrite new_hdr_lookup by (done || lia).
    unfold new_hdr. by rewrite (proj2 (Nat.ltb_ge _ _)) by lia.
  - done.
Qed.

(** Two goroutines take turns on a list of four slots. *)
Example turns_example : ∃ ls s, run (λ i, bool_decide (i = 0%nat)) ls (new_list 4 64 2) = Some s ∧
  at_rest [slot_at 64 2; slot_at 64 3; slot_at 64 0] [slot_at 64 1] s.
Proof.
  apply (calls_in_turn (λ i, bool_decide (i = 0%nat)) (Geom (Ptr 0 0) 0 20 64 4 400) [(0%nat, LAlloc); (1%nat, LAlloc); (1%nat, LFree 0)] (slot_offsets 4 64) []).
  - apply new_list_at_rest; lia.
  - repeat constructor; cbn; lia.
Qed.
