(* ===== verification/BufferManager.v ===== *)
(** * The buffer manager ([buffer_manager.go], [bufferManager])

    The manager owns one free list per slot size, laid out one behind the
    other in the mapping; a process keeps its managers in a table by path,
    with reference counts. *)

From Stdlib Require Import ZArith Lia.
From stdpp Require Import prelude list gmap strings.
From S2P Require Import Prelude GoMem Queue BufferSlice BufferList.

(** ** Data *)

Definition bufferManagerHeaderSize : Z := 8.
Definition bmCapOffset : Z := 4.

Record SizePercentPair := SizePercent { sp_Size : Z; sp_Percent : Z }.

Record bufferManager := BufferManager {
  bm_lists : list bufferList;
  bm_mem : gslice;
  bm_minSliceSize : Z;
  bm_maxSliceSize : Z;
  bm_path : string;
  bm_refCount : Z;
  bm_mmapMapType : MemMapType;
  bm_memFd : Z
}.

(** ** The manager: layout *)

(** The loop of [createBufferManager] over the configured sizes. *)
Fixpoint create_lists (pairs : list SizePercentPair) (mem : gslice) (bufferRegionCap sumPercent hadUsedOffset : Z)
    : M gmem (error + (list bufferList * Z)) :=
  match pairs with
  | [] => mret (inr ([], hadUsedOffset))
  | sp :: pairs =>
      let sumPercent := u32 (sumPercent + sp_Percent sp) in
      if sumPercent >? 100
      then mret (inl (Errorf "the sum of all SizePercentPair's percent must be equals 100"))
      else if u32 (sp_Size sp + bufferHeaderSize) =? 0 then panic
      else
        let bufferNum := u32 (u64 (bufferRegionCap * sp_Percent sp) `div` 100)
                         `div` u32 (sp_Size sp + bufferHeaderSize) in
        let needSize := countBufferListMemSize bufferNum (sp_Size sp) in
        r ← createFreeBufferList bufferNum (sp_Size sp) mem hadUsedOffset;
        match r with
        | inl e => mret (inl e)
        | inr freeList =>
            r ← create_lists pairs mem bufferRegionCap sumPercent (u32 (hadUsedOffset + needSize));
            match r with
            | inl e => mret (inl e)
            | inr (ls, off) => mret (inr (freeList :: ls, off))
            end
        end
  end.

Definition createBufferManager (pairs : list SizePercentPair) (path : string) (mem : gslice) (offset : Z)
    : M gmem (error + bufferManager) :=
  if s_len mem <=? offset then mret (inl (Errorf "mem's size is too small"))
  else
    let n := Z.of_nat (length pairs) in
    let bufferRegionCap := u64 (s_len mem - offset - bufferListHeaderSize * n - bufferManagerHeaderSize) in
    p ← index_ptr mem offset;
    _ ← store_u16 p n;
    r ← create_lists pairs mem bufferRegionCap 0 (u32 (bufferManagerHeaderSize + offset));
    match r with
    | inl e => mret (inl e)
    | inr (lists, hadUsedOffset) =>
        first ← of_option (head pairs);
        final ← of_option (last pairs);
        q ← index_ptr mem (u32 (offset + bmCapOffset));
        _ ← store_u32 q (u32 (hadUsedOffset - bufferManagerHeaderSize));
        mret (inr (BufferManager lists mem (sp_Size first) (sp_Size final) path 1 MemMapTypeDevShmFile 0))
    end.

Fixpoint mapping_lists (n : nat) (mem : gslice) (start hadUsedOffset : Z)
    : M gmem (error + list bufferList) :=
  match n with
  | O => mret (inr [])
  | S n =>
      r ← mappingFreeBufferList mem (u32 (start + hadUsedOffset));
      match r with
      | inl e => mret (inl e)
      | inr l =>
          c ← load_u32 (bl_cap l);
          cp ← load_u32 (bl_capPerBuffer l);
          let size := countBufferListMemSize c cp in
          r ← mapping_lists n mem start (u32 (hadUsedOffset + size));
          match r with
          | inl e => mret (inl e)
          | inr ls => mret (inr (l :: ls))
          end
      end
  end.

Definition mappingBufferManager (path : string) (mem : gslice) (start : Z) : M gmem (error + bufferManager) :=
  if (s_len mem <=? u32 (start + bmCapOffset)) || (s_len mem <=? start)
  then mret (inl (Errorf "mem's size is too small"))
  else
    p ← index_ptr mem start;
    listNum ← load_u16 p;
    q ← index_ptr mem (u32 (start + bmCapOffset));
    length ← load_u32 q;
    if (s_len mem <? bufferManagerHeaderSize + length) || (listNum =? 0)
    then mret (inl (Errorf "could not mappingBufferManager"))
    else
      r ← mapping_lists (Z.to_nat listNum) mem start bufferManagerHeaderSize;
      match r with
      | inl e => mret (inl e)
      | inr freeLists =>
          first ← of_option (head freeLists);
          min ← load_u32 (bl_capPerBuffer first);
          final ← of_option (last freeLists);
          max ← load_u32 (bl_capPerBuffer final);
          mret (inr (BufferManager freeLists mem min max path 1 MemMapTypeDevShmFile 0))
      end.

(** ** The manager: allocation and recycling *)

Fixpoint remain_loop (ls : list bufferList) (result : Z) : M heap Z :=
  match ls with
  | [] => mret result
  | l :: ls =>
      size ← on_mem (load_i32 (bl_size l));
      cp ← on_mem (load_u32 (bl_capPerBuffer l));
      let remain := size * cp in
      remain_loop ls (if remain >? 0 then u32 (result + u32 remain) else result)
  end.

Definition remainSize (b : bufferManager) : M heap Z := remain_loop (bm_lists b) 0.

Fixpoint alloc_loop (ls : list bufferList) (size : Z) : M heap (error + nat) :=
  match ls with
  | [] => mret (inl ErrNoMoreBuffer)
  | l :: ls =>
      cp ← on_mem (load_u32 (bl_capPerBuffer l));
      if size <=? cp then
        r ← bufferList_pop l;
        match r with
        | inl _ => alloc_loop ls size
        | inr buf => mret (inr buf)
        end
      else alloc_loop ls size
  end.

Definition allocShmBuffer (b : bufferManager) (size : Z) : M heap (error + nat) :=
  if size <=? bm_maxSliceSize b then alloc_loop (bm_lists b) size
  else mret (inl ErrNoMoreBuffer).

(** [for remain > 0 { buf, err := b.lists[i].pop() ... }] *)
Fixpoint drain_list (fuel : nat) (l : bufferList) (slices : sliceList) (remain allocSize : Z)
    : M heap (sliceList * Z * Z) :=
  if remain >? 0 then
    match fuel with
    | O => out_of_fuel
    | S fuel =>
        r ← bufferList_pop l;
        match r with
        | inl _ => mret (slices, remain, allocSize)
        | inr buf =>
            slices' ← sl_pushBack slices (Some buf);
            s ← get_slice buf;
            drain_list fuel l slices' (remain - bs_cap s) (allocSize + bs_cap s)
        end
    end
  else mret (slices, remain, allocSize).

(** From the list of the largest slots down; [ls] is in reverse order. *)
Fixpoint alloc_lists (fuel : nat) (ls : list bufferList) (slices : sliceList) (remain allocSize : Z)
    : M heap (sliceList * Z) :=
  match ls with
  | [] => mret (slices, allocSize)
  | l :: ls =>
      if remain >? 0 then
        r ← drain_list fuel l slices remain allocSize;
        let '(slices', remain', allocSize') := r in
        alloc_lists fuel ls slices' remain' allocSize'
      else mret (slices, allocSize)
  end.

(** A list that is never popped empty cannot be popped more often than it has
    bytes; the region length bounds the rounds. *)
Definition alloc_fuel (b : bufferManager) : nat := S (Z.to_nat (s_len (bm_mem b))).

Definition allocShmBuffers (b : bufferManager) (slices : sliceList) (size : Z) : M heap (sliceList * Z) :=
  alloc_lists (alloc_fuel b) (reverse (bm_lists b)) slices size 0.

Fixpoint recycle_loop (ls : list bufferList) (p : nat) : M heap unit :=
  match ls with
  | [] => mret tt
  | l :: ls =>
      s ← get_slice p;
      cp ← on_mem (load_u32 (bl_capPerBuffer l));
      if bs_cap s =? cp then bufferList_push l p else recycle_loop ls p
  end.

Definition recycleBuffer (b : bufferManager) (slice : option nat) : M heap unit :=
  match slice with
  | None => mret tt
  | Some p =>
      s ← get_slice p;
      _ ← (if bs_isFromShm s then recycle_loop (bm_lists b) p else mret tt);
      putBackBufferSlice p
  end.

Definition readBufferSlice (b : bufferManager) (offset : Z) : M heap (error + nat) :=
  if offset + bufferHeaderSize >=? s_len (bm_mem b)
  then mret (inl (Errorf "broken share memory. readBufferSlice unexpected offset"))
  else
    p ← index_ptr (bm_mem b) (u32 (offset + bufferCapOffset));
    bufCap ← on_mem (load_u32 p);
    let bufEndOffset := u32 (offset + bufferHeaderSize + bufCap) in
    if bufEndOffset >? u32 (s_len (bm_mem b))
    then mret (inl (Errorf "broken share memory. readBufferSlice unexpected bufferEndOffset"))
    else
      hd ← subslice (bm_mem b) offset (u32 (offset + bufferHeaderSize));
      data ← subslice (bm_mem b) (u32 (offset + bufferHeaderSize)) bufEndOffset;
      s ← newBufferSlice (Some hd) data offset true;
      mret (inr s).

(** The loop of [recycleBuffers] follows the chain of the headers; fuel
    bounds its length. *)
Fixpoint recycle_chain (fuel : nat) (b : bufferManager) (p : nat) : M heap unit :=
  match fuel with
  | O => out_of_fuel
  | S fuel =>
      s ← get_slice p;
      hasNext ← on_mem (header_hasNext (header_of s));
      if negb hasNext then recycleBuffer b (Some p)
      else
        nextSliceOffset ← on_mem (header_nextBufferOffset (header_of s));
        _ ← recycleBuffer b (Some p);
        r ← readBufferSlice b nextSliceOffset;
        match r with
        | inl _ => mret tt
        | inr q => recycle_chain fuel b q
        end
  end.

Definition recycleBuffers (fuel : nat) (b : bufferManager) (slice : option nat) : M heap unit :=
  match slice with
  | None => mret tt
  | Some p =>
      s ← get_slice p;
      if bs_isFromShm s then recycle_chain fuel b p else mret tt
  end.

Fixpoint size_loop (ls : list bufferList) (size : Z) : M heap Z :=
  match ls with
  | [] => mret size
  | l :: ls => n ← on_mem (load_i32 (bl_size l)); size_loop ls (size + n)
  end.

Definition sliceSize (b : bufferManager) : M heap Z := size_loop (bm_lists b) 0.

Fixpoint returned_loop (ls : list bufferList) : M gmem bool :=
  match ls with
  | [] => mret true
  | l :: ls =>
      size ← load_i32 (bl_size l);
      cap ← load_u32 (bl_cap l);
      if negb (u32 size =? cap) then mret false
      else
        counter ← load_i32 (bl_counter l);
        if negb (counter =? 0) then mret false else returned_loop ls
  end.

Definition checkBufferReturned (b : bufferManager) : M gmem bool := returned_loop (bm_lists b).

(** ** Release and the process-wide table of managers *)

(** [idle] is what other goroutines and the peer do during a sleep. *)
Fixpoint wait_returned (rounds : nat) (idle : M gmem unit) (b : bufferManager) : M gmem unit :=
  match rounds with
  | O => mret tt
  | S rounds =>
      ok ← checkBufferReturned b;
      if (ok : bool) then mret tt
      else _ ← idle; wait_returned rounds idle b
  end.

Definition bufferManager_unmap (os : os_ops) (idle : M gmem unit) (b : bufferManager) : M gmem unit :=
  _ ← wait_returned 50 idle b;
  _ ← os_munmap os (bm_mem b);
  match bm_mmapMapType b with
  | MemMapTypeDevShmFile => _ ← os_remove os (bm_path b); mret tt
  | MemMapTypeMemFd => _ ← os_close os (bm_memFd b); mret tt
  end.

(** The table [bufferManagers]: a manager per path; the record in the table is
    the shared object, its reference count included. *)
Record gbms := GBms { gb_mem : gmem; gb_bms : gmap string bufferManager }.

Definition set_gb_mem (m : gmem) (g : gbms) : gbms := GBms m (gb_bms g).
Definition on_gmem {A} (c : M gmem A) : M gbms A := zoom gb_mem set_gb_mem c.
Definition put_bm (path : string) (b : bufferManager) : M gbms unit :=
  modify_state (λ g, GBms (gb_mem g) (<[path := b]> (gb_bms g))).
Definition del_bm (path : string) : M gbms unit :=
  modify_state (λ g, GBms (gb_mem g) (delete path (gb_bms g))).

Definition with_refCount (b : bufferManager) (n : Z) : bufferManager :=
  BufferManager (bm_lists b) (bm_mem b) (bm_minSliceSize b) (bm_maxSliceSize b) (bm_path b) n
    (bm_mmapMapType b) (bm_memFd b).
Definition with_memFd (b : bufferManager) (fd : Z) : bufferManager :=
  BufferManager (bm_lists b) (bm_mem b) (bm_minSliceSize b) (bm_maxSliceSize b) (bm_path b) (bm_refCount b)
    MemMapTypeMemFd fd.

(** [sort.Sort(sizePercentPairs(pairs))]: ascending by [Size]. *)
Fixpoint sort_insert (p : SizePercentPair) (ps : list SizePercentPair) : list SizePercentPair :=
  match ps with
  | [] => [p]
  | q :: qs => if sp_Size p <? sp_Size q then p :: q :: qs else q :: sort_insert p qs
  end.
Definition sort_pairs (ps : list SizePercentPair) : list SizePercentPair :=
  foldl (λ acc p, sort_insert p acc) [] ps.

Definition getGlobalBufferManagerWithMemFd (os : os_ops) (bufferPathName : string) (memFd capacity : Z)
    (create : bool) (pairs : list SizePercentPair) : M gbms (error + bufferManager) :=
  g ← get_state;
  match gb_bms g !! bufferPathName with
  | Some bm =>
      let bm' := with_refCount bm (i32 (bm_refCount bm + 1)) in
      _ ← put_bm bufferPathName bm';
      _ ← (if (memFd >? 0) && negb create then on_gmem (os_close os memFd) else mret None);
      mret (inr bm')
  | None =>
      r ← (if create then
             r ← on_gmem (MemfdCreate os bufferPathName 0);
             match r with
             | inl _ => mret (inl (Errorf "getGlobalBufferManagerWithMemFd MemfdCreate failed"))
             | inr fd =>
                 e ← on_gmem (os_ftruncate os fd capacity);
                 match e with
                 | Some _ => mret (inl (Errorf "getGlobalBufferManagerWithMemFd truncate share memory failed"))
                 | None => mret (inr (fd, capacity))
                 end
             end
           else
             r ← on_gmem (os_fstat_size os memFd);
             match r with
             | inl _ => mret (inl (Errorf "getGlobalBufferManagerWithMemFd mapping failed"))
             | inr size => mret (inr (memFd, u32 size))
             end);
      match r with
      | inl e => mret (inl e)
      | inr (fd, capacity) =>
          r ← on_gmem (os_mmap os fd capacity);
          match r with
          | inl _ => mret (inl (Errorf "getGlobalBufferManagerWithMemFd Mmap failed"))
          | inr mem =>
              r ← on_gmem (if create then createBufferManager (sort_pairs pairs) bufferPathName mem 0
                           else mappingBufferManager bufferPathName mem 0);
              match r with
              | inl e => _ ← on_gmem (os_munmap os mem); mret (inl e)
              | inr bm =>
                  let bm' := with_memFd bm fd in
                  _ ← put_bm bufferPathName bm';
                  mret (inr bm')
              end
          end
      end
  end.

Definition getGlobalBufferManager (os : os_ops) (isLinux : bool) (shmPath : string) (capacity : Z)
    (create : bool) (pairs : list SizePercentPair) : M gbms (error + bufferManager) :=
  g ← get_state;
  match gb_bms g !! shmPath with
  | Some bm =>
      let bm' := with_refCount bm (i32 (bm_refCount bm + 1)) in
      _ ← put_bm shmPath bm';
      mret (inr bm')
  | None =>
      _ ← on_gmem (os_mkdir_parent os shmPath);
      r ← (if create then
             ok ← on_gmem (canCreateOnDevShm os isLinux capacity shmPath);
             if negb ok then mret (inl (Errorf "share memory had not left space"))
             else
               r ← on_gmem (os_open os shmPath true);
               match r with
               | inl e => mret (inl e)
               | inr fd =>
                   e ← on_gmem (os_ftruncate os fd capacity);
                   match e with
                   | Some _ => mret (inl (Errorf "getGlobalBufferManager truncate share memory failed"))
                   | None => mret (inr (fd, capacity))
                   end
               end
           else
             r ← on_gmem (os_open os shmPath false);
             match r with
             | inl e => mret (inl e)
             | inr fd =>
                 r ← on_gmem (os_fstat_size os fd);
                 match r with
                 | inl _ => mret (inl (Errorf "getGlobalBufferManager mapping failed"))
                 | inr size => mret (inr (fd, u32 size))
                 end
             end);
      match r with
      | inl e => mret (inl e)
      | inr (fd, capacity) =>
          r ← on_gmem (os_mmap os fd capacity);
          match r with
          | inl e => _ ← on_gmem (os_close os fd); mret (inl e)
          | inr mem =>
              r ← on_gmem (if create then createBufferManager (sort_pairs pairs) shmPath mem 0
                           else mappingBufferManager shmPath mem 0);
              match r with
              | inl e => _ ← on_gmem (os_munmap os mem); _ ← on_gmem (os_close os fd); mret (inl e)
              | inr bm => _ ← put_bm shmPath bm; _ ← on_gmem (os_close os fd); mret (inr bm)
              end
          end
      end
  end.

Definition addGlobalBufferManagerRefCount (os : os_ops) (idle : M gmem unit) (path : string) (c : Z) : M gbms unit :=
  g ← get_state;
  match gb_bms g !! path with
  | Some bm =>
      let n := i32 (bm_refCount bm + i32 c) in
      let bm' := with_refCount bm n in
      _ ← put_bm path bm';
      if n <=? 0 then
        _ ← on_gmem (bufferManager_unmap os idle bm');
        del_bm path
      else mret tt
  | None => mret tt
  end.

(** ** The manager: create and map *)

(** The bytes of a list, header and region. *)
Definition g_win (g : geom) : ptr * Z := (g_base g, bufferListHeaderSize + g_bytes g).

Lemma blist_rep_apart m m' ws g k fl :
  blist_rep m g k fl → changes_only m m' ws →
  Forall (λ w, disjoint_win w.1 w.2 (g_win g).1 (g_win g).2) ws → blist_rep m' g k fl.
Proof.
  intros Hr Hc Hd. pose proof Hr as []. pose proof br_geom as []. unfold g_win in Hd. cbn in Hd.
  assert (0 < g_step g) by (consts; lia).
  assert (0 < g_bytes g) by (unfold g_bytes; apply Z.mul_pos_pos; lia).
  eapply blist_rep_frame; [done|exact Hc|..].
  - rewrite <- (padd_0 (g_base g)). eapply Forall_disjoint_sub; [exact Hd|consts; lia..].
  - intros s Hs. rewrite Forall_forall in br_slots. destruct (br_slots s Hs) as (?&?&_).
    unfold slot_ptr. eapply Forall_disjoint_sub; [exact Hd|consts; lia..].
  - intros s (?&?&_). unfold slot_ptr. eapply Forall_disjoint_sub; [exact Hd|consts; lia..].
Qed.

(** The number of slots a configured size gets of [R] bytes. *)
Definition pair_num (R : Z) (sp : SizePercentPair) : Z :=
  (R * sp_Percent sp) `div` 100 `div` (sp_Size sp + bufferHeaderSize).
Definition pair_bytes (R : Z) (sp : SizePercentPair) : Z :=
  bufferListHeaderSize + pair_num R sp * (sp_Size sp + bufferHeaderSize).

(** Where the lists are: one behind the other from offset [U]. *)
Fixpoint layout (mem : gslice) (co R U : Z) (pairs : list SizePercentPair) : list geom :=
  match pairs with
  | [] => []
  | sp :: pairs => geom_at mem U co (sp_Size sp) (pair_num R sp) :: layout mem co R (U + pair_bytes R sp) pairs
  end.
Fixpoint layout_end (R U : Z) (pairs : list SizePercentPair) : Z :=
  match pairs with [] => U | sp :: pairs => layout_end R (U + pair_bytes R sp) pairs end.

Definition sum_percent (pairs : list SizePercentPair) : Z := foldr (λ sp z, sp_Percent sp + z) 0 pairs.

(** A configuration that gives every size at least one slot. *)
Record pair_ok (R : Z) (sp : SizePercentPair) : Prop := {
  po_size : 0 < sp_Size sp;
  po_size32 : sp_Size sp + bufferHeaderSize < 2 ^ 32;
  po_percent : 0 ≤ sp_Percent sp;
  po_num : 0 < pair_num R sp
}.

Lemma sum_percent_nonneg R pairs : Forall (pair_ok R) pairs → 0 ≤ sum_percent pairs.
Proof. unfold sum_percent. induction 1 as [|sp pairs [] _ IH]; cbn; lia. Qed.

Lemma pair_bytes_bound R sp : pair_ok R sp → pair_bytes R sp ≤ bufferListHeaderSize + (R * sp_Percent sp) `div` 100.
Proof.
  intros []. unfold pair_bytes, pair_num. apply Zplus_le_compat_l. rewrite Z.mul_comm.
  apply Z.mul_div_le. consts. lia.
Qed.

Lemma pair_bytes_pos R sp : pair_ok R sp → bufferListHeaderSize < pair_bytes R sp.
Proof.
  intros []. unfold pair_bytes.
  assert (0 < pair_num R sp * (sp_Size sp + bufferHeaderSize)) by (apply Z.mul_pos_pos; consts; lia). lia.
Qed.

Lemma layout_end_mono R U pairs : Forall (pair_ok R) pairs → U ≤ layout_end R U pairs.
Proof.
  intros H. revert U. induction H as [|sp pairs Hp _ IH]; intros U; cbn; [lia|].
  specialize (IH (U + pair_bytes R sp)). pose proof (pair_bytes_pos R sp Hp). consts. lia.
Qed.

(** The lists fit into what the percentages give them. *)
Lemma layout_fits R U pairs :
  Forall (pair_ok R) pairs →
  layout_end R U pairs ≤ U + bufferListHeaderSize * Z.of_nat (length pairs) + (R * sum_percent pairs) `div` 100.
Proof.
  intros H. revert U. unfold sum_percent.
  induction H as [|sp pairs Hp Hps IH]; intros U; cbn [layout_end length foldr].
  - rewrite (Z.mul_0_r R), Z.div_0_l by lia. consts. lia.
  - specialize (IH (U + pair_bytes R sp)). pose proof (pair_bytes_bound R sp Hp) as Hb.
    generalize dependent (foldr (λ sp z, sp_Percent sp + z) 0 pairs). intros S IH.
    assert ((R * sp_Percent sp) `div` 100 + (R * S) `div` 100 ≤ (R * (sp_Percent sp + S)) `div` 100) as Hsum.
    { rewrite Z.mul_add_distr_l. apply Z.div_le_lower_bound; [lia|].
      pose proof (Z.mul_div_le (R * sp_Percent sp) 100). pose proof (Z.mul_div_le (R * S) 100). lia. }
    rewrite Nat2Z.inj_succ. consts. lia.
Qed.

(** The wrap-arounds of the computation of the slot number do not matter. *)
Lemma pair_num_u R sp :
  0 ≤ R < 2 ^ 32 → 0 ≤ sp_Percent sp ≤ 100 → 0 ≤ sp_Size sp → sp_Size sp + bufferHeaderSize < 2 ^ 32 →
  u32 (u64 (R * sp_Percent sp) `div` 100) `div` u32 (sp_Size sp + bufferHeaderSize) = pair_num R sp.
Proof.
  intros HR Hp ? ?. assert (0 ≤ R * sp_Percent sp ≤ R * 100) by nia.
  rewrite (u64_small (_ * _)) by lia. rewrite (u32_small (sp_Size sp + _)) by (consts; lia).
  rewrite u32_small; [done|]. split; [apply Z.div_pos; lia|]. apply Z.div_lt_upper_bound; lia.
Qed.

(** What a memory looks like after the lists were created. *)
Definition lists_fresh (m : gmem) (gs : list geom) : Prop :=
  Forall (λ g, blist_rep m g 0 (all_slots g)) gs.

Lemma create_lists_ok pairs : ∀ m mem R sum U,
  0 ≤ R < 2 ^ 32 → 0 ≤ U → 0 ≤ sum → sum + sum_percent pairs ≤ 100 → Forall (pair_ok R) pairs →
  layout_end R U pairs ≤ s_len mem → s_len mem < 2 ^ 32 → s_len mem ≤ s_cap mem →
  in_mem m (slice_ptr mem) (s_len mem) →
  ∃ m', create_lists pairs mem R sum U m =
          Done (inr (list_of <$> layout mem 20 R U pairs, layout_end R U pairs), m') ∧
    lists_fresh m' (layout mem 20 R U pairs) ∧
    changes_only m m' [(padd (slice_ptr mem) U, layout_end R U pairs - U)].
Proof.
  induction pairs as [|sp pairs IH]; intros m mem R sum U HR HU Hsum Hs Hok Hend Hlen Hscap Hin;
    cbn [layout layout_end create_lists fmap list_fmap].
  - exists m. split_and!; [done|constructor|apply changes_only_refl].
  - apply Forall_cons in Hok as [Hp Hok]. cbn in Hs. fold (sum_percent pairs) in Hs.
    pose proof (sum_percent_nonneg R pairs Hok). pose proof Hp as [].
    pose proof (pair_bytes_pos R sp Hp) as Hpb. pose proof (layout_end_mono R (U + pair_bytes R sp) pairs Hok) as Hm.
    cbn [layout_end] in Hend.
    assert (list_room m mem U (sp_Size sp) (pair_num R sp)) as Hroom.
    { constructor; try done. unfold pair_bytes in *. lia. }
    destruct (createFreeBufferList_ok m mem U _ _ Hroom) as (m1&E1&Hr1&C1).
    set (g := geom_at mem U 20 (sp_Size sp) (pair_num R sp)) in *.
    assert (bufferListHeaderSize + g_bytes g = pair_bytes R sp) as Hgb by done.
    destruct (IH m1 mem R (sum + sp_Percent sp) (U + pair_bytes R sp)) as (m2&E2&Hr2&C2); try done; try (consts; lia).
    { by apply C1. }
    exists m2. split_and!.
    + rewrite (u32_small (sum + _)) by lia. bdecide. rewrite (u32_small (sp_Size sp + _)) by (consts; lia).
      replace (sp_Size sp + bufferHeaderSize =? 0) with false by (symmetry; apply Z.eqb_neq; consts; lia). cbv iota.
      pose proof (pair_num_u R sp HR ltac:(lia) ltac:(lia) ltac:(done)) as Hnum.
      rewrite (u32_small (sp_Size sp + _)) in Hnum by (consts; lia). rewrite Hnum.
      mrun E1. rewrite countBufferListMemSize_ok by (unfold pair_bytes in *; consts; lia).
      change (bufferListHeaderSize + pair_num R sp * (sp_Size sp + bufferHeaderSize)) with (pair_bytes R sp).
      rewrite (u32_small (U + _)) by (consts; lia). by mrun E2.
    + apply Forall_cons. split; [|done]. eapply blist_rep_apart; [exact Hr1|exact C2|].
      apply Forall_singleton. unfold g_win, disjoint_win. cbn. right. lia.
    + eapply changes_only_enlarge; [eapply changes_only_trans; [exact C1|exact C2]|].
      rewrite Hgb. cbn [app]. repeat (apply Forall_cons; split); [..|apply Forall_nil_2]; apply Exists_cons_hd;
        unfold win_in; cbn; split_and!; try done; consts; lia.
Qed.

Definition peek_u16 (m : gmem) (p : ptr) : option Z := le_val <$> peek m p 2.

Lemma store_u16_ok m p v :
  in_mem m p 2 →
  ∃ m', store_u16 p v m = Done (tt, m') ∧ peek_u16 m' p = Some (u16 v) ∧ changes_only m m' [(p, 2)].
Proof. apply (store_le_ok 2). Qed.

Lemma load_u16_ok m p v : peek_u16 m p = Some v → load_u16 p m = Done (v, m).
Proof.
  unfold peek_u16, load_u16, load_bytes. intros H.
  destruct (peek m p 2) as [l|] eqn:E; [|done]. injection H as <-.
  unfold mbind, M_bind. by rewrite E.
Qed.

Lemma changes_peek_u16 m m' ws p v :
  changes_only m m' ws → Forall (λ w, disjoint_win w.1 w.2 p 2) ws →
  peek_u16 m p = Some v → peek_u16 m' p = Some v.
Proof. intros [H _] Hd. unfold peek_u16. by rewrite H. Qed.

(** A mapping and a configuration that [createBufferManager] accepts. *)
Definition region_cap (mem : gslice) (o : Z) (pairs : list SizePercentPair) : Z :=
  s_len mem - o - bufferListHeaderSize * Z.of_nat (length pairs) - bufferManagerHeaderSize.

Record mgr_room (m : gmem) (mem : gslice) (o : Z) (pairs : list SizePercentPair) : Prop := {
  mr_off : 0 ≤ o;
  mr_cap : 0 ≤ region_cap mem o pairs;
  mr_pairs : Forall (pair_ok (region_cap mem o pairs)) pairs;
  mr_sum : sum_percent pairs ≤ 100;
  mr_num : 0 < Z.of_nat (length pairs) < 2 ^ 16;
  mr_len : s_len mem < 2 ^ 32;
  mr_scap : s_len mem ≤ s_cap mem;
  mr_mem : in_mem m (slice_ptr mem) (s_len mem)
}.

Definition mgr_layout (mem : gslice) (co o : Z) (pairs : list SizePercentPair) : list geom :=
  layout mem co (region_cap mem o pairs) (o + bufferManagerHeaderSize) pairs.
Definition mgr_end (mem : gslice) (o : Z) (pairs : list SizePercentPair) : Z :=
  layout_end (region_cap mem o pairs) (o + bufferManagerHeaderSize) pairs.

(** The manager of one side. *)
Definition manager_of (mem : gslice) (co o : Z) (pairs : list SizePercentPair) (path : string) : bufferManager :=
  BufferManager (list_of <$> mgr_layout mem co o pairs) mem
    (default 0 (sp_Size <$> head pairs)) (default 0 (sp_Size <$> last pairs)) path 1 MemMapTypeDevShmFile 0.

Lemma mgr_end_fits m mem o pairs :
  mgr_room m mem o pairs → o + bufferManagerHeaderSize ≤ mgr_end mem o pairs ≤ s_len mem.
Proof.
  intros []. split; [by apply layout_end_mono|].
  pose proof (layout_fits _ (o + bufferManagerHeaderSize) _ mr_pairs0) as Hf. unfold mgr_end.
  assert ((region_cap mem o pairs * sum_percent pairs) `div` 100 ≤ region_cap mem o pairs) as Hd.
  { apply Z.div_le_upper_bound; [lia|]. pose proof (sum_percent_nonneg _ _ mr_pairs0). nia. }
  unfold region_cap in *. lia.
Qed.

Record mgr_header (m : gmem) (mem : gslice) (o : Z) (pairs : list SizePercentPair) : Prop := {
  mh_num : peek_u16 m (padd (slice_ptr mem) o) = Some (Z.of_nat (length pairs));
  mh_len : peek_u32 m (padd (slice_ptr mem) (o + bmCapOffset)) = Some (mgr_end mem o pairs - bufferManagerHeaderSize)
}.

Lemma layout_after mem co R U pairs :
  Forall (pair_ok R) pairs → Forall (λ g, g_base g = padd (slice_ptr mem) (g_off g) ∧ U ≤ g_off g) (layout mem co R U pairs).
Proof.
  intros H. revert U. induction H as [|sp pairs Hp _ IH]; intros U; cbn [layout]; constructor; [cbn; split; [done|lia]|].
  eapply Forall_impl; [apply IH|]. intros g [? ?]. pose proof (pair_bytes_pos R sp Hp). consts. split; [done|lia].
Qed.

Lemma createBufferManager_ok m mem o pairs path :
  mgr_room m mem o pairs →
  ∃ m', createBufferManager pairs path mem o m = Done (inr (manager_of mem 20 o pairs path), m') ∧
    lists_fresh m' (mgr_layout mem 20 o pairs) ∧ mgr_header m' mem o pairs ∧ mgr_room m' mem o pairs.
Proof.
  intros Hr. pose proof Hr as []. pose proof (mgr_end_fits _ _ _ _ Hr) as [He1 He2].
  unfold bufferManagerHeaderSize, bmCapOffset in *.
  set (q := padd (slice_ptr mem) o). set (R := region_cap mem o pairs) in *.
  assert (R < 2 ^ 32) by (unfold R, region_cap, bufferManagerHeaderSize; consts; lia).
  destruct (store_u16_ok m q (Z.of_nat (length pairs))) as (m1&E1&Q1&C1).
  { eapply in_mem_sub; [exact mr_mem0|lia..]. }
  destruct (create_lists_ok pairs m1 mem R 0 (o + 8)) as (m2&E2&Hf2&C2); try done; try lia.
  { apply C1. done. }
  destruct (store_u32_ok m2 (padd (slice_ptr mem) (o + 4)) (mgr_end mem o pairs - 8)) as (m3&E3&Q3&C3).
  { apply C2, C1. eapply in_mem_sub; [exact mr_mem0|lia..]. }
  destruct pairs as [|sp pairs']; [cbn in mr_num0; lia|].
  destruct (last (sp :: pairs')) as [sl|] eqn:Hl; [|by apply last_None in Hl].
  exists m3. split_and!.
  - unfold createBufferManager, bufferManagerHeaderSize, bmCapOffset. bdecide.
    mby ltac:(apply index_ptr_ok; lia). mrun E1.
    change (s_len mem - o - bufferListHeaderSize * Z.of_nat (length (sp :: pairs')) - 8) with R.
    rewrite (u64_small R) by lia. rewrite (u32_small (8 + o)) by lia. rewrite (Z.add_comm 8 o). mrun E2.
    rewrite Hl. cbn [head of_option]. rewrite !bind_mret.
    rewrite (u32_small (o + 4)) by lia. mby ltac:(apply index_ptr_ok; lia).
    change (layout_end R (o + 8) (sp :: pairs')) with (mgr_end mem o (sp :: pairs')).
    rewrite (u32_small (_ - 8)) by lia.
    change (Ptr (s_arr mem) (s_off mem + (o + 4))) with (padd (slice_ptr mem) (o + 4)). mrun E3.
    unfold manager_of. rewrite Hl. done.
  - pose proof (layout_after mem 20 R (o + 8) _ mr_pairs0) as Ha.
    unfold lists_fresh, mgr_layout in *. fold R. rewrite Forall_forall in Hf2, Ha |- *. intros g Hg.
    destruct (Ha g Hg) as [Hb ?]. pose proof (Hf2 g Hg) as Hrg.
    eapply blist_rep_apart; [exact Hrg|exact C3|]. apply Forall_singleton. unfold g_win, disjoint_win. cbn.
    rewrite Hb. cbn. right. lia.
  - constructor.
    + rewrite <- (u16_small (Z.of_nat _)) by lia. eapply changes_peek_u16; [exact C3|unfold bmCapOffset in *; solve_disj|].
      eapply changes_peek_u16; [exact C2|solve_disj|exact Q1].
    + unfold bmCapOffset. rewrite Q3. f_equal. apply u32_small. unfold bufferManagerHeaderSize. lia.
  - constructor; try done. by apply C3, C2, C1.
Qed.

(** ** Mapping *)

Lemma mapping_lists_ok pairs : ∀ m mem R start U,
  0 ≤ start → 0 ≤ U → 0 ≤ R < 2 ^ 32 → Forall (pair_ok R) pairs → 
  layout_end R (start + U) pairs ≤ s_len mem → s_len mem < 2 ^ 32 → s_len mem ≤ s_cap mem →
  in_mem m (slice_ptr mem) (s_len mem) →
  Forall (λ g, ∃ k fl, blist_rep m g k fl) (layout mem 20 R (start + U) pairs) →
  mapping_lists (length pairs) mem start U m = Done (inr (list_of <$> layout mem 24 R (start + U) pairs), m).
Proof.
  induction pairs as [|sp pairs IH]; intros m mem R start U Hst HU HR Hok Hend Hlen Hscap Hin Hrep;
    cbn [layout layout_end length mapping_lists fmap list_fmap] in *; [done|].
  apply Forall_cons in Hok as [Hp Hok]. apply Forall_cons in Hrep as [(k&fl&Hrep) Hreps].
  pose proof Hp as []. pose proof (pair_bytes_pos R sp Hp) as Hpb.
  pose proof (layout_end_mono R (start + U + pair_bytes R sp) pairs Hok) as Hm.
  assert (list_room m mem (start + U) (sp_Size sp) (pair_num R sp)) as Hroom.
  { constructor; try done; try lia. unfold pair_bytes in *. lia. }
  rewrite (u32_small (start + U)) by (consts; lia).
  pose proof (br_num _ _ _ _ Hrep) as Hn. pose proof (br_cap _ _ _ _ Hrep) as Hc. cbn in Hn, Hc.
  pose proof (mappingFreeBufferList_ok _ _ _ _ _ Hroom Hn Hc) as E1. mrun E1.
  cbn [bl_cap bl_capPerBuffer list_of]. mrun Hn. mrun Hc.
  rewrite countBufferListMemSize_ok by (unfold pair_bytes in *; consts; lia).
  change (bufferListHeaderSize + pair_num R sp * (sp_Size sp + bufferHeaderSize)) with (pair_bytes R sp).
  rewrite (u32_small (U + _)) by (consts; lia).
  rewrite <- Z.add_assoc in *. mby ltac:(eapply (IH m mem R start (U + pair_bytes R sp)); first [done | consts; lia]).
  done.
Qed.

Lemma layout_head mem co R U pairs :
  head (layout mem co R U pairs) = (λ sp, geom_at mem U co (sp_Size sp) (pair_num R sp)) <$> head pairs.
Proof. by destruct pairs. Qed.

Lemma layout_last_cap mem co R : ∀ pairs U,
  g_cap <$> last (layout mem co R U pairs) = sp_Size <$> last pairs.
Proof.
  induction pairs as [|sp pairs IH]; intros U; [done|]. cbn [layout]. rewrite !last_cons.
  specialize (IH (U + pair_bytes R sp)). destruct (last (layout _ _ _ _ pairs)), (last pairs); done.
Qed.

(** The sizes are where a list keeps them, on either side. *)
Lemma layout_cap_word m mem R U pairs co :
  Forall (λ g, ∃ k fl, blist_rep m g k fl) (layout mem 20 R U pairs) →
  Forall (λ g, peek_u32 m (bl_capPerBuffer (list_of g)) = Some (g_cap g)) (layout mem co R U pairs).
Proof.
  revert U. induction pairs as [|sp pairs IH]; intros U; cbn [layout]; [done|].
  intros [(k&fl&Hr) Hrs]%Forall_cons. apply Forall_cons. split; [exact (br_cap _ _ _ _ Hr)|by apply IH].
Qed.

Lemma mappingBufferManager_ok m mem o pairs path :
  mgr_room m mem o pairs → mgr_header m mem o pairs →
  Forall (λ g, ∃ k fl, blist_rep m g k fl) (mgr_layout mem 20 o pairs) →
  mappingBufferManager path mem o m = Done (inr (manager_of mem 24 o pairs path), m).
Proof.
  intros Hr [Hn Hl] Hrep. pose proof Hr as []. pose proof (mgr_end_fits _ _ _ _ Hr) as [He1 He2].
  set (R := region_cap mem o pairs) in *.
  assert (R < 2 ^ 32) by (unfold R, region_cap, bufferManagerHeaderSize; consts; lia).
  pose proof (layout_cap_word m mem R (o + bufferManagerHeaderSize) pairs 24 Hrep) as Hcw.
  unfold mappingBufferManager. unfold bmCapOffset, bufferManagerHeaderSize in *.
  rewrite (u32_small (o + 4)) by lia. bdecide.
  mby ltac:(apply index_ptr_ok; lia). mby ltac:(apply load_u16_ok; exact Hn).
  mby ltac:(apply index_ptr_ok; lia). mrun Hl. bdecide. rewrite Nat2Z.id.
  assert (pairs ≠ []) as Hne by (intros ->; cbn in mr_num0; lia).
  mby ltac:(eapply (mapping_lists_ok pairs m mem R o 8); first [done | lia]).
  destruct pairs as [|sp pairs']; [done|].
  assert (head (list_of <$> layout mem 24 R (o + 8) (sp :: pairs'))
            = Some (list_of (geom_at mem (o + 8) 24 (sp_Size sp) (pair_num R sp)))) as -> by done.
  cbn [of_option]. rewrite bind_mret. pose proof (Forall_inv Hcw) as Hfirst. mrun Hfirst.
  pose proof (layout_last_cap mem 24 R (sp :: pairs') (o + 8)) as Hlast.
  rewrite fmap_last. destruct (last (layout mem 24 R (o + 8) (sp :: pairs'))) as [gl|] eqn:El;
    [|by apply last_None in El].
  cbn [fmap option_fmap option_map of_option] in *. rewrite bind_mret.
  assert (gl ∈ layout mem 24 R (o + 8) (sp :: pairs')) as Hin by (apply last_Some in El as [? ->]; set_solver).
  rewrite Forall_forall in Hcw. pose proof (Hcw gl Hin) as Hgl. mrun Hgl.
  unfold manager_of, bufferManagerHeaderSize. rewrite <- Hlast. done.
Qed.

(** The same list in the view of both sides; the word that counts the allocations is
    the one thing that may differ. *)
Definition same_list (b b' : bufferList) : Prop :=
  b' = BufferList (bl_size b) (bl_cap b) (bl_head b) (bl_tail b) (bl_capPerBuffer b) (bl_counter b')
    (bl_bufferRegion b) (bl_bufferRegionOffsetInShm b) (bl_offsetInShm b).

Lemma layout_same_lists mem co co' R U pairs :
  Forall2 same_list (list_of <$> layout mem co R U pairs) (list_of <$> layout mem co' R U pairs).
Proof. revert U. induction pairs as [|sp pairs IH]; intros U; cbn; constructor; [done|apply IH]. Qed.

(** [C12] Creating a manager and mapping it from the peer agree, when every
    configured size gets at least one slot, the percentages add up to at
    most 100, and the mapping is shorter than 4 GiB.  The lists fit into the
    mapping one behind the other, each with all of its slots free; the peer
    that maps the same bytes, without writing to them, rebuilds every list at
    the same addresses with the same slot sizes and counts, and the same
    smallest and largest size.  The word that counts the allocations of a list
    is not the same one: offset 20 of the list header for the creator, 24 for
    the peer. *)
Theorem buffer_manager_roundtrip m mem o pairs pathC pathS :
  mgr_room m mem o pairs →
  ∃ m' bmC bmS, createBufferManager pairs pathC mem o m = Done (inr bmC, m') ∧
    lists_fresh m' (mgr_layout mem 20 o pairs) ∧
    mappingBufferManager pathS mem o m' = Done (inr bmS, m') ∧
    Forall2 same_list (bm_lists bmC) (bm_lists bmS) ∧
    bm_mem bmS = bm_mem bmC ∧ bm_minSliceSize bmS = bm_minSliceSize bmC ∧ bm_maxSliceSize bmS = bm_maxSliceSize bmC ∧
    bmC = manager_of mem 20 o pairs pathC ∧ bmS = manager_of mem 24 o pairs pathS.
Proof.
  intros Hr. destruct (createBufferManager_ok m mem o pairs pathC Hr) as (m'&E&Hf&Hh&Hr').
  exists m', (manager_of mem 20 o pairs pathC), (manager_of mem 24 o pairs pathS).
  split_and!; try done; [|apply layout_same_lists]. apply mappingBufferManager_ok; [done|done|].
  eapply Forall_impl; [exact Hf|]. intros g Hg. by exists 0, (all_slots g).
Qed.

(** ** The manager as a family of free lists *)

Abbreviation lstate := (geom * (Z * list Z))%type.

Definition ls_geom (x : lstate) : geom := x.1.
Definition ls_free (x : lstate) : list Z := x.2.2.

Record mgr_rep (m : gmem) (ls : list lstate) : Prop := {
  mg_lists : Forall (λ x : lstate, blist_rep m x.1 x.2.1 x.2.2) ls;
  mg_apart : ∀ i j x y, i ≠ j → ls !! i = Some x → ls !! j = Some y →
    disjoint_win (g_win (ls_geom x)).1 (g_win (ls_geom x)).2 (g_win (ls_geom y)).1 (g_win (ls_geom y)).2
}.

(** The windows that hold list headers and slot headers. *)
Definition header_window (g : geom) (w : ptr * Z) : Prop :=
  w = list_win g ∨ ∃ s, is_slot g s ∧ w = slot_win g s.

(** Only headers of the lists [gs] differ. *)
Definition headers_only (gs : list geom) (m m' : gmem) : Prop :=
  ∃ ws, changes_only m m' ws ∧ Forall (λ w, ∃ g, g ∈ gs ∧ header_window g w) ws.

Lemma headers_only_refl gs m : headers_only gs m m.
Proof. exists []. split; [apply changes_only_refl|constructor]. Qed.

Lemma headers_only_trans gs m1 m2 m3 : headers_only gs m1 m2 → headers_only gs m2 m3 → headers_only gs m1 m3.
Proof.
  intros (ws1&C1&F1) (ws2&C2&F2). exists (ws1 ++ ws2). split; [by eapply changes_only_trans|].
  apply Forall_app. done.
Qed.

Lemma headers_only_intro gs g m m' ss :
  g ∈ gs → Forall (is_slot g) ss → changes_only m m' (list_win g :: (slot_win g <$> ss)) → headers_only gs m m'.
Proof.
  intros Hg Hss Hc. eexists. split; [exact Hc|]. apply Forall_cons. split.
  - exists g. split; [done|by left].
  - apply Forall_fmap. eapply Forall_impl; [exact Hss|]. intros s Hs. exists g. split; [done|]. right. by exists s.
Qed.

Lemma header_window_in g w :
  geom_ok g → header_window g w → win_in w (g_win g).
Proof.
  intros Hg [->|(s&(?&?&_)&->)]; pose proof Hg as [];
    assert (0 < g_step g) by (consts; lia);
    assert (0 < g_bytes g) by (unfold g_bytes; apply Z.mul_pos_pos; lia);
    unfold win_in, g_win, list_win, slot_win, slot_ptr; cbn; consts; split_and!; done || lia.
Qed.

Lemma win_in_disj w w' p n :
  win_in w w' → disjoint_win w'.1 w'.2 p n → disjoint_win w.1 w.2 p n.
Proof. unfold win_in, disjoint_win. intros (?&?&?) [|[|]]; [left; congruence|right; lia|right; lia]. Qed.

(** A change of one list leaves the others alone. *)
Lemma mgr_rep_update m m' ls i x x' :
  mgr_rep m ls → ls !! i = Some x → ls_geom x' = ls_geom x →
  blist_rep m' x'.1 x'.2.1 x'.2.2 → headers_only [ls_geom x] m m' → mgr_rep m' (<[i := x']> ls).
Proof.
  intros [Hl Ha] Hi Eg Hr (ws&Hc&Hw). constructor.
  - apply Forall_lookup. intros j y Hj. apply list_lookup_insert_Some in Hj as [(->&<-&_)|[Hne Hj]]; [done|].
    pose proof (Forall_lookup_1 _ _ _ _ Hl Hj) as Hy. eapply blist_rep_apart; [exact Hy|exact Hc|].
    eapply Forall_impl; [exact Hw|]. intros w (g&->%list_elem_of_singleton&Hg).
    pose proof (Forall_lookup_1 _ _ _ _ Hl Hi) as Hx.
    eapply win_in_disj; [apply header_window_in; [exact (br_geom _ _ _ _ Hx)|done]|].
    by apply (Ha i j x y).
  - intros j1 j2 y1 y2 Hne Hj1 Hj2.
    apply list_lookup_insert_Some in Hj1 as [(->&<-&_)|[? Hj1]], Hj2 as [(->&<-&_)|[? Hj2]]; try done;
      rewrite ?Eg; eauto.
Qed.

(** Which slot [allocShmBuffer] takes: the first list that is large enough and
    has two free slots. *)
Fixpoint alloc_pick (ls : list lstate) (size : Z) : option (nat * Z) :=
  match ls with
  | [] => None
  | x :: ls =>
      match (if size <=? g_cap (ls_geom x) then ls_free x else []) with
      | s :: _ :: _ => Some (0%nat, s)
      | _ => prod_map S id <$> alloc_pick ls size
      end
  end.

Definition taken (x : lstate) : lstate := (x.1, (x.2.1 + 1, tail x.2.2)).

Definition lists_of (ls : list lstate) : list bufferList := (λ x : lstate, list_of x.1) <$> ls.

Lemma pop_empty_headers gs g m m' : g ∈ gs → changes_only m m' [(g_base g, 4)] → headers_only gs m m'.
Proof.
  intros Hg Hc. eapply (headers_only_intro _ g _ _ []); [done|constructor|].
  eapply changes_only_enlarge; [exact Hc|]. unfold list_win. consts. solve_enlarge.
Qed.

Lemma headers_only_mono gs gs' m m' : gs ⊆ gs' → headers_only gs m m' → headers_only gs' m m'.
Proof.
  intros Hs (ws&Hc&Hw). exists ws. split; [done|]. eapply Forall_impl; [exact Hw|].
  intros w (g&?&?). exists g. auto.
Qed.

Lemma set_mem_id h : set_mem (h_mem h) h = h.
Proof. by destruct h. Qed.

(** What a search through the lists [rest] delivers. *)
Definition alloc_result (r : option (nat * Z)) (pre rest : list lstate) (size : Z) (h : heap)
    (out : outcome ((error + nat) * heap)) : Prop :=
  match r with
  | Some (i, s) => ∃ x p h', rest !! i = Some x ∧ size ≤ g_cap (ls_geom x) ∧ head (ls_free x) = Some s ∧
      out = Done (inr p, h') ∧ fresh_obj h h' p (slot_slice (ls_geom x) s) ∧
      mgr_rep (h_mem h') (pre ++ <[i := taken x]> rest) ∧
      headers_only (ls_geom <$> (pre ++ rest)) (h_mem h) (h_mem h')
  | None => ∃ m', out = Done (inl ErrNoMoreBuffer, set_mem m' h) ∧
      mgr_rep m' (pre ++ rest) ∧ headers_only (ls_geom <$> (pre ++ rest)) (h_mem h) m'
  end.

Lemma alloc_result_skip r pre x rest size h m1 out :
  headers_only (ls_geom <$> (pre ++ x :: rest)) (h_mem h) m1 →
  alloc_result r (pre ++ [x]) rest size (set_mem m1 h) out →
  alloc_result (prod_map S id <$> r) pre (x :: rest) size h out.
Proof.
  intros Hh. unfold alloc_result.
  assert ((pre ++ [x]) ++ rest = pre ++ x :: rest) as -> by by rewrite <- app_assoc.
  destruct r as [[i s]|]; cbn.
  - intros (y&p&h'&Hi&?&?&->&[]&Hr&Hh'). rewrite <- app_assoc in Hr.
    exists y, p, h'. split_and!; try done. by eapply headers_only_trans.
  - intros (m'&->&Hr&Hh'). exists m'. split_and!; [by destruct h|done|by eapply headers_only_trans].
Qed.

Lemma alloc_loop_ok rest size : ∀ h pre,
  mgr_rep (h_mem h) (pre ++ rest) → pool_ok h →
  alloc_result (alloc_pick rest size) pre rest size h (alloc_loop (lists_of rest) size h).
Proof.
  induction rest as [|x rest IH]; intros h pre Hr Hp; cbn [alloc_pick lists_of fmap list_fmap alloc_loop].
  - exists (h_mem h). split_and!; [by destruct h|done|apply headers_only_refl].
  - pose proof Hr as [Hl Ha]. pose proof Hl as [_ [Hx _]%Forall_cons]%Forall_app.
    pose proof (br_geom _ _ _ _ Hx) as Hg.
    assert ((pre ++ x :: rest) !! length pre = Some x) as Hlk by by apply list_lookup_middle.
    assert ([ls_geom x] ⊆ ls_geom <$> (pre ++ x :: rest)) as Hsub.
    { rewrite fmap_app. set_solver. }
    assert (∀ m1, mgr_rep m1 (pre ++ x :: rest) → headers_only [ls_geom x] (h_mem h) m1 →
      alloc_result (prod_map S id <$> alloc_pick rest size) pre (x :: rest) size h
        (alloc_loop (lists_of rest) size (set_mem m1 h))) as Hskip.
    { intros m1 Hr1 Hh1. eapply alloc_result_skip; [by eapply headers_only_mono|].
      apply IH; [by rewrite <- app_assoc|by destruct Hp]. }
    pose proof (br_cap _ _ _ _ Hx) as Hcap.
    mrun Hcap. rewrite (set_mem_id h). change x.1 with (ls_geom x).
    destruct (size <=? g_cap (ls_geom x)) eqn:Esz; breflect.
    2: { specialize (Hskip (h_mem h) Hr (headers_only_refl _ _)). by rewrite set_mem_id in Hskip. }
    unfold ls_free. destruct x as [g [k fl]]. cbn [fst snd ls_geom] in *. destruct fl as [|s [|t fl]].
    + by destruct (br_head _ _ _ _ Hx) as (?&?&_).
    + destruct (bufferList_pop_empty g h k s Hx) as (m1&E&Hr1&Hc1). mrun E.
      assert (headers_only [g] (h_mem h) m1) as Hh1 by (eapply (pop_empty_headers _ g); [set_solver|done]).
      apply (Hskip m1); [|done].
      rewrite <- (list_insert_id (pre ++ (g, (k, [s])) :: rest) (length pre) (g, (k, [s]))) by done.
      by eapply mgr_rep_update.
    + destruct (bufferList_pop_ok g h k s t fl Hx Hp) as (p&h'&E&Hf&Hr1&Hc1&_). mrun E.
      assert (is_slot g s) as Hs by (pose proof (br_slots _ _ _ _ Hx) as F; by inversion_clear F).
      assert (headers_only [g] (h_mem h) (h_mem h')) as Hh1.
      { eapply (headers_only_intro _ g _ _ [s]); [set_solver|by apply Forall_singleton|by apply pop_headers]. }
      cbn. eexists _, p, h'. split_and!; try done.
      * change (pre ++ taken (g, (k, s :: t :: fl)) :: rest)
          with (pre ++ <[0%nat := taken (g, (k, s :: t :: fl))]> ((g, (k, s :: t :: fl)) :: rest)).
        rewrite <- insert_app_r. rewrite Nat.add_0_r. by eapply mgr_rep_update.
      * by eapply headers_only_mono.
Qed.

(** A list that cannot serve a request of [size] bytes. *)
Definition cannot_serve (size : Z) (x : lstate) : Prop :=
  g_cap (ls_geom x) < size ∨ (length (ls_free x) ≤ 1)%nat.

Lemma alloc_pick_spec ls size :
  match alloc_pick ls size with
  | Some (i, s) => (∃ x, ls !! i = Some x ∧ (2 ≤ length (ls_free x))%nat) ∧ Forall (cannot_serve size) (take i ls)
  | None => Forall (cannot_serve size) ls
  end.
Proof.
  induction ls as [|x ls IH]; cbn [alloc_pick]; [constructor|].
  assert (cannot_serve size x → match prod_map S id <$> alloc_pick ls size with
    | Some (i, s) => (∃ y, (x :: ls) !! i = Some y ∧ (2 ≤ length (ls_free y))%nat) ∧ Forall (cannot_serve size) (take i (x :: ls))
    | None => Forall (cannot_serve size) (x :: ls) end) as Hskip.
  { intros Hx. destruct (alloc_pick ls size) as [[i s]|]; cbn.
    - destruct IH as [? ?]. split; [done|by constructor].
    - by constructor. }
  destruct (size <=? g_cap (ls_geom x)) eqn:E; breflect; [|apply Hskip; left; lia].
  destruct (ls_free x) as [|s [|t fl]] eqn:Ef; [apply Hskip; right; rewrite Ef; cbn; lia..|].
  split; [|constructor]. exists x. split; [done|]. rewrite Ef. cbn. lia.
Qed.

(** [C13] [allocShmBuffer] takes the best fit: the slot comes from the first
    (smallest) list whose slots hold [size] bytes and which has a slot to
    spare, it is the one that has been free for the longest time, and the new
    object is empty over exactly that slot; it fails with [ErrNoMoreBuffer]
    only when no list can serve the request.  Either way only headers of the
    lists are written, and every list keeps its representation. *)
Theorem allocShmBuffer_best_fit h bm ls size :
  mgr_rep (h_mem h) ls → pool_ok h → bm_lists bm = lists_of ls →
  Forall (λ x, g_cap (ls_geom x) ≤ bm_maxSliceSize bm) ls →
  (∃ i x s p h', ls !! i = Some x ∧ head (ls_free x) = Some s ∧ size ≤ g_cap (ls_geom x) ∧
     Forall (cannot_serve size) (take i ls) ∧
     allocShmBuffer bm size h = Done (inr p, h') ∧ fresh_obj h h' p (slot_slice (ls_geom x) s) ∧
     mgr_rep (h_mem h') (<[i := taken x]> ls) ∧ headers_only (ls_geom <$> ls) (h_mem h) (h_mem h')) ∨
  (∃ m', Forall (cannot_serve size) ls ∧
     allocShmBuffer bm size h = Done (inl ErrNoMoreBuffer, set_mem m' h) ∧
     mgr_rep m' ls ∧ headers_only (ls_geom <$> ls) (h_mem h) m').
Proof.
  intros Hr Hp Hls Hmax. unfold allocShmBuffer. rewrite Hls.
  destruct (size <=? bm_maxSliceSize bm) eqn:E; breflect.
  - pose proof (alloc_loop_ok ls size h [] Hr Hp) as Ho. pose proof (alloc_pick_spec ls size) as Hs.
    unfold alloc_result in Ho. destruct (alloc_pick ls size) as [[i s]|]; cbn [app] in Ho.
    + left. destruct Ho as (x&p&h'&?&?&?&?&?&?&?), Hs as [_ ?]. by exists i, x, s, p, h'.
    + right. destruct Ho as (m'&?&?&?). by exists m'.
  - right. exists (h_mem h). split_and!; [|by rewrite set_mem_id|done|apply headers_only_refl].
    eapply Forall_impl; [exact Hmax|]. intros x Hx. cbn in Hx. left. lia.
Qed.

(** ** A new manager *)

Lemma layout_ordered mem co R pairs : Forall (pair_ok R) pairs → ∀ U i j g g',
  (i < j)%nat → layout mem co R U pairs !! i = Some g → layout mem co R U pairs !! j = Some g' →
  g_off g + bufferListHeaderSize + g_bytes g ≤ g_off g'.
Proof.
  induction 1 as [|sp pairs Hp Hps IH]; intros U i j g g' Hij Hi Hj; cbn [layout] in *; [done|].
  destruct j as [|j]; [lia|]. destruct i as [|i]; cbn in Hi, Hj.
  - injection Hi as <-. pose proof (layout_after mem co R (U + pair_bytes R sp) pairs Hps) as Ha.
    destruct (Forall_lookup_1 _ _ _ _ Ha Hj) as [_ ?]. unfold pair_bytes, g_bytes, g_step in *. cbn. lia.
  - apply (IH (U + pair_bytes R sp) i j); [lia|done..].
Qed.

Definition fresh_lists (gs : list geom) : list lstate := (λ g, (g, (0, all_slots g))) <$> gs.

(** The lists of a new manager represent a family of full lists. *)
Lemma fresh_mgr_rep m mem o pairs :
  Forall (pair_ok (region_cap mem o pairs)) pairs → lists_fresh m (mgr_layout mem 20 o pairs) →
  mgr_rep m (fresh_lists (mgr_layout mem 20 o pairs)).
Proof.
  intros Hp Hf. constructor.
  - apply Forall_fmap. exact Hf.
  - pose proof (layout_after mem 20 _ (o + bufferManagerHeaderSize) _ Hp) as Ha.
    pose proof (layout_ordered mem 20 _ _ Hp (o + bufferManagerHeaderSize)) as Ho.
    intros i j x y Hne Hi Hj. unfold fresh_lists in Hi, Hj.
    apply list_lookup_fmap_Some in Hi as (g&->&Hi), Hj as (g'&->&Hj). unfold mgr_layout in Hi, Hj.
    destruct (Forall_lookup_1 _ _ _ _ Ha Hi) as [E1 _], (Forall_lookup_1 _ _ _ _ Ha Hj) as [E2 _].
    unfold g_win, ls_geom, disjoint_win. cbn. rewrite E1, E2. cbn. right.
    destruct (decide (i < j)%nat) as [Hlt|Hge].
    + specialize (Ho i j g g' Hlt Hi Hj). lia.
    + specialize (Ho j i g' g ltac:(lia) Hj Hi). lia.
Qed.

Definition demo_pairs : list SizePercentPair := [SizePercent 4 50; SizePercent 8 50].

(** The creator allocates one buffer, the peer reads it and gives it back. *)
Definition returned_by_peer : M heap (Z * bool * bool) :=
  rC ← on_mem (createBufferManager demo_pairs "a" demo_shm 0);
  rS ← on_mem (mappingBufferManager "b" demo_shm 0);
  match rC, rS with
  | inr bmC, inr bmS =>
      full ← sliceSize bmC;
      r ← allocShmBuffer bmC 5;
      match r with
      | inr p =>
          o ← get_slice p;
          _ ← recycleBuffer bmS (Some p);
          now ← sliceSize bmC;
          okC ← on_mem (checkBufferReturned bmC);
          okS ← on_mem (checkBufferReturned bmS);
          mret (full - now, okC, okS)
      | inl _ => panic
      end
  | _, _ => panic
  end.

(** The creator counts its allocations at offset 20 of the list header
    and the peer counts its releases at offset 24, so the counter of a list
    does not return to zero when one side allocates and the other side
    recycles: all slots are free again (as many as at the start), and
    [checkBufferReturned] still answers false on both sides. *)
Theorem counter_not_shared :
  ∃ h', returned_by_peer (Heap demo_shm_mem ∅ []) = Done ((0, false, false), h').
Proof. eexists. vm_compute. reflexivity. Qed.

(** ** Witnesses *)

Lemma demo_room : mgr_room demo_shm_mem demo_shm 0 demo_pairs.
Proof.
  constructor; try (vm_compute; first [done | split; reflexivity]).
  - repeat constructor; vm_compute; done.
  - split_and!; cbn; try lia. eexists. split; [reflexivity|]. vm_compute. done.
Qed.

Lemma buffer_manager_roundtrip_witness :
  ∃ m' bmC bmS, createBufferManager demo_pairs "a" demo_shm 0 demo_shm_mem = Done (inr bmC, m') ∧
    mappingBufferManager "b" demo_shm 0 m' = Done (inr bmS, m') ∧
    Forall2 same_list (bm_lists bmC) (bm_lists bmS) ∧ length (bm_lists bmS) = 2%nat.
Proof.
  destruct (buffer_manager_roundtrip demo_shm_mem demo_shm 0 demo_pairs "a" "b" demo_room) as (m'&bmC&bmS&E&_&E'&H&_&_&_&_&Hs).
  exists m', bmC, bmS. split; [exact E|]. split; [exact E'|]. split; [exact H|]. rewrite Hs. reflexivity.
Defined.

Lemma allocShmBuffer_best_fit_witness :
  ∃ m h', createBufferManager demo_pairs "a" demo_shm 0 demo_shm_mem
            = Done (inr (manager_of demo_shm 20 0 demo_pairs "a"), m) ∧
    allocShmBuffer (manager_of demo_shm 20 0 demo_pairs "a") 5 (Heap m ∅ []) = Done (inr 0%nat, h').
Proof.
  destruct (createBufferManager_ok demo_shm_mem demo_shm 0 demo_pairs "a" demo_room) as (m&E&Hf&_&_).
  destruct (allocShmBuffer_best_fit (Heap m ∅ []) (manager_of demo_shm 20 0 demo_pairs "a")
              (fresh_lists (mgr_layout demo_shm 20 0 demo_pairs)) 5) as [(i&x&s&p&h'&Hx&_&_&_&E'&_)|(m'&Hno&_)].
  - apply fresh_mgr_rep; [apply demo_room|exact Hf].
  - split; constructor.
  - reflexivity.
  - repeat constructor; vm_compute; done.
  - exists m, h'. split; [exact E|].
    assert (p = 0%nat) as ->; [|exact E'].
    vm_compute in E. injection E as E. subst m. vm_compute in E'. by injection E'.
  - exfalso. vm_compute in Hno. apply Forall_cons in Hno as [_ Hno]. apply Forall_cons in Hno as [[H|H] _].
    + vm_compute in H. done.
    + vm_compute in H. lia.
Defined.
