(* ===== verification/Allocator.v ===== *)
(** * What the linked buffer relies on: an allocator of buffer slices

    [linkedBuffer] calls three operations of the buffer manager.  This file
    states them as an interface with laws about ownership: which objects a
    client owns, that their windows are apart, and that an operation leaves
    the objects it is not given alone.  The buffer manager is an instance
    (ShmAllocator.v); the linked buffer is verified against the interface. *)

From Stdlib Require Import ZArith Lia.
From stdpp Require Import prelude list gmap strings.
From S2P Require Import Prelude GoMem BufferSlice BufferList.

(** ** Ownership *)

Definition data_win (b : bufferSlice) : ptr * Z := (slice_ptr (bs_data b), s_len (bs_data b)).

Definition apart (b c : bufferSlice) : Prop :=
  disjoint_win (data_win b).1 (data_win b).2 (data_win c).1 (data_win c).2.

(** The objects [L] are live, well formed and over pairwise disjoint bytes. *)
Record owned (h : heap) (L : list nat) : Prop := {
  ow_pool : pool_ok h;
  ow_nodup : NoDup L;
  ow_live : ∀ p, p ∈ L → p ∉ h_pool h ∧ ∃ b, h_slices h !! p = Some b ∧ slice_wf (h_mem h) b;
  ow_apart : ∀ p q b c, p ∈ L → q ∈ L → p ≠ q → h_slices h !! p = Some b → h_slices h !! q = Some c → apart b c
}.

(** The object is the same and so are all of its bytes. *)
Definition same_slice (h h' : heap) (p : nat) : Prop :=
  h_slices h' !! p = h_slices h !! p ∧
  ∀ b, h_slices h !! p = Some b →
    peek (h_mem h') (data_win b).1 (data_win b).2 = peek (h_mem h) (data_win b).1 (data_win b).2.

(** The same, up to the link to the next object. *)
Definition same_upto_next (h h' : heap) (p : nat) : Prop :=
  ∃ b n, h_slices h !! p = Some b ∧ h_slices h' !! p = Some (with_next b n) ∧
    peek (h_mem h') (data_win b).1 (data_win b).2 = peek (h_mem h) (data_win b).1 (data_win b).2.

(** An object without data, with room for some. *)
Definition empty_slice (b : bufferSlice) : Prop :=
  bs_readIndex b = 0 ∧ bs_writeIndex b = 0 ∧ 0 < bs_cap b ∧ bs_next b = None.

(** Only the indices and the link may differ. *)
Definition same_view (b b' : bufferSlice) : Prop :=
  bs_header b' = bs_header b ∧ bs_data b' = bs_data b ∧ bs_cap b' = bs_cap b ∧
  bs_offsetInShm b' = bs_offsetInShm b ∧ bs_isFromShm b' = bs_isFromShm b.

(** ** The interface *)

Class Allocator (A : Type) := {
  al_allocShmBuffer : A → Z → M heap (error + nat);
  al_allocShmBuffers : A → sliceList → Z → M heap (sliceList * Z);
  al_recycleBuffer : A → option nat → M heap unit
}.

Definition caps_of (h : heap) (qs : list nat) : Z :=
  foldr (λ q z, default 0 (bs_cap <$> h_slices h !! q) + z) 0 qs.

(** The list [l] of objects [ps] has become [l'], with new empty objects [qs]
    behind; the objects of [L] are otherwise left alone. *)
Record grown (h h' : heap) (L : list nat) (l l' : sliceList) (ps qs : list nat) : Prop := {
  gr_rep : slist_rep (h_slices h') l' (ps ++ qs) None;
  gr_write : sl_write l' = sl_write l;
  gr_new : ∀ q, q ∈ qs → ∃ b n, h_slices h' !! q = Some (with_next b n) ∧ empty_slice b ∧ bs_isFromShm b = true;
  gr_same : ∀ q, q ∈ L → q ∉ ps → same_slice h h' q;
  gr_upto : ∀ q, q ∈ ps → same_upto_next h h' q
}.

Class AllocatorLaws (A : Type) `{Allocator A} := {
  (** The client owns the objects [L] and the allocator the rest. *)
  al_inv : A → heap → list nat → Prop;
  (** The arrays the allocator does not use. *)
  al_foreign : A → nat → Prop;
  al_inv_owned : ∀ a h L, al_inv a h L → owned h L;
  al_inv_perm : ∀ a h L L', L ≡ₚ L' → al_inv a h L → al_inv a h L';
  (** A request succeeds with a new empty object of enough room, or fails. *)
  al_alloc_ok : ∀ a h L size, al_inv a h L → 0 ≤ size →
    (∃ p b h', al_allocShmBuffer a size h = Done (inr p, h') ∧ al_inv a h' (p :: L) ∧
       h_slices h' !! p = Some b ∧ empty_slice b ∧ size ≤ bs_cap b ∧ bs_isFromShm b = true ∧
       (∀ q, q ∈ L → same_slice h h' q)) ∨
    (∃ h', al_allocShmBuffer a size h = Done (inl ErrNoMoreBuffer, h') ∧ al_inv a h' L ∧
       (∀ q, q ∈ L → same_slice h h' q));
  (** A request in parts appends new empty objects to a list of the client. *)
  al_allocs_ok : ∀ a h L l ps size, al_inv a h L → slist_rep (h_slices h) l ps None →
    (∀ p, p ∈ ps → p ∈ L) →
    ∃ l' h' qs, al_allocShmBuffers a l size h = Done ((l', caps_of h' qs), h') ∧
      al_inv a h' (qs ++ L) ∧ grown h h' L l l' ps qs;
  (** An object that is given back is not owned any more. *)
  al_recycle_ok : ∀ a h L p, al_inv a h (p :: L) →
    ∃ h', al_recycleBuffer a (Some p) h = Done (tt, h') ∧ al_inv a h' L ∧ (∀ q, q ∈ L → same_slice h h' q) ∧
      (∀ r n, al_foreign a (p_arr r) → peek (h_mem h') r n = peek (h_mem h) r n);
  (** The client may write to the bytes of its objects and move their indices. *)
  al_update : ∀ a h L p b b' m' ws, al_inv a h L → p ∈ L → h_slices h !! p = Some b → same_view b b' →
    slice_wf m' b' → changes_only (h_mem h) m' ws → Forall (λ w, win_in w (data_win b)) ws →
    al_inv a (upd_slice (set_mem m' h) p b') L;
  (** Objects over process memory join the owned ones. *)
  al_adopt : ∀ a h L p b a0 bs pool', al_inv a h L → h_mem h !! a0 = None →
    (p ∈ h_pool h ∨ h_slices h !! p = None) → NoDup pool' → pool' ⊆ h_pool h → p ∉ pool' →
    bs_header b = None → bs_isFromShm b = false → s_arr (bs_data b) = a0 →
    slice_wf (<[a0 := bs]> (h_mem h)) b →
    al_inv a (Heap (<[a0 := bs]> (h_mem h)) (<[p := b]> (h_slices h)) pool') (p :: L);
  (** An object may be dropped, with or without its return to the pool. *)
  al_forget : ∀ a h L p, al_inv a h (p :: L) → al_inv a h L;
  al_putBack : ∀ a h L p, al_inv a h (p :: L) → al_inv a (recycled h (h_mem h) p) L;
  (** The client may do as it likes in an array the allocator does not use, if
      none of its objects is there. *)
  al_fresh_foreign : ∀ a h L a0, al_inv a h L → h_mem h !! a0 = None → al_foreign a a0;
  al_foreign_mem : ∀ a h L a0 m', al_inv a h L → al_foreign a a0 →
    (∀ p b, p ∈ L → h_slices h !! p = Some b → s_arr (bs_data b) ≠ a0) →
    (∀ k, k ≠ a0 → m' !! k = h_mem h !! k) → al_inv a (set_mem m' h) L
}.

(** ** Owned objects *)

Lemma same_slice_refl h p : same_slice h h p.
Proof. by split. Qed.

Lemma same_slice_trans h1 h2 h3 p : same_slice h1 h2 p → same_slice h2 h3 p → same_slice h1 h3 p.
Proof.
  intros [E1 M1] [E2 M2]. split; [by rewrite E2|]. intros b Hb. rewrite M2 by (by rewrite E1). by apply M1.
Qed.

Lemma with_next_next b n n' : with_next (with_next b n) n' = with_next b n'.
Proof. done. Qed.
Lemma with_next_id b : with_next b (bs_next b) = b.
Proof. by destruct b. Qed.

Lemma same_slice_upto h h' p : is_Some (h_slices h !! p) → same_slice h h' p → same_upto_next h h' p.
Proof.
  intros [b Hb] [E M]. exists b, (bs_next b). rewrite with_next_id, E. by split_and!; [..|apply M].
Qed.

Lemma same_upto_next_trans h1 h2 h3 p : same_upto_next h1 h2 p → same_upto_next h2 h3 p → same_upto_next h1 h3 p.
Proof.
  intros (b&n&H1&H2&M1) (b'&n'&H3&H4&M2). rewrite H2 in H3. injection H3 as <-.
  exists b, n'. split_and!; [done|done|]. cbn in M2. by rewrite <- M1.
Qed.

Lemma same_view_refl b : same_view b b.
Proof. done. Qed.

(** The content of an owned object that was left alone. *)
Lemma same_upto_content h h' p b b' :
  same_upto_next h h' p → h_slices h !! p = Some b → h_slices h' !! p = Some b' → slice_wf (h_mem h) b →
  slice_content (h_mem h') b' = slice_content (h_mem h) b.
Proof.
  intros (b0&n&H1&H2&M) Hb Hb' []. simplify_eq. unfold slice_content, slice_size. cbn.
  destruct (in_mem_peek _ _ _ sw_mem) as (l&Hl&_). unfold data_win in M. cbn in M.
  assert (∀ m, peek m (slice_ptr (bs_data b0)) (s_len (bs_data b0)) = Some l →
    peek m (padd (slice_ptr (bs_data b0)) (bs_readIndex b0)) (bs_writeIndex b0 - bs_readIndex b0)
      = Some (take (Z.to_nat (bs_writeIndex b0 - bs_readIndex b0)) (drop (Z.to_nat (bs_readIndex b0)) l))) as Hg.
  { intros m Hm. eapply peek_take; [eapply peek_drop; [exact Hm|lia]|lia]. }
  rewrite (Hg (h_mem h) Hl). apply Hg. by rewrite M.
Qed.

Lemma owned_lookup h L p : owned h L → p ∈ L → ∃ b, h_slices h !! p = Some b ∧ slice_wf (h_mem h) b.
Proof. intros [] Hp. by destruct (ow_live0 p Hp) as [_ ?]. Qed.

(** ** Lists of owned objects

    What follows holds for every ownership predicate that admits updates of
    owned objects. *)

Section owned_lists.
Context (I : heap → list nat → Prop).
Hypothesis I_owned : ∀ h L, I h L → owned h L.
Hypothesis I_update : ∀ h L p b b' m' ws, I h L → p ∈ L → h_slices h !! p = Some b → same_view b b' →
  slice_wf m' b' → changes_only (h_mem h) m' ws → Forall (λ w, win_in w (data_win b)) ws →
  I (upd_slice (set_mem m' h) p b') L.

(** An update of the object alone. *)
Lemma I_update_obj h L p b b' :
  I h L → p ∈ L → h_slices h !! p = Some b → same_view b b' → slice_wf (h_mem h) b' → I (upd_slice h p b') L.
Proof.
  intros HI Hp Hb Hv Hw.
  replace (upd_slice h p b') with (upd_slice (set_mem (h_mem h) h) p b') by done.
  apply (I_update h L p b b' (h_mem h) []); try done.
Qed.

Lemma same_slice_other h p b' q : p ≠ q → same_slice h (upd_slice h p b') q.
Proof. intros Hne. split; [|done]. cbn. by rewrite lookup_insert_ne. Qed.

(** [pushBack] of an owned object. *)
Lemma I_pushBack h L l ps e p b :
  I h L → slist_rep (h_slices h) l ps e → (∀ q, q ∈ ps → q ∈ L) → p ∉ ps →
  h_slices h !! p = Some b →
  ∃ l' h', sl_pushBack l (Some p) h = Done (l', h') ∧ slist_rep (h_slices h') l' (ps ++ [p]) (bs_next b) ∧
    sl_write l' = sl_write l ∧ I h' L ∧ h_slices h' !! p = Some b ∧
    (∀ q, q ∉ ps → same_slice h h' q) ∧ (∀ q, q ∈ ps → same_upto_next h h' q).
Proof.
  intros HI Hr Hps Hp Hb. destruct (sl_pushBack_spec h l ps e p b Hr Hp Hb) as [E Hr'].
  eexists _, _. split; [exact E|]. split; [exact Hr'|]. split; [done|].
  unfold link_last. destruct (last ps) as [r|] eqn:Hl.
  - assert (r ∈ ps) as Hrp by (apply last_Some in Hl as [? ->]; set_solver).
    destruct (owned_lookup h L r (I_owned _ _ HI) (Hps r Hrp)) as (br&Hbr&Hw). rewrite Hbr.
    change (Heap (h_mem h) (<[r := with_next br (Some p)]> (h_slices h)) (h_pool h))
      with (upd_slice h r (with_next br (Some p))). cbn [h_slices upd_slice].
    split_and!.
    + eapply I_update_obj; [done|auto|done|done|]. by destruct Hw.
    + rewrite lookup_insert_ne; [done|]. by intros ->.
    + intros q Hq. apply same_slice_other. by intros ->.
    + intros q Hq. destruct (decide (r = q)) as [->|Hne].
      * exists br, (Some p). split_and!; [done| |done]. cbn. by rewrite lookup_insert_eq.
      * apply same_slice_upto; [|by apply same_slice_other].
        destruct (owned_lookup h L q (I_owned _ _ HI) (Hps q Hq)) as (bq&->&_). eauto.
  - apply last_None in Hl as ->. destruct h as [m T pool]. cbn. split_and!; try done; try set_solver.
Qed.
End owned_lists.

(** ** Growing a list *)

Lemma grown_refl h L l ps : slist_rep (h_slices h) l ps None → (∀ q, q ∈ ps → is_Some (h_slices h !! q)) → grown h h L l l ps [].
Proof.
  intros Hr Hs. constructor; [by rewrite app_nil_r|done|set_solver|intros; apply same_slice_refl|].
  intros q Hq. apply same_slice_upto; [auto|apply same_slice_refl].
Qed.

Lemma grown_trans h h1 h2 L l l1 l2 ps qs1 qs2 :
  grown h h1 L l l1 ps qs1 → grown h1 h2 (qs1 ++ L) l1 l2 (ps ++ qs1) qs2 → (∀ q, q ∈ qs1 → q ∉ L) →
  grown h h2 L l l2 ps (qs1 ++ qs2).
Proof.
  intros [] G2 Hd. destruct G2 as [R2 W2 N2 S2 U2]. constructor.
  - by rewrite app_assoc.
  - congruence.
  - intros q [Hq|Hq]%elem_of_app; [|by apply N2].
    destruct (gr_new0 q Hq) as (b&n&Hb&?&?). destruct (U2 q) as (b'&n'&Hb1&Hb2&_); [set_solver|].
    rewrite Hb in Hb1. injection Hb1 as <-. exists b, n'. done.
  - intros q Hq Hnq. eapply same_slice_trans; [by apply gr_same0|]. apply S2; set_solver.
  - intros q Hq. eapply same_upto_next_trans; [by apply gr_upto0|]. apply U2. set_solver.
Qed.

Lemma caps_of_app h qs1 qs2 : caps_of h (qs1 ++ qs2) = caps_of h qs1 + caps_of h qs2.
Proof. unfold caps_of. induction qs1 as [|q qs IH]; cbn; [done|]. rewrite IH. lia. Qed.

Lemma caps_of_upto h h' qs : (∀ q, q ∈ qs → same_upto_next h h' q) → caps_of h' qs = caps_of h qs.
Proof.
  unfold caps_of. induction qs as [|q qs IH]; intros Hs; cbn; [done|].
  destruct (Hs q) as (b&n&->&->&_); [set_solver|]. cbn. rewrite IH; [done|]. set_solver.
Qed.
