(* ===== verification/ShmAllocator.v ===== *)
(** * The buffer manager as an allocator

    The manager satisfies the interface of Allocator.v: the objects a client
    owns are slots that are in no free list, or process memory; allocation and
    recycling write headers of the lists only. *)

From Stdlib Require Import ZArith Lia.
From stdpp Require Import prelude list gmap strings.
From S2P Require Import Prelude GoMem Queue BufferSlice BufferList BufferManager Allocator.

(** ** Ownership of slots *)

Definition shm_obj (ls : list lstate) (b : bufferSlice) : Prop :=
  ∃ i x s, ls !! i = Some x ∧ is_slot (ls_geom x) s ∧ (s ∉ ls_free x) ∧ slot_obj (ls_geom x) s b.

Definition proc_obj (bm : bufferManager) (b : bufferSlice) : Prop :=
  bs_header b = None ∧ bs_isFromShm b = false ∧ s_arr (bs_data b) ≠ s_arr (bm_mem bm).

Record bm_own (bm : bufferManager) (ls : list lstate) (h : heap) (L : list nat) : Prop := {
  bw_lists : bm_lists bm = lists_of ls;
  bw_rep : mgr_rep (h_mem h) ls;
  bw_caps : NoDup ((λ x : lstate, g_cap (ls_geom x)) <$> ls);
  bw_room : Forall (λ x : lstate, p_arr (g_base (ls_geom x)) = s_arr (bm_mem bm) ∧
                                  g_bytes (ls_geom x) ≤ s_len (bm_mem bm)) ls;
  bw_mem : in_mem (h_mem h) (Ptr (s_arr (bm_mem bm)) 0) 0;
  bw_own : owned h L;
  bw_objs : ∀ p b, p ∈ L → h_slices h !! p = Some b → shm_obj ls b ∨ proc_obj bm b
}.

Definition bm_inv (bm : bufferManager) (h : heap) (L : list nat) : Prop := ∃ ls, bm_own bm ls h L.

(** ** Windows *)

Lemma slot_obj_win g s b : slot_obj g s b → data_win b = (padd (slot_ptr g s) bufferHeaderSize, g_cap g).
Proof. intros []. unfold data_win. by rewrite so_data, so_len. Qed.

Lemma data_in_list g s : geom_ok g → is_slot g s → win_in (padd (slot_ptr g s) bufferHeaderSize, g_cap g) (g_win g).
Proof.
  intros [] (?&?&_). unfold win_in, g_win. rewrite slot_ptr_padd. cbn. consts. split_and!; [done|lia|lia].
Qed.

Lemma win_in_disj_r w w' p n :
  win_in w w' → disjoint_win p n w'.1 w'.2 → disjoint_win p n w.1 w.2.
Proof. intros Hw Hd. apply disjoint_win_sym. eapply win_in_disj; [done|]. by apply disjoint_win_sym. Qed.

Lemma win_in_arr w w' : win_in w w' → p_arr w.1 = p_arr w'.1.
Proof. by intros (?&_). Qed.

Lemma mgr_geom m ls i x : mgr_rep m ls → ls !! i = Some x → geom_ok (ls_geom x) ∧ blist_rep m x.1 x.2.1 x.2.2.
Proof. intros [Hl _] Hi. pose proof (Forall_lookup_1 _ _ _ _ Hl Hi) as Hr. split; [exact (br_geom _ _ _ _ Hr)|done]. Qed.

(** Header windows of the lists are apart from the data of every slot. *)
Lemma header_data_apart m ls w i x s b :
  mgr_rep m ls → (∃ g, g ∈ ls_geom <$> ls ∧ header_window g w) →
  ls !! i = Some x → is_slot (ls_geom x) s → slot_obj (ls_geom x) s b →
  disjoint_win w.1 w.2 (data_win b).1 (data_win b).2.
Proof.
  intros Hr (g&Hg&Hw) Hi Hs Ho. rewrite (slot_obj_win _ _ _ Ho).
  apply list_elem_of_fmap in Hg as (y&->&Hy). apply list_elem_of_lookup in Hy as [j Hj].
  destruct (mgr_geom _ _ _ _ Hr Hi) as [Hgx _], (mgr_geom _ _ _ _ Hr Hj) as [Hgy _].
  destruct (decide (j = i)) as [->|Hne].
  - rewrite Hi in Hj. injection Hj as <-. destruct Hw as [->|(u&Hu&->)]; [|by apply data_apart].
    pose proof Hgx as []. destruct Hs as (?&?&_). unfold list_win. rewrite slot_ptr_padd. consts. cbn. solve_disj.
  - eapply win_in_disj; [by apply header_window_in|].
    eapply win_in_disj_r; [by apply data_in_list|]. by apply (mg_apart _ _ Hr j i y x).
Qed.

(** Changes of headers leave the bytes of owned objects alone. *)
Lemma headers_only_data bm ls h L m' p b :
  bm_own bm ls h L → headers_only (ls_geom <$> ls) (h_mem h) m' → p ∈ L → h_slices h !! p = Some b →
  peek m' (data_win b).1 (data_win b).2 = peek (h_mem h) (data_win b).1 (data_win b).2.
Proof.
  intros [] (ws&[Hc _]&Hw) Hp Hb. apply Hc. eapply Forall_impl; [exact Hw|]. intros w Hex.
  destruct (bw_objs0 p b Hp Hb) as [(i&x&s&Hi&Hs&_&Ho)|(_&_&Harr)].
  - by eapply header_data_apart.
  - destruct Hex as (g&Hg&Hhw). apply list_elem_of_fmap in Hg as (y&->&Hy).
    apply list_elem_of_lookup in Hy as [j Hj].
    destruct (mgr_geom _ _ _ _ bw_rep0 Hj) as [Hgy _]. destruct (Forall_lookup_1 _ _ _ _ bw_room0 Hj) as [Ea _].
    left. rewrite (win_in_arr _ _ (header_window_in _ _ Hgy Hhw)). cbn. rewrite Ea. done.
Qed.

Lemma headers_only_wf gs m m' b : headers_only gs m m' → slice_wf m b → slice_wf m' b.
Proof. intros (ws&Hc&_) Hw. by eapply slice_wf_frame. Qed.

Lemma headers_only_in_mem gs m m' p n : headers_only gs m m' → in_mem m p n → in_mem m' p n.
Proof. intros (ws&Hc&_). apply Hc. Qed.

(** Two slots with disjoint contents. *)
Lemma slots_apart m ls i j x y s t b c :
  mgr_rep m ls → ls !! i = Some x → ls !! j = Some y → is_slot (ls_geom x) s → is_slot (ls_geom y) t →
  (i = j → s ≠ t) → slot_obj (ls_geom x) s b → slot_obj (ls_geom y) t c → apart b c.
Proof.
  intros Hr Hi Hj Hs Ht Hne Hb Hc. unfold apart. rewrite (slot_obj_win _ _ _ Hb), (slot_obj_win _ _ _ Hc).
  destruct (mgr_geom _ _ _ _ Hr Hi) as [Hgx _], (mgr_geom _ _ _ _ Hr Hj) as [Hgy _].
  destruct (decide (i = j)) as [->|Hij].
  - rewrite Hi in Hj. injection Hj as <-. specialize (Hne eq_refl). rewrite !slot_ptr_padd. cbn.
    pose proof Hgx as []. destruct (slot_apart _ _ _ Hgx Hs Ht Hne); consts; solve_disj.
  - eapply win_in_disj; [by apply data_in_list|]. eapply win_in_disj_r; [by apply data_in_list|].
    by apply (mg_apart _ _ Hr i j x y).
Qed.

(** ** Slots that are in use and not linked *)

(** The objects over slots among [us] start at the first byte and their flag says that
    no slot follows. *)
Definition unlinked (h : heap) (us : list nat) : Prop := ∀ q b, q ∈ us → h_slices h !! q = Some b → bs_isFromShm b = true →
  bs_start b = 0 ∧ ∃ hd f, bs_header b = Some hd ∧ peek_u8 (h_mem h) (padd (slice_ptr hd) bufferFlagOffset) = Some f ∧ flag_next f = false.

(** Only the memory of the manager differs; new objects [qs] are unlinked and owned ones
    stay so. *)
Record takes (bm : bufferManager) (h h' : heap) (L qs : list nat) : Prop := {
  tk_mem k : k ≠ s_arr (bm_mem bm) → h_mem h' !! k = h_mem h !! k;
  tk_unlinked us : (∀ q, q ∈ us → q ∈ L) → unlinked h us → unlinked h' (qs ++ us)
}.

Lemma flag_apart m ls i j x y w u :
  mgr_rep m ls → ls !! i = Some x → ls !! j = Some y → is_slot (ls_geom y) u →
  w = list_win (ls_geom x) ∨ (∃ s, is_slot (ls_geom x) s ∧ w = slot_win (ls_geom x) s ∧ (i = j → s ≠ u)) →
  disjoint_win w.1 w.2 (padd (slot_ptr (ls_geom y) u) bufferFlagOffset) 1.
Proof.
  intros Hr Hi Hj Hu Hw. destruct (mgr_geom _ _ _ _ Hr Hi) as [Hgx _], (mgr_geom _ _ _ _ Hr Hj) as [Hgy _]. pose proof Hu as (?&?&_).
  destruct (decide (i = j)) as [->|Hij].
  - rewrite Hi in Hj. injection Hj as <-. pose proof Hgx as []. destruct Hw as [->|(s&Hs&->&Hne)].
    + unfold list_win, slot_ptr. consts. cbn. solve_disj.
    + specialize (Hne eq_refl). unfold slot_win, slot_ptr. destruct (slot_apart _ _ _ Hgx Hs Hu Hne); consts; cbn; solve_disj.
  - eapply win_in_disj; [apply header_window_in; [exact Hgx|]; destruct Hw as [->|(s&?&->&_)]; [by left|right; by exists s]|].
    eapply (win_in_disj_r (padd (slot_ptr (ls_geom y) u) bufferFlagOffset, 1) (slot_win (ls_geom y) u)).
    { unfold win_in, slot_win. cbn. consts. lia. }
    eapply (win_in_disj_r _ (g_win (ls_geom y))); [apply header_window_in; [exact Hgy|right; by exists u]|]. by apply (mg_apart _ _ Hr i j x y).
Qed.

(** The header of a list and of its free slots may change. *)
Lemma unlinked_frame bm ls h h' L us i x ss :
  bm_own bm ls h L → (∀ q, q ∈ us → q ∈ L) → ls !! i = Some x → (∀ s, s ∈ ss → is_slot (ls_geom x) s ∧ s ∈ ls_free x) →
  changes_only (h_mem h) (h_mem h') (list_win (ls_geom x) :: (slot_win (ls_geom x) <$> ss)) →
  (∀ q, q ∈ us → h_slices h' !! q = h_slices h !! q) → unlinked h us → unlinked h' us.
Proof.
  intros Hb Hus Hi Hss Hc Hsl Hun q b Hq Hbq Hshm. rewrite Hsl in Hbq by done. destruct (Hun q b Hq Hbq Hshm) as (H0&hd&f&Hhd&Hf&Hfl).
  split; [done|]. exists hd, f. split_and!; [done| |done]. pose proof Hb as [].
  destruct (bw_objs0 q b (Hus q Hq) Hbq) as [(j&y&u&Hj&Hu&Hnu&[(hd'&Hhd'&Ep&_) _ _ _ _ _ _])|(_&?&_)]; [|congruence].
  rewrite Hhd in Hhd'. injection Hhd' as <-. rewrite Ep in *.
  eapply changes_peek_u8; [exact Hc| |exact Hf]. apply Forall_forall. intros w Hw. eapply (flag_apart (h_mem h) ls i j x y); try done.
  apply elem_of_cons in Hw as [->|(s&->&Hs)%list_elem_of_fmap]; [by left|right]. destruct (Hss s Hs). exists s. split_and!; [done|done|].
  intros <-. rewrite Hi in Hj. injection Hj as <-. intros ->. done.
Qed.

Lemma unlinked_sub h us us' : (∀ q, q ∈ us' → q ∈ us) → unlinked h us → unlinked h us'.
Proof. intros Hs Hu q b Hq. apply Hu, Hs, Hq. Qed.
Lemma takes_refl bm h L : takes bm h h L [].
Proof. by constructor. Qed.
Lemma takes_trans bm h h1 h2 L qs1 qs2 : takes bm h h1 L qs1 → takes bm h1 h2 (qs1 ++ L) qs2 → takes bm h h2 L (qs1 ++ qs2).
Proof.
  intros [M1 H1] [M2 H2]. constructor; [intros k Hk; rewrite M2 by done; by apply M1|]. intros us Hus Hu. eapply unlinked_sub; [|apply (H2 (qs1 ++ us)); [set_solver|by apply H1]]. set_solver.
Qed.

(** [pushBack] changes links of objects only. *)
Lemma pushBack_unlinked l p h l' h' us : sl_pushBack l (Some p) h = Done (l', h') → h_mem h' = h_mem h ∧ (unlinked h us → unlinked h' us).
Proof.
  unfold sl_pushBack. intros (fr&h1&E&[= _ <-])%bind_done_inv. destruct (sl_len l >? 0); [|by injection E as _ <-].
  apply bind_done_inv in E as (b&h2&E1&E). assert (h2 = h) as -> by (destruct (sl_back l); [by injection E1|done]).
  apply bind_done_inv in E as (x&h2&E2&E). unfold get_slice in E2. destruct (h_slices h !! b) as [x'|] eqn:Eb; [|done]. injection E2 as -> <-.
  injection E as _ <-. split; [done|]. intros Hu q c Hq Hc Hshm. cbn in Hc. destruct (decide (b = q)) as [<-|Hne].
  - rewrite lookup_insert_eq in Hc. injection Hc as <-. exact (Hu b x Hq Eb Hshm).
  - rewrite lookup_insert_ne in Hc by done. exact (Hu q c Hq Hc Hshm).
Qed.

(** Every slot but the last was needed for [size] bytes. *)
Definition tight (h : heap) (size : Z) (qs : list nat) : Prop := ∀ qs' q, qs = qs' ++ [q] → caps_of h qs' < size.

Lemma tight_app h size qs1 qs2 : tight h size qs1 → tight h (size - caps_of h qs1) qs2 → tight h size (qs1 ++ qs2).
Proof.
  intros H1 H2 qs' q Eq. destruct qs2 as [|r qs2 _] using rev_ind; [rewrite app_nil_r in Eq; by eapply H1|].
  rewrite app_assoc in Eq. apply app_inj_tail in Eq as [<- <-]. rewrite caps_of_app. specialize (H2 qs2 r eq_refl). lia.
Qed.
Lemma tight_upto h h' size qs : (∀ q, q ∈ qs → same_upto_next h h' q) → tight h size qs → tight h' size qs.
Proof. intros Hs Ht qs' q Eq. rewrite (caps_of_upto h h'); [by eapply Ht|]. intros r Hr. apply Hs. rewrite Eq. set_solver. Qed.

(** ** Allocation of one slot *)

Lemma fresh_not_owned h h' L p o : owned h L → fresh_obj h h' p o → p ∉ L.
Proof.
  intros [] [] Hin. destruct (ow_live p Hin) as [Hnp (b&Hb&_)]. destruct fo_new; [done|congruence].
Qed.

Lemma owned_add h h' L p o :
  owned h L → fresh_obj h h' p o → slice_wf (h_mem h') o →
  (∀ b, slice_wf (h_mem h) b → slice_wf (h_mem h') b) →
  (∀ q b, q ∈ L → h_slices h !! q = Some b → apart o b) → owned h' (p :: L).
Proof.
  intros Ho Hf Hwf Hmono Hap. pose proof (fresh_not_owned _ _ _ _ _ Ho Hf) as Hp.
  pose proof Ho as []. pose proof Hf as []. constructor.
  - done.
  - by constructor.
  - intros q [->|Hq]%elem_of_cons.
    + split; [done|]. exists o. by rewrite fo_slices, lookup_insert_eq.
    + destruct (ow_live q Hq) as (Hqp&b&Hb&Hw). split.
      * rewrite fo_sub. destruct (h_pool h); [done|]. set_solver.
      * exists b. rewrite fo_slices, lookup_insert_ne by (by intros ->). auto.
  - intros q r b c [->|Hq]%elem_of_cons [->|Hr]%elem_of_cons Hne Hb Hc; [done|..];
      rewrite fo_slices in Hb, Hc.
    + rewrite lookup_insert_eq in Hb. injection Hb as <-. rewrite lookup_insert_ne in Hc by done. eauto.
    + rewrite lookup_insert_eq in Hc. injection Hc as <-. rewrite lookup_insert_ne in Hb by done.
      apply disjoint_win_sym. by eapply Hap.
    + rewrite lookup_insert_ne in Hb by (by intros ->). rewrite lookup_insert_ne in Hc by (by intros ->). eauto.
Qed.

Lemma slot_slice_wf m g k fl s : blist_rep m g k fl → is_slot g s → slice_wf m (slot_slice g s).
Proof.
  intros Hr Hs. pose proof (br_geom _ _ _ _ Hr) as []. pose proof Hs as (?&?&_). constructor; cbn; try lia.
  - consts. lia.
  - replace (slice_ptr (slot_data g s)) with (padd (slot_ptr g s) bufferHeaderSize).
    + eapply in_mem_sub; [by eapply slot_in_mem|consts; lia..].
    + unfold slice_ptr, slot_data, slot_ptr, padd. cbn. f_equal. lia.
Qed.

Lemma shm_obj_update ls i x x' b :
  ls !! i = Some x → ls_geom x' = ls_geom x → (∀ s, s ∉ ls_free x → s ∉ ls_free x') →
  shm_obj ls b → shm_obj (<[i := x']> ls) b.
Proof.
  intros Hi Eg Hf (j&y&s&Hj&Hs&Hns&Ho). destruct (decide (i = j)) as [->|Hne].
  - rewrite Hi in Hj. injection Hj as <-. exists j, x', s. rewrite Eg. split_and!; try done.
    + apply list_lookup_insert_eq. by eapply lookup_lt_Some.
    + by apply Hf.
  - exists j, y, s. by rewrite list_lookup_insert_ne.
Qed.

Lemma bm_own_mem bm ls h L m' :
  bm_own bm ls h L → mgr_rep m' ls → headers_only (ls_geom <$> ls) (h_mem h) m' →
  bm_own bm ls (set_mem m' h) L ∧ ∀ q, q ∈ L → same_slice h (set_mem m' h) q.
Proof.
  intros Hb Hr Hh. pose proof Hb as []. split.
  - constructor; try done; [by eapply headers_only_in_mem|]. destruct bw_own0. constructor; try done; [by destruct ow_pool|].
    intros p Hp. destruct (ow_live p Hp) as (?&b&?&?). split; [done|]. exists b. split; [done|].
    by eapply headers_only_wf.
  - intros q Hq. split; [done|]. intros b Hbq. by eapply headers_only_data.
Qed.

Lemma bm_pop bm ls h L i x :
  bm_own bm ls h L → ls !! i = Some x →
  (∃ s p h', bufferList_pop (list_of (ls_geom x)) h = Done (inr p, h') ∧
     bm_own bm (<[i := taken x]> ls) h' (p :: L) ∧ h_slices h' !! p = Some (slot_slice (ls_geom x) s) ∧
     h_slices h' = <[p := slot_slice (ls_geom x) s]> (h_slices h) ∧
     (2 ≤ length (ls_free x))%nat ∧ (∀ q, q ∈ L → same_slice h h' q) ∧ takes bm h h' L [p]) ∨
  (∃ m', bufferList_pop (list_of (ls_geom x)) h = Done (inl ErrNoMoreBuffer, set_mem m' h) ∧
     bm_own bm ls (set_mem m' h) L ∧ (∀ q, q ∈ L → same_slice h (set_mem m' h) q) ∧ takes bm h (set_mem m' h) L []).
Proof.
  intros Hb Hi. pose proof Hb as []. destruct (mgr_geom _ _ _ _ bw_rep0 Hi) as [Hg Hr].
  assert (ls_geom x ∈ ls_geom <$> ls) as Hin.
  { apply list_elem_of_fmap. exists x. split; [done|]. by eapply list_elem_of_lookup_2. }
  destruct x as [g [k fl]]. cbn [fst snd ls_geom] in *. unfold ls_free. cbn.
  destruct fl as [|s [|t fl]].
  - by destruct (br_head _ _ _ _ Hr) as (?&?&_).
  - right. destruct (bufferList_pop_empty g h k s Hr) as (m'&E&Hr'&Hc). exists m'. split; [done|].
    assert (headers_only [g] (h_mem h) m') as Hh by (eapply (pop_empty_headers _ g); [set_solver|done]).
    destruct (bm_own_mem bm ls h L m') as [Hbm Hsm]; [done| |by eapply (pop_empty_headers _ g)|].
    { rewrite <- (list_insert_id ls i (g, (k, [s]))) by done. by eapply mgr_rep_update. }
    split_and!; [done|done|]. constructor.
    { intros a Ha. destruct (Forall_lookup_1 _ _ _ _ bw_room0 Hi) as [Ea _]. cbn in Ea. rewrite <- Ea in Ha.
      eapply changes_other_array; [exact Hc|apply Forall_singleton; reflexivity|exact Ha]. }
    intros us Hus Hun. eapply (unlinked_frame bm ls h _ L us i _ []); try done; [by intros ? ?%not_elem_of_nil|].
    eapply changes_only_enlarge; [exact Hc|]. unfold list_win. consts. solve_enlarge.
  - left. destruct (bufferList_pop_ok g h k s t fl Hr (ow_pool _ _ bw_own0)) as (p&h'&E&Hf&Hr'&Hc&f&Hfl&Hfn).
    pose proof (br_slots _ _ _ _ Hr) as [Hs _]%Forall_cons.
    pose proof (br_nodup _ _ _ _ Hr) as [Hni _]%NoDup_cons.
    assert (headers_only [g] (h_mem h) (h_mem h')) as Hh1.
    { eapply (headers_only_intro _ g _ _ [s]); [set_solver|by apply Forall_singleton|by apply pop_headers]. }
    assert (headers_only (ls_geom <$> ls) (h_mem h) (h_mem h')) as Hh by (eapply headers_only_mono; [|done]; set_solver).
    pose proof (fresh_not_owned _ _ _ _ _ bw_own0 Hf) as Hp.
    pose proof Hf as []. exists s, p, h'. split_and!; try done.
    + constructor; try done.
      * unfold lists_of. rewrite list_fmap_insert. rewrite list_insert_id; [done|].
        rewrite list_lookup_fmap, Hi. done.
      * by eapply mgr_rep_update.
      * rewrite list_fmap_insert, list_insert_id; [done|]. by rewrite list_lookup_fmap, Hi.
      * apply Forall_insert; [done|]. by apply (Forall_lookup_1 _ _ _ _ bw_room0 Hi).
      * by eapply headers_only_in_mem.
      * eapply owned_add; [done|done|by eapply slot_slice_wf|intros; by eapply headers_only_wf|].
        intros q b Hq Hbq. destruct (bw_objs0 q b Hq Hbq) as [(j&y&u&Hj&Hu&Hnu&Ho)|(_&_&Harr)].
        -- eapply (slots_apart _ ls i j); try done; [|by apply slot_slice_obj].
           intros <-. rewrite Hi in Hj. injection Hj as <-. intros ->. apply Hnu. unfold ls_free. cbn. set_solver.
        -- left. cbn. destruct (Forall_lookup_1 _ _ _ _ bw_room0 Hi) as [Ea _]. cbn in Ea. rewrite Ea. congruence.
      * intros q b Hq Hbq. rewrite fo_slices in Hbq. apply elem_of_cons in Hq as [->|Hq].
        -- rewrite lookup_insert_eq in Hbq. injection Hbq as <-. left. exists i, (taken (g, (k, s :: t :: fl))), s.
           split_and!; [|done|done|by apply slot_slice_obj].
           apply list_lookup_insert_eq. by eapply lookup_lt_Some.
        -- rewrite lookup_insert_ne in Hbq by (by intros ->).
           destruct (bw_objs0 q b Hq Hbq) as [Hs'|?]; [left|by right].
           eapply shm_obj_update; [done|done| |done]. intros u. unfold ls_free, taken. cbn. set_solver.
    + by rewrite fo_slices, lookup_insert_eq.
    + cbn. lia.
    + intros q Hq. split; [rewrite fo_slices; apply lookup_insert_ne; by intros ->|].
      intros b Hbq. by eapply headers_only_data.
    + constructor.
      { intros a Ha. destruct (Forall_lookup_1 _ _ _ _ bw_room0 Hi) as [Ea _]. cbn in Ea. rewrite <- Ea in Ha.
        eapply changes_other_array; [exact Hc| |exact Ha]. unfold pop_wins. repeat (apply Forall_cons; split; [done|]). by apply Forall_nil. }
      intros us Hus Hun. assert (unlinked h' us) as Hun'.
      { eapply (unlinked_frame bm ls h h' L us i _ [s]); try done.
        - intros u ->%list_elem_of_singleton. split; [done|]. unfold ls_free. cbn. set_solver.
        - by apply pop_headers.
        - intros q Hq. rewrite fo_slices. apply lookup_insert_ne. intros ->. by apply Hp, Hus. }
      intros q b [->|Hq]%elem_of_cons Hbq Hshm; [|by apply (Hun' q b)]. rewrite fo_slices, lookup_insert_eq in Hbq. injection Hbq as <-.
      split; [done|]. eexists _, f. split_and!; [done| |done]. by rewrite slot_header_ptr.
Qed.

(** ** Updates by the client *)

Lemma slot_obj_view g s b b' : same_view b b' → slot_obj g s b → slot_obj g s b'.
Proof.
  intros (E1&E2&E3&E4&E5) []. constructor; rewrite ?E1, ?E2, ?E3, ?E4, ?E5; done.
Qed.

(** Writes into the data of a slot keep all lists. *)
Lemma mgr_rep_data m m' ls i x s b ws :
  mgr_rep m ls → ls !! i = Some x → is_slot (ls_geom x) s → slot_obj (ls_geom x) s b →
  changes_only m m' ws → Forall (λ w, win_in w (data_win b)) ws → mgr_rep m' ls.
Proof.
  intros Hr Hi Hs Ho Hc Hw. pose proof Hr as [Hl Ha]. constructor; [|done].
  destruct (mgr_geom _ _ _ _ Hr Hi) as [Hgx _]. rewrite (slot_obj_win _ _ _ Ho) in Hw.
  apply Forall_lookup. intros j y Hj. destruct (mgr_geom _ _ _ _ Hr Hj) as [Hgy Hry].
  destruct (decide (i = j)) as [->|Hne].
  - rewrite Hi in Hj. injection Hj as <-. pose proof Hs as (?&?&_). pose proof Hgx as [].
    assert (∀ u, is_slot (ls_geom x) u → Forall (λ w, disjoint_win w.1 w.2 (slot_ptr (ls_geom x) u) bufferHeaderSize) ws) as Hd.
    { intros u Hu. eapply Forall_impl; [exact Hw|]. intros w Hwi. eapply win_in_disj; [exact Hwi|].
      apply disjoint_win_sym. by apply data_apart. }
    eapply blist_rep_frame; [exact Hry|exact Hc|..].
    + eapply Forall_impl; [exact Hw|]. intros w Hwi. eapply win_in_disj; [exact Hwi|].
      rewrite slot_ptr_padd. unfold ls_geom in *. cbn. consts. solve_disj.
    + intros u Hu. apply Hd. pose proof (br_slots _ _ _ _ Hry) as F. rewrite Forall_forall in F. by apply F.
    + intros u Hu. rewrite <- (padd_0 (slot_ptr _ _)).
      eapply Forall_disjoint_sub; [by apply Hd|consts; lia..].
  - eapply blist_rep_apart; [exact Hry|exact Hc|]. eapply Forall_impl; [exact Hw|]. intros w Hwi.
    eapply win_in_disj; [exact Hwi|]. eapply win_in_disj; [by apply data_in_list|].
    by apply (Ha i j x y).
Qed.

Lemma mgr_rep_other_arr m m' ls (a : nat) ws :
  mgr_rep m ls → Forall (λ x : lstate, p_arr (g_base (ls_geom x)) ≠ a) ls →
  changes_only m m' ws → Forall (λ w, p_arr w.1 = a) ws → mgr_rep m' ls.
Proof.
  intros [Hl Ha] Hna Hc Hw. constructor; [|done]. apply Forall_lookup. intros j y Hj.
  pose proof (Forall_lookup_1 _ _ _ _ Hl Hj) as Hr. pose proof (Forall_lookup_1 _ _ _ _ Hna Hj) as Hne.
  eapply blist_rep_apart; [exact Hr|exact Hc|]. eapply Forall_impl; [exact Hw|].
  intros w Hwa. cbn in *. left. unfold g_win, ls_geom in *. cbn. congruence.
Qed.

Lemma owned_update h L p b b' m' ws :
  owned h L → p ∈ L → h_slices h !! p = Some b → same_view b b' → slice_wf m' b' →
  changes_only (h_mem h) m' ws → owned (upd_slice (set_mem m' h) p b') L.
Proof.
  intros [] Hp Hb (E1&E2&_) Hw Hc. destruct (ow_live p Hp) as [Hnp _]. constructor; cbn.
  - destruct ow_pool as [Hz ?]. constructor; [|done]. cbn. rewrite Forall_forall in Hz |- *. intros q Hq.
    rewrite lookup_insert_ne; [by apply Hz|]. by intros ->.
  - done.
  - intros q Hq. destruct (ow_live q Hq) as (Hnq&bq&Hbq&Hwq). split; [done|].
    destruct (decide (p = q)) as [->|]; [exists b'; by rewrite lookup_insert_eq|].
    exists bq. rewrite lookup_insert_ne by done. split; [done|]. by eapply slice_wf_frame.
  - intros q r c d Hq Hr Hne Hc' Hd. apply lookup_insert_Some in Hc' as [[<- <-]|[? Hc']],
      Hd as [[<- <-]|[? Hd]]; try done; unfold apart, data_win in *; rewrite ?E2; eauto.
Qed.

Lemma bm_update bm ls h L p b b' m' ws :
  bm_own bm ls h L → p ∈ L → h_slices h !! p = Some b → same_view b b' → slice_wf m' b' →
  changes_only (h_mem h) m' ws → Forall (λ w, win_in w (data_win b)) ws →
  bm_own bm ls (upd_slice (set_mem m' h) p b') L.
Proof.
  intros Hb Hp Hbp Hv Hw Hc Hws. pose proof Hb as []. constructor; try done.
  - cbn. destruct (bw_objs0 p b Hp Hbp) as [(i&x&s&Hi&Hs&_&Ho)|(_&_&Harr)]; [by eapply mgr_rep_data|].
    eapply (mgr_rep_other_arr _ _ _ (s_arr (bs_data b))); [done| |exact Hc|].
    + eapply Forall_impl; [exact bw_room0|]. intros x [Ea _]. rewrite Ea. done.
    + eapply Forall_impl; [exact Hws|]. intros w Hwi. by rewrite (win_in_arr _ _ Hwi).
  - cbn. by apply Hc.
  - by eapply owned_update.
  - intros q c Hq Hcq. cbn in Hcq. apply lookup_insert_Some in Hcq as [[<- <-]|[? Hcq]]; [|by eapply bw_objs0].
    destruct (bw_objs0 p b Hp Hbp) as [(i&x&s&Hi&Hs&Hns&Ho)|(E1&E2&Harr)].
    + left. exists i, x, s. split_and!; try done. by eapply slot_obj_view.
    + right. destruct Hv as (V1&V2&_&_&V5). unfold proc_obj. by rewrite V1, V2, V5.
Qed.

(** ** Allocation *)

Lemma bm_alloc_loop bm L size rest : ∀ h pre,
  bm_own bm (pre ++ rest) h L →
  (∃ p b h', alloc_loop (lists_of rest) size h = Done (inr p, h') ∧ bm_inv bm h' (p :: L) ∧
     h_slices h' !! p = Some b ∧ empty_slice b ∧ size ≤ bs_cap b ∧ bs_isFromShm b = true ∧
     (∀ q, q ∈ L → same_slice h h' q) ∧ takes bm h h' L [p]) ∨
  (∃ h', alloc_loop (lists_of rest) size h = Done (inl ErrNoMoreBuffer, h') ∧ bm_inv bm h' L ∧
     (∀ q, q ∈ L → same_slice h h' q) ∧ takes bm h h' L []).
Proof.
  induction rest as [|x rest IH]; intros h pre Hb; cbn [lists_of fmap list_fmap alloc_loop].
  - right. exists h. split_and!; [done|by exists (pre ++ [])|intros; apply same_slice_refl|apply takes_refl].
  - assert ((pre ++ x :: rest) !! length pre = Some x) as Hi by by apply list_lookup_middle.
    destruct (mgr_geom _ _ _ _ (bw_rep _ _ _ _ Hb) Hi) as [Hg Hr]. pose proof (br_cap _ _ _ _ Hr) as Hcap.
    assert (pre ++ x :: rest = (pre ++ [x]) ++ rest) as Eapp by by rewrite <- app_assoc.
    mrun Hcap. rewrite set_mem_id. change x.1 with (ls_geom x).
    destruct (size <=? g_cap (ls_geom x)) eqn:Esz; breflect.
    2: { apply (IH h (pre ++ [x])). by rewrite <- Eapp. }
    destruct (bm_pop _ _ _ _ _ _ Hb Hi) as [(s&p&h'&E&Hb'&Hsl&_&_&Hsame&Htk)|(m'&E&Hb'&Hsame&Htk)]; mrun E.
    + left. exists p, (slot_slice (ls_geom x) s), h'. split_and!; try done; [by eexists|].
      pose proof Hg as []. split_and!; done.
    + destruct (IH (set_mem m' h) (pre ++ [x])) as [(p&b&h'&E'&?&?&?&?&?&Hs'&Ht')|(h'&E'&?&Hs'&Ht')]; [by rewrite <- Eapp|..].
      * left. exists p, b, h'. split_and!; try done; [intros q Hq; eapply same_slice_trans; eauto|]. by apply (takes_trans bm h (set_mem m' h) h' L [] [p]).
      * right. exists h'. split_and!; try done; [intros q Hq; eapply same_slice_trans; eauto|]. by apply (takes_trans bm h (set_mem m' h) h' L [] []).
Qed.

Lemma bm_alloc bm h L size :
  bm_inv bm h L →
  (∃ p b h', allocShmBuffer bm size h = Done (inr p, h') ∧ bm_inv bm h' (p :: L) ∧
     h_slices h' !! p = Some b ∧ empty_slice b ∧ size ≤ bs_cap b ∧ bs_isFromShm b = true ∧
     (∀ q, q ∈ L → same_slice h h' q) ∧ takes bm h h' L [p]) ∨
  (∃ h', allocShmBuffer bm size h = Done (inl ErrNoMoreBuffer, h') ∧ bm_inv bm h' L ∧
     (∀ q, q ∈ L → same_slice h h' q) ∧ takes bm h h' L []).
Proof.
  intros [ls Hb]. unfold allocShmBuffer. destruct (size <=? bm_maxSliceSize bm).
  - rewrite (bw_lists _ _ _ _ Hb). by apply (bm_alloc_loop bm L size ls h []).
  - right. exists h. split_and!; [done|by exists ls|intros; apply same_slice_refl|apply takes_refl].
Qed.

Lemma bm_pushBack bm ls h L l ps p b :
  bm_own bm ls h L → slist_rep (h_slices h) l ps None → (∀ q, q ∈ ps → q ∈ L) → p ∉ ps →
  h_slices h !! p = Some b → bs_next b = None →
  ∃ l' h', sl_pushBack l (Some p) h = Done (l', h') ∧ slist_rep (h_slices h') l' (ps ++ [p]) None ∧
    sl_write l' = sl_write l ∧ bm_own bm ls h' L ∧ h_slices h' !! p = Some b ∧
    (∀ q, q ∉ ps → same_slice h h' q) ∧ (∀ q, q ∈ ps → same_upto_next h h' q).
Proof.
  intros Hb Hr Hps Hp Hbp <-. eapply (I_pushBack (bm_own bm ls)); try done.
  - intros h0 L0 H0. exact (bw_own _ _ _ _ H0).
  - intros. by eapply bm_update.
Qed.

(** One object is taken and appended. *)
Lemma bm_take_one bm ls h L l ps i x :
  bm_own bm ls h L → ls !! i = Some x → slist_rep (h_slices h) l ps None → (∀ q, q ∈ ps → q ∈ L) →
  (∃ p l' h1 h', bufferList_pop (list_of (ls_geom x)) h = Done (inr p, h1) ∧
     sl_pushBack l (Some p) h1 = Done (l', h') ∧ p ∉ L ∧
     bm_own bm (<[i := taken x]> ls) h' (p :: L) ∧ grown h h' L l l' ps [p] ∧
     (∃ b, h_slices h' !! p = Some b ∧ caps_of h' [p] = bs_cap b) ∧ (2 ≤ length (ls_free x))%nat ∧ takes bm h h' L [p]) ∨
  (∃ m', bufferList_pop (list_of (ls_geom x)) h = Done (inl ErrNoMoreBuffer, set_mem m' h) ∧
     bm_own bm ls (set_mem m' h) L ∧ grown h (set_mem m' h) L l l ps [] ∧ takes bm h (set_mem m' h) L []).
Proof.
  intros Hb Hi Hr Hps. destruct (mgr_geom _ _ _ _ (bw_rep _ _ _ _ Hb) Hi) as [Hg _].
  destruct (bm_pop _ _ _ _ _ _ Hb Hi) as [(s&p&h1&E&Hb1&Hsl&Eh&Hlen&Hsame&Htk)|(m'&E&Hb1&Hsame&Htk)].
  - left. pose proof (ow_nodup _ _ (bw_own _ _ _ _ Hb1)) as [Hp _]%NoDup_cons.
    assert (p ∉ ps) as Hpp by (intros ?; by apply Hp, Hps).
    assert (slist_rep (h_slices h1) l ps None) as Hr1.
    { destruct Hr. constructor; try done. rewrite Eh. by apply links_insert_ne. }
    destruct (bm_pushBack _ _ _ _ _ _ _ _ Hb1 Hr1 ltac:(set_solver) Hpp Hsl eq_refl)
      as (l'&h'&E'&Hr'&Hw&Hb'&Hsl'&Hs1&Hs2).
    exists p, l', h1, h'. split_and!; try done.
    + constructor; [done|done| | |].
      * intros q ->%list_elem_of_singleton. exists (slot_slice (ls_geom x) s), None.
        rewrite Hsl'. pose proof Hg as []. split_and!; done.
      * intros q Hq Hnq. eapply same_slice_trans; [by apply Hsame|by apply Hs1].
      * intros q Hq. eapply same_upto_next_trans; [|by apply Hs2]. apply same_slice_upto; [|by apply Hsame, Hps].
        destruct (owned_lookup h L q (bw_own _ _ _ _ Hb) (Hps q Hq)) as (?&->&_). eauto.
    + eexists. split; [exact Hsl'|]. unfold caps_of. cbn. rewrite Hsl'. cbn. lia.
    + destruct Htk as [Hm Htk]. constructor.
      * intros a Ha. rewrite (proj1 (pushBack_unlinked _ _ _ _ _ [] E')). by apply Hm.
      * intros us Hus Hu. eapply pushBack_unlinked; [exact E'|]. by apply Htk.
  - right. exists m'. split_and!; [done|done| |done]. constructor; [by rewrite app_nil_r|done|set_solver|auto|].
    intros q Hq. apply same_slice_upto; [|by apply Hsame, Hps].
    destruct (owned_lookup h L q (bw_own _ _ _ _ Hb) (Hps q Hq)) as (?&->&_). eauto.
Qed.

Lemma bm_own_perm bm ls h L L' : L ≡ₚ L' → bm_own bm ls h L → bm_own bm ls h L'.
Proof.
  intros HL []. constructor; try done.
  - destruct bw_own0. constructor; [done|by rewrite <- HL|..].
    + intros p. rewrite <- HL. apply ow_live.
    + intros p q b c. rewrite <- HL. apply ow_apart.
  - intros p b. rewrite <- HL. apply bw_objs0.
Qed.

Lemma grown_members h h' L l l' ps qs : grown h h' L l l' ps qs → (∀ q, q ∈ ps → q ∈ L) → ∀ q, q ∈ ps ++ qs → q ∈ qs ++ L.
Proof. intros _ Hps q. rewrite !elem_of_app. naive_solver. Qed.

(** The loop over one list ends: every round takes a slot. *)
Lemma bm_drain bm fuel : ∀ h ls L l ps i x remain alloc,
  bm_own bm ls h L → ls !! i = Some x → slist_rep (h_slices h) l ps None → (∀ q, q ∈ ps → q ∈ L) →
  (length (ls_free x) ≤ fuel)%nat →
  ∃ l' qs h' ls', drain_list fuel (list_of (ls_geom x)) l remain alloc h =
      Done ((l', remain - caps_of h' qs, alloc + caps_of h' qs), h') ∧
    bm_own bm ls' h' (qs ++ L) ∧ ls_geom <$> ls' = ls_geom <$> ls ∧ grown h h' L l l' ps qs ∧ takes bm h h' L qs ∧ tight h' remain qs.
Proof.
  induction fuel as [|fuel IH]; intros h ls L l ps i x remain alloc Hb Hi Hr Hps Hf.
  { destruct (mgr_geom _ _ _ _ (bw_rep _ _ _ _ Hb) Hi) as [_ Hrx].
    destruct (br_head _ _ _ _ Hrx) as (s&Hs&_). unfold ls_free in Hf. destruct x.2.2; cbn in *; [done|lia]. }
  cbn [drain_list]. destruct (remain >? 0) eqn:Erem.
  2: { exists l, [], h, ls. cbn [app caps_of foldr]. rewrite Z.sub_0_r, Z.add_0_r.
       split_and!; [done|done|done|apply grown_refl; [done|]|apply takes_refl|by intros [] ?].
       intros q Hq. destruct (owned_lookup h L q (bw_own _ _ _ _ Hb) (Hps q Hq)) as (?&->&_). eauto. }
  destruct (bm_take_one _ _ _ _ _ _ _ _ Hb Hi Hr Hps) as
    [(p&l1&h1&h2&E1&E2&Hp&Hb2&G1&(b&Hsl&Hcap)&Hlen&T1)|(m'&E1&Hb1&G1&T1)].
  - mrun E1. mrun E2. mrun Hsl.
    destruct (IH h2 (<[i := taken x]> ls) (p :: L) l1 (ps ++ [p]) i (taken x) (remain - bs_cap b) (alloc + bs_cap b))
      as (l'&qs&h'&ls'&E'&Hb'&Eg&G2&T2&Hti).
    + done.
    + apply list_lookup_insert_eq. by eapply lookup_lt_Some.
    + exact (gr_rep _ _ _ _ _ _ _ G1).
    + intros q Hq. apply (grown_members _ _ _ _ _ _ _ G1 Hps q Hq).
    + unfold taken, ls_free in *. cbn. destruct x.2.2; cbn in *; lia.
    + exists l', ([p] ++ qs), h', ls'. split_and!.
      * change (ls_geom (taken x)) with (ls_geom x) in E'. rewrite E'. rewrite caps_of_app.
        rewrite (caps_of_upto h2 h' [p]), Hcap; [do 3 f_equal; [f_equal|]; lia|].
        intros q ->%list_elem_of_singleton. apply (gr_upto _ _ _ _ _ _ _ G2). set_solver.
      * eapply bm_own_perm; [|exact Hb']. cbn. by rewrite Permutation_middle.
      * rewrite Eg. rewrite list_fmap_insert, list_insert_id; [done|]. by rewrite list_lookup_fmap, Hi.
      * eapply grown_trans; [exact G1|exact G2|]. by intros q ->%list_elem_of_singleton.
      * by eapply takes_trans.
      * assert (caps_of h' [p] = bs_cap b) as Hcap'.
        { rewrite (caps_of_upto h2 h' [p]), Hcap; [done|]. intros q ->%list_elem_of_singleton. apply (gr_upto _ _ _ _ _ _ _ G2). set_solver. }
        apply tight_app; [|by rewrite Hcap'].
        intros qs' q Eq. destruct qs' as [|? [|??]]; [|done|done]. cbn. unfold caps_of. cbn. breflect. lia.
  - mrun E1. exists l, [], (set_mem m' h), ls. cbn [app caps_of foldr]. rewrite Z.sub_0_r, Z.add_0_r.
    split_and!; try done. by intros [] ?.
Qed.

(** The same over all lists, from the largest slots down. *)
Lemma bm_alloc_lists bm fuel rest : ∀ h ls L l ps remain alloc,
  bm_own bm ls h L → (∀ g, g ∈ rest → g ∈ ls_geom <$> ls) →
  slist_rep (h_slices h) l ps None → (∀ q, q ∈ ps → q ∈ L) →
  (Z.to_nat (s_len (bm_mem bm)) ≤ fuel)%nat →
  ∃ l' qs h', alloc_lists fuel (list_of <$> rest) l remain alloc h = Done ((l', alloc + caps_of h' qs), h') ∧
    bm_inv bm h' (qs ++ L) ∧ grown h h' L l l' ps qs ∧ takes bm h h' L qs ∧ tight h' remain qs.
Proof.
  assert (∀ h ls L l ps, bm_own bm ls h L → slist_rep (h_slices h) l ps None → (∀ q, q ∈ ps → q ∈ L) →
            bm_inv bm h ([] ++ L) ∧ grown h h L l l ps [] ∧ takes bm h h L [] ∧ ∀ size, tight h size []) as Hnil.
  { intros h ls L l ps Hb Hr Hps. split; [by exists ls|]. split; [|split; [apply takes_refl|by intros ? [] ?]]. apply grown_refl; [done|]. intros q Hq.
    destruct (owned_lookup h L q (bw_own _ _ _ _ Hb) (Hps q Hq)) as (?&->&_). eauto. }
  induction rest as [|g rest IH]; intros h ls L l ps remain alloc Hb Hin Hr Hps Hf; cbn [fmap list_fmap alloc_lists].
  - exists l, [], h. cbn [caps_of foldr]. rewrite Z.add_0_r. split; [done|]. edestruct Hnil as (?&?&?&?); eauto.
  - destruct (remain >? 0).
    2: { exists l, [], h. cbn [caps_of foldr]. rewrite Z.add_0_r. split; [done|]. edestruct Hnil as (?&?&?&?); eauto. }
    assert (∃ i x, ls !! i = Some x ∧ g = ls_geom x) as (i&x&Hi&->).
    { assert (g ∈ ls_geom <$> ls) as (x&->&[i Hi]%list_elem_of_lookup)%list_elem_of_fmap; [apply Hin; set_solver|]. eauto. }
    destruct (mgr_geom _ _ _ _ (bw_rep _ _ _ _ Hb) Hi) as [Hg Hrx].
    destruct (Forall_lookup_1 _ _ _ _ (bw_room _ _ _ _ Hb) Hi) as [_ Hbytes].
    destruct (bm_drain bm fuel h ls L l ps i x remain alloc) as (l1&qs1&h1&ls1&E1&Hb1&Eg&G1&T1&Hti1); [done..| |].
    { pose proof (slots_length _ _ Hg (br_slots _ _ _ _ Hrx) (br_nodup _ _ _ _ Hrx)) as Hl. unfold ls_free.
      pose proof Hg as []. unfold g_bytes in Hbytes. assert (1 ≤ g_step (ls_geom x)) by (consts; lia).
      assert (g_num (ls_geom x) ≤ s_len (bm_mem bm)) by nia. unfold ls_geom in *. lia. }
    mrun E1.
    destruct (IH h1 ls1 (qs1 ++ L) l1 (ps ++ qs1) (remain - caps_of h1 qs1) (alloc + caps_of h1 qs1))
      as (l2&qs2&h2&E2&Hb2&G2&T2&Hti2).
    + done.
    + intros g Hgr. rewrite Eg. apply Hin. set_solver.
    + exact (gr_rep _ _ _ _ _ _ _ G1).
    + by apply (grown_members _ _ _ _ _ _ _ G1).
    + done.
    + exists l2, (qs1 ++ qs2), h2. split_and!.
      * rewrite E2, caps_of_app. rewrite (caps_of_upto h1 h2 qs1); [do 3 f_equal; lia|].
        intros q Hq. apply (gr_upto _ _ _ _ _ _ _ G2). set_solver.
      * destruct Hb2 as [ls2 Hb2]. exists ls2. eapply bm_own_perm; [|exact Hb2].
        rewrite app_assoc. f_equiv. by rewrite Permutation_app_comm.
      * eapply grown_trans; [exact G1|exact G2|]. intros q Hq HL.
        pose proof (ow_nodup _ _ (bw_own _ _ _ _ Hb1)) as (_&Hd&_)%NoDup_app. by apply (Hd q).
      * by eapply takes_trans.
      * assert (∀ q, q ∈ qs1 → same_upto_next h1 h2 q) as Hup by (intros q Hq; apply (gr_upto _ _ _ _ _ _ _ G2); set_solver).
        apply tight_app; [by eapply tight_upto|]. by rewrite (caps_of_upto h1 h2 qs1).
Qed.

Lemma bm_allocs bm h L l ps size :
  bm_inv bm h L → slist_rep (h_slices h) l ps None → (∀ q, q ∈ ps → q ∈ L) →
  ∃ l' h' qs, allocShmBuffers bm l size h = Done ((l', caps_of h' qs), h') ∧
    bm_inv bm h' (qs ++ L) ∧ grown h h' L l l' ps qs ∧ takes bm h h' L qs ∧ tight h' size qs.
Proof.
  intros [ls Hb] Hr Hps. unfold allocShmBuffers. rewrite (bw_lists _ _ _ _ Hb).
  assert (reverse (lists_of ls) = list_of <$> reverse (ls_geom <$> ls)) as ->.
  { rewrite fmap_reverse. unfold lists_of. by rewrite <- list_fmap_compose. }
  destruct (bm_alloc_lists bm (alloc_fuel bm) (reverse (ls_geom <$> ls)) h ls L l ps size 0)
    as (l'&qs&h'&E&?&?&?&?); try done.
  - intros g Hg. by rewrite elem_of_reverse in Hg.
  - unfold alloc_fuel. lia.
  - exists l', h', qs. by rewrite E.
Qed.

(** ** Recycling *)

Lemma owned_recycled h m' L p :
  owned h (p :: L) → (∀ b, slice_wf (h_mem h) b → slice_wf m' b) → owned (recycled h m' p) L.
Proof.
  intros [] Hm. apply NoDup_cons in ow_nodup as [Hp Hnd]. destruct (ow_live p) as [Hnp _]; [set_solver|].
  constructor; cbn.
  - by apply pool_ok_recycled.
  - done.
  - intros q Hq. destruct (ow_live q) as (Hnq&b&Hb&Hw); [set_solver|].
    assert (p ≠ q) by (by intros ->). split; [set_solver|]. exists b. rewrite lookup_insert_ne by done. auto.
  - intros q r b c Hq Hr Hne. rewrite !lookup_insert_ne by (by intros ->). apply ow_apart; [set_solver..|done].
Qed.

Lemma bm_putBack bm ls h L p : bm_own bm ls h (p :: L) → bm_own bm ls (recycled h (h_mem h) p) L.
Proof.
  intros []. pose proof (ow_nodup _ _ bw_own0) as [Hp _]%NoDup_cons. constructor; try done.
  - by apply owned_recycled.
  - intros q b Hq Hb. cbn in Hb. rewrite lookup_insert_ne in Hb by (by intros ->).
    apply (bw_objs0 q b); [set_solver|done].
Qed.

Lemma bm_forget bm ls h L p : bm_own bm ls h (p :: L) → bm_own bm ls h L.
Proof.
  intros []. constructor; try done.
  - destruct bw_own0. constructor; [done|by inversion_clear ow_nodup|..].
    + intros q Hq. apply ow_live. set_solver.
    + intros q r b c Hq Hr. apply ow_apart; set_solver.
  - intros q b Hq. apply bw_objs0. set_solver.
Qed.

Lemma recycle_loop_find rest : ∀ h p o i x,
  Forall (λ x : lstate, ∃ k fl, blist_rep (h_mem h) x.1 k fl) rest →
  NoDup ((λ x : lstate, g_cap (ls_geom x)) <$> rest) →
  h_slices h !! p = Some o → rest !! i = Some x → bs_cap o = g_cap (ls_geom x) →
  recycle_loop (lists_of rest) p h = bufferList_push (list_of (ls_geom x)) p h.
Proof.
  induction rest as [|y rest IH]; intros h p o i x Hl Hnd Hp Hi Hcap; [done|].
  apply Forall_cons in Hl as [(k&fl&Hy) Hl]. cbn [fmap list_fmap] in Hnd. apply NoDup_cons in Hnd as [Hni Hnd].
  cbn [lists_of fmap list_fmap recycle_loop]. mrun Hp.
  pose proof (br_cap _ _ _ _ Hy) as Hc. mrun Hc. rewrite set_mem_id, Hcap.
  destruct i as [|i]; cbn in Hi.
  - injection Hi as <-. change y.1 with (ls_geom y). by rewrite Z.eqb_refl.
  - replace (g_cap (ls_geom x) =? g_cap y.1) with false; [by eapply IH|].
    symmetry. apply Z.eqb_neq. intros Heq. apply Hni. apply list_elem_of_fmap. exists x.
    split; [by rewrite Heq|]. by eapply list_elem_of_lookup_2.
Qed.

(** The state after slot [s] of list [i] came back. *)
Definition given_back (x : lstate) (s : Z) : lstate := (x.1, (x.2.1 - 1, x.2.2 ++ [s])).

Lemma bm_own_given_back bm ls h L p b i x s m' :
  bm_own bm ls h (p :: L) → h_slices h !! p = Some b → ls !! i = Some x → is_slot (ls_geom x) s →
  slot_obj (ls_geom x) s b → mgr_rep m' (<[i := given_back x s]> ls) →
  headers_only (ls_geom <$> ls) (h_mem h) m' →
  bm_own bm (<[i := given_back x s]> ls) (recycled h m' p) L ∧ ∀ q, q ∈ L → same_slice h (recycled h m' p) q.
Proof.
  intros Hb Hp Hi Hs Ho Hr Hh. pose proof Hb as []. pose proof (ow_nodup _ _ bw_own0) as [Hnp _]%NoDup_cons.
  split.
  - constructor; try done.
    + rewrite bw_lists0. unfold lists_of. rewrite list_fmap_insert, list_insert_id; [done|]. by rewrite list_lookup_fmap, Hi.
    + rewrite list_fmap_insert, list_insert_id; [done|]. by rewrite list_lookup_fmap, Hi.
    + apply Forall_insert; [done|]. by apply (Forall_lookup_1 _ _ _ _ bw_room0 Hi).
    + by eapply headers_only_in_mem.
    + apply owned_recycled; [done|]. intros c. by eapply headers_only_wf.
    + intros q c Hq Hc. cbn in Hc. rewrite lookup_insert_ne in Hc by (by intros ->).
      destruct (bw_objs0 q c) as [(j&y&u&Hj&Hu&Hnu&Hou)|?]; [set_solver|done| |by right].
      left. destruct (decide (i = j)) as [->|Hne].
      * rewrite Hi in Hj. injection Hj as <-. exists j, (given_back x s), u. split_and!; try done.
        -- apply list_lookup_insert_eq. by eapply lookup_lt_Some.
        -- unfold given_back, ls_free. cbn. rewrite not_elem_of_app. split; [done|].
           intros ->%list_elem_of_singleton.
           assert (apart b c) as Hap by (eapply (ow_apart _ _ bw_own0 p q); [set_solver|set_solver|by intros ->|done|done]).
           unfold apart in Hap. rewrite (slot_obj_win _ _ _ Ho), (slot_obj_win _ _ _ Hou) in Hap.
           destruct (mgr_geom _ _ _ _ bw_rep0 Hi) as [[] _]. unfold disjoint_win in Hap. cbn in Hap. lia.
      * exists j, y, u. by rewrite list_lookup_insert_ne.
  - intros q Hq. split; [cbn; apply lookup_insert_ne; by intros ->|]. intros c Hc.
    eapply (headers_only_data _ _ _ _ _ q); [exact Hb|done|set_solver|done].
Qed.

Lemma headers_only_foreign bm ls h L m' r n :
  bm_own bm ls h L → headers_only (ls_geom <$> ls) (h_mem h) m' → p_arr r ≠ s_arr (bm_mem bm) →
  peek m' r n = peek (h_mem h) r n.
Proof.
  intros [] (ws&[Hc _]&Hw) Hr. apply Hc. eapply Forall_impl; [exact Hw|].
  intros w (g&Hg&Hhw). apply list_elem_of_fmap in Hg as (y&->&Hy). apply list_elem_of_lookup in Hy as [j Hj].
  destruct (mgr_geom _ _ _ _ bw_rep0 Hj) as [Hgy _]. destruct (Forall_lookup_1 _ _ _ _ bw_room0 Hj) as [Ea _].
  left. rewrite (win_in_arr _ _ (header_window_in _ _ Hgy Hhw)). cbn. rewrite Ea. done.
Qed.

Lemma bm_recycle bm h L p :
  bm_inv bm h (p :: L) →
  ∃ h', recycleBuffer bm (Some p) h = Done (tt, h') ∧ bm_inv bm h' L ∧ (∀ q, q ∈ L → same_slice h h' q) ∧
    (∀ r n, p_arr r ≠ s_arr (bm_mem bm) → peek (h_mem h') r n = peek (h_mem h) r n).
Proof.
  intros [ls Hb]. pose proof Hb as []. destruct (owned_lookup h _ p bw_own0) as (b&Hp&_); [set_solver|].
  pose proof (ow_nodup _ _ bw_own0) as [Hnp _]%NoDup_cons.
  destruct (bw_objs0 p b) as [(i&x&s&Hi&Hs&Hns&Ho)|(Hh&Hshm&Harr)]; [set_solver|done| |].
  - destruct (mgr_geom _ _ _ _ bw_rep0 Hi) as [Hg Hr].
    destruct (br_tail _ _ _ _ Hr) as (t&Ht&_). destruct (last_slot _ _ _ _ _ Hr Ht) as [_ Hts].
    destruct (bufferList_push_ok (ls_geom x) h (x.2.1) (x.2.2) t s p b Hr Ht Hs Hns Hp Ho) as (m'&E&Hr'&Hc).
    assert (headers_only [ls_geom x] (h_mem h) m') as Hh1.
    { eapply (headers_only_intro _ (ls_geom x) _ _ [s; t]); [set_solver| |exact Hc].
      apply Forall_cons; split; [done|by apply Forall_singleton]. }
    assert (mgr_rep m' (<[i := given_back x s]> ls)) as Hm by (by eapply mgr_rep_update).
    assert (headers_only (ls_geom <$> ls) (h_mem h) m') as Hh.
    { eapply headers_only_mono; [|exact Hh1]. intros g ->%list_elem_of_singleton. apply list_elem_of_fmap.
      exists x. split; [done|by eapply list_elem_of_lookup_2]. }
    destruct (bm_own_given_back bm ls h L p b i x s m') as [Hb' Hsame]; try done.
    assert (recycle_loop (lists_of ls) p h = Done (tt, upd_slice (set_mem m' h) p (reset_slice b))) as Eloop.
    { rewrite <- E. apply (recycle_loop_find ls h p b i x); try done; [|exact (so_cap _ _ _ Ho)].
      eapply Forall_impl; [exact (mg_lists _ _ bw_rep0)|]. intros y Hy. by exists y.2.1, y.2.2. }
    exists (recycled h m' p). split_and!; [|by eexists|done|intros; by eapply headers_only_foreign].
    unfold recycleBuffer. mrun Hp. rewrite (so_shm _ _ _ Ho), bw_lists0.
    mrun Eloop. erewrite putBack_ok by (cbn; apply lookup_insert_eq). unfold recycled, upd_slice. cbn.
    by rewrite insert_insert_eq.
  - exists (recycled h (h_mem h) p). split_and!.
    + unfold recycleBuffer. mrun Hp. rewrite Hshm, bind_mret. by eapply putBack_ok.
    + exists ls. by apply bm_putBack.
    + intros q Hq. split; [|done]. cbn. apply lookup_insert_ne. by intros ->.
    + done.
Qed.

(** ** Process memory *)

Lemma peek_extend (m : gmem) a bs p n l : m !! a = None → peek m p n = Some l → peek (<[a := bs]> m) p n = Some l.
Proof.
  intros Ha. unfold peek. destruct (m !! p_arr p) as [x|] eqn:E; [|done].
  rewrite lookup_insert_ne by congruence. by rewrite E.
Qed.

Lemma in_mem_extend (m : gmem) a bs p n : m !! a = None → in_mem m p n → in_mem (<[a := bs]> m) p n.
Proof.
  intros Ha (?&?&x&Hx&?). split_and!; [done..|]. exists x. by rewrite lookup_insert_ne by congruence.
Qed.

Lemma blist_rep_extend (m : gmem) a bs g k fl :
  m !! a = None → blist_rep m g k fl → blist_rep (<[a := bs]> m) g k fl.
Proof.
  intros Ha Hr.
  assert (∀ p v, peek_u32 m p = Some v → peek_u32 (<[a := bs]> m) p = Some v) as H32.
  { intros p v. unfold peek_u32. destruct (peek m p 4) as [l|] eqn:E; [|done].
    by rewrite (peek_extend _ _ bs _ _ _ Ha E). }
  assert (∀ p v, peek_u8 m p = Some v → peek_u8 (<[a := bs]> m) p = Some v) as H8.
  { intros p v. unfold peek_u8. destruct (peek m p 1) as [l|] eqn:E; [|done].
    by rewrite (peek_extend _ _ bs _ _ _ Ha E). }
  destruct Hr. constructor; try (by auto).
  - by apply in_mem_extend.
  - destruct br_head as (s&?&?). eauto.
  - destruct br_tail as (s&?&?). eauto.
  - destruct br_counter as (v&?&?). exists v. eauto.
  - intros i s Hi. destruct (br_free i s Hi) as [? ? (f&?&?) ?]. constructor; eauto.
Qed.

Lemma bm_adopt bm ls h L p b a0 bs pool' :
  bm_own bm ls h L → h_mem h !! a0 = None →
  (p ∈ h_pool h ∨ h_slices h !! p = None) → NoDup pool' → pool' ⊆ h_pool h → p ∉ pool' →
  bs_header b = None → bs_isFromShm b = false → s_arr (bs_data b) = a0 →
  slice_wf (<[a0 := bs]> (h_mem h)) b →
  bm_own bm ls (Heap (<[a0 := bs]> (h_mem h)) (<[p := b]> (h_slices h)) pool') (p :: L).
Proof.
  intros Hb Ha Hnew Hnd Hsub Hpp Hh Hshm Harr Hwf. pose proof Hb as []. pose proof bw_own0 as [].
  assert (p ∉ L) as HpL.
  { intros Hin. destruct (ow_live p Hin) as [? (c&?&_)]. destruct Hnew; [done|congruence]. }
  assert (∀ q c, q ∈ L → h_slices h !! q = Some c → s_arr (bs_data c) ≠ a0) as Hother.
  { intros q c Hq Hc Heq. destruct (ow_live q Hq) as (_&c'&Hc'&[]). rewrite Hc in Hc'. injection Hc' as <-.
    destruct sw_mem as (_&_&x&Hx&_). cbn in Hx. congruence. }
  constructor; cbn [h_mem h_slices h_pool]; try done.
  - destruct bw_rep0 as [Hl ?]. constructor; [|done]. eapply Forall_impl; [exact Hl|]. intros x Hx.
    by apply blist_rep_extend.
  - by apply in_mem_extend.
  - constructor; cbn.
    + destruct ow_pool as [Hz _]. constructor; [|done]. cbn. rewrite Forall_forall in Hz |- *. intros q Hq.
      rewrite lookup_insert_ne; [by apply Hz, Hsub|]. by intros ->.
    + by constructor.
    + intros q [->|Hq]%elem_of_cons; [split; [done|]; exists b; by rewrite lookup_insert_eq|].
      destruct (ow_live q Hq) as (Hnq&c&Hc&[]). split; [auto|]. exists c.
      rewrite lookup_insert_ne by (by intros ->). split; [done|]. constructor; try done. by apply in_mem_extend.
    + intros q r c d Hq Hr Hne Hc Hd. apply lookup_insert_Some in Hc as [[<- <-]|[? Hc]], Hd as [[<- <-]|[? Hd]]; [done|..].
      * left. cbn. rewrite Harr. intros Heq. eapply Hother; [|exact Hd|done]. set_solver.
      * left. cbn. rewrite Harr. eapply Hother; [|exact Hc]. set_solver.
      * eapply (ow_apart q r); [set_solver|set_solver|done..].
  - intros q c Hq Hc. apply lookup_insert_Some in Hc as [[<- <-]|[? Hc]].
    + right. split_and!; [done|done|]. rewrite Harr. intros ->.
      destruct bw_mem0 as (_&_&x&Hx&_). cbn in Hx. congruence.
    + apply (bw_objs0 q c); [set_solver|done].
Qed.

(** Lists only depend on the array of the mapping. *)
Lemma blist_rep_local (m m' : gmem) g k fl :
  m' !! p_arr (g_base g) = m !! p_arr (g_base g) → blist_rep m g k fl → blist_rep m' g k fl.
Proof.
  intros Ha Hr.
  assert (∀ d n, peek m' (padd (g_base g) d) n = peek m (padd (g_base g) d) n) as Hp
    by (intros; unfold peek; cbn; by rewrite Ha).
  assert (∀ s d, peek_u32 m' (padd (slot_ptr g s) d) = peek_u32 m (padd (slot_ptr g s) d)) as Hs
    by (intros; unfold peek_u32, slot_ptr; by rewrite padd_padd, Hp).
  assert (∀ s d, peek_u8 m' (padd (slot_ptr g s) d) = peek_u8 m (padd (slot_ptr g s) d)) as Hs8
    by (intros; unfold peek_u8, slot_ptr; by rewrite padd_padd, Hp).
  assert (∀ d, peek_u32 m' (padd (g_base g) d) = peek_u32 m (padd (g_base g) d)) as Hw
    by (intros; unfold peek_u32; by rewrite Hp).
  destruct Hr. constructor; unfold counts; rewrite ?Hw; try done.
  - destruct br_mem as (?&?&bs&?&?). split_and!; try done. exists bs. by rewrite Ha.
  - by rewrite <- (padd_0 (g_base g)), Hw, padd_0.
  - intros s Hs'. rewrite <- (padd_0 (slot_ptr g s)), Hs, padd_0. auto.
  - intros i s Hi. destruct (br_free i s Hi) as [? ? (f&?&?) ?].
    constructor; rewrite ?Hs; auto. exists f. by rewrite Hs8.
Qed.

Lemma bm_foreign_mem bm ls h L a0 m' :
  bm_own bm ls h L → a0 ≠ s_arr (bm_mem bm) →
  (∀ p b, p ∈ L → h_slices h !! p = Some b → s_arr (bs_data b) ≠ a0) →
  (∀ k, k ≠ a0 → m' !! k = h_mem h !! k) → bm_own bm ls (set_mem m' h) L.
Proof.
  intros [] Ha Hobj Hm. constructor; try done.
  - destruct bw_rep0 as [Hl ?]. constructor; [|done]. apply Forall_lookup. intros i x Hi.
    eapply blist_rep_local; [|by apply (Forall_lookup_1 _ _ _ _ Hl Hi)]. cbn. apply Hm.
    destruct (Forall_lookup_1 _ _ _ _ bw_room0 Hi) as [Ea _]. unfold ls_geom in Ea. congruence.
  - destruct bw_mem0 as (?&?&bs&?&?). split_and!; try done. exists bs. cbn in *. by rewrite Hm.
  - destruct bw_own0. constructor; try done; [by destruct ow_pool|].
    intros p Hp. destruct (ow_live p Hp) as (?&b&Hb&[]). split; [done|]. exists b. split; [done|].
    constructor; try done. destruct sw_mem as (?&?&bs&?&?). split_and!; try done. exists bs. cbn in *.
    rewrite Hm; [done|]. by eapply Hobj.
Qed.

(** ** The instance *)

#[export] Instance bufferManager_Allocator : Allocator bufferManager := {
  al_allocShmBuffer := allocShmBuffer;
  al_allocShmBuffers := allocShmBuffers;
  al_recycleBuffer := recycleBuffer
}.

#[export] Instance bufferManager_laws : AllocatorLaws bufferManager.
Proof.
  apply (Build_AllocatorLaws bufferManager _ bm_inv (λ a a0, a0 ≠ s_arr (bm_mem a))).
  - intros a h L [ls Hb]. exact (bw_own _ _ _ _ Hb).
  - intros a h L L' HL [ls Hb]. exists ls. by eapply bm_own_perm.
  - intros a h L size Hb _. destruct (bm_alloc a h L size Hb) as [(p&b&h'&?&?&?&?&?&?&?&_)|(h'&?&?&?&_)]; [left; by exists p, b, h'|right; by exists h'].
  - intros a h L l ps size Hb Hr Hps. destruct (bm_allocs a h L l ps size Hb Hr Hps) as (l'&h'&qs&?&?&?&_). by exists l', h', qs.
  - intros a h L p Hb. by apply bm_recycle.
  - intros a h L p b b' m' ws [ls Hb] Hp Hbp Hv Hw Hc Hws. exists ls. by eapply bm_update.
  - intros a h L p b a0 bs pool' [ls Hb] H1 H2 H3 H4 H5 H6 H7 H8 H9. exists ls. by apply bm_adopt.
  - intros a h L p [ls Hb]. exists ls. by eapply bm_forget.
  - intros a h L p [ls Hb]. exists ls. by apply bm_putBack.
  - intros a h L a0 [ls Hb] Ha ->. destruct (bw_mem _ _ _ _ Hb) as (_&_&x&Hx&_). cbn in Hx. congruence.
  - intros a h L a0 m' [ls Hb] Ha Hobj Hm. exists ls. by eapply bm_foreign_mem.
Defined.

Lemma layout_bytes mem co R pairs : Forall (pair_ok R) pairs → ∀ U i g,
  0 ≤ U → layout mem co R U pairs !! i = Some g → g_bytes g ≤ layout_end R U pairs.
Proof.
  induction 1 as [|sp pairs Hp Hps IH]; intros U i g HU Hg; cbn [layout layout_end] in *; [done|].
  pose proof (pair_bytes_pos R sp Hp) as Hb. destruct i as [|i]; cbn in Hg.
  - injection Hg as <-. pose proof (layout_end_mono R (U + pair_bytes R sp) pairs Hps).
    unfold g_bytes, g_step, pair_bytes in *. cbn. consts. lia.
  - eapply IH; [|exact Hg]. consts. lia.
Qed.

(** A manager that was just created owns everything. *)
Lemma bm_inv_created m mem o pairs path :
  mgr_room m mem o pairs → lists_fresh m (mgr_layout mem 20 o pairs) → NoDup (sp_Size <$> pairs) →
  bm_inv (manager_of mem 20 o pairs path) (Heap m ∅ []) [].
Proof.
  intros Hr Hf Hnd. pose proof Hr as []. pose proof (mgr_end_fits _ _ _ _ Hr) as [_ He].
  exists (fresh_lists (mgr_layout mem 20 o pairs)). constructor; cbn [h_mem].
  - cbn. unfold lists_of, fresh_lists. by rewrite <- list_fmap_compose.
  - by apply fresh_mgr_rep.
  - unfold fresh_lists. rewrite <- list_fmap_compose.
    replace (_ <$> mgr_layout mem 20 o pairs) with (sp_Size <$> pairs); [done|].
    unfold mgr_layout. generalize (region_cap mem o pairs) as R, (o + bufferManagerHeaderSize) as U. intros R.
    clear. induction pairs as [|sp pairs IH]; intros U; cbn [layout fmap list_fmap]; [done|].
    f_equal. apply IH.
  - apply Forall_fmap, Forall_lookup. intros i g Hg. cbn. split.
    + pose proof (layout_after mem 20 _ (o + bufferManagerHeaderSize) _ mr_pairs) as Ha.
      destruct (Forall_lookup_1 _ _ _ _ Ha Hg) as [-> _]. done.
    + assert (0 ≤ o + bufferManagerHeaderSize) as HU by (unfold bufferManagerHeaderSize; lia).
      pose proof (layout_bytes mem 20 _ _ mr_pairs _ i g HU Hg). unfold mgr_end in He. lia.
  - destruct mr_mem as (?&?&bs&Hbs&?). split_and!; cbn; try lia. exists bs. split; [done|lia].
  - constructor; cbn; [split; constructor|constructor|set_solver|set_solver].
  - set_solver.
Qed.
