(* ===== verification/LinkedBuffer.v ===== *)
(** * The linked buffer ([buffer.go])

    A read or write buffer: a list of slices, a list of slices that are pinned
    because the caller still holds views of them, and the number of unread
    bytes.  The buffer manager is any allocator (Allocator.v); the blocking
    call into the stream for more data, [readMore], is a parameter. *)

From Stdlib Require Import ZArith Lia.
From stdpp Require Import prelude list gmap strings.
From S2P Require Import Prelude GoMem BufferSlice BufferList Allocator.

Definition defaultSingleBufferSize : Z := 4096.

(** ** Data *)

Record linkedBuffer := LinkedBuffer {
  lb_sliceList : sliceList;
  lb_pinnedList : sliceList;
  lb_currentPinned : bool;
  lb_endStream : bool;
  lb_isFromShm : bool;
  lb_len : Z;
  lb_hasStream : bool
}.

(** The state of an operation: the store, the buffer, and the counter
    [stats.allocShmErrorCount] of the session. *)
Record lbst := LbSt { st_heap : heap; st_buf : linkedBuffer; st_allocErrors : Z }.

Definition newEmptyLinkedBuffer : linkedBuffer :=
  LinkedBuffer newSliceList newSliceList false false true 0 false.

Definition set_heap (h : heap) (s : lbst) : lbst := LbSt h (st_buf s) (st_allocErrors s).
Definition on_heap {B} (c : M heap B) : M lbst B := zoom st_heap set_heap c.
Definition upd_buf (f : linkedBuffer → linkedBuffer) : M lbst unit :=
  modify_state (λ s, LbSt (st_heap s) (f (st_buf s)) (st_allocErrors s)).
Definition buf {B} (f : linkedBuffer → B) : M lbst B := reads (λ s, f (st_buf s)).

Definition set_sliceList (l : sliceList) (b : linkedBuffer) : linkedBuffer :=
  LinkedBuffer l (lb_pinnedList b) (lb_currentPinned b) (lb_endStream b) (lb_isFromShm b) (lb_len b) (lb_hasStream b).
Definition set_pinnedList (l : sliceList) (b : linkedBuffer) : linkedBuffer :=
  LinkedBuffer (lb_sliceList b) l (lb_currentPinned b) (lb_endStream b) (lb_isFromShm b) (lb_len b) (lb_hasStream b).
Definition set_currentPinned (x : bool) (b : linkedBuffer) : linkedBuffer :=
  LinkedBuffer (lb_sliceList b) (lb_pinnedList b) x (lb_endStream b) (lb_isFromShm b) (lb_len b) (lb_hasStream b).
Definition set_isFromShm (x : bool) (b : linkedBuffer) : linkedBuffer :=
  LinkedBuffer (lb_sliceList b) (lb_pinnedList b) (lb_currentPinned b) (lb_endStream b) x (lb_len b) (lb_hasStream b).
Definition set_endStream (x : bool) (b : linkedBuffer) : linkedBuffer :=
  LinkedBuffer (lb_sliceList b) (lb_pinnedList b) (lb_currentPinned b) x (lb_isFromShm b) (lb_len b) (lb_hasStream b).
Definition add_len (d : Z) (b : linkedBuffer) : linkedBuffer :=
  LinkedBuffer (lb_sliceList b) (lb_pinnedList b) (lb_currentPinned b) (lb_endStream b) (lb_isFromShm b)
    (lb_len b + d) (lb_hasStream b).
Definition set_hasStream (x : bool) (b : linkedBuffer) : linkedBuffer :=
  LinkedBuffer (lb_sliceList b) (lb_pinnedList b) (lb_currentPinned b) (lb_endStream b) (lb_isFromShm b) (lb_len b) x.
Definition set_write (w : option nat) (b : linkedBuffer) : linkedBuffer :=
  set_sliceList (SliceList (sl_front (lb_sliceList b)) w (sl_back (lb_sliceList b)) (sl_len (lb_sliceList b))) b.

Definition Len : M lbst Z := buf lb_len.
Definition bindStream : M lbst unit := upd_buf (set_hasStream true).
Definition isFromShareMemory : M lbst bool := buf lb_isFromShm.

Definition front : M lbst (option nat) := buf (λ b, sl_front (lb_sliceList b)).
Definition writeSlice : M lbst (option nat) := buf (λ b, sl_write (lb_sliceList b)).

(** The pointer must not be nil. *)
Definition the {B} (o : option B) : M lbst B := of_option o.

Definition pushBack (p : nat) : M lbst unit :=
  l ← buf lb_sliceList;
  l' ← on_heap (sl_pushBack l (Some p));
  upd_buf (set_sliceList l').

Definition popFront : M lbst (option nat) :=
  l ← buf lb_sliceList;
  r ← on_heap (sl_popFront l);
  _ ← upd_buf (set_sliceList r.2);
  mret r.1.

Definition pushPinned (p : nat) : M lbst unit :=
  l ← buf lb_pinnedList;
  l' ← on_heap (sl_pushBack l (Some p));
  upd_buf (set_pinnedList l').

Definition popPinned : M lbst (option nat) :=
  l ← buf lb_pinnedList;
  r ← on_heap (sl_popFront l);
  _ ← upd_buf (set_pinnedList r.2);
  mret r.1.

(** [append(dst, src...)] on byte slices: in place when the capacity
    suffices, else into a new array. *)
Definition go_append (dst src : gslice) : M gmem gslice :=
  if s_len dst + s_len src <=? s_cap dst then
    _ ← go_copy (GSlice (s_arr dst) (s_off dst + s_len dst) (s_len src) (s_cap dst - s_len dst)) src;
    mret (GSlice (s_arr dst) (s_off dst) (s_len dst + s_len src) (s_cap dst))
  else
    d ← make_bytes (s_len dst + s_len src);
    _ ← go_copy d dst;
    _ ← go_copy (GSlice (s_arr d) (s_off d + s_len dst) (s_len src) (s_len src)) src;
    mret d.

Section linked_buffer.
Context {A : Type} `{Allocator A} (bm : A).
(** [stream.readMore]: it waits until the buffer holds [size] bytes. *)
Context (readMore : Z → M lbst (option error)).
(** The contents of memory that is handed out without being cleared
    ([dirtmake.Bytes]). *)
Context (dirt : nat → list Z).

(** ** Writing *)

Definition alloc (size : Z) : M lbst unit :=
  r ← on_heap (al_allocShmBuffer bm size);
  match r with
  | inr b => pushBack b
  | inl _ =>
      l ← buf lb_sliceList;
      r ← on_heap (al_allocShmBuffers bm l size);
      _ ← upd_buf (set_sliceList r.1);
      let remain := size - r.2 in
      if remain >? 0 then
        let remain := if remain <? defaultSingleBufferSize then defaultSingleBufferSize else remain in
        d ← on_heap (on_mem (make_bytes remain));
        p ← on_heap (newBufferSlice None d 0 false);
        _ ← pushBack p;
        _ ← upd_buf (set_isFromShm false);
        hs ← buf lb_hasStream;
        if (hs : bool) then modify_state (λ s, LbSt (st_heap s) (st_buf s) (u64 (st_allocErrors s + 1)))
        else mret tt
      else mret tt
  end.

Definition WriteByte (b : Z) : M lbst unit :=
  w ← writeSlice;
  _ ← match w with
      | Some _ => mret tt
      | None => _ ← alloc 1; f ← front; upd_buf (set_write f)
      end;
  w ← writeSlice;
  w ← the w;
  n ← on_heap (slice_append w [b]);
  if n =? 1 then upd_buf (add_len 1)
  else
    _ ← alloc 1;
    nx ← on_heap (slice_next w);
    _ ← upd_buf (set_write nx);
    w ← the nx;
    _ ← on_heap (slice_append w [b]);
    upd_buf (add_len 1).

Fixpoint write_loop (fuel : nat) (data : list Z) (n : Z) : M lbst Z :=
  match fuel with
  | O => out_of_fuel
  | S fuel =>
      w ← writeSlice;
      w ← the w;
      k ← on_heap (slice_append w (drop (Z.to_nat n) data));
      let n := n + k in
      if n <? Z.of_nat (length data) then
        nx ← on_heap (slice_next w);
        _ ← match nx with
            | Some _ => mret tt
            | None => alloc (u32 (Z.of_nat (length data) - n))
            end;
        nx ← on_heap (slice_next w);
        _ ← upd_buf (set_write nx);
        write_loop fuel data n
      else mret n
  end.

(** Every round but the first writes at least a byte. *)
Definition write_fuel (data : list Z) : nat := (length data + 2)%nat.

Definition WriteBytes (data : list Z) : M lbst Z :=
  if Z.of_nat (length data) =? 0 then mret 0
  else
    w ← writeSlice;
    _ ← match w with
        | Some _ => mret tt
        | None => _ ← alloc (u32 (Z.of_nat (length data))); f ← front; upd_buf (set_write f)
        end;
    n ← write_loop (write_fuel data) data 0;
    _ ← upd_buf (add_len n);
    mret n.

Definition WriteString (str : list Z) : M lbst unit := _ ← WriteBytes str; mret tt.

Definition Reserve (size : Z) : M lbst (error + gslice) :=
  w ← writeSlice;
  _ ← match w with
      | Some _ => mret tt
      | None => _ ← alloc (u32 size); f ← front; upd_buf (set_write f)
      end;
  w ← writeSlice;
  w ← the w;
  r ← on_heap (slice_reserve w size);
  match r with
  | inr d => _ ← upd_buf (add_len size); mret (inr d)
  | inl _ =>
      nx ← on_heap (slice_next w);
      r ← match nx with
          | Some e => r ← on_heap (slice_reserve e size); mret (r, nx)
          | None => mret (inl ErrNoMoreBuffer, None)
          end;
      match r with
      | (inr d, e) => _ ← upd_buf (set_write e); _ ← upd_buf (add_len size); mret (inr d)
      | (inl _, _) =>
          r ← on_heap (al_allocShmBuffer bm (u32 size));
          _ ← match r with
              | inr b => pushBack b
              | inl _ =>
                  let allocSize := if size <? defaultSingleBufferSize then defaultSingleBufferSize else size in
                  d ← on_heap (on_mem (make_bytes allocSize));
                  p ← on_heap (newBufferSlice None d 0 false);
                  _ ← pushBack p;
                  upd_buf (set_isFromShm false)
              end;
          bk ← buf (λ b, sl_back (lb_sliceList b));
          _ ← upd_buf (set_write bk);
          _ ← upd_buf (add_len size);
          w ← the bk;
          on_heap (slice_reserve w size)
      end
  end.

(** ** Releasing *)

Definition release (p : nat) : M lbst unit :=
  s ← on_heap (get_slice p);
  if bs_isFromShm s then on_heap (al_recycleBuffer bm (Some p)) else on_heap (putBackBufferSlice p).

(** The loops over [sliceList.size() > 0]; fuel is the size. *)
Fixpoint clean_loop (fuel : nat) : M lbst unit :=
  n ← buf (λ b, sl_len (lb_sliceList b));
  if n >? 0 then
    match fuel with
    | O => out_of_fuel
    | S fuel => p ← popFront; p ← the p; _ ← on_heap (putBackBufferSlice p); clean_loop fuel
    end
  else mret tt.

Definition list_fuel : M lbst nat := buf (λ b, Z.to_nat (sl_len (lb_sliceList b))).

Definition clean : M lbst unit :=
  f ← list_fuel;
  _ ← clean_loop f;
  _ ← upd_buf (set_write None);
  _ ← upd_buf (set_isFromShm true);
  _ ← upd_buf (set_endStream false);
  _ ← upd_buf (set_currentPinned false);
  n ← Len;
  upd_buf (add_len (- n)).

Fixpoint recycle_slices (fuel : nat) : M lbst unit :=
  n ← buf (λ b, sl_len (lb_sliceList b));
  if n >? 0 then
    match fuel with
    | O => out_of_fuel
    | S fuel => p ← popFront; p ← the p; _ ← release p; recycle_slices fuel
    end
  else mret tt.

Definition recycle : M lbst unit :=
  f ← list_fuel;
  _ ← recycle_slices f;
  clean.

Fixpoint pinned_loop (fuel : nat) : M lbst unit :=
  n ← buf (λ b, sl_len (lb_pinnedList b));
  if n >? 0 then
    match fuel with
    | O => out_of_fuel
    | S fuel => p ← popPinned; p ← the p; _ ← release p; pinned_loop fuel
    end
  else mret tt.

Definition cleanPinnedList : M lbst unit :=
  n ← buf (λ b, sl_len (lb_pinnedList b));
  if n =? 0 then mret tt
  else
    _ ← upd_buf (set_currentPinned false);
    pinned_loop (Z.to_nat n).

Definition slice_of (p : option nat) : M lbst bufferSlice := p ← the p; on_heap (get_slice p).

Definition ReleasePreviousRead : M lbst unit :=
  _ ← cleanPinnedList;
  n ← buf (λ b, sl_len (lb_sliceList b));
  if n =? 0 then mret tt
  else
    f ← front;
    s ← slice_of f;
    w ← writeSlice;
    if (slice_size s =? 0) && bool_decide (f = w) then
      p ← popFront;
      _ ← on_heap (al_recycleBuffer bm p);
      upd_buf (set_write None)
    else mret tt.

Definition releasePreviousReadAndReserve : M lbst unit :=
  _ ← cleanPinnedList;
  len ← Len;
  n ← buf (λ b, sl_len (lb_sliceList b));
  if (len =? 0) && (n =? 1) then
    f ← front;
    s ← slice_of f;
    if bs_isFromShm s then p ← the f; on_heap (slice_reset p)
    else p ← popFront; p ← the p; on_heap (putBackBufferSlice p)
  else mret tt.

Definition readNextSlice : M lbst unit :=
  p ← popFront;
  s ← slice_of p;
  _ ← (if bs_isFromShm s then
         pinned ← buf lb_currentPinned;
         p' ← the p;
         if (pinned : bool) then pushPinned p' else on_heap (al_recycleBuffer bm p)
       else mret tt);
  upd_buf (set_currentPinned false).

(** ** Handing over *)

Definition rootBufOffset : M lbst Z := f ← front; s ← slice_of f; mret (bs_offsetInShm s).

(** [for slice := front; slice != nil; slice = slice.nextSlice { update; stop at writeSlice }] *)
Fixpoint update_loop (fuel : nat) (p : option nat) : M lbst unit :=
  match p with
  | None => mret tt
  | Some q =>
      match fuel with
      | O => out_of_fuel
      | S fuel =>
          _ ← on_heap (slice_update q);
          w ← writeSlice;
          if bool_decide (p = w) then mret tt
          else nx ← on_heap (slice_next q); update_loop fuel nx
      end
  end.

Fixpoint recycle_rest (fuel : nat) (p : option nat) : M lbst unit :=
  match p with
  | None => mret tt
  | Some q =>
      match fuel with
      | O => out_of_fuel
      | S fuel =>
          nx ← on_heap (slice_next q);
          _ ← on_heap (al_recycleBuffer bm p);
          recycle_rest fuel nx
      end
  end.

Definition chain_fuel : M lbst nat := reads (λ s, size (h_slices (st_heap s))).

(** [done]: publish the slices up to the write slice, give back the rest. *)
Definition lb_done : M lbst unit :=
  shm ← buf lb_isFromShm;
  if (shm : bool) then
    f ← front;
    fuel ← chain_fuel;
    _ ← update_loop fuel f;
    w ← writeSlice;
    w' ← the w;
    nx ← on_heap (slice_next w');
    match nx with
    | None => mret tt
    | Some _ =>
        l ← buf lb_sliceList;
        r ← on_heap (sl_splitFromWrite l);
        _ ← upd_buf (set_sliceList r.2);
        fuel ← chain_fuel;
        recycle_rest fuel r.1
    end
  else mret tt.

Fixpoint underlying_loop (fuel : nat) (p : option nat) : M lbst (list gslice) :=
  match p with
  | None => mret []
  | Some q =>
      match fuel with
      | O => out_of_fuel
      | S fuel =>
          s ← on_heap (get_slice q);
          d ← subslice (bs_data s) (bs_readIndex s) (bs_writeIndex s);
          w ← writeSlice;
          if bool_decide (p = w) then mret [d]
          else rest ← underlying_loop fuel (bs_next s); mret (d :: rest)
      end
  end.

Definition underlyingData : M lbst (list gslice) :=
  f ← front; fuel ← chain_fuel; underlying_loop fuel f.

Definition appendBufferSlice (slice : option nat) : M lbst unit :=
  match slice with
  | None => mret tt
  | Some p =>
      _ ← pushBack p;
      s ← on_heap (get_slice p);
      _ ← (if negb (bs_isFromShm s) then upd_buf (set_isFromShm false) else mret tt);
      _ ← upd_buf (add_len (slice_size s));
      upd_buf (set_write slice)
  end.

(** ** Reading *)

Definition front_size : M lbst Z := f ← front; s ← slice_of f; mret (slice_size s).
Definition front_read (size : Z) : M lbst (gslice * option error) :=
  f ← front; p ← the f; on_heap (slice_read p size).

(** Wait for the peer when there are too few bytes. *)
Definition ensure (size : Z) : M lbst (option error) :=
  len ← Len;
  if len <? size then readMore size else mret None.

(** The loop of [read] copies into the caller's buffer [p]. *)
Fixpoint read_loop (fuel : nat) (p : gslice) (written : Z) : M lbst Z :=
  f ← front;
  match f with
  | None => mret written
  | Some q =>
      if s_len p >? written then
        match fuel with
        | O => out_of_fuel
        | S fuel =>
            r ← on_heap (slice_read q (s_len p - written));
            d ← subslice_from p written;
            k ← on_heap (on_mem (go_copy d r.1));
            let written := written + k in
            match r.2 with
            | None => mret written
            | Some _ => _ ← readNextSlice; read_loop fuel p written
            end
        end
      else mret written
  end.

(** The part of [read] behind the wait for data. *)
Definition read_copy (p : gslice) : M lbst Z :=
  n ← list_fuel;
  written ← read_loop (S n) p 0;
  _ ← upd_buf (add_len (- written));
  mret written.

Definition read (p : gslice) : M lbst (Z * option error) :=
  if s_len p <=? 0 then mret (0, None)
  else
    len ← Len;
    err ← (if len <? 1 then readMore 1 else mret None);
    match err with
    | Some e => mret (0, Some e)
    | None => written ← read_copy p; mret (written, None)
    end.

Definition first_byte (d : gslice) : M lbst Z := p ← index_ptr d 0; on_heap (on_mem (load_u8 p)).

Definition ReadByte : M lbst (error + Z) :=
  err ← ensure 1;
  match err with
  | Some e => mret (inl e)
  | None =>
      r ← front_read 1;
      match r.2 with
      | None => _ ← upd_buf (add_len (-1)); b ← first_byte r.1; mret (inr b)
      | Some _ =>
          _ ← readNextSlice;
          r ← front_read 1;
          _ ← upd_buf (add_len (-1));
          b ← first_byte r.1;
          mret (inr b)
      end
  end.

(** [dirtmake.Bytes(0, size)] *)
Definition dirtmake_Bytes (size : Z) : M gmem gslice := λ m,
  let a := fresh_key m in
  Done (GSlice a 0 0 size, <[a := dirt (Z.to_nat size)]> m).

Fixpoint readBytes_loop (fuel : nat) (result : gslice) (size : Z) : M lbst gslice :=
  if size >? 0 then
    match fuel with
    | O => out_of_fuel
    | S fuel =>
        r ← front_read size;
        result ← on_heap (on_mem (go_append result r.1));
        _ ← (if negb (s_len r.1 =? size) then readNextSlice else mret tt);
        readBytes_loop fuel result (size - s_len r.1)
    end
  else mret result.

Definition ReadBytes (size : Z) : M lbst (error + gslice) :=
  if size <=? 0 then mret (inr nil_slice)
  else
    err ← ensure size;
    match err with
    | Some e => mret (inl e)
    | None =>
        n ← front_size;
        _ ← (if n =? 0 then readNextSlice else mret tt);
        n ← front_size;
        if n >=? size then
          _ ← upd_buf (set_currentPinned true);
          _ ← upd_buf (add_len (- size));
          r ← front_read size;
          mret (inr r.1)
        else
          _ ← upd_buf (add_len (- size));
          result ← on_heap (on_mem (dirtmake_Bytes size));
          fuel ← list_fuel;
          result ← readBytes_loop (S fuel) result size;
          mret (inr result)
    end.

Fixpoint readString_loop (fuel : nat) (size written : Z) (acc : list Z) : M lbst (list Z) :=
  if written <? size then
    match fuel with
    | O => out_of_fuel
    | S fuel =>
        n ← front_size;
        _ ← (if n =? 0 then readNextSlice else mret tt);
        r ← front_read (size - written);
        bs ← on_heap (on_mem (load_bytes (slice_ptr r.1) (s_len r.1)));
        readString_loop fuel size (written + Z.of_nat (length bs)) (acc ++ bs)
    end
  else mret acc.

(** A Go string is a value: the bytes are copied. *)
Definition ReadString (size : Z) : M lbst (error + list Z) :=
  if size <=? 0 then mret (inr [])
  else
    err ← ensure size;
    match err with
    | Some e => mret (inl e)
    | None =>
        n ← front_size;
        if n >=? size then
          r ← front_read size;
          _ ← upd_buf (add_len (- size));
          bs ← on_heap (on_mem (load_bytes (slice_ptr r.1) (s_len r.1)));
          mret (inr bs)
        else
          fuel ← list_fuel;
          bs ← readString_loop (S fuel) size 0 [];
          _ ← upd_buf (add_len (- size));
          mret (inr bs)
    end.

Fixpoint peek_loop (fuel : nat) (e : option nat) (result : gslice) (size : Z) : M lbst gslice :=
  match e with
  | None => mret result
  | Some p =>
      if size >? 0 then
        match fuel with
        | O => out_of_fuel
        | S fuel =>
            r ← on_heap (slice_peek p size);
            result ← on_heap (on_mem (go_append result r.1));
            nx ← on_heap (slice_next p);
            peek_loop fuel nx result (size - s_len r.1)
        end
      else mret result
  end.

Definition Peek (size : Z) : M lbst (error + gslice) :=
  if size <=? 0 then mret (inr nil_slice)
  else
    err ← ensure size;
    match err with
    | Some e => mret (inl e)
    | None =>
        f ← front;
        p ← the f;
        r ← on_heap (slice_peek p size);
        if s_len r.1 =? size then _ ← upd_buf (set_currentPinned true); mret (inr r.1)
        else
          d ← on_heap (on_mem (make_bytes size));
          result ← on_heap (on_mem (go_append (GSlice (s_arr d) (s_off d) 0 size) r.1));
          nx ← on_heap (slice_next p);
          fuel ← chain_fuel;
          result ← peek_loop fuel nx result (size - s_len r.1);
          mret (inr result)
    end.

Fixpoint discard_loop (fuel : nat) (size n : Z) : M lbst Z :=
  match fuel with
  | O => out_of_fuel
  | S fuel =>
      f ← front;
      p ← the f;
      skip ← on_heap (slice_skip p size);
      if size - skip =? 0 then mret (n + skip)
      else _ ← readNextSlice; discard_loop fuel (size - skip) (n + skip)
  end.

Definition Discard (size : Z) : M lbst (Z * option error) :=
  err ← ensure size;
  match err with
  | Some e => mret (0, Some e)
  | None =>
      fuel ← list_fuel;
      n ← discard_loop (S fuel) size 0;
      _ ← upd_buf (add_len (- n));
      mret (n, None)
  end.
End linked_buffer.
