(* ===== verification/LinkedBufferProofs.v ===== *)
(** * The linked buffer is a byte FIFO

    The representation of a buffer (its slices, its pinned slices, its unread
    bytes) and the behaviour of the writing and reading operations, proved
    against the allocator interface. *)

From Stdlib Require Import ZArith Lia.
From stdpp Require Import prelude list gmap strings.
From S2P Require Import Prelude GoMem BufferSlice BufferList Allocator LinkedBuffer.

(** ** Contents *)

Definition obj_content (h : heap) (p : nat) : list Z :=
  default [] (h_slices h !! p ≫= slice_content (h_mem h)).

Fixpoint contents (h : heap) (ps : list nat) : list Z :=
  match ps with [] => [] | p :: ps => obj_content h p ++ contents h ps end.

(** An object that was allocated ahead and not written yet. *)
Definition blank (h : heap) (p : nat) : Prop :=
  ∃ b, h_slices h !! p = Some b ∧ bs_readIndex b = 0 ∧ bs_writeIndex b = 0 ∧ 0 < bs_cap b.

Lemma contents_app h ps qs : contents h (ps ++ qs) = contents h ps ++ contents h qs.
Proof. induction ps as [|p ps IH]; cbn; [done|]. by rewrite IH, app_assoc. Qed.

Lemma obj_content_eq h p b l :
  h_slices h !! p = Some b → slice_content (h_mem h) b = Some l → obj_content h p = l.
Proof. intros Hb Hl. unfold obj_content. by rewrite Hb; cbn; rewrite Hl. Qed.

Lemma obj_content_some h L p b :
  owned h L → p ∈ L → h_slices h !! p = Some b → slice_content (h_mem h) b = Some (obj_content h p) ∧
    Z.of_nat (length (obj_content h p)) = slice_size b ∧ slice_wf (h_mem h) b.
Proof.
  intros Ho Hp Hb. destruct (owned_lookup h L p Ho Hp) as (b'&Hb'&Hw). rewrite Hb in Hb'. injection Hb' as <-.
  destruct (slice_wf_content _ _ Hw) as (l&Hl&Hlen). by rewrite (obj_content_eq h p b l Hb Hl).
Qed.

Lemma obj_content_same h h' L p : owned h L → p ∈ L → same_upto_next h h' p → obj_content h' p = obj_content h p.
Proof.
  intros Ho Hp Hs. pose proof Hs as (b&n&Hb&Hb'&_).
  destruct (obj_content_some h L p b Ho Hp Hb) as (Hl&_&Hw).
  eapply obj_content_eq; [exact Hb'|]. rewrite <- Hl. by eapply same_upto_content.
Qed.

Lemma contents_same h h' L ps :
  owned h L → (∀ p, p ∈ ps → p ∈ L) → (∀ p, p ∈ ps → same_upto_next h h' p) → contents h' ps = contents h ps.
Proof.
  intros Ho Hin Hs. induction ps as [|p ps IH]; cbn; [done|].
  rewrite (obj_content_same h h' L p) by (done || set_solver). f_equal. apply IH; set_solver.
Qed.

Lemma blank_content h L p : owned h L → p ∈ L → blank h p → obj_content h p = [].
Proof.
  intros Ho Hp (b&Hb&Hr&Hw&_). destruct (obj_content_some h L p b Ho Hp Hb) as (_&Hlen&_).
  unfold slice_size in Hlen. apply nil_length_inv. lia.
Qed.

Lemma blanks_content h L qs : owned h L → (∀ q, q ∈ qs → q ∈ L) → (∀ q, q ∈ qs → blank h q) → contents h qs = [].
Proof.
  intros Ho Hin Hb. induction qs as [|q qs IH]; cbn; [done|].
  rewrite (blank_content h L q) by (done || set_solver). apply IH; set_solver.
Qed.

Lemma blank_upto h h' q : same_upto_next h h' q → blank h q → blank h' q.
Proof. intros (b&n&Hb&Hb'&_) (b0&Hb0&?&?&?). simplify_eq. eexists. split; [exact Hb'|done]. Qed.

(** Only the indices and bytes of [p] differ. *)
Lemma slist_rep_indices T l ps e p b r w :
  slist_rep T l ps e → T !! p = Some b → slist_rep (<[p := with_indices b r w]> T) l ps e.
Proof. intros [] Hb. constructor; try done. by eapply links_insert_same. Qed.

Lemma sl_pushBack_mem l p h l' h' : sl_pushBack l p h = Done (l', h') → h_mem h' = h_mem h.
Proof.
  unfold sl_pushBack. destruct p as [p|]; [|by intros [= <- <-]].
  intros (fr&h1&E&E')%bind_done_inv. injection E' as _ <-.
  destruct (sl_len l >? 0); [|by injection E as _ <-].
  apply bind_done_inv in E as (q&h2&E1&E). unfold deref in E1. destruct (sl_back l); [|done]. injection E1 as -> ->.
  apply bind_done_inv in E as (b&h3&E1&E). unfold get_slice in E1.
  destruct (h_slices h2 !! q); [|done]. injection E1 as -> ->.
  apply bind_done_inv in E as (?&h4&E1&E). injection E1 as _ <-. by injection E as _ <-.
Qed.

Lemma caps_of_nonneg h qs :
  (∀ q, q ∈ qs → ∃ b, h_slices h !! q = Some b ∧ 0 < bs_cap b) → 0 ≤ caps_of h qs.
Proof.
  unfold caps_of. induction qs as [|q qs IH]; intros Hq; cbn; [lia|].
  destruct (Hq q) as (b&->&?); [set_solver|]. cbn.
  assert (0 ≤ foldr (λ q z, default 0 (bs_cap <$> h_slices h !! q) + z) 0 qs) by (apply IH; set_solver). lia.
Qed.

Section facts.
Context {A : Type} `{AllocatorLaws A} (bm : A).

(** [append] to an owned object. *)
Lemma al_append h L p b data :
  al_inv bm h L → p ∈ L → h_slices h !! p = Some b →
  let n := Z.min (slice_remain b) (Z.of_nat (length data)) in
  ∃ m', let b' := with_indices b (bs_readIndex b) (bs_writeIndex b + n) in
    let h' := upd_slice (set_mem m' h) p b' in
    slice_append p data h = Done (n, h') ∧ al_inv bm h' L ∧ 0 ≤ n ∧
    obj_content h' p = obj_content h p ++ take (Z.to_nat n) data ∧
    (∀ q, q ∈ L → q ≠ p → same_slice h h' q).
Proof.
  intros HI Hp Hb n. pose proof (al_inv_owned _ _ _ HI) as Ho.
  destruct (obj_content_some h L p b Ho Hp Hb) as (Hl&Hlen&Hw). pose proof Hw as [].
  destruct (slice_append_spec h p b data _ Hb Hw Hl) as (m'&E&Hw'&Hc'&Hch). fold n in E, Hw', Hc', Hch.
  exists m'. cbn zeta. assert (0 ≤ n) as Hn by (unfold n, slice_remain; lia).
  assert (win_in (padd (slice_ptr (bs_data b)) (bs_writeIndex b), n) (data_win b)) as Hwin.
  { unfold win_in, data_win, n, slice_remain in *. cbn. split_and!; [done|lia|lia]. }
  split_and!; [exact E| |done| |].
  - eapply (al_update bm h L p b); [done|done|done|done|done|exact Hch|by apply Forall_singleton].
  - eapply obj_content_eq; [cbn; apply lookup_insert_eq|exact Hc'].
  - intros q Hq Hne. split; [cbn; by rewrite lookup_insert_ne|]. intros c Hc. cbn. apply Hch.
    apply Forall_singleton. destruct Hwin as (Ea&?&?).
    pose proof (ow_apart _ _ Ho p q b c Hp Hq ltac:(done) Hb Hc) as Hap. unfold apart, disjoint_win in *. cbn in *.
    destruct Hap as [|[|]]; [left; congruence|right; lia|right; lia].
Qed.

(** ** Representation *)

(** The slices [ps], the pinned slices [pins] and the unread bytes [c] of a
    buffer; [O] are objects of other owners. *)
Record lb_core (s : lbst) (O ps pins : list nat) (c : list Z) : Prop := {
  lr_own : al_inv bm (st_heap s) (ps ++ pins ++ O);
  lr_list : slist_rep (h_slices (st_heap s)) (lb_sliceList (st_buf s)) ps None;
  lr_pins : ∃ e, slist_rep (h_slices (st_heap s)) (lb_pinnedList (st_buf s)) pins e;
  lr_content : contents (st_heap s) ps = c
}.

(** The write slice is undefined only when nothing was written, and what is
    behind it is blank. *)
Definition write_at_end (s : lbst) (ps : list nat) : Prop :=
  match sl_write (lb_sliceList (st_buf s)) with
  | None => ∀ q, q ∈ ps → blank (st_heap s) q
  | Some w => ∃ pre post, ps = pre ++ w :: post ∧ ∀ q, q ∈ post → blank (st_heap s) q
  end.

Lemma on_heap_ok {B} (c : M heap B) s x h' :
  c (st_heap s) = Done (x, h') → on_heap c s = Done (x, set_heap h' s).
Proof. apply zoom_done. Qed.

Lemma rep_member s O ps pins c p :
  lb_core s O ps pins c → p ∈ ps → ∃ b, h_slices (st_heap s) !! p = Some b ∧ slice_wf (h_mem (st_heap s)) b.
Proof.
  intros [] Hp. eapply owned_lookup; [by eapply al_inv_owned|]. set_solver.
Qed.

Lemma rep_nodup s O ps pins c : lb_core s O ps pins c → NoDup (ps ++ pins ++ O).
Proof. intros []. exact (ow_nodup _ _ (al_inv_owned _ _ _ lr_own0)). Qed.

(** Links of a list whose objects were left alone. *)
Lemma slist_rep_same h h' l ps e :
  slist_rep (h_slices h) l ps e → (∀ q, q ∈ ps → same_slice h h' q) → slist_rep (h_slices h') l ps e.
Proof.
  intros [] Hs. constructor; try done. eapply links_mono; [exact sr_links|].
  intros p b Hp Hb. destruct (Hs p Hp) as [-> _]. exists b. done.
Qed.

(** A step that leaves all objects alone. *)
Lemma rep_same s h' O ps pins c :
  lb_core s O ps pins c → al_inv bm h' (ps ++ pins ++ O) →
  (∀ q, q ∈ ps ++ pins ++ O → same_slice (st_heap s) h' q) → lb_core (set_heap h' s) O ps pins c.
Proof.
  intros [] HI Hs. pose proof (al_inv_owned _ _ _ lr_own0) as Ho. constructor; cbn; try done.
  - eapply slist_rep_same; [done|]. intros q Hq. apply Hs. set_solver.
  - destruct lr_pins0 as [e Hp]. exists e. eapply slist_rep_same; [done|]. intros q Hq. apply Hs. set_solver.
  - rewrite <- lr_content0. eapply (contents_same _ _ (ps ++ pins ++ O)); [done|set_solver|].
    intros p Hp. apply same_slice_upto; [|apply Hs; set_solver].
    destruct (owned_lookup _ _ p Ho) as (b&->&_); [set_solver|eauto].
Qed.

(** A step that appends blank objects to the list. *)
Lemma rep_grown s h' l' O ps pins c qs :
  lb_core s O ps pins c → al_inv bm h' (qs ++ ps ++ pins ++ O) →
  grown (st_heap s) h' (ps ++ pins ++ O) (lb_sliceList (st_buf s)) l' ps qs →
  let s' := LbSt h' (set_sliceList l' (st_buf s)) (st_allocErrors s) in
  lb_core s' O (ps ++ qs) pins c ∧ (∀ q, q ∈ qs → blank h' q) ∧
  (∀ q, q ∈ ps → same_upto_next (st_heap s) h' q).
Proof.
  intros Hr HI [] s'. pose proof (rep_nodup _ _ _ _ _ Hr) as Hnd. pose proof Hr as [].
  pose proof (al_inv_owned _ _ _ lr_own0) as Ho. pose proof (al_inv_owned _ _ _ HI) as Ho'.
  assert (∀ q, q ∈ qs → blank h' q) as Hbl.
  { intros q Hq. destruct (gr_new q Hq) as (b&n&Hb&(?&?&?&?)&_). by exists (with_next b n). }
  split_and!; [|done|done]. constructor; cbn; try done.
  - eapply al_inv_perm; [|exact HI]. rewrite (app_assoc qs). f_equiv. apply Permutation_app_comm.
  - destruct lr_pins0 as [e Hp]. exists e. eapply slist_rep_same; [exact Hp|]. intros q Hq. apply gr_same; [set_solver|].
    apply NoDup_app in Hnd as (_&Hd&_). intros Hq'. apply (Hd q Hq'). set_solver.
  - rewrite contents_app. rewrite (blanks_content h' (qs ++ ps ++ pins ++ O) qs) by (done || set_solver).
    rewrite app_nil_r. rewrite <- lr_content0.
    eapply (contents_same _ _ (ps ++ pins ++ O)); [done|set_solver|done].
Qed.

(** ** Allocation *)

Lemma al_pushBack h L l ps e p b :
  al_inv bm h L → slist_rep (h_slices h) l ps e → (∀ q, q ∈ ps → q ∈ L) → p ∉ ps →
  h_slices h !! p = Some b →
  ∃ l' h', sl_pushBack l (Some p) h = Done (l', h') ∧ slist_rep (h_slices h') l' (ps ++ [p]) (bs_next b) ∧
    sl_write l' = sl_write l ∧ al_inv bm h' L ∧ h_slices h' !! p = Some b ∧
    (∀ q, q ∉ ps → same_slice h h' q) ∧ (∀ q, q ∈ ps → same_upto_next h h' q).
Proof.
  apply (I_pushBack (al_inv bm)); [apply al_inv_owned|]. intros. by eapply al_update.
Qed.

(** The operation [pushBack] of the buffer on a new owned object. *)
Lemma pushBack_ok s h1 O ps pins c p b :
  lb_core s O ps pins c → al_inv bm h1 (p :: ps ++ pins ++ O) →
  (∀ q, q ∈ ps ++ pins ++ O → same_slice (st_heap s) h1 q) →
  h_slices h1 !! p = Some b → bs_readIndex b = 0 → bs_writeIndex b = 0 → 0 < bs_cap b → bs_next b = None →
  ∃ s', pushBack p (set_heap h1 s) = Done (tt, s') ∧ lb_core s' O (ps ++ [p]) pins c ∧
    h_slices (st_heap s') !! p = Some b ∧
    (∀ q, q ∈ [p] → blank (st_heap s') q) ∧ (∀ q, q ∈ ps → same_upto_next (st_heap s) (st_heap s') q) ∧
    sl_write (lb_sliceList (st_buf s')) = sl_write (lb_sliceList (st_buf s)) ∧
    (∃ l, st_buf s' = set_sliceList l (st_buf s)) ∧ st_allocErrors s' = st_allocErrors s.
Proof.
  intros Hr HI Hsame Hb Hri Hwi Hcap Hnx. pose proof Hr as []. pose proof (al_inv_owned _ _ _ HI) as Ho1.
  pose proof (ow_nodup _ _ Ho1) as [Hp _]%NoDup_cons.
  assert (∀ q, q ∈ ps → is_Some (h_slices (st_heap s) !! q)) as Hlive.
  { intros q Hq. destruct (rep_member _ _ _ _ _ _ Hr Hq) as (bq&->&_). eauto. }
  destruct (al_pushBack h1 (p :: ps ++ pins ++ O) (lb_sliceList (st_buf s)) ps None p b)
    as (l'&h'&E&Hr'&Hw&HI'&Hb'&Hs1&Hs2); [done| |set_solver|set_solver|done|].
  { eapply slist_rep_same; [done|]. intros q Hq. apply Hsame. set_solver. }
  rewrite Hnx in Hr'.
  exists (LbSt h' (set_sliceList l' (st_buf s)) (st_allocErrors s)).
  assert (∀ q, q ∈ ps → same_upto_next (st_heap s) h' q) as Hupto.
  { intros q Hq. eapply same_upto_next_trans; [|by apply Hs2].
    apply same_slice_upto; [by apply Hlive|]. apply Hsame. set_solver. }
  pose proof (al_inv_owned _ _ _ lr_own0) as Ho. pose proof (al_inv_owned _ _ _ HI') as Ho'.
  assert (blank h' p) as Hbl by (by exists b).
  pose proof (rep_nodup _ _ _ _ _ Hr) as (_&Hd&_)%NoDup_app.
  split_and!; cbn; try done.
  - unfold pushBack. erewrite bind_done by done. cbv beta.
    erewrite bind_done by (apply on_heap_ok; exact E). done.
  - constructor; cbn; try done.
    + eapply al_inv_perm; [|exact HI']. by rewrite <- app_assoc, Permutation_middle.
    + destruct lr_pins0 as [e Hpin]. exists e. eapply slist_rep_same; [exact Hpin|]. intros q Hq.
      eapply same_slice_trans; [apply Hsame; set_solver|]. apply Hs1. intros Hq'. apply (Hd q Hq'). set_solver.
    + rewrite contents_app. cbn. rewrite (blank_content h' (p :: ps ++ pins ++ O) p) by (done || set_solver).
      rewrite !app_nil_r. rewrite <- lr_content0. eapply (contents_same _ _ (ps ++ pins ++ O)); [done|set_solver|done].
  - by intros q ->%list_elem_of_singleton.
  - by eexists.
Qed.

Definition proc_slice (d : gslice) : bufferSlice := BufferSlice None d (u32 (s_cap d)) 0 0 0 0 false None.

Lemma newBufferSlice_proc h d :
  pool_ok h →
  ∃ p, newBufferSlice None d 0 false h = Done (p, Heap (h_mem h) (<[p := proc_slice d]> (h_slices h)) (tail (h_pool h))) ∧
    (p ∈ h_pool h ∨ h_slices h !! p = None) ∧ p ∉ tail (h_pool h).
Proof.
  intros Hp. destruct (pool_get_ok h Hp) as (p&h1&E&Hnew&Em&Ep&Es&Hnp). exists p. rewrite Ep in Hnp.
  split_and!; [|done|done]. unfold newBufferSlice. mrun E.
  mby ltac:(apply get_slice_ok; rewrite Es; apply lookup_insert_eq). rewrite bind_mret.
  erewrite bind_done by apply set_slice_ok. cbv beta. unfold mret, M_ret, upd_slice.
  by rewrite Em, Ep, Es, insert_insert_eq.
Qed.

(** A slice over fresh process memory joins the owned objects. *)
Lemma al_new_proc h L n :
  al_inv bm h L → 0 < n < 2 ^ 32 →
  ∃ d p h', (d ← on_mem (make_bytes n); p ← newBufferSlice None d 0 false; mret (d, p)) h = Done ((d, p), h') ∧
    make_bytes n (h_mem h) = Done (d, h_mem h') ∧
    newBufferSlice None d 0 false (set_mem (h_mem h') h) = Done (p, h') ∧
    al_inv bm h' (p :: L) ∧ h_slices h' !! p = Some (proc_slice d) ∧ s_cap d = n ∧
    (∀ q, q ∈ L → same_slice h h' q).
Proof.
  intros HI Hn. pose proof (al_inv_owned _ _ _ HI) as Ho.
  set (a := fresh_key (h_mem h)). pose proof (fresh_key_None (h_mem h)) as Ha. fold a in Ha.
  set (m1 := <[a := replicate (Z.to_nat n) 0]> (h_mem h)). set (d := GSlice a 0 n n).
  assert (make_bytes n (h_mem h) = Done (d, m1)) as Em by (unfold make_bytes; bdecide; done).
  destruct (newBufferSlice_proc (set_mem m1 h) d) as (p&E&Hnew&Hnp); [by destruct (ow_pool _ _ Ho)|]. cbn in *.
  set (h' := Heap m1 (<[p := proc_slice d]> (h_slices h)) (tail (h_pool h))) in *.
  assert (al_inv bm h' (p :: L)) as HI'.
  { apply al_adopt; try done.
    - destruct (ow_pool _ _ Ho) as [_ Hnd]. destruct (h_pool h); [constructor|]. by inversion_clear Hnd.
    - intros q Hq. destruct (h_pool h); [done|by right].
    - constructor; cbn; rewrite ?u32_small by lia; try lia.
      split_and!; cbn; try lia. eexists. rewrite lookup_insert_eq. split; [done|]. rewrite length_replicate. lia. }
  pose proof (al_inv_owned _ _ _ HI') as Ho'. pose proof (ow_nodup _ _ Ho') as [HpL _]%NoDup_cons.
  exists d, p, h'. split_and!; try done.
  - erewrite bind_done by (apply on_mem_ok; exact Em). cbv beta. by erewrite bind_done by exact E.
  - cbn. by rewrite lookup_insert_eq.
  - intros q Hq. split; [cbn; apply lookup_insert_ne; by intros ->|]. intros b Hb. cbn.
    destruct (owned_lookup h L q Ho Hq) as (b'&Hb'&[]). rewrite Hb in Hb'. injection Hb' as <-.
    destruct sw_mem as (_&_&x&Hx&_). unfold peek, m1. rewrite lookup_insert_ne; [done|]. cbn in Hx |- *. congruence.
Qed.

(** The representation does not depend on the flags. *)
Lemma rep_flags s b' e O ps pins c :
  lb_core s O ps pins c → lb_sliceList b' = lb_sliceList (st_buf s) → lb_pinnedList b' = lb_pinnedList (st_buf s) →
  lb_core (LbSt (st_heap s) b' e) O ps pins c.
Proof. intros [] E1 E2. constructor; cbn; rewrite ?E1, ?E2; done. Qed.

(** What [alloc] does: new blank slices behind the list. *)
Record allocated (s s' : lbst) (O ps pins : list nat) (c : list Z) (qs : list nat) : Prop := {
  ad_rep : lb_core s' O (ps ++ qs) pins c;
  ad_some : qs ≠ [];
  ad_blank : ∀ q, q ∈ qs → blank (st_heap s') q;
  ad_upto : ∀ q, q ∈ ps → same_upto_next (st_heap s) (st_heap s') q;
  ad_write : sl_write (lb_sliceList (st_buf s')) = sl_write (lb_sliceList (st_buf s));
  ad_len : lb_len (st_buf s') = lb_len (st_buf s)
}.

Lemma alloc_fallback s O ps pins c size :
  lb_core s O ps pins c → 0 < size < 2 ^ 32 →
  ∃ s' qs, (d ← on_heap (on_mem (make_bytes size));
        p ← on_heap (newBufferSlice None d 0 false);
        _ ← pushBack p;
        _ ← upd_buf (set_isFromShm false);
        hs ← buf lb_hasStream;
        if (hs : bool) then modify_state (λ s, LbSt (st_heap s) (st_buf s) (u64 (st_allocErrors s + 1)))
        else mret tt) s = Done (tt, s') ∧ allocated s s' O ps pins c qs.
Proof.
  intros Hr Hsz. destruct (al_new_proc (st_heap s) (ps ++ pins ++ O) size (lr_own _ _ _ _ _ Hr) Hsz)
    as (d&p&h'&_&Em&En&HI&Hb&Hcap&Hsame).
  destruct (pushBack_ok s h' O ps pins c p (proc_slice d)) as (s1&E1&Hr1&Hb1&Hbl&Hupto&Hw&[l Hbuf]&_); try done.
  { cbn. rewrite Hcap, u32_small; lia. }
  assert (∀ e b, lb_sliceList b = lb_sliceList (st_buf s1) → lb_pinnedList b = lb_pinnedList (st_buf s1) →
    lb_len b = lb_len (st_buf s1) → allocated s (LbSt (st_heap s1) b e) O ps pins c [p]) as Hfin.
  { intros e b H1 H2 H3. constructor; [by apply rep_flags|done|done|done|cbn; by rewrite H1|].
    cbn. rewrite H3, Hbuf. done. }
  exists (LbSt (st_heap s1) (set_isFromShm false (st_buf s1))
            (if lb_hasStream (st_buf s1) then u64 (st_allocErrors s1 + 1) else st_allocErrors s1)), [p].
  split; [|by apply Hfin].
  erewrite bind_done by (apply on_heap_ok, on_mem_ok; exact Em). cbv beta.
  erewrite bind_done by (apply on_heap_ok; exact En). cbv beta.
  erewrite bind_done by exact E1. cbv beta. erewrite bind_done by done. cbv beta.
  erewrite bind_done by done. cbn. by destruct (lb_hasStream (st_buf s1)).
Qed.

Lemma caps_of_empty h qs : caps_of h qs > 0 → qs ≠ [].
Proof. intros Hc ->. cbn in Hc. lia. Qed.

Lemma alloc_ok s O ps pins c size :
  lb_core s O ps pins c → 0 < size < 2 ^ 32 →
  ∃ s' qs, alloc bm size s = Done (tt, s') ∧ allocated s s' O ps pins c qs.
Proof.
  intros Hr Hsz. pose proof Hr as []. unfold alloc.
  destruct (al_alloc_ok bm (st_heap s) (ps ++ pins ++ O) size lr_own0 ltac:(lia))
    as [(p&b&h'&E&HI&Hb&(Hri&Hwi&Hcap&Hnx)&_&_&Hsame)|(h1&E&HI&Hsame)].
  - destruct (pushBack_ok s h' O ps pins c p b) as (s1&E1&Hr1&_&Hbl&Hupto&Hw&[l Hbuf]&_); try done.
    exists s1, [p]. split; [|constructor; try done; by rewrite Hbuf]. erewrite bind_done by (apply on_heap_ok; exact E). exact E1.
  - erewrite bind_done by (apply on_heap_ok; exact E). cbv beta iota.
    pose proof (rep_same s h1 O ps pins c Hr HI Hsame) as Hr1.
    destruct (al_allocs_ok bm h1 (ps ++ pins ++ O) (lb_sliceList (st_buf s)) ps size HI
                (lr_list _ _ _ _ _ Hr1) ltac:(set_solver)) as (l2&h2&qs&E2&HI2&G).
    destruct (rep_grown (set_heap h1 s) h2 l2 O ps pins c qs Hr1 HI2 G) as (Hr2&Hbl2&Hup2).
    assert (∀ q, q ∈ ps → same_upto_next (st_heap s) h2 q) as Hup.
    { intros q Hq. eapply same_upto_next_trans; [|by apply Hup2]. apply same_slice_upto; [|apply Hsame; set_solver].
      destruct (rep_member _ _ _ _ _ _ Hr Hq) as (bq&->&_). eauto. }
    erewrite bind_done by done. cbv beta.
    erewrite bind_done by (apply on_heap_ok; exact E2). cbv beta.
    erewrite bind_done by done. cbv beta. cbn [fst snd].
    set (s2 := LbSt h2 (set_sliceList l2 (st_buf s)) (st_allocErrors s)).
    change (LbSt (st_heap (set_heap h2 (set_heap h1 s))) _ _) with s2.
    change (LbSt h2 (set_sliceList l2 (st_buf (set_heap h1 s))) (st_allocErrors (set_heap h1 s))) with s2 in Hr2.
    destruct (size - caps_of h2 qs >? 0) eqn:Erem; breflect.
    + set (n := if size - caps_of h2 qs <? defaultSingleBufferSize then defaultSingleBufferSize else size - caps_of h2 qs).
      assert (0 ≤ caps_of h2 qs) as Hpos.
      { apply caps_of_nonneg. intros q Hq. destruct (Hbl2 q Hq) as (b&Hb&?&?&?). eauto with lia. }
      destruct (alloc_fallback s2 O (ps ++ qs) pins c n Hr2) as (s3&qs3&E3&[]).
      { unfold n, defaultSingleBufferSize. destruct (_ <? _) eqn:El; breflect; lia. }
      exists s3, (qs ++ qs3). split; [exact E3|]. constructor.
      * by rewrite app_assoc.
      * destruct qs; [done|]. done.
      * intros q [Hq|Hq]%elem_of_app; [|by apply ad_blank0].
        eapply blank_upto; [apply ad_upto0; set_solver|]. by apply Hbl2.
      * intros q Hq. eapply same_upto_next_trans; [by apply Hup|]. apply ad_upto0. set_solver.
      * rewrite ad_write0. cbn. apply (gr_write _ _ _ _ _ _ _ G).
      * by rewrite ad_len0.
    + exists s2, qs. split; [done|]. constructor; try done.
      * apply (caps_of_empty h2). lia.
      * cbn. apply (gr_write _ _ _ _ _ _ _ G).
Qed.

(** ** Writing *)

(** The whole representation: the length is the number of unread bytes. *)
Record lb_rep (s : lbst) (O ps pins : list nat) (c : list Z) : Prop := {
  lp_core : lb_core s O ps pins c;
  lp_len : lb_len (st_buf s) = Z.of_nat (length c);
  lp_write : write_at_end s ps
}.

(** [allocated] changes the length of nothing. *)
Lemma write_at_end_grow s s' ps qs :
  write_at_end s ps → sl_write (lb_sliceList (st_buf s')) = sl_write (lb_sliceList (st_buf s)) →
  (∀ q, q ∈ ps → same_upto_next (st_heap s) (st_heap s') q) → (∀ q, q ∈ qs → blank (st_heap s') q) →
  write_at_end s' (ps ++ qs).
Proof.
  unfold write_at_end. intros Hw -> Hup Hbl. destruct (sl_write _) as [w|].
  - destruct Hw as (pre&post&->&Hp). exists pre, (post ++ qs). split; [by rewrite <- app_assoc|].
    intros q [Hq|Hq]%elem_of_app; [|auto]. eapply blank_upto; [apply Hup; set_solver|auto].
  - intros q [Hq|Hq]%elem_of_app; [|auto]. eapply blank_upto; [by apply Hup|auto].
Qed.

Lemma core_mid s O pre w post pins c :
  lb_core s O (pre ++ w :: post) pins c → (∀ q, q ∈ post → blank (st_heap s) q) →
  c = contents (st_heap s) pre ++ obj_content (st_heap s) w.
Proof.
  intros [] Hb. rewrite <- lr_content0, contents_app. cbn.
  rewrite (blanks_content _ _ post (al_inv_owned _ _ _ lr_own0)); [by rewrite app_nil_r|set_solver|done].
Qed.

(** One [append] at the write slice. *)
Lemma append_ok s O pre w post pins c data :
  lb_core s O (pre ++ w :: post) pins c → (∀ q, q ∈ post → blank (st_heap s) q) →
  ∃ b n s', h_slices (st_heap s) !! w = Some b ∧ n = Z.min (slice_remain b) (Z.of_nat (length data)) ∧ 0 ≤ n ∧
    on_heap (slice_append w data) s = Done (n, s') ∧ st_buf s' = st_buf s ∧
    lb_core s' O (pre ++ w :: post) pins (c ++ take (Z.to_nat n) data) ∧
    (∀ q, q ∈ post → blank (st_heap s') q) ∧
    h_slices (st_heap s') !! w = Some (with_indices b (bs_readIndex b) (bs_writeIndex b + n)).
Proof.
  intros Hr Hbl. pose proof Hr as []. set (L := (pre ++ w :: post) ++ pins ++ O).
  assert (w ∈ L) as HwL by set_solver.
  destruct (owned_lookup _ _ w (al_inv_owned _ _ _ lr_own0) HwL) as (b&Hb&Hwf).
  destruct (al_append (st_heap s) L w b data lr_own0 HwL Hb) as (m'&E&HI'&Hn&Hc&Hsame).
  set (n := Z.min (slice_remain b) (Z.of_nat (length data))) in *.
  set (h' := upd_slice (set_mem m' (st_heap s)) w (with_indices b (bs_readIndex b) (bs_writeIndex b + n))) in *.
  pose proof (ow_nodup _ _ (al_inv_owned _ _ _ lr_own0)) as Hnd.
  assert (∀ q, q ∈ pre ++ post ++ pins → q ≠ w) as Hne.
  { intros q Hq ->. apply NoDup_app in Hnd as (Hnd1&Hd&_). apply NoDup_app in Hnd1 as (_&Hd1&[Hni _]%NoDup_cons).
    specialize (Hd w ltac:(set_solver)). set_solver. }
  assert (∀ q, q ∈ pre ++ post ++ pins → same_slice (st_heap s) h' q) as Hs.
  { intros q Hq. apply Hsame; [unfold L; set_solver|by apply Hne]. }
  assert (∀ q, q ∈ post → blank h' q) as Hbl'.
  { intros q Hq. destruct (Hs q ltac:(set_solver)) as [Eq _]. unfold blank. rewrite Eq. by apply Hbl. }
  exists b, n, (set_heap h' s). split_and!; try done.
  - by apply on_heap_ok.
  - pose proof (core_mid _ _ _ _ _ _ _ Hr Hbl) as Hcm. constructor; cbn [st_heap set_heap st_buf].
    + done.
    + unfold h'. cbn [h_slices upd_slice set_mem]. by apply slist_rep_indices.
    + destruct lr_pins0 as [e Hp]. exists e. unfold h'. cbn [h_slices upd_slice set_mem]. by apply slist_rep_indices.
    + rewrite contents_app. cbn [contents].
      rewrite (blanks_content h' L post (al_inv_owned _ _ _ HI')) by (done || unfold L; set_solver).
      rewrite app_nil_r, Hc, Hcm, app_assoc. f_equal. f_equal.
      eapply (contents_same _ _ L); [by eapply al_inv_owned|unfold L; set_solver|].
      intros q Hq. apply same_slice_upto; [|apply Hs; set_solver].
      destruct (owned_lookup _ L q (al_inv_owned _ _ _ lr_own0)) as (bq&->&_); [unfold L; set_solver|eauto].
  - cbn. by rewrite lookup_insert_eq.
Qed.

(** The link behind the write slice. *)
Lemma core_next s O pre w post pins c :
  lb_core s O (pre ++ w :: post) pins c → on_heap (slice_next w) s = Done (head post, s).
Proof.
  intros []. destruct lr_list0. pose proof (links_app_r _ _ _ _ sr_links) as Hl.
  destruct (links_head _ _ _ _ Hl) as (b&Hb&En).
  replace (head post) with (bs_next b) by (rewrite En; by destruct post).
  rewrite (on_heap_ok _ s (bs_next b) (st_heap s)); [by destruct s|]. unfold slice_next. by mrun Hb.
Qed.

(** The representation does not depend on the write pointer. *)
Lemma core_write s O ps pins c w :
  lb_core s O ps pins c → lb_core (LbSt (st_heap s) (set_write w (st_buf s)) (st_allocErrors s)) O ps pins c.
Proof. intros []. constructor; cbn; try done. destruct lr_list0. constructor; done. Qed.

(** Behind a used-up write slice there is a blank one, allocated if needed. *)
Lemma next_slice_ok s O pre w post pins c size :
  lb_core s O (pre ++ w :: post) pins c → (∀ q, q ∈ post → blank (st_heap s) q) → 0 < size < 2 ^ 32 →
  ∃ s' w' post', 
    (nx ← on_heap (slice_next w);
     _ ← match nx with Some _ => mret tt | None => alloc bm size end;
     nx ← on_heap (slice_next w);
     upd_buf (set_write nx)) s = Done (tt, s') ∧
    lb_core s' O ((pre ++ [w]) ++ w' :: post') pins c ∧ (∀ q, q ∈ w' :: post' → blank (st_heap s') q) ∧
    sl_write (lb_sliceList (st_buf s')) = Some w' ∧ lb_len (st_buf s') = lb_len (st_buf s).
Proof.
  intros Hr Hbl Hsz. pose proof (core_next _ _ _ _ _ _ _ Hr) as En.
  destruct post as [|w' post'].
  - destruct (alloc_ok s O _ pins c size Hr Hsz) as (s1&qs&E1&[]). destruct qs as [|w' post']; [done|].
    rewrite <- (app_assoc pre [w]) in ad_rep0. cbn [app] in ad_rep0.
    pose proof (core_next _ _ _ _ _ _ _ ad_rep0) as En1. cbn [head] in *.
    exists (LbSt (st_heap s1) (set_write (Some w') (st_buf s1)) (st_allocErrors s1)), w', post'. split_and!.
    + erewrite bind_done by exact En. cbv beta. erewrite bind_done by exact E1. cbv beta.
      erewrite bind_done by exact En1. done.
    + rewrite <- app_assoc. by apply core_write.
    + done.
    + done.
    + cbn. apply ad_len0.
  - cbn [head] in *.
    exists (LbSt (st_heap s) (set_write (Some w') (st_buf s)) (st_allocErrors s)), w', post'. split_and!; try done.
    + erewrite bind_done by exact En. cbv beta. erewrite bind_done by done. cbv beta.
      erewrite bind_done by exact En. done.
    + rewrite <- app_assoc. by apply core_write.
Qed.

Lemma write_loop_ok fuel : ∀ s O pre w post pins c data n,
  lb_core s O (pre ++ w :: post) pins (c ++ take (Z.to_nat n) data) → (∀ q, q ∈ post → blank (st_heap s) q) →
  sl_write (lb_sliceList (st_buf s)) = Some w →
  0 ≤ n < Z.of_nat (length data) → Z.of_nat (length data) < 2 ^ 32 →
  (Z.of_nat (length data) - n + 2 ≤ Z.of_nat fuel ∨
   blank (st_heap s) w ∧ Z.of_nat (length data) - n + 1 ≤ Z.of_nat fuel) →
  ∃ s' ps', write_loop bm fuel data n s = Done (Z.of_nat (length data), s') ∧
    lb_core s' O ps' pins (c ++ data) ∧ write_at_end s' ps' ∧ lb_len (st_buf s') = lb_len (st_buf s).
Proof.
  induction fuel as [|fuel IH]; intros s O pre w post pins c data n Hr Hbl Hw Hn Hlen Hf; [lia|].
  destruct (append_ok s O pre w post pins _ (drop (Z.to_nat n) data) Hr Hbl)
    as (b&k&s1&Hb&Ek&Hk&E1&Ebuf&Hr1&Hbl1&Hb1).
  rewrite length_drop in Ek. cbn [write_loop].
  erewrite bind_done by (unfold writeSlice, buf, reads; rewrite Hw; done). cbv beta.
  erewrite bind_done by done. cbv beta.
  erewrite bind_done by exact E1. cbv beta zeta.
  assert ((c ++ take (Z.to_nat n) data) ++ take (Z.to_nat k) (drop (Z.to_nat n) data)
            = c ++ take (Z.to_nat (n + k)) data) as Ec.
  { rewrite <- app_assoc. f_equal. rewrite Z2Nat.inj_add by lia. by rewrite take_take_drop. }
  rewrite Ec in Hr1. destruct (n + k <? Z.of_nat (length data)) eqn:E; breflect.
  - destruct (next_slice_ok s1 O pre w post pins _ (u32 (Z.of_nat (length data) - (n + k))) Hr1 Hbl1)
      as (s2&w'&post'&E2&Hr2&Hbl2&Hw2&Hl2); [rewrite u32_small; lia|].
    destruct (IH s2 O (pre ++ [w]) w' post' pins c data (n + k)) as (s'&ps'&E'&Hr'&Hw'&Hl'); try done.
    + set_solver.
    + lia.
    + right. split; [apply Hbl2; set_solver|]. destruct Hf as [|[(b'&Hb'&Hri&Hwi&Hcap) ?]]; [lia|].
      rewrite Hb in Hb'. injection Hb' as <-. unfold slice_remain in Ek. lia.
    + exists s', ps'. split_and!; try done; [|congruence].
      rewrite <- E', <- (bind_done _ (λ _, write_loop bm fuel data (n + k)) _ _ _ E2).
      unfold mbind, M_bind. destruct (on_heap (slice_next w) s1) as [[nx s0]| |]; [|done|done].
      destruct nx as [q|].
      * cbn. by destruct (on_heap (slice_next w) s0) as [[? ?]| |].
      * destruct (alloc bm _ s0) as [[[] s3]| |]; [|done|done].
        by destruct (on_heap (slice_next w) s3) as [[? ?]| |].
  - assert (n + k = Z.of_nat (length data)) as Enk by lia. rewrite Enk in *. rewrite Nat2Z.id, firstn_all in Hr1.
    exists s1, (pre ++ w :: post). split_and!; [done|done| |by rewrite Ebuf].
    unfold write_at_end. rewrite Ebuf, Hw. by exists pre, post.
Qed.

(** The first write of a buffer allocates. *)
Lemma first_alloc_ok s O ps pins c size :
  lb_rep s O ps pins c → 0 < size < 2 ^ 32 →
  ∃ s' pre w post,
    (w ← writeSlice;
     match w with
     | Some _ => mret tt
     | None => _ ← alloc bm size; f ← front; upd_buf (set_write f)
     end) s = Done (tt, s') ∧
    lb_core s' O (pre ++ w :: post) pins c ∧ (∀ q, q ∈ post → blank (st_heap s') q) ∧
    sl_write (lb_sliceList (st_buf s')) = Some w ∧ lb_len (st_buf s') = lb_len (st_buf s).
Proof.
  intros [Hr Hl Hw] Hsz. unfold write_at_end in Hw.
  destruct (sl_write (lb_sliceList (st_buf s))) as [w|] eqn:Ew.
  - destruct Hw as (pre&post&->&Hbl). exists s, pre, w, post. split_and!; try done.
    unfold mbind, M_bind, writeSlice, buf, reads. by rewrite Ew.
  - destruct (alloc_ok s O ps pins c size Hr Hsz) as (s1&qs&E1&[]).
    destruct (ps ++ qs) as [|w post] eqn:Eps; [destruct ps, qs; done|].
    pose proof (sr_front _ _ _ _ (lr_list _ _ _ _ _ ad_rep0)) as Hf. cbn in Hf.
    exists (LbSt (st_heap s1) (set_write (Some w) (st_buf s1)) (st_allocErrors s1)), [], w, post. split_and!; try done.
    + unfold writeSlice at 1. erewrite bind_done by (unfold buf, reads; rewrite Ew; done). cbv beta iota.
      erewrite bind_done by exact E1. cbv beta. erewrite bind_done by (unfold front, buf, reads; rewrite Hf; done). done.
    + cbn [app]. by apply core_write.
    + cbn. intros q Hq. assert (q ∈ ps ++ qs) as [Hq'|Hq']%elem_of_app by (rewrite Eps; set_solver); [|auto].
      eapply blank_upto; [by apply ad_upto0|auto].
Qed.

Lemma WriteBytes_ok s O ps pins c data :
  lb_rep s O ps pins c → Z.of_nat (length data) < 2 ^ 32 →
  ∃ s' ps', WriteBytes bm data s = Done (Z.of_nat (length data), s') ∧ lb_rep s' O ps' pins (c ++ data).
Proof.
  intros Hr Hlen. unfold WriteBytes. destruct (Z.of_nat (length data) =? 0) eqn:E; breflect.
  - destruct data; [|done]. exists s, ps. rewrite app_nil_r. done.
  - destruct (first_alloc_ok s O ps pins c (u32 (Z.of_nat (length data))) Hr) as (s1&pre&w&post&E1&Hr1&Hbl&Hw&Hl1).
    { rewrite u32_small; lia. }
    destruct (write_loop_ok (write_fuel data) s1 O pre w post pins c data 0) as (s2&ps2&E2&Hr2&Hw2&Hl2); try done; try lia.
    { by rewrite app_nil_r. }
    { left. unfold write_fuel. lia. }
    exists (LbSt (st_heap s2) (add_len (Z.of_nat (length data)) (st_buf s2)) (st_allocErrors s2)), ps2. split.
    + transitivity ((n ← write_loop bm (write_fuel data) data 0; _ ← upd_buf (add_len n); mret n) s1).
      * rewrite <- (bind_done _ (λ _, n ← write_loop bm (write_fuel data) data 0; _ ← upd_buf (add_len n); mret n) _ _ _ E1).
        unfold mbind, M_bind. by destruct (writeSlice s) as [[[?|] ?]| |].
      * by erewrite bind_done by exact E2.
    + destruct Hr as [_ Hl _]. constructor.
      * by apply rep_flags.
      * cbn. rewrite Hl2, Hl1, Hl. len.
      * exact Hw2.
Qed.

(** ** Reading *)

(** [read] from an owned object. *)
Lemma al_read h L p b size :
  al_inv bm h L → p ∈ L → h_slices h !! p = Some b → 0 ≤ size →
  let k := Z.min size (slice_size b) in
  let h' := upd_slice h p (with_indices b (bs_readIndex b + k) (bs_writeIndex b)) in
  0 ≤ k ∧ al_inv bm h' L ∧ obj_content h' p = drop (Z.to_nat k) (obj_content h p) ∧
  slice_skip p size h = Done (k, h') ∧
  ∃ d, slice_read p size h = Done ((d, if slice_size b <? size then Some ErrNotEnoughData else None), h') ∧
    s_len d = k ∧ s_arr d = s_arr (bs_data b) ∧
    slice_bytes (h_mem h) d = Some (take (Z.to_nat k) (obj_content h p)).
Proof.
  intros HI Hp Hb Hsz k h'. pose proof (al_inv_owned _ _ _ HI) as Ho.
  destruct (obj_content_some h L p b Ho Hp Hb) as (Hl&Hlen&Hw).
  destruct (slice_read_spec h p b _ size Hb Hw Hl Hsz) as (d&E&Hd&Ha&Hbs&Hw'&Hc').
  destruct (slice_skip_spec h p b _ size Hb Hw Hl Hsz) as (Esk&_&_).
  split_and!; [unfold k; lia| | |done|by exists d].
  - eapply (I_update_obj (al_inv bm)); try done. intros. by eapply al_update.
  - eapply obj_content_eq; [cbn; apply lookup_insert_eq|exact Hc'].
Qed.

(** The first slice of a buffer. *)
Lemma core_front s O f ps pins c :
  lb_core s O (f :: ps) pins c →
  front s = Done (Some f, s) ∧ ∃ b, h_slices (st_heap s) !! f = Some b ∧
    slice_size b = Z.of_nat (length (obj_content (st_heap s) f)) ∧
    c = obj_content (st_heap s) f ++ contents (st_heap s) ps ∧
    front_size s = Done (slice_size b, s).
Proof.
  intros Hr. pose proof Hr as []. pose proof (al_inv_owned _ _ _ lr_own0) as Ho.
  destruct (rep_member _ _ _ _ _ f Hr) as (b&Hb&_); [set_solver|].
  destruct (obj_content_some _ _ f b Ho ltac:(set_solver) Hb) as (_&Hlen&_).
  assert (front s = Done (Some f, s)) as Hf.
  { unfold front, buf, reads. pose proof (sr_front _ _ _ _ lr_list0) as ->. done. }
  split; [done|]. exists b. split_and!; [done|done|by rewrite <- lr_content0|].
  unfold front_size, slice_of. erewrite bind_done by exact Hf. cbv beta. rewrite bind_assoc.
  erewrite bind_done by done. cbv beta.
  erewrite bind_done by (apply on_heap_ok, get_slice_ok; exact Hb). by destruct s.
Qed.

(** The state after [k] bytes of the first slice were consumed. *)
Lemma core_consume s O f ps pins c b k :
  lb_core s O (f :: ps) pins c → h_slices (st_heap s) !! f = Some b →
  0 ≤ k ≤ slice_size b →
  let h' := upd_slice (st_heap s) f (with_indices b (bs_readIndex b + k) (bs_writeIndex b)) in
  al_inv bm h' ((f :: ps) ++ pins ++ O) → obj_content h' f = drop (Z.to_nat k) (obj_content (st_heap s) f) →
  lb_core (set_heap h' s) O (f :: ps) pins (drop (Z.to_nat k) c).
Proof.
  intros Hr Hb Hk h' HI' Hc'. pose proof Hr as []. pose proof (al_inv_owned _ _ _ lr_own0) as Ho.
  destruct (obj_content_some _ _ f b Ho ltac:(set_solver) Hb) as (_&Hlen&_).
  pose proof (rep_nodup _ _ _ _ _ Hr) as Hnd. cbn in Hnd. apply NoDup_cons in Hnd as [Hf _].
  constructor; cbn [st_heap set_heap st_buf].
  - done.
  - unfold h'. cbn [h_slices upd_slice]. by apply slist_rep_indices.
  - destruct lr_pins0 as [e Hp]. exists e. unfold h'. cbn [h_slices upd_slice]. by apply slist_rep_indices.
  - cbn [contents]. rewrite Hc', <- lr_content0. cbn [contents].
    rewrite drop_app_le by lia. f_equal.
    eapply (contents_same _ _ ((f :: ps) ++ pins ++ O)); [done|set_solver|].
    intros q Hq. apply same_slice_upto; [|apply same_slice_other; intros ->; apply Hf; set_solver].
    destruct (rep_member _ _ _ _ _ q Hr) as (bq&->&_); [set_solver|eauto].
Qed.

Lemma front_read_ok s O f ps pins c size :
  lb_core s O (f :: ps) pins c → 0 ≤ size →
  ∃ b d s', h_slices (st_heap s) !! f = Some b ∧
    let k := Z.min size (slice_size b) in
    front_read size s = Done ((d, if slice_size b <? size then Some ErrNotEnoughData else None), s') ∧
    st_buf s' = st_buf s ∧ h_mem (st_heap s') = h_mem (st_heap s) ∧ 0 ≤ k ∧
    s_len d = k ∧ s_arr d = s_arr (bs_data b) ∧
    slice_bytes (h_mem (st_heap s)) d = Some (take (Z.to_nat k) c) ∧
    lb_core s' O (f :: ps) pins (drop (Z.to_nat k) c) ∧
    (slice_size b ≤ size → obj_content (st_heap s') f = []) ∧
    slice_size b = Z.of_nat (length (obj_content (st_heap s) f)).
Proof.
  intros Hr Hsz. destruct (core_front _ _ _ _ _ _ Hr) as (Hf&b&Hb&Hlen&Hc&_).
  destruct (al_read (st_heap s) ((f :: ps) ++ pins ++ O) f b size (lr_own _ _ _ _ _ Hr) ltac:(set_solver) Hb Hsz)
    as (Hk&HI&Hobj&_&d&E&Hd&Ha&Hbs).
  exists b, d. eexists. split; [done|]. cbn zeta. split_and!.
  - unfold front_read. erewrite bind_done by exact Hf. cbv beta. erewrite bind_done by done. cbv beta.
    by apply on_heap_ok.
  - done.
  - done.
  - done.
  - done.
  - done.
  - rewrite Hbs, Hc. f_equal. by rewrite take_app_le by lia.
  - eapply core_consume; [exact Hr|exact Hb|lia|done|done].
  - intros Hle. cbn [st_heap set_heap]. rewrite Hobj. apply drop_ge. lia.
  - done.
Qed.

Lemma popFront_ok s O f ps pins c :
  lb_core s O (f :: ps) pins c →
  ∃ l, popFront s = Done (Some f, LbSt (st_heap s) (set_sliceList l (st_buf s)) (st_allocErrors s)) ∧
    slist_rep (h_slices (st_heap s)) l ps None ∧ sl_write l = sl_write (lb_sliceList (st_buf s)).
Proof.
  intros []. destruct (sl_popFront_spec _ _ _ _ lr_list0) as (l&E&Hw&Hr). exists l. split_and!; [|done|done].
  unfold popFront. erewrite bind_done by done. cbv beta.
  erewrite bind_done by (apply on_heap_ok; exact E). cbv beta. erewrite bind_done by done. by destruct s.
Qed.

(** The objects that are left see the same bytes. *)
Definition views_kept (h h' : heap) (L L' : list nat) : Prop :=
  ∀ q b', q ∈ L' → h_slices h' !! q = Some b' →
    q ∈ L ∧ ∃ b, h_slices h !! q = Some b ∧ bs_data b' = bs_data b.

(** [readNextSlice] drops an exhausted first slice: it is pinned if the caller
    holds a view of it, given back if it came from shared memory. *)
Lemma readNextSlice_ok s O f ps pins c :
  lb_core s O (f :: ps) pins c → obj_content (st_heap s) f = [] →
  ∃ s' pins', readNextSlice bm s = Done (tt, s') ∧ lb_core s' O ps pins' c ∧
    lb_len (st_buf s') = lb_len (st_buf s) ∧
    sl_write (lb_sliceList (st_buf s')) = sl_write (lb_sliceList (st_buf s)) ∧
    (∀ q, q ∈ ps → same_slice (st_heap s) (st_heap s') q) ∧
    (∀ r n, al_foreign bm (p_arr r) → peek (h_mem (st_heap s')) r n = peek (h_mem (st_heap s)) r n) ∧
    views_kept (st_heap s) (st_heap s') ((f :: ps) ++ pins ++ O) (ps ++ pins' ++ O) ∧
    (lb_currentPinned (st_buf s) = false → pins' = pins) ∧ lb_currentPinned (st_buf s') = false.
Proof.
  intros Hr Hobj. pose proof Hr as []. destruct (popFront_ok _ _ _ _ _ _ Hr) as (l&Ep&Hl&Hw).
  destruct (rep_member _ _ _ _ _ f Hr) as (b&Hb&Hwf); [set_solver|].
  pose proof (rep_nodup _ _ _ _ _ Hr) as Hnd. cbn in Hnd. apply NoDup_cons in Hnd as [Hf Hnd].
  assert (contents (st_heap s) ps = c) as Hc by (rewrite <- lr_content0; cbn; by rewrite Hobj).
  set (s1 := LbSt (st_heap s) (set_sliceList l (st_buf s)) (st_allocErrors s)) in *.
  assert (∀ h' l2 x, al_inv bm h' (ps ++ pins ++ O) → (∀ q, q ∈ ps ++ pins ++ O → same_slice (st_heap s) h' q) →
    lb_sliceList l2 = l → lb_pinnedList l2 = lb_pinnedList (st_buf s) →
    lb_core (LbSt h' l2 x) O ps pins c) as Hdrop.
  { intros h' l2 x HI Hs E1 E2. constructor; cbn; rewrite ?E1, ?E2; try done.
    - eapply slist_rep_same; [done|]. intros q Hq. apply Hs. set_solver.
    - destruct lr_pins0 as [e Hp]. exists e. eapply slist_rep_same; [done|]. intros q Hq. apply Hs. set_solver.
    - rewrite <- Hc. eapply (contents_same _ _ ((f :: ps) ++ pins ++ O)); [by eapply al_inv_owned|set_solver|].
      intros q Hq. apply same_slice_upto; [|apply Hs; set_solver].
      destruct (rep_member _ _ _ _ _ q Hr) as (bq&->&_); [set_solver|eauto]. }
  unfold readNextSlice, slice_of. erewrite bind_done by exact Ep. cbv beta. rewrite bind_assoc.
  erewrite bind_done by done. cbv beta.
  erewrite bind_done by (apply on_heap_ok, get_slice_ok; exact Hb). cbv beta.
  change (set_heap (st_heap s1) s1) with s1.
  destruct (bs_isFromShm b).
  - rewrite bind_assoc. erewrite bind_done by done. cbv beta. rewrite bind_assoc. erewrite bind_done by done. cbv beta.
    change (lb_currentPinned (st_buf s1)) with (lb_currentPinned (st_buf s)). destruct (lb_currentPinned (st_buf s)) eqn:Epin.
    + destruct lr_pins0 as [e Hp].
      destruct (al_pushBack (st_heap s) ((f :: ps) ++ pins ++ O) (lb_pinnedList (st_buf s)) pins e f b)
        as (l'&h'&E&Hr'&_&HI&Hb'&Hs1&Hs2); [done|done|set_solver|set_solver|done|].
      pose proof Hnd as (_&Hd&_)%NoDup_app.
      assert (∀ q, q ∈ ps → same_slice (st_heap s) h' q) as Hsame.
      { intros q Hq. apply Hs1. intros Hq'. apply (Hd q Hq). set_solver. }
      assert (h_mem h' = h_mem (st_heap s)) as Hmem by (by eapply sl_pushBack_mem).
      exists (LbSt h' (set_currentPinned false (set_pinnedList l' (st_buf s1))) (st_allocErrors s)), (pins ++ [f]).
      split_and!; try done.
      * unfold pushPinned. rewrite bind_assoc. erewrite bind_done by done. cbv beta. rewrite bind_assoc.
        erewrite bind_done by (apply on_heap_ok; exact E). done.
      * constructor; cbn; try done.
        -- eapply al_inv_perm; [|exact HI]. rewrite <- (app_assoc pins). cbn.
           by rewrite (app_assoc ps pins (f :: O)), <- Permutation_middle, <- app_assoc.
        -- by eapply slist_rep_same.
        -- by eexists.
        -- rewrite <- Hc. eapply (contents_same _ _ ((f :: ps) ++ pins ++ O)); [by eapply al_inv_owned|set_solver|].
           intros q Hq. apply same_slice_upto; [|by apply Hsame].
           destruct (rep_member _ _ _ _ _ q Hr) as (bq&->&_); [set_solver|eauto].
      * intros r n _. cbn. by rewrite Hmem.
      * intros q b2 Hq Hb2. split; [set_solver|]. cbn in Hb2.
        destruct (decide (q ∈ pins)) as [Hqp|Hqp].
        -- destruct (Hs2 q Hqp) as (b3&n&Hb3&Hb4&_). rewrite Hb2 in Hb4. injection Hb4 as ->. by exists b3.
        -- destruct (Hs1 q Hqp) as [Eq _]. rewrite Eq in Hb2. by exists b2.
    + destruct (al_recycle_ok bm (st_heap s) (ps ++ pins ++ O) f lr_own0) as (h'&E&HI&Hs&Hfor).
      exists (LbSt h' (set_currentPinned false (st_buf s1)) (st_allocErrors s)), pins. split_and!; try done.
      * by erewrite bind_done by (apply on_heap_ok; exact E).
      * by apply Hdrop.
      * intros q Hq. apply Hs. set_solver.
      * intros q b2 Hq Hb2. split; [set_solver|]. cbn in Hb2. destruct (Hs q Hq) as [Eq _]. rewrite Eq in Hb2. by exists b2.
  - exists (LbSt (st_heap s) (set_currentPinned false (st_buf s1)) (st_allocErrors s)), pins. split_and!; try done.
    + apply Hdrop; try done. by eapply al_forget.
    + intros q b2 Hq Hb2. split; [set_solver|]. by exists b2.
Qed.

(** ** The write slice while reading *)

Lemma core_nonempty s O ps pins c : lb_core s O ps pins c → c ≠ [] → ∃ f ps', ps = f :: ps'.
Proof. intros [] Hc. destruct ps as [|f ps]; [by rewrite <- lr_content0 in Hc|eauto]. Qed.

Lemma write_some s O ps pins c :
  lb_core s O ps pins c → c ≠ [] → write_at_end s ps → is_Some (sl_write (lb_sliceList (st_buf s))).
Proof.
  intros [] Hc Hw. unfold write_at_end in Hw. destruct (sl_write _); [eauto|]. exfalso. apply Hc.
  rewrite <- lr_content0. eapply blanks_content; [by eapply al_inv_owned| |done]. set_solver.
Qed.

(** Consuming bytes of the first slice keeps the blank ones. *)
Lemma write_consume s O f ps pins c s' :
  lb_core s O (f :: ps) pins c → c ≠ [] → write_at_end s (f :: ps) → st_buf s' = st_buf s →
  (∀ q, q ∈ ps → h_slices (st_heap s') !! q = h_slices (st_heap s) !! q) → write_at_end s' (f :: ps).
Proof.
  intros Hr Hc Hw Hb Hs. destruct (write_some _ _ _ _ _ Hr Hc Hw) as [w Ew].
  unfold write_at_end in *. rewrite Hb. rewrite Ew in *. destruct Hw as (pre&post&Eps&Hbl). exists pre, post.
  split; [done|]. intros q Hq. destruct (Hbl q Hq) as (b&Hbq&?).
  exists b. split; [|done]. rewrite Hs; [done|].
  destruct pre as [|x pre]; injection Eps as -> ->; set_solver.
Qed.

(** Dropping an exhausted first slice does not lose the write slice. *)
Lemma write_pop s O f ps pins c s' :
  lb_core s O (f :: ps) pins c → c ≠ [] → obj_content (st_heap s) f = [] → write_at_end s (f :: ps) →
  sl_write (lb_sliceList (st_buf s')) = sl_write (lb_sliceList (st_buf s)) →
  (∀ q, q ∈ ps → same_slice (st_heap s) (st_heap s') q) → write_at_end s' ps.
Proof.
  intros Hr Hc Hobj Hw Ew Hs. destruct (write_some _ _ _ _ _ Hr Hc Hw) as [w Hsw].
  unfold write_at_end in *. rewrite Ew, Hsw in *. destruct Hw as (pre&post&Eps&Hbl).
  destruct pre as [|x pre]; injection Eps as -> ->.
  - exfalso. apply Hc. destruct Hr. rewrite <- lr_content0. cbn. rewrite Hobj. cbn.
    eapply blanks_content; [by eapply al_inv_owned| |done]. set_solver.
  - exists pre, post. split; [done|]. intros q Hq. destruct (Hbl q Hq) as (b&?&?).
    destruct (Hs q) as [Eq _]; [set_solver|]. exists b. by rewrite Eq.
Qed.

(** ** Discard and ReadString *)

Context (readMore : Z → M lbst (option error)).

Lemma ensure_enough s size : size ≤ lb_len (st_buf s) → ensure readMore size s = Done (None, s).
Proof.
  intros Hl. unfold ensure, Len. erewrite bind_done by done. cbv beta.
  replace (lb_len (st_buf s) <? size) with false by (symmetry; apply Z.ltb_ge; lia). done.
Qed.

Lemma discard_loop_ok fuel : ∀ s O ps pins c size n,
  lb_core s O ps pins c → write_at_end s ps → c ≠ [] → 0 ≤ size ≤ Z.of_nat (length c) → (length ps ≤ fuel)%nat →
  ∃ s' ps' pins', discard_loop bm fuel size n s = Done (n + size, s') ∧
    lb_core s' O ps' pins' (drop (Z.to_nat size) c) ∧ write_at_end s' ps' ∧ lb_len (st_buf s') = lb_len (st_buf s).
Proof.
  induction fuel as [|fuel IH]; intros s O ps pins c size n Hr Hw Hc Hsz Hf;
    destruct (core_nonempty _ _ _ _ _ Hr Hc) as (f&ps'&->); [cbn in Hf; lia|].
  destruct (core_front _ _ _ _ _ _ Hr) as (Hfr&b&Hb&Hlen&Hcc&_).
  destruct (al_read (st_heap s) ((f :: ps') ++ pins ++ O) f b size (lr_own _ _ _ _ _ Hr) ltac:(set_solver) Hb)
    as (Hk&HI&Hobj&Esk&_); [lia|].
  set (k := Z.min size (slice_size b)) in *.
  set (h1 := upd_slice (st_heap s) f (with_indices b (bs_readIndex b + k) (bs_writeIndex b))) in *.
  assert (lb_core (set_heap h1 s) O (f :: ps') pins (drop (Z.to_nat k) c)) as Hr1.
  { eapply core_consume; [exact Hr|exact Hb|unfold k; lia|done|done]. }
  assert (write_at_end (set_heap h1 s) (f :: ps')) as Hw1.
  { eapply write_consume; [exact Hr|done|done|done|]. intros q Hq. cbn. apply lookup_insert_ne. intros ->.
    pose proof (rep_nodup _ _ _ _ _ Hr) as Hnd. cbn in Hnd. apply NoDup_cons in Hnd as [Hni _]. set_solver. }
  assert (k ≤ size ∧ k ≤ slice_size b ∧ (k = size ∨ k = slice_size b)) as Hkk by (unfold k; lia).
  clearbody k. cbn [discard_loop]. erewrite bind_done by exact Hfr. cbv beta. erewrite bind_done by done. cbv beta.
  erewrite bind_done by (apply on_heap_ok; exact Esk). cbv beta.
  destruct (size - k =? 0) eqn:E; breflect.
  - assert (k = size) as -> by lia. exists (set_heap h1 s), (f :: ps'), pins. done.
  - assert (drop (Z.to_nat k) c ≠ []) as Hc1.
    { intros Hnil. apply (f_equal length) in Hnil. rewrite length_drop in Hnil. cbn in Hnil. lia. }
    assert (obj_content (st_heap (set_heap h1 s)) f = []) as Hob1.
    { cbn [st_heap set_heap]. rewrite Hobj. apply drop_ge. lia. }
    destruct (readNextSlice_ok _ _ _ _ _ _ Hr1 Hob1) as (s2&pins2&E2&Hr2&Hl2&Hsw2&Hs2&_&_).
    destruct (IH s2 O ps' pins2 (drop (Z.to_nat k) c) (size - k) (n + k)) as (s3&ps3&pins3&E3&Hr3&Hw3&Hl3).
    + done.
    + by eapply write_pop.
    + done.
    + rewrite length_drop. lia.
    + cbn in Hf. lia.
    + exists s3, ps3, pins3. erewrite bind_done by exact E2. split_and!.
      * rewrite E3. do 2 f_equal. lia.
      * rewrite drop_drop in Hr3. by replace (Z.to_nat k + Z.to_nat (size - k))%nat with (Z.to_nat size) in Hr3 by lia.
      * done.
      * by rewrite Hl3, Hl2.
Qed.

Lemma list_fuel_ok s O ps pins c : lb_core s O ps pins c → list_fuel s = Done (length ps, s).
Proof.
  intros []. unfold list_fuel, buf, reads. pose proof (sr_len _ _ _ _ lr_list0) as ->. by rewrite Nat2Z.id.
Qed.

(** The length after [size] bytes were consumed. *)
Lemma rep_consumed s O ps pins c size :
  lb_core s O ps pins (drop (Z.to_nat size) c) → write_at_end s ps →
  lb_len (st_buf s) = Z.of_nat (length c) → 0 ≤ size ≤ Z.of_nat (length c) →
  lb_rep (LbSt (st_heap s) (add_len (- size) (st_buf s)) (st_allocErrors s)) O ps pins (drop (Z.to_nat size) c).
Proof. intros Hr Hw Hl Hsz. constructor; [by apply rep_flags| |exact Hw]. cbn. rewrite Hl. len. Qed.

Lemma Discard_ok s O ps pins c size :
  lb_rep s O ps pins c → 0 < size ≤ Z.of_nat (length c) →
  ∃ s' ps' pins', Discard bm readMore size s = Done ((size, None), s') ∧
    lb_rep s' O ps' pins' (drop (Z.to_nat size) c).
Proof.
  intros [Hr Hl Hw] Hsz. unfold Discard. erewrite bind_done by (apply ensure_enough; lia). cbv beta iota.
  erewrite bind_done by (by eapply list_fuel_ok). cbv beta.
  destruct (discard_loop_ok (S (length ps)) s O ps pins c size 0) as (s1&ps1&pins1&E&Hr1&Hw1&Hl1); try done; try lia.
  { intros ->. cbn in Hsz. lia. }
  erewrite bind_done by exact E. cbv beta. erewrite bind_done by done. cbv beta.
  eexists _, ps1, pins1. split; [done|]. apply rep_consumed; [done|done|congruence|lia].
Qed.

(** Reading from the first slice inside of a buffer with data. *)
Lemma front_read_rep s O f ps pins c size :
  lb_core s O (f :: ps) pins c → write_at_end s (f :: ps) → c ≠ [] → 0 ≤ size →
  ∃ b d s' k, k = Z.min size (slice_size b) ∧ 0 ≤ k ∧ h_slices (st_heap s) !! f = Some b ∧
    front_read size s = Done ((d, if slice_size b <? size then Some ErrNotEnoughData else None), s') ∧
    st_buf s' = st_buf s ∧ h_mem (st_heap s') = h_mem (st_heap s) ∧
    s_len d = k ∧ s_arr d = s_arr (bs_data b) ∧
    slice_bytes (h_mem (st_heap s)) d = Some (take (Z.to_nat k) c) ∧
    lb_core s' O (f :: ps) pins (drop (Z.to_nat k) c) ∧ write_at_end s' (f :: ps) ∧
    (slice_size b ≤ size → obj_content (st_heap s') f = []) ∧
    slice_size b = Z.of_nat (length (obj_content (st_heap s) f)) ∧
    views_kept (st_heap s) (st_heap s') ((f :: ps) ++ pins ++ O) ((f :: ps) ++ pins ++ O).
Proof.
  intros Hr Hw Hc Hsz. destruct (core_front _ _ _ _ _ _ Hr) as (Hf&b&Hb&Hlen&Hcc&_).
  destruct (al_read (st_heap s) ((f :: ps) ++ pins ++ O) f b size (lr_own _ _ _ _ _ Hr) ltac:(set_solver) Hb Hsz)
    as (Hk&HI&Hobj&_&d&E&Hd&Ha&Hbs).
  pose proof (rep_nodup _ _ _ _ _ Hr) as Hnd. cbn in Hnd. apply NoDup_cons in Hnd as [Hni _].
  set (k := Z.min size (slice_size b)) in *.
  set (h1 := upd_slice (st_heap s) f (with_indices b (bs_readIndex b + k) (bs_writeIndex b))) in *.
  exists b, d, (set_heap h1 s), k. split_and!; try done.
  - unfold front_read. erewrite bind_done by exact Hf. cbv beta. erewrite bind_done by done. cbv beta.
    by apply on_heap_ok.
  - rewrite Hbs, Hcc. f_equal. by rewrite take_app_le by lia.
  - eapply core_consume; [exact Hr|exact Hb|lia|done|done].
  - eapply write_consume; [exact Hr|done|done|done|]. intros q Hq. cbn. apply lookup_insert_ne. intros ->. set_solver.
  - intros Hle. cbn [st_heap set_heap]. rewrite Hobj. apply drop_ge. lia.
  - intros q b2 Hq Hb2. split; [done|]. cbn in Hb2. apply lookup_insert_Some in Hb2 as [[<- <-]|[_ Hb2]]; [by exists b|by exists b2].
Qed.

Lemma load_view s d bs : slice_bytes (h_mem (st_heap s)) d = Some bs →
  on_heap (on_mem (load_bytes (slice_ptr d) (s_len d))) s = Done (bs, s).
Proof.
  intros Hb. rewrite (on_heap_ok _ s bs (st_heap s)); [by destruct s|].
  rewrite (on_mem_ok _ _ bs (h_mem (st_heap s))); [by destruct (st_heap s)|].
  unfold load_bytes. unfold slice_bytes in Hb. by rewrite Hb.
Qed.

(** If the first slice is exhausted, the next one is. *)
Lemma skip_empty_ok s O ps pins c :
  lb_core s O ps pins c → write_at_end s ps → c ≠ [] →
  ∃ s' ps' pins' n, front_size s = Done (n, s) ∧ (if n =? 0 then readNextSlice bm else mret tt) s = Done (tt, s') ∧
    lb_core s' O ps' pins' c ∧ write_at_end s' ps' ∧ lb_len (st_buf s') = lb_len (st_buf s) ∧
    (length ps' = length ps ∧ 0 < n ∧ s' = s ∧ ps' = ps ∧ pins' = pins ∨ (length ps' < length ps)%nat) ∧
    (∀ r n, al_foreign bm (p_arr r) → peek (h_mem (st_heap s')) r n = peek (h_mem (st_heap s)) r n) ∧
    views_kept (st_heap s) (st_heap s') (ps ++ pins ++ O) (ps' ++ pins' ++ O).
Proof.
  intros Hr Hw Hc. destruct (core_nonempty _ _ _ _ _ Hr Hc) as (f&ps'&->).
  destruct (core_front _ _ _ _ _ _ Hr) as (Hf&b&Hb&Hlen&Hcc&Hfs).
  destruct (slice_size b =? 0) eqn:E; breflect.
  - assert (obj_content (st_heap s) f = []) as Hobj by (apply nil_length_inv; lia).
    destruct (readNextSlice_ok _ _ _ _ _ _ Hr Hobj) as (s2&pins2&E2&Hr2&Hl2&Hsw2&Hs2&Hfor&Hv&_).
    exists s2, ps', pins2, (slice_size b). replace (slice_size b =? 0) with true by (symmetry; by apply Z.eqb_eq).
    split_and!; try done; [by eapply write_pop|]. right. cbn. lia.
  - exists s, (f :: ps'), pins, (slice_size b). replace (slice_size b =? 0) with false by (symmetry; by apply Z.eqb_neq).
    split_and!; try done; [left; split_and!; try done; lia|]. intros q b2 Hq Hb2. split; [done|]. by exists b2.
Qed.

(** Enough rounds: every round but the first drops a slice. *)
Definition rounds (s : lbst) (ps : list nat) (fuel : nat) : Prop :=
  (length ps ≤ fuel)%nat ∨ (length ps ≤ S fuel)%nat ∧ ∃ f ps', ps = f :: ps' ∧ obj_content (st_heap s) f = [].

Lemma rounds_pos s O ps pins c : lb_core s O ps pins c → c ≠ [] → ¬ rounds s ps 0.
Proof.
  intros Hr Hc. destruct (core_nonempty _ _ _ _ _ Hr Hc) as (f&ps'&->). destruct Hr.
  intros [Hl|[Hl (?&?&[= <- <-]&Ho)]]; cbn in Hl; [lia|]. apply Hc. rewrite <- lr_content0. cbn. rewrite Ho.
  by destruct ps'; [|cbn in Hl; lia].
Qed.

Lemma drop_plus {X} (c : list X) (a b : Z) : 0 ≤ a → 0 ≤ b →
  drop (Z.to_nat b) (drop (Z.to_nat a) c) = drop (Z.to_nat (a + b)) c.
Proof. intros. rewrite drop_drop. f_equal. lia. Qed.

Lemma take_plus {X} (c : list X) (a b : Z) : 0 ≤ a → 0 ≤ b →
  take (Z.to_nat a) c ++ take (Z.to_nat b) (drop (Z.to_nat a) c) = take (Z.to_nat (a + b)) c.
Proof. intros. rewrite take_take_drop. f_equal. lia. Qed.

Lemma nonempty_length {X} (c : list X) : 0 < Z.of_nat (length c) → c ≠ [].
Proof. by destruct c. Qed.

Lemma readString_loop_ok fuel : ∀ s O ps pins c size written acc,
  lb_core s O ps pins c → write_at_end s ps → 0 ≤ written ≤ size → size - written ≤ Z.of_nat (length c) →
  rounds s ps fuel →
  ∃ s' ps' pins', readString_loop bm fuel size written acc s =
      Done (acc ++ take (Z.to_nat (size - written)) c, s') ∧
    lb_core s' O ps' pins' (drop (Z.to_nat (size - written)) c) ∧ write_at_end s' ps' ∧
    lb_len (st_buf s') = lb_len (st_buf s).
Proof.
  induction fuel as [|fuel IH]; intros s O ps pins c size written acc Hr Hw Hwr Hsz Hf; cbn [readString_loop];
    (destruct (written <? size) eqn:E; breflect;
     [|exists s, ps, pins; replace (size - written) with 0 by lia; by rewrite app_nil_r]).
  { exfalso. eapply rounds_pos; [exact Hr|apply nonempty_length; lia|done]. }
  destruct (skip_empty_ok _ _ _ _ _ Hr Hw) as (s1&ps1&pins1&n&E1&E2&Hr1&Hw1&Hl1&Hlen&_); [apply nonempty_length; lia|].
  erewrite bind_done by exact E1. cbv beta. erewrite bind_done by exact E2. cbv beta.
  assert (c ≠ []) as Hc by (apply nonempty_length; lia).
  destruct (core_nonempty _ _ _ _ _ Hr1 Hc) as (f&ps2&->).
  destruct (front_read_rep _ _ _ _ _ _ (size - written) Hr1 Hw1 Hc)
    as (b&d&s2&k&Hk&Hk0&_&E3&Hbuf&Hmem&Hd&_&Hbs&Hr2&Hw2&Hemp&Hsb&_); [lia|].
  erewrite bind_done by exact E3. cbv beta.
  erewrite bind_done by (apply load_view; cbn [fst]; rewrite Hmem; exact Hbs). cbv beta.
  assert (length (take (Z.to_nat k) c) = Z.to_nat k) as Htk by (rewrite length_take; lia).
  rewrite Htk, Z2Nat.id by lia.
  assert (written + k < size → rounds s2 (f :: ps2) fuel) as Hrd.
  { intros Hlt. right. split; [|exists f, ps2; split; [done|apply Hemp; lia]].
    destruct Hf as [Hf|[Hf (?&?&->&Ho)]]; [lia|]. destruct Hlen as [(_&Hn&->&[= <- <-]&_)|Hlt']; [|lia].
    exfalso. pose proof (core_front _ _ _ _ _ _ Hr) as (_&b'&_&Hlen'&_&Hfs). rewrite Hfs in E1. injection E1 as <-.
    rewrite Ho in Hlen'. cbn in Hlen'. lia. }
  destruct (decide (written + k < size)) as [Hlt|Hge].
  - destruct (IH s2 O (f :: ps2) pins1 (drop (Z.to_nat k) c) size (written + k) (acc ++ take (Z.to_nat k) c))
      as (s3&ps3&pins3&E4&Hr3&Hw3&Hl3); try done; [lia|rewrite length_drop; lia|by apply Hrd|].
    exists s3, ps3, pins3. rewrite drop_plus in Hr3 by lia. rewrite <- app_assoc, take_plus in E4 by lia.
    replace (k + (size - (written + k))) with (size - written) in * by lia.
    split_and!; try done. congruence.
  - assert (k = size - written) as -> by lia. exists s2, (f :: ps2), pins1. split_and!; try done; [|congruence].
    destruct fuel; cbn [readString_loop]; replace (written + (size - written) <? size) with false
      by (symmetry; apply Z.ltb_ge; lia); done.
Qed.
Lemma ReadString_ok s O ps pins c size :
  lb_rep s O ps pins c → 0 < size ≤ Z.of_nat (length c) →
  ∃ s' ps' pins', ReadString bm readMore size s = Done (inr (take (Z.to_nat size) c), s') ∧
    lb_rep s' O ps' pins' (drop (Z.to_nat size) c).
Proof.
  intros [Hr Hl Hw] Hsz. unfold ReadString.
  replace (size <=? 0) with false by (symmetry; apply Z.leb_gt; lia).
  erewrite bind_done by (apply ensure_enough; lia). cbv beta iota.
  assert (c ≠ []) as Hc by (apply nonempty_length; lia).
  destruct (core_nonempty _ _ _ _ _ Hr Hc) as (f&ps'&->).
  destruct (core_front _ _ _ _ _ _ Hr) as (_&b&Hb&_&_&Hfs). erewrite bind_done by exact Hfs. cbv beta.
  destruct (slice_size b >=? size) eqn:E; breflect.
  - destruct (front_read_rep _ _ _ _ _ _ size Hr Hw Hc)
      as (b'&d&s2&k&Hk&Hk0&Hb'&E3&Hbuf&Hmem&Hd&_&Hbs&Hr2&Hw2&_); [lia|].
    rewrite Hb in Hb'. injection Hb' as <-. assert (k = size) as -> by lia.
    erewrite bind_done by exact E3. cbv beta. erewrite bind_done by done. cbv beta.
    erewrite bind_done by (apply load_view; cbn; rewrite Hmem; exact Hbs). cbv beta.
    eexists _, (f :: ps'), pins. split; [done|]. apply rep_consumed; [done|done|congruence|lia].
  - erewrite bind_done by (by eapply list_fuel_ok). cbv beta.
    destruct (readString_loop_ok (S (length (f :: ps'))) s O (f :: ps') pins c size 0 [])
      as (s2&ps2&pins2&E2&Hr2&Hw2&Hl2); try done; try lia; [left; lia|].
    rewrite Z.sub_0_r in *. erewrite bind_done by exact E2. cbv beta. erewrite bind_done by done. cbv beta.
    eexists _, ps2, pins2. split; [done|]. apply rep_consumed; [done|done|congruence|lia].
Qed.

(** ** Releasing *)

Lemma release_ok s L p :
  al_inv bm (st_heap s) (p :: L) →
  ∃ h', release bm p s = Done (tt, set_heap h' s) ∧ al_inv bm h' L ∧ ∀ q, q ∈ L → same_slice (st_heap s) h' q.
Proof.
  intros HI. pose proof (al_inv_owned _ _ _ HI) as Ho. pose proof (ow_nodup _ _ Ho) as [Hp _]%NoDup_cons.
  destruct (owned_lookup _ _ p Ho) as (b&Hb&_); [set_solver|].
  unfold release. erewrite bind_done by (apply on_heap_ok, get_slice_ok; exact Hb). cbv beta.
  change (set_heap (st_heap s) s) with (LbSt (st_heap s) (st_buf s) (st_allocErrors s)).
  destruct (bs_isFromShm b).
  - destruct (al_recycle_ok bm _ _ _ HI) as (h'&E&HI'&Hs&_). exists h'. split_and!; [|done|done].
    by apply (on_heap_ok _ (LbSt _ _ _)).
  - exists (recycled (st_heap s) (h_mem (st_heap s)) p). split_and!.
    + apply (on_heap_ok _ (LbSt _ _ _)). by eapply putBack_ok.
    + by apply al_putBack.
    + intros q Hq. split; [|done]. cbn. rewrite lookup_insert_ne; [done|]. by intros ->.
Qed.

(** Every slice of the list goes back to where it came from. *)
Lemma recycle_slices_ok ps : ∀ s O,
  al_inv bm (st_heap s) (ps ++ O) → slist_rep (h_slices (st_heap s)) (lb_sliceList (st_buf s)) ps None →
  ∃ s', recycle_slices bm (length ps) s = Done (tt, s') ∧ al_inv bm (st_heap s') O ∧
    slist_rep (h_slices (st_heap s')) (lb_sliceList (st_buf s')) [] None ∧ (∀ q, q ∈ O → same_slice (st_heap s) (st_heap s') q) ∧
    ∃ l, st_buf s' = set_sliceList l (st_buf s).
Proof.
  induction ps as [|p ps IH]; intros s O HI Hl; cbn [recycle_slices length].
  - exists s. split_and!; try done; [|exists (lb_sliceList (st_buf s)); by destruct (st_buf s)].
    unfold buf at 1. erewrite bind_done by done. cbv beta. by rewrite (sr_len _ _ _ _ Hl).
  - unfold buf at 1. erewrite bind_done by done. cbv beta. rewrite (sr_len _ _ _ _ Hl). cbn [length].
    replace (Z.of_nat (S (length ps)) >? 0) with true by (symmetry; apply Z.gtb_lt; lia).
    destruct (sl_popFront_spec _ _ _ _ Hl) as (l&E&_&Hl'). cbn [head tail] in E, Hl'.
    erewrite bind_done; [|unfold popFront; erewrite bind_done by done; cbv beta; erewrite bind_done by (apply on_heap_ok; exact E); cbv beta; by erewrite bind_done by done].
    cbv beta. erewrite bind_done by done. cbv beta. match goal with |- context [(release bm p ≫= _) ?x] => set (s1 := x) end.
    destruct (release_ok s1 (ps ++ O) p HI) as (h'&E2&HI2&Hs2). erewrite bind_done by exact E2. cbv beta.
    destruct (IH (set_heap h' s1) O) as (s'&E'&HI'&Hl''&Hs'&l'&Hb'); [done| |].
    + cbn. eapply slist_rep_same; [exact Hl'|]. intros q Hq. apply Hs2. set_solver.
    + exists s'. split_and!; [exact E'|done|done| |].
      * intros q Hq. destruct (Hs2 q) as [E1 P1]; [set_solver|]. destruct (Hs' q Hq) as [E3 P3]. change (st_heap (set_heap h' s1)) with h' in E3, P3.
        change (st_heap s1) with (st_heap s) in E1, P1. split; [by rewrite E3|].
        intros b Hb. etransitivity; [apply P3; by rewrite E1|by apply P1].
      * exists l'. by rewrite Hb'.
Qed.

(** [recycle] gives all slices of the list back and leaves an empty buffer; the pinned
    slices stay pinned. *)
Lemma recycle_ok ps s O :
  al_inv bm (st_heap s) (ps ++ O) → slist_rep (h_slices (st_heap s)) (lb_sliceList (st_buf s)) ps None →
  ∃ s', recycle bm s = Done (tt, s') ∧ al_inv bm (st_heap s') O ∧ lb_len (st_buf s') = 0 ∧ sl_len (lb_sliceList (st_buf s')) = 0 ∧
    (∀ q, q ∈ O → same_slice (st_heap s) (st_heap s') q).
Proof.
  intros HI Hl. destruct (recycle_slices_ok ps s O HI Hl) as (s'&E&HI'&Hl'&Hs'&l&Hb). unfold recycle.
  unfold list_fuel at 1, buf at 1. erewrite bind_done by done. cbv beta. rewrite (sr_len _ _ _ _ Hl), Nat2Z.id. erewrite bind_done by exact E. cbv beta.
  pose proof (sr_len _ _ _ _ Hl') as Hz. cbn [length] in Hz.
  assert (clean_loop 0 s' = Done (tt, s')) as Ec by (unfold clean_loop, buf; erewrite bind_done by done; cbv beta; by rewrite Hz).
  unfold clean, list_fuel, buf at 1. erewrite bind_done by done. cbv beta. rewrite Hz. cbn [Z.to_nat Z.of_nat]. erewrite bind_done by exact Ec. cbv beta.
  do 4 (erewrite bind_done by done; cbv beta). unfold Len, buf. erewrite bind_done by done. cbv beta. eexists. split; [done|]. cbn. split_and!; [done|lia|done|done].
Qed.

Lemma popPinned_ok s O p ps pins c :
  lb_core s O ps (p :: pins) c →
  ∃ l e, popPinned s = Done (Some p, LbSt (st_heap s) (set_pinnedList l (st_buf s)) (st_allocErrors s)) ∧
    slist_rep (h_slices (st_heap s)) l pins e.
Proof.
  intros []. destruct lr_pins0 as [e Hp]. destruct (sl_popFront_spec _ _ _ _ Hp) as (l&E&_&Hr). exists l, e. split; [|done].
  unfold popPinned. erewrite bind_done by done. cbv beta.
  erewrite bind_done by (apply on_heap_ok; exact E). cbv beta. erewrite bind_done by done. by destruct s.
Qed.

(** All pinned slices are given back; the unread bytes stay. *)
Lemma pinned_loop_ok pins : ∀ s O ps c,
  lb_core s O ps pins c → write_at_end s ps →
  ∃ s', pinned_loop bm (length pins) s = Done (tt, s') ∧ lb_core s' O ps [] c ∧ write_at_end s' ps ∧
    lb_len (st_buf s') = lb_len (st_buf s).
Proof.
  induction pins as [|p pins IH]; intros s O ps c Hr Hw; cbn [pinned_loop length].
  - pose proof Hr as []. destruct lr_pins0 as [e Hp]. exists s. split_and!; try done.
    unfold buf at 1. erewrite bind_done by done. cbv beta. by rewrite (sr_len _ _ _ _ Hp).
  - pose proof Hr as []. destruct lr_pins0 as [e Hp]. unfold buf at 1. erewrite bind_done by done. cbv beta.
    rewrite (sr_len _ _ _ _ Hp). cbn [length].
    replace (Z.of_nat (S (length pins)) >? 0) with true by (symmetry; apply Z.gtb_lt; lia).
    destruct (popPinned_ok _ _ _ _ _ _ Hr) as (l&e'&E&Hl). erewrite bind_done by exact E. cbv beta.
    erewrite bind_done by done. cbv beta. set (s1 := LbSt _ _ _) in *.
    destruct (release_ok s1 (ps ++ pins ++ O) p) as (h'&E2&HI&Hs).
    { eapply al_inv_perm; [|exact lr_own0]. symmetry. apply Permutation_middle. }
    erewrite bind_done by exact E2. cbv beta.
    destruct (IH (set_heap h' s1) O ps c) as (s3&E3&Hr3&Hw3&Hl3).
    + constructor; cbn; try done.
      * eapply slist_rep_same; [exact lr_list0|]. intros q Hq. apply Hs. set_solver.
      * exists e'. eapply slist_rep_same; [exact Hl|]. intros q Hq. apply Hs. set_solver.
      * rewrite <- lr_content0. eapply (contents_same _ _ (ps ++ (p :: pins) ++ O)); [by eapply al_inv_owned|set_solver|].
        intros q Hq. apply same_slice_upto; [|apply Hs; set_solver].
        destruct (rep_member _ _ _ _ _ q Hr Hq) as (b&->&_). eauto.
    + unfold write_at_end in *. cbn. destruct (sl_write _) as [w|].
      * destruct Hw as (pre&post&->&Hbl). exists pre, post. split; [done|]. intros q Hq.
        destruct (Hs q) as [Eq _]; [set_solver|]. unfold blank. rewrite Eq. by apply Hbl.
      * intros q Hq. destruct (Hs q) as [Eq _]; [set_solver|]. unfold blank. rewrite Eq. by apply Hw.
    + exists s3. by split_and!.
Qed.

Lemma cleanPinnedList_ok s O ps pins c :
  lb_core s O ps pins c → write_at_end s ps →
  ∃ s', cleanPinnedList bm s = Done (tt, s') ∧ lb_core s' O ps [] c ∧ write_at_end s' ps ∧
    lb_len (st_buf s') = lb_len (st_buf s).
Proof.
  intros Hr Hw. pose proof Hr as []. destruct lr_pins0 as [e Hp]. unfold cleanPinnedList, buf at 1.
  erewrite bind_done by done. cbv beta. rewrite (sr_len _ _ _ _ Hp).
  destruct (Z.of_nat (length pins) =? 0) eqn:E; breflect.
  - destruct pins; [|done]. by exists s.
  - erewrite bind_done by done. cbv beta. rewrite Nat2Z.id.
    destruct (pinned_loop_ok pins (LbSt (st_heap s) (set_currentPinned false (st_buf s)) (st_allocErrors s)) O ps c)
      as (s'&E'&Hr'&Hw'&Hl'); [by apply rep_flags|done|]. by exists s'.
Qed.

(** [ReleasePreviousRead] gives back what was read and no unread byte. *)
Lemma ReleasePreviousRead_ok s O ps pins c :
  lb_rep s O ps pins c →
  ∃ s' ps', ReleasePreviousRead bm s = Done (tt, s') ∧ lb_rep s' O ps' [] c.
Proof.
  intros [Hr Hl Hw]. unfold ReleasePreviousRead. destruct (cleanPinnedList_ok _ _ _ _ _ Hr Hw) as (s1&E1&Hr1&Hw1&Hl1).
  erewrite bind_done by exact E1. cbv beta. unfold buf at 1. erewrite bind_done by done. cbv beta.
  pose proof (sr_len _ _ _ _ (lr_list _ _ _ _ _ Hr1)) as ->.
  assert (lb_rep s1 O ps [] c) as Hrep by (constructor; [done|congruence|done]).
  destruct ps as [|f ps]; [by exists s1, []|].
  replace (Z.of_nat (length (f :: ps)) =? 0) with false by (symmetry; apply Z.eqb_neq; cbn; lia).
  destruct (core_front _ _ _ _ _ _ Hr1) as (Hf&b&Hb&Hlen&Hcc&_).
  erewrite bind_done by exact Hf. cbv beta. unfold slice_of. rewrite bind_assoc. erewrite bind_done by done. cbv beta.
  erewrite bind_done by (apply on_heap_ok, get_slice_ok; exact Hb). cbv beta.
  change (set_heap (st_heap s1) s1) with (LbSt (st_heap s1) (st_buf s1) (st_allocErrors s1)).
  replace (LbSt (st_heap s1) (st_buf s1) (st_allocErrors s1)) with s1 by (by destruct s1).
  unfold writeSlice, buf at 1. erewrite bind_done by done. cbv beta.
  destruct (slice_size b =? 0) eqn:E0; breflect; [|by exists s1, (f :: ps)]. cbn [andb].
  destruct (bool_decide _) eqn:E2; [|by exists s1, (f :: ps)].
  apply bool_decide_eq_true in E2. destruct (popFront_ok _ _ _ _ _ _ Hr1) as (l&Ep&Hlr&_).
  erewrite bind_done by exact Ep. cbv beta. pose proof Hr1 as [HI _ [e Hp] _]. set (s2 := LbSt _ _ _) in *.
  destruct (al_recycle_ok bm (st_heap s2) (ps ++ [] ++ O) f HI) as (h3&E3&HI3&Hs3&_).
  erewrite bind_done by (apply on_heap_ok; exact E3). cbv beta.
  assert (obj_content (st_heap s1) f = []) as Hobj by (apply nil_length_inv; lia).
  assert (contents h3 ps = c) as Hc3.
  { rewrite Hcc, Hobj. cbn. eapply (contents_same _ _ (ps ++ [] ++ O)); [by eapply al_inv_owned, al_forget|set_solver|].
    intros q Hq. apply same_slice_upto; [|apply Hs3; set_solver].
    destruct (rep_member _ _ _ _ _ q Hr1) as (bq&->&_); [set_solver|eauto]. }
  eexists _, ps. split; [done|]. constructor.
  - constructor; cbn; try done.
    + eapply slist_rep_same; [|intros q Hq; apply Hs3; set_solver]. destruct Hlr. constructor; done.
    + exists e. eapply slist_rep_same; [exact Hp|set_solver].
  - cbn. congruence.
  - unfold write_at_end in *. cbn. rewrite <- E2 in Hw1. destruct Hw1 as (pre&post&Eps&Hbl). intros q Hq.
    pose proof (rep_nodup _ _ _ _ _ Hr1) as Hnd. cbn in Hnd. apply NoDup_cons in Hnd as [Hni _].
    destruct pre as [|x pre]; simplify_eq/=; [|exfalso; set_solver].
    destruct (Hs3 q) as [Eq _]; [set_solver|]. unfold blank. rewrite Eq. by apply Hbl.
Qed.
(** ** Views and copies: ReadBytes *)

(** [append] into the room of a destination in an array of its own. *)
Lemma go_append_ok m a0 n size full d l :
  peek m (Ptr a0 0) size = Some full → slice_bytes m d = Some l → s_len d = Z.of_nat (length l) → s_arr d ≠ a0 →
  0 ≤ n → n + s_len d ≤ size →
  ∃ m' full', go_append (GSlice a0 0 n size) d m = Done (GSlice a0 0 (n + s_len d) size, m') ∧
    (∀ k, k ≠ a0 → m' !! k = m !! k) ∧ peek m' (Ptr a0 0) size = Some full' ∧
    take (Z.to_nat (n + s_len d)) full' = take (Z.to_nat n) full ++ l.
Proof.
  intros Hp Hd Hdl Ha Hn Hle. unfold go_append. cbn [s_len s_cap s_off s_arr].
  replace (n + s_len d <=? size) with true by (symmetry; apply Z.leb_le; lia).
  unfold go_copy. cbn [s_len]. rewrite Z.min_id. pose proof (peek_length _ _ _ _ Hp) as Hfl.
  destruct (s_len d =? 0) eqn:E; breflect.
  - exists m, full. rewrite E, Z.add_0_r. split_and!; [done|done|done|]. destruct l; [by rewrite app_nil_r|cbn in *; lia].
  - assert (in_mem m (Ptr a0 (0 + n)) (Z.of_nat (length l))) as Hin.
    { apply (in_mem_sub m (Ptr a0 0) size n); [by eapply peek_in_mem|lia..]. }
    destruct (poke_ok _ _ _ Hin) as [m' Hm'].
    assert (changes_only m m' [(Ptr a0 (0 + n), Z.of_nat (length l))]) as Hch by (by apply poke_changes).
    assert (in_mem m' (Ptr a0 0) size) as Hin' by (eapply in_mem_poke; [done|by eapply peek_in_mem]).
    destruct (in_mem_peek _ _ _ Hin') as (full'&Hp'&_).
    exists m', full'. split_and!.
    + erewrite bind_done; [done|]. erewrite bind_done by (unfold load_bytes; unfold slice_bytes in Hd; rewrite Hd; done).
      cbv beta. erewrite bind_done by (unfold store_bytes, slice_ptr; cbn [s_arr s_off]; rewrite Hm'; done). done.
    + intros k Hk. unfold poke in Hm'. cbn in Hm'. destruct (m !! a0); [|done].
      destruct (write_at _ _ _); [|done]. injection Hm' as <-. by rewrite lookup_insert_ne.
    + done.
    + assert (peek m' (Ptr a0 0) n = Some (take (Z.to_nat n) full)) as H1.
      { destruct Hch as [Hpk _]. rewrite Hpk; [eapply peek_take; [exact Hp|lia]|]. solve_disj. }
      pose proof (peek_app _ _ _ _ _ _ H1 (peek_poke_same _ _ _ _ Hm')) as H2. rewrite <- Hdl in H2.
      rewrite (peek_take _ _ _ _ (n + s_len d) Hp') in H2 by lia. by injection H2.
Qed.

(** No object of [L] lies in the array [a0], which the allocator does not use. *)
Definition own_array (h : heap) (L : list nat) (a0 : nat) : Prop :=
  al_foreign bm a0 ∧ ∀ p b, p ∈ L → h_slices h !! p = Some b → s_arr (bs_data b) ≠ a0.

Lemma own_array_kept h h' L L' a0 : own_array h L a0 → views_kept h h' L L' → own_array h' L' a0.
Proof.
  intros [Hf Ha] Hv. split; [done|]. intros p b Hp Hb. destruct (Hv p b Hp Hb) as (Hp'&b0&Hb0&->). by eapply Ha.
Qed.

(** Writing to such an array does not touch the buffer. *)
Lemma core_foreign s O ps pins c a0 m' :
  lb_core s O ps pins c → write_at_end s ps → own_array (st_heap s) (ps ++ pins ++ O) a0 →
  (∀ k, k ≠ a0 → m' !! k = h_mem (st_heap s) !! k) →
  lb_core (set_heap (set_mem m' (st_heap s)) s) O ps pins c ∧ write_at_end (set_heap (set_mem m' (st_heap s)) s) ps ∧
  own_array (set_mem m' (st_heap s)) (ps ++ pins ++ O) a0 ∧
  (∀ q, q ∈ ps → obj_content (set_mem m' (st_heap s)) q = obj_content (st_heap s) q).
Proof.
  intros Hr Hw [Hf Ha] Hm.
  assert (∀ q, q ∈ ps ++ pins ++ O → same_slice (st_heap s) (set_mem m' (st_heap s)) q) as Hs.
  { intros q Hq. split; [done|]. intros b Hb. cbn. unfold peek. cbn. rewrite Hm; [done|]. by eapply Ha. }
  split_and!; [|done|done|].
  - apply rep_same; [done| |done]. eapply al_foreign_mem; try done. by destruct Hr.
  - intros q Hq. eapply (obj_content_same _ _ (ps ++ pins ++ O)); [eapply al_inv_owned; by destruct Hr|set_solver|].
    apply same_slice_upto; [|apply Hs; set_solver]. destruct (rep_member _ _ _ _ _ q Hr Hq) as (b&->&_). eauto.
Qed.

Lemma foreign_fresh s O ps pins c a0 :
  lb_core s O ps pins c → h_mem (st_heap s) !! a0 = None → own_array (st_heap s) (ps ++ pins ++ O) a0.
Proof.
  intros [] Ha. split; [by eapply al_fresh_foreign|]. intros p b Hp Hb <-.
  destruct (owned_lookup _ _ p (al_inv_owned _ _ _ lr_own0) Hp) as (b'&Hb'&[]). simplify_eq.
  destruct sw_mem as (_&_&bs&Hbs&_). cbn in Hbs. by rewrite Ha in Hbs.
Qed.
Lemma on_heap_mem {B} (f : M gmem B) s x m' :
  f (h_mem (st_heap s)) = Done (x, m') → on_heap (on_mem f) s = Done (x, set_heap (set_mem m' (st_heap s)) s).
Proof. intros E. apply on_heap_ok. by apply on_mem_ok. Qed.

Lemma readBytes_loop_ok fuel : ∀ s O ps pins c a0 n total full size,
  lb_core s O ps pins c → write_at_end s ps → own_array (st_heap s) (ps ++ pins ++ O) a0 →
  peek (h_mem (st_heap s)) (Ptr a0 0) total = Some full → 0 ≤ n → 0 ≤ size → n + size ≤ total →
  size ≤ Z.of_nat (length c) → (length ps ≤ fuel)%nat →
  ∃ s' ps' pins', readBytes_loop bm fuel (GSlice a0 0 n total) size s = Done (GSlice a0 0 (n + size) total, s') ∧
    slice_bytes (h_mem (st_heap s')) (GSlice a0 0 (n + size) total)
      = Some (take (Z.to_nat n) full ++ take (Z.to_nat size) c) ∧
    lb_core s' O ps' pins' (drop (Z.to_nat size) c) ∧ write_at_end s' ps' ∧
    lb_len (st_buf s') = lb_len (st_buf s).
Proof.
  induction fuel as [|fuel IH]; intros s O ps pins c a0 n total full size Hr Hw Hown Hp Hn Hsz Htot Hlen Hf;
    cbn [readBytes_loop]; (destruct (size >? 0) eqn:E; breflect;
      [|assert (size = 0) as -> by lia; exists s, ps, pins; rewrite Z.add_0_r, app_nil_r; split_and!; try done;
        eapply peek_take; [exact Hp|lia]]);
    assert (c ≠ []) as Hc by (apply nonempty_length; lia);
    destruct (core_nonempty _ _ _ _ _ Hr Hc) as (f&ps2&->); [cbn in Hf; lia|].
  destruct (front_read_rep _ _ _ _ _ _ size Hr Hw Hc)
    as (b&d&s1&k&Hk&Hk0&Hb&E1&Hbuf&Hmem&Hd&Har&Hbs&Hr1&Hw1&Hemp&Hsb&Hv); [lia|].
  erewrite bind_done by exact E1. cbv beta. cbn [fst].
  pose proof (own_array_kept _ _ _ _ _ Hown Hv) as Hown1. rewrite <- Hmem in Hbs, Hp.
  assert (s_len d = Z.of_nat (length (take (Z.to_nat k) c))) as Hdl by (rewrite length_take; lia).
  destruct (go_append_ok _ a0 n total full d _ Hp Hbs Hdl) as (m2&full2&E2&Hoff&Hp2&Htk); [|lia|lia|].
  { rewrite Har. destruct Hown as [_ Ha]. eapply Ha; [|exact Hb]. set_solver. }
  erewrite bind_done by (apply on_heap_mem; exact E2). cbv beta.
  destruct (core_foreign _ _ _ _ _ _ _ Hr1 Hw1 Hown1 Hoff) as (Hr2&Hw2&Hown2&Hobs). rewrite Hd in *.
  set (s2 := set_heap (set_mem m2 (st_heap s1)) s1) in *.
  assert (length (take (Z.to_nat n) full) = Z.to_nat n) as Hln.
  { pose proof (peek_length _ _ _ _ Hp). rewrite length_take. lia. }
  destruct (decide (k = size)) as [->|Hne].
  - rewrite (proj2 (Z.eqb_eq size size) eq_refl). cbn [negb]. erewrite bind_done by done. cbv beta. rewrite Z.sub_diag.
    exists s2, (f :: ps2), pins. split_and!; try done.
    + by destruct fuel.
    + unfold slice_bytes, slice_ptr. cbn. rewrite (peek_take _ _ _ _ (n + size) Hp2) by lia. f_equal. by rewrite Htk.
    + cbn. by rewrite Hbuf.
  - replace (k =? size) with false by (symmetry; by apply Z.eqb_neq). cbn [negb].
    assert (obj_content (st_heap s2) f = []) as Hemp2 by (cbn; rewrite Hobs by set_solver; apply Hemp; lia).
    destruct (readNextSlice_ok _ _ _ _ _ _ Hr2 Hemp2) as (s3&pins3&E3&Hr3&Hl3&Hsw3&Hs3&Hfor&Hv3&_).
    assert (drop (Z.to_nat k) c ≠ []) as Hc2 by (apply nonempty_length; rewrite length_drop; lia).
    erewrite bind_done by exact E3. cbv beta.
    destruct (IH s3 O ps2 pins3 (drop (Z.to_nat k) c) a0 (n + k) total full2 (size - k))
      as (s4&ps4&pins4&E4&Hb4&Hr4&Hw4&Hl4); try done; try lia.
    + eapply write_pop; [exact Hr2|done|done|done|done|done].
    + by eapply own_array_kept.
    + rewrite Hfor; [exact Hp2|apply Hown].
    + rewrite length_drop. lia.
    + cbn in Hf. lia.
    + exists s4, ps4, pins4. rewrite drop_plus in Hr4 by lia.
      replace (k + (size - k)) with size in * by lia. replace (n + k + (size - k)) with (n + size) in * by lia.
      rewrite Htk, <- app_assoc, take_plus in Hb4 by lia. replace (k + (size - k)) with size in * by lia.
      split_and!; try done. rewrite Hl4, Hl3. cbn. by rewrite Hbuf.
Qed.

Context (dirt : nat → list Z).
Hypothesis dirt_length : ∀ n, length (dirt n) = n.

Lemma ReadBytes_ok s O ps pins c size :
  lb_rep s O ps pins c → 0 < size ≤ Z.of_nat (length c) →
  ∃ s' ps' pins' d, ReadBytes bm readMore dirt size s = Done (inr d, s') ∧
    slice_bytes (h_mem (st_heap s')) d = Some (take (Z.to_nat size) c) ∧
    lb_rep s' O ps' pins' (drop (Z.to_nat size) c).
Proof.
  intros [Hr Hl Hw] Hsz. unfold ReadBytes.
  replace (size <=? 0) with false by (symmetry; apply Z.leb_gt; lia).
  erewrite bind_done by (apply ensure_enough; lia). cbv beta iota.
  assert (c ≠ []) as Hc by (apply nonempty_length; lia).
  destruct (skip_empty_ok _ _ _ _ _ Hr Hw Hc) as (s1&ps1&pins1&n&E1&E2&Hr1&Hw1&Hl1&_).
  erewrite bind_done by exact E1. cbv beta. erewrite bind_done by exact E2. cbv beta.
  destruct (core_nonempty _ _ _ _ _ Hr1 Hc) as (f&ps2&->).
  destruct (core_front _ _ _ _ _ _ Hr1) as (_&b&Hb&_&_&Hfs). erewrite bind_done by exact Hfs. cbv beta.
  destruct (slice_size b >=? size) eqn:E; breflect.
  - erewrite bind_done by done. cbv beta. erewrite bind_done by done. cbv beta.
    set (s2 := LbSt _ _ _). 
    assert (lb_core s2 O (f :: ps2) pins1 c) as Hr2 by (by apply (rep_flags s1)).
    assert (write_at_end s2 (f :: ps2)) as Hw2 by exact Hw1.
    destruct (front_read_rep _ _ _ _ _ _ size Hr2 Hw2 Hc)
      as (b'&d&s3&k&Hk&Hk0&Hb'&E3&Hbuf&Hmem&Hd&_&Hbs&Hr3&Hw3&_); [lia|].
    change (h_slices (st_heap s2)) with (h_slices (st_heap s1)) in Hb'. rewrite Hb in Hb'. injection Hb' as <-.
    assert (k = size) as -> by lia. erewrite bind_done by exact E3. cbv beta.
    exists s3, (f :: ps2), pins1, d. split_and!; [done|by rewrite Hmem|].
    constructor; [done| |done]. rewrite Hbuf. cbn. rewrite Hl1, Hl. len.
  - erewrite bind_done by done. cbv beta.
    set (s2 := LbSt (st_heap s1) _ _).
    assert (lb_core s2 O (f :: ps2) pins1 c) as Hr2 by (by apply (rep_flags s1)).
    assert (write_at_end s2 (f :: ps2)) as Hw2 by exact Hw1.
    set (a0 := fresh_key (h_mem (st_heap s2))). set (m3 := <[a0 := dirt (Z.to_nat size)]> (h_mem (st_heap s2))).
    assert (dirtmake_Bytes dirt size (h_mem (st_heap s2)) = Done (GSlice a0 0 0 size, m3)) as E3 by done.
    pose proof (foreign_fresh _ _ _ _ _ a0 Hr2 (fresh_key_None _)) as Hown.
    destruct (core_foreign s2 O (f :: ps2) pins1 c a0 m3 Hr2 Hw2 Hown) as (Hr3&Hw3&Hown3&_).
    { intros k Hk. unfold m3. by rewrite lookup_insert_ne. }
    erewrite bind_done by (apply on_heap_mem; exact E3). cbv beta.
    erewrite bind_done by (by eapply list_fuel_ok). cbv beta.
    destruct (readBytes_loop_ok (S (length (f :: ps2))) _ O (f :: ps2) pins1 c a0 0 size (dirt (Z.to_nat size)) size Hr3 Hw3 Hown3)
      as (s4&ps4&pins4&E4&Hb4&Hr4&Hw4&Hl4); try lia.
    { cbn. unfold peek, m3. cbn. rewrite lookup_insert_eq. rewrite read_at_ok; [|lia|lia|rewrite dirt_length; lia].
      f_equal. cbn. apply take_ge. rewrite dirt_length. lia. }
    rewrite Z.add_0_l in E4, Hb4. erewrite bind_done by exact E4. cbv beta. exists s4, ps4, pins4, (GSlice a0 0 size size).
    split_and!; [done|by rewrite Hb4|]. constructor; [done| |done]. rewrite Hl4. cbn. rewrite Hl1, Hl. len.
Qed.
End facts.
