(* ===== verification/LinkedBufferReserve.v ===== *)
(** * Reserving ([buffer.go] [Reserve])

    [Reserve] hands out a part of a slice that the caller fills afterwards.  Whichever of
    its three ways it takes (the write slice, the slice behind it, a new slice), the
    bytes that are stored there are the next bytes of the buffer. *)

From Stdlib Require Import ZArith Lia.
From stdpp Require Import prelude list gmap strings.
From S2P Require Import Prelude GoMem BufferSlice BufferList Allocator LinkedBuffer LinkedBufferProofs.

(** Reserving and storing is appending. *)
Lemma append_is_reserve h p b bs n h' : h_slices h !! p = Some b → slice_wf (h_mem h) b → bs ≠ [] →
  Z.of_nat (length bs) ≤ slice_remain b → slice_append p bs h = Done (n, h') →
  ∃ d, slice_reserve p (Z.of_nat (length bs)) h
         = Done (inr d, upd_slice h p (with_indices b (bs_readIndex b) (bs_writeIndex b + Z.of_nat (length bs)))) ∧
    d = GSlice (s_arr (bs_data b)) (s_off (bs_data b) + bs_writeIndex b) (Z.of_nat (length bs)) (s_cap (bs_data b) - bs_writeIndex b) ∧
    on_mem (store_bytes (slice_ptr d) bs) (upd_slice h p (with_indices b (bs_readIndex b) (bs_writeIndex b + Z.of_nat (length bs)))) = Done (tt, h').
Proof.
  intros Hp Hwf Hne Hle E. pose proof Hwf as []. unfold slice_remain in Hle. assert (0 < length bs)%nat by (destruct bs; [done|cbn; lia]).
  destruct (slice_reserve_spec h p b (Z.of_nat (length bs)) Hp Hwf ltac:(lia)) as [Hfit _].
  eexists. split; [|split; [reflexivity|]].
  - unfold slice_reserve. erewrite bind_done by (by apply get_slice_ok). cbv beta zeta. unfold slice_remain. rewrite Z.geb_leb. bdecide.
    erewrite bind_done by apply set_slice_ok. cbv beta. erewrite bind_done by (apply subslice_ok; lia). cbv beta.
    unfold mret, M_ret. do 4 f_equal. lia.
  - unfold slice_append in E. replace (Z.of_nat (length bs) =? 0) with false in E by (symmetry; apply Z.eqb_neq; lia).
    erewrite bind_done in E by (by apply get_slice_ok). cbv beta in E. erewrite bind_done in E by (apply subslice_ok; lia). cbv beta zeta in E.
    cbn [s_len] in E. rewrite Z.min_r in E by lia. replace (Z.of_nat (length bs) =? 0) with false in E by (symmetry; apply Z.eqb_neq; lia).
    rewrite Nat2Z.id, firstn_all in E. unfold slice_ptr in *. cbn [s_arr s_off] in *.
    unfold on_mem, zoom, store_bytes, mbind, M_bind in E |- *. cbn [h_mem upd_slice] in *.
    destruct (poke (h_mem h) _ bs) as [m'|]; [|done]. cbn in E. injection E as <- <-. done.
Qed.

Section reserve.
Context {A : Type} `{AllocatorLaws A} (bm : A).

(** What the caller may do with a reserved part. *)
Definition fillable (s : lbst) (d : gslice) (size : Z) (O pins : list nat) (c : list Z) : Prop :=
  s_len d = size ∧ ∀ bs, Z.of_nat (length bs) = size →
    ∃ s' ps', on_heap (on_mem (store_bytes (slice_ptr d) bs)) s = Done (tt, s') ∧ lb_rep bm s' O ps' pins (c ++ bs).

Lemma reserve_at s O pre w post pins c b size :
  lb_core bm s O (pre ++ w :: post) pins c → (∀ q, q ∈ post → blank (st_heap s) q) → h_slices (st_heap s) !! w = Some b → 0 < size ≤ slice_remain b →
  ∃ d h1, slice_reserve w size (st_heap s) = Done (inr d, h1) ∧ s_len d = size ∧
    ∀ bs, Z.of_nat (length bs) = size → ∃ h2, on_mem (store_bytes (slice_ptr d) bs) h1 = Done (tt, h2) ∧
      lb_core bm (set_heap h2 s) O (pre ++ w :: post) pins (c ++ bs) ∧ (∀ q, q ∈ post → blank h2 q).
Proof.
  intros Hr Hbl Hb Hsz. pose proof Hr as []. destruct (owned_lookup _ _ w (al_inv_owned _ _ _ lr_own) ltac:(set_solver)) as (b'&Hb'&Hwf). rewrite Hb in Hb'. injection Hb' as <-.
  set (d := GSlice (s_arr (bs_data b)) (s_off (bs_data b) + bs_writeIndex b) size (s_cap (bs_data b) - bs_writeIndex b)).
  exists d, (upd_slice (st_heap s) w (with_indices b (bs_readIndex b) (bs_writeIndex b + size))).
  assert (∀ bs, Z.of_nat (length bs) = size → ∃ n s', on_heap (slice_append w bs) s = Done (n, s') ∧
    slice_reserve w size (st_heap s) = Done (inr d, upd_slice (st_heap s) w (with_indices b (bs_readIndex b) (bs_writeIndex b + size))) ∧
    on_mem (store_bytes (slice_ptr d) bs) (upd_slice (st_heap s) w (with_indices b (bs_readIndex b) (bs_writeIndex b + size))) = Done (tt, st_heap s') ∧
    s' = set_heap (st_heap s') s ∧ lb_core bm s' O (pre ++ w :: post) pins (c ++ bs) ∧ (∀ q, q ∈ post → blank (st_heap s') q)) as Hall.
  { intros bs Hlen. destruct (append_ok bm s O pre w post pins c bs Hr Hbl) as (b0&n&s'&Hb0&Hn&_&E&Ebuf&Hr'&Hbl'&_). rewrite Hb in Hb0. injection Hb0 as <-.
    unfold on_heap, zoom in E. destruct (slice_append w bs (st_heap s)) as [[k h']| |] eqn:Ea; [|done|done]. injection E as -> <-.
    destruct (append_is_reserve (st_heap s) w b bs n h' Hb Hwf) as (d0&E1&->&E2); [by intros ->; cbn in Hlen; lia|lia|done|]. rewrite Hlen in E1, E2.
    eexists n, _. split; [unfold on_heap, zoom; by rewrite Ea|]. split_and!; try done.
    rewrite Hn, Z.min_r, Nat2Z.id, firstn_all in Hr' by lia. exact Hr'. }
  destruct (Hall (replicate (Z.to_nat size) 0)) as (_&_&_&E&_); [rewrite length_replicate; lia|]. split_and!; [exact E|done|].
  intros bs Hlen. destruct (Hall bs Hlen) as (_&s'&_&_&E2&Es&Hr'&Hbl'). exists (st_heap s'). rewrite <- Es. done.
Qed.

(** The buffer afterwards: the write slice is the one that was used. *)
Lemma fill_rep s h2 O pre w post pins c bs e buf' :
  lb_core bm (set_heap h2 s) O (pre ++ w :: post) pins (c ++ bs) → (∀ q, q ∈ post → blank h2 q) → lb_len (st_buf s) = Z.of_nat (length c) →
  buf' = add_len (Z.of_nat (length bs)) (set_write (Some w) (st_buf s)) → lb_rep bm (LbSt h2 buf' e) O (pre ++ w :: post) pins (c ++ bs).
Proof.
  intros Hr Hbl Hlen ->. constructor.
  - apply (core_write bm _ _ _ _ _ (Some w)) in Hr. by apply (rep_flags bm _ _ e _ _ _ _ Hr).
  - cbn. rewrite Hlen, length_app. lia.
  - exists pre, post. done.
Qed.

Lemma reserve_finish s O pre w post pins c b size e buf' :
  lb_core bm s O (pre ++ w :: post) pins c → (∀ q, q ∈ post → blank (st_heap s) q) → h_slices (st_heap s) !! w = Some b → 0 < size ≤ slice_remain b →
  lb_len (st_buf s) = Z.of_nat (length c) → buf' = add_len size (set_write (Some w) (st_buf s)) →
  ∃ d h1, slice_reserve w size (st_heap s) = Done (inr d, h1) ∧ fillable (LbSt h1 buf' e) d size O pins c.
Proof.
  intros Hr Hbl Hb Hsz Hlen Ebuf. destruct (reserve_at s O pre w post pins c b size Hr Hbl Hb Hsz) as (d&h1&E&Hd&Hfill).
  exists d, h1. split; [done|]. split; [done|]. intros bs Hbs. destruct (Hfill bs Hbs) as (h2&E2&Hr2&Hbl2). exists (LbSt h2 buf' e), (pre ++ w :: post).
  split; [by apply (on_heap_ok _ (LbSt h1 buf' e) tt h2)|]. eapply fill_rep; [exact Hr2|exact Hbl2|done|by rewrite Hbs].
Qed.

Lemma reserve_no_room s p b size : h_slices (st_heap s) !! p = Some b → slice_remain b < size → on_heap (slice_reserve p size) s = Done (inl ErrNoMoreBuffer, s).
Proof.
  intros Hb Hlt. rewrite (on_heap_ok _ s (inl ErrNoMoreBuffer) (st_heap s)); [by destruct s|]. unfold slice_reserve.
  erewrite bind_done by (by apply get_slice_ok). cbv beta zeta. rewrite Z.geb_leb. bdecide. done.
Qed.

Definition reserve_third (size : Z) : M lbst (error + gslice) :=
  r ← on_heap (al_allocShmBuffer bm (u32 size));
  _ ← match r with
      | inr b => pushBack b
      | inl _ =>
          let allocSize := if size <? defaultSingleBufferSize then defaultSingleBufferSize else size in
          d ← on_heap (on_mem (make_bytes allocSize));
          p ← on_heap (newBufferSlice None d 0 false);
          _ ← pushBack p;
          upd_buf (set_isFromShm false)
      end;
  bk ← buf (λ b, sl_back (lb_sliceList b));
  _ ← upd_buf (set_write bk);
  _ ← upd_buf (add_len size);
  w ← the bk;
  on_heap (slice_reserve w size).

(** Step three: a new slice, from the shared memory or from the process. *)
Lemma reserve_new s O ps pins c size :
  lb_core bm s O ps pins c → lb_len (st_buf s) = Z.of_nat (length c) → 0 < size < 2 ^ 32 →
  ∃ d s1, reserve_third size s = Done (inr d, s1) ∧ fillable s1 d size O pins c.
Proof.
  intros Hr Hlen Hsz. unfold reserve_third. rewrite u32_small by lia.
  assert (∀ s2 p b, lb_core bm s2 O (ps ++ [p]) pins c → h_slices (st_heap s2) !! p = Some b → bs_writeIndex b = 0 → size ≤ bs_cap b →
    lb_len (st_buf s2) = Z.of_nat (length c) →
    ∃ d s1, (bk ← buf (λ b, sl_back (lb_sliceList b)); _ ← upd_buf (set_write bk); _ ← upd_buf (add_len size); w ← the bk; on_heap (slice_reserve w size)) s2
      = Done (inr d, s1) ∧ fillable s1 d size O pins c) as Hend.
  { intros s2 p b Hr2 Hb Hw Hcap Hl2. pose proof (sr_back _ _ _ _ (lr_list _ _ _ _ _ _ Hr2)) as Hbk. rewrite last_snoc in Hbk.
    destruct (reserve_finish s2 O ps p [] pins c b size (st_allocErrors s2) (add_len size (set_write (Some p) (st_buf s2))) Hr2) as (d&h1&E&Hf);
      [by intros q ?%not_elem_of_nil|done|unfold slice_remain; lia|done|done|].
    exists d. eexists. split; [|exact Hf]. erewrite bind_done by (unfold buf, reads; rewrite Hbk; done). cbv beta.
    erewrite bind_done by done. cbv beta. erewrite bind_done by done. cbv beta. erewrite bind_done by done. cbv beta.
    by apply (on_heap_ok _ (LbSt (st_heap s2) _ _)). }
  destruct (al_alloc_ok bm (st_heap s) (ps ++ pins ++ O) size (lr_own _ _ _ _ _ _ Hr) ltac:(lia))
    as [(p&b&h'&E&HI&Hb&(Hri&Hwi&Hcap&Hnx)&Hfit&_&Hsame)|(h'&E&HI&Hsame)].
  - destruct (pushBack_ok bm s h' O ps pins c p b Hr HI Hsame Hb Hri Hwi Hcap Hnx) as (s2&E2&Hr2&Hb2&_&_&_&[l Hbuf]&_).
    destruct (Hend s2 p b Hr2 Hb2 Hwi Hfit) as (d&s1&E3&Hf); [by rewrite Hbuf|]. exists d, s1. split; [|exact Hf].
    erewrite bind_done by (apply on_heap_ok; exact E). cbv beta iota. by erewrite bind_done by exact E2.
  - set (n := if size <? defaultSingleBufferSize then defaultSingleBufferSize else size).
    assert (0 < n < 2 ^ 32 ∧ size ≤ n) as [Hn Hsn] by (unfold n, defaultSingleBufferSize; destruct (size <? 4096) eqn:?; breflect; lia).
    destruct (al_new_proc bm h' (ps ++ pins ++ O) n HI Hn) as (d&p&h2&_&Em&En&HI2&Hb&Hcap&Hsame2).
    pose proof (rep_same bm s h' O ps pins c Hr HI Hsame) as Hr1.
    destruct (pushBack_ok bm (set_heap h' s) h2 O ps pins c p (proc_slice d) Hr1 HI2 Hsame2 Hb) as (s2&E2&Hr2&Hb2&_&_&_&[l Hbuf]&_); try done.
    { cbn. rewrite Hcap, u32_small; lia. }
    destruct (Hend (LbSt (st_heap s2) (set_isFromShm false (st_buf s2)) (st_allocErrors s2)) p (proc_slice d)) as (d'&s1&E3&Hf).
    { by apply rep_flags. } { done. } { done. } { cbn. rewrite Hcap, u32_small; lia. } { cbn. by rewrite Hbuf. }
    exists d', s1. split; [|exact Hf]. erewrite bind_done by (apply on_heap_ok; exact E). cbv beta iota zeta. fold n.
    erewrite bind_done; [exact E3|]. erewrite bind_done by (apply on_heap_ok, on_mem_ok; exact Em). cbv beta.
    erewrite bind_done by (apply on_heap_ok; exact En). cbv beta. erewrite bind_done by exact E2. done.
Qed.

Lemma set_write_same b w : sl_write (lb_sliceList b) = Some w → set_write (Some w) b = b.
Proof. intros E. destruct b as [[f w' bk n] ? ? ? ? ? ?]. cbn in *. by rewrite E. Qed.

(** The rest of [Reserve] when there is a write slice. *)
Definition reserve_rest (size : Z) : M lbst (error + gslice) :=
  w ← writeSlice;
  w ← the w;
  r ← on_heap (slice_reserve w size);
  match r with
  | inr d => _ ← upd_buf (add_len size); mret (inr d)
  | inl _ =>
      nx ← on_heap (slice_next w);
      r ← match nx with
          | Some e => r ← on_heap (slice_reserve e size); mret (r, nx)
          | None => mret (inl ErrNoMoreBuffer, None)
          end;
      match r with
      | (inr d, e) => _ ← upd_buf (set_write e); _ ← upd_buf (add_len size); mret (inr d)
      | (inl _, _) => reserve_third size
      end
  end.

Lemma reserve_rest_ok s O pre w post pins c size :
  lb_core bm s O (pre ++ w :: post) pins c → (∀ q, q ∈ post → blank (st_heap s) q) → sl_write (lb_sliceList (st_buf s)) = Some w →
  lb_len (st_buf s) = Z.of_nat (length c) → 0 < size < 2 ^ 32 → ∃ d s1, reserve_rest size s = Done (inr d, s1) ∧ fillable s1 d size O pins c.
Proof.
  intros Hr Hbl Hw Hlen Hsz. pose proof (al_inv_owned _ _ _ (lr_own _ _ _ _ _ _ Hr)) as Ho.
  destruct (owned_lookup _ _ w Ho ltac:(set_solver)) as (b&Hb&_). destruct (reserve_new s O _ pins c size Hr Hlen Hsz) as (d3&s3&E3&Hf3).
  unfold reserve_rest. erewrite bind_done by (unfold writeSlice, buf, reads; rewrite Hw; done). cbv beta. erewrite bind_done by done. cbv beta.
  destruct (decide (size ≤ slice_remain b)) as [Hfit|Hno].
  - destruct (reserve_finish s O pre w post pins c b size (st_allocErrors s) (add_len size (st_buf s)) Hr Hbl Hb) as (d&h1&E&Hf);
      [lia|done|by rewrite (set_write_same _ _ Hw)|]. exists d. eexists. split; [|exact Hf].
    erewrite bind_done by (apply on_heap_ok; exact E). cbv beta iota. by erewrite bind_done by done.
  - erewrite bind_done by (apply (reserve_no_room s w b); [done|lia]). cbv beta iota.
    erewrite bind_done by (by eapply core_next). cbv beta. destruct post as [|q post]; cbn [head].
    + erewrite bind_done by done. exists d3, s3. exact (conj E3 Hf3).
    + destruct (Hbl q ltac:(set_solver)) as (bq&Hbq&Hrq&Hwq&Hcq). destruct (decide (size ≤ slice_remain bq)) as [Hfit|Hno2].
      * rewrite (cons_middle w) in Hr. rewrite app_assoc in Hr.
        destruct (reserve_finish s O (pre ++ [w]) q post pins c bq size (st_allocErrors s) (add_len size (set_write (Some q) (st_buf s))) Hr) as (d&h1&E&Hf);
          [set_solver|done|lia|done|done|]. exists d. eexists. split; [|exact Hf].
        erewrite bind_done by (erewrite bind_done by (apply on_heap_ok; exact E); done). cbv beta iota.
        erewrite bind_done by done. cbv beta. by erewrite bind_done by done.
      * erewrite bind_done by (erewrite bind_done by (apply (reserve_no_room s q bq); [done|lia]); done). cbv beta iota. exists d3, s3. exact (conj E3 Hf3).
Qed.

Lemma Reserve_ok s O ps pins c size : lb_rep bm s O ps pins c → 0 < size < 2 ^ 32 →
  ∃ d s1, Reserve bm size s = Done (inr d, s1) ∧ fillable s1 d size O pins c.
Proof.
  intros Hrep Hsz. destruct (first_alloc_ok bm s O ps pins c size Hrep Hsz) as (s0&pre&w&post&E0&Hr&Hbl&Hw&Hl).
  assert (Reserve bm size s = reserve_rest size s0) as ->.
  { unfold Reserve. rewrite u32_small by lia. rewrite <- (bind_done _ (λ _, reserve_rest size) _ _ _ E0). unfold mbind at 1, M_bind at 1. unfold mbind at 6, M_bind at 6.
    unfold reserve_rest, reserve_third. rewrite u32_small by lia. unfold mbind, M_bind. by destruct (writeSlice s) as [[[?|] ?]| |]. }
  eapply reserve_rest_ok; [exact Hr|done|done|rewrite Hl; apply Hrep|done].
Qed.

(** One byte: into the write slice, or the slice behind it, which is there since a new
    one was allocated at the end. *)
Lemma WriteByte_ok s O ps pins c x : lb_rep bm s O ps pins c → ∃ s' ps', WriteByte bm x s = Done (tt, s') ∧ lb_rep bm s' O ps' pins (c ++ [x]).
Proof.
  intros Hrep. destruct (first_alloc_ok bm s O ps pins c 1 Hrep ltac:(lia)) as (s0&pre&w&post&E0&Hr&Hbl&Hw&Hl).
  destruct (append_ok bm s0 O pre w post pins c [x] Hr Hbl) as (b&n&s1&Hb&En&Hn&E1&Ebuf&Hr1&Hbl1&_). cbn [length] in En.
  assert (lb_len (st_buf s1) = Z.of_nat (length c)) as Hlen by (rewrite Ebuf, Hl; apply Hrep).
  set (rest := w ← writeSlice; w ← the w; n ← on_heap (slice_append w [x]);
    if n =? 1 then upd_buf (add_len 1)
    else _ ← alloc bm 1; nx ← on_heap (slice_next w); _ ← upd_buf (set_write nx); w ← the nx; _ ← on_heap (slice_append w [x]); upd_buf (add_len 1)).
  assert (WriteByte bm x s = rest s0) as ->.
  { unfold WriteByte. fold rest. rewrite <- (bind_done _ (λ _, rest) _ _ _ E0). unfold mbind, M_bind. by destruct (writeSlice s) as [[[?|] ?]| |]. }
  unfold rest. erewrite bind_done by (unfold writeSlice, buf, reads; rewrite Hw; done). cbv beta. erewrite bind_done by done. cbv beta.
  erewrite bind_done by exact E1. cbv beta. destruct (n =? 1) eqn:E; breflect.
  - subst n. eexists _, (pre ++ w :: post). split; [done|]. rewrite E in Hr1. cbn in Hr1. constructor; [by apply (rep_flags bm s1)| |].
    + cbn. rewrite Hlen, length_app. cbn. lia.
    + unfold write_at_end. cbn. rewrite Ebuf, Hw. by exists pre, post.
  - assert (n = 0) as -> by lia. cbn in Hr1. rewrite app_nil_r in Hr1. destruct (alloc_ok bm s1 O _ pins c 1 Hr1 ltac:(lia)) as (s2&qs&E2&[]).
    erewrite bind_done by exact E2. cbv beta. rewrite <- (app_assoc pre) in ad_rep. cbn in ad_rep.
    erewrite bind_done by (by eapply core_next). cbv beta. destruct (post ++ qs) as [|q post2] eqn:Ep; [by apply app_nil in Ep as [_ ?]|]. cbn [head].
    assert (∀ r, r ∈ q :: post2 → blank (st_heap s2) r) as Hbl2.
    { rewrite <- Ep. intros r [Hq|Hq]%elem_of_app; [|by apply ad_blank]. eapply blank_upto; [apply ad_upto; set_solver|by apply Hbl1]. }
    erewrite bind_done by done. cbv beta. erewrite bind_done by done. cbv beta.
    rewrite (cons_middle w) in ad_rep. rewrite app_assoc in ad_rep. apply (core_write bm _ _ _ _ _ (Some q)) in ad_rep.
    destruct (append_ok bm _ O (pre ++ [w]) q post2 pins c [x] ad_rep) as (b2&k&s3&Hb2&Ek&_&E3&Ebuf3&Hr3&Hbl3&_); [set_solver|].
    destruct (Hbl2 q ltac:(set_solver)) as (b3&Hb3&_&Hwi&Hcap). cbn in Hb2. rewrite Hb2 in Hb3. injection Hb3 as <-. unfold slice_remain in Ek. cbn [length] in Ek.
    assert (k = 1) as -> by lia. erewrite bind_done by exact E3. cbv beta. eexists _, _. split; [done|]. cbn in Hr3.
    constructor; [by apply (rep_flags bm s3)| |].
    + cbn. rewrite Ebuf3. cbn. rewrite ad_len, Hlen, length_app. cbn. lia.
    + unfold write_at_end. cbn. rewrite Ebuf3. cbn. by exists (pre ++ [w]), post2.
Qed.
End reserve.
