(* ===== verification/LinkedBufferPeek.v ===== *)
(** * Peeking ([buffer.go] [Peek])

    [Peek] shows the first bytes without consuming them: a view of the first slice when
    it holds them all, a copy gathered from the slices otherwise. *)

From Stdlib Require Import ZArith Lia.
From stdpp Require Import prelude list gmap strings.
From S2P Require Import Prelude GoMem BufferSlice BufferList Allocator LinkedBuffer LinkedBufferProofs.

Lemma nodup_size (T : gmap nat bufferSlice) ps : NoDup ps → (∀ p, p ∈ ps → is_Some (T !! p)) → (length ps ≤ size T)%nat.
Proof.
  intros Hnd Hin. rewrite <- size_dom. rewrite <- (size_list_to_set (C := gset nat) ps Hnd). apply subseteq_size. intros p Hp%elem_of_list_to_set.
  by apply elem_of_dom, Hin.
Qed.

Section peek.
Context {A : Type} `{AllocatorLaws A} (bm : A).
Context (readMore : Z → M lbst (option error)).

(** One slice of the buffer. *)
Lemma peek_one s O ps pins c q size : lb_core bm s O ps pins c → q ∈ ps → 0 ≤ size →
  ∃ b d e, h_slices (st_heap s) !! q = Some b ∧ on_heap (slice_peek q size) s = Done ((d, e), s) ∧
    s_len d = Z.min size (Z.of_nat (length (obj_content (st_heap s) q))) ∧ s_arr d = s_arr (bs_data b) ∧
    slice_bytes (h_mem (st_heap s)) d = Some (take (Z.to_nat size) (obj_content (st_heap s) q)).
Proof.
  intros Hr Hq Hsz. pose proof (al_inv_owned _ _ _ (lr_own _ _ _ _ _ _ Hr)) as Ho.
  destruct (rep_member bm _ _ _ _ _ q Hr Hq) as (b&Hb&_). destruct (obj_content_some _ _ q b Ho ltac:(set_solver) Hb) as (Hl&Hlen&Hw).
  destruct (slice_peek_spec _ q b _ size Hb Hw Hl Hsz) as (d&E&Hd&Ha&Hbs). exists b, d. eexists. split_and!; [done| |by rewrite Hd, Hlen|done|].
  - rewrite (on_heap_ok _ s _ (st_heap s) E). by destruct s.
  - rewrite Hbs. f_equal. destruct (decide (size ≤ slice_size b)); [by rewrite Z.min_l by lia|]. rewrite Z.min_r by lia. rewrite !take_ge by lia. done.
Qed.

Lemma peek_loop_ok qs : ∀ fuel s O pre pins c a0 n total full size,
  lb_core bm s O (pre ++ qs) pins c → write_at_end s (pre ++ qs) → own_array bm (st_heap s) ((pre ++ qs) ++ pins ++ O) a0 →
  peek (h_mem (st_heap s)) (Ptr a0 0) total = Some full → 0 ≤ n → 0 ≤ size → n + size ≤ total →
  size ≤ Z.of_nat (length (contents (st_heap s) qs)) → (length qs ≤ fuel)%nat →
  ∃ s', peek_loop fuel (head qs) (GSlice a0 0 n total) size s = Done (GSlice a0 0 (n + size) total, s') ∧
    slice_bytes (h_mem (st_heap s')) (GSlice a0 0 (n + size) total) = Some (take (Z.to_nat n) full ++ take (Z.to_nat size) (contents (st_heap s) qs)) ∧
    lb_core bm s' O (pre ++ qs) pins c ∧ write_at_end s' (pre ++ qs) ∧ st_buf s' = st_buf s.
Proof.
  induction qs as [|q qs IH]; intros fuel s O pre pins c a0 n total full size Hr Hw Hown Hp Hn Hsz Htot Hlen Hf.
  { cbn in Hlen. assert (size = 0) as -> by lia. exists s. rewrite Z.add_0_r, app_nil_r. split_and!; try done; [by destruct fuel|]. eapply peek_take; [exact Hp|lia]. }
  destruct fuel as [|fuel]; [cbn in Hf; lia|]. cbn [head peek_loop]. destruct (size >? 0) eqn:E; breflect.
  2: { assert (size = 0) as -> by lia. exists s. rewrite Z.add_0_r, app_nil_r. split_and!; try done. eapply peek_take; [exact Hp|lia]. }
  destruct (peek_one s O _ pins c q size Hr ltac:(set_solver) Hsz) as (b&d&e&Hb&E1&Hd&Ha&Hbs). set (oc := obj_content (st_heap s) q) in *.
  erewrite bind_done by exact E1. cbv beta. cbn [fst]. set (k := Z.min size (Z.of_nat (length oc))) in *.
  assert (s_len d = Z.of_nat (length (take (Z.to_nat size) oc))) as Hdl by (rewrite length_take; lia).
  destruct (go_append_ok _ a0 n total full d _ Hp Hbs Hdl) as (m2&full2&E2&Hoff&Hp2&Htk); [|lia|lia|].
  { rewrite Ha. destruct Hown as [_ Hne]. eapply Hne; [|exact Hb]. set_solver. }
  erewrite bind_done by (apply on_heap_mem; exact E2). cbv beta.
  destruct (core_foreign bm _ _ _ _ _ _ _ Hr Hw Hown Hoff) as (Hr2&Hw2&Hown2&Hobs). set (s2 := set_heap (set_mem m2 (st_heap s)) s) in *.
  erewrite bind_done by (by eapply core_next). cbv beta. rewrite Hd in *. rewrite (cons_middle q), app_assoc in Hr2, Hw2.
  assert (contents (st_heap s2) qs = contents (st_heap s) qs) as Hcs.
  { clear -Hobs. assert (∀ r, r ∈ qs → obj_content (set_mem m2 (st_heap s)) r = obj_content (st_heap s) r) as Hq by (intros r Hr; apply Hobs; set_solver).
    clear Hobs. induction qs as [|r qs IHq]; [done|]. cbn. rewrite Hq by set_solver. f_equal. apply IHq. set_solver. }
  cbn [contents] in Hlen |- *. fold oc in Hlen |- *. rewrite length_app in Hlen.
  destruct (IH fuel s2 O (pre ++ [q]) pins c a0 (n + k) total full2 (size - k)) as (s3&E3&Hb3&Hr3&Hw3&Hbuf3); try done; try lia;
    [by rewrite <- (app_assoc pre [q])|rewrite Hcs; lia|cbn in Hf; lia|].
  exists s3. replace (n + k + (size - k)) with (n + size) in * by lia. rewrite <- app_assoc in Hr3, Hw3. split_and!; try done.
  rewrite Hb3, Htk, Hcs, <- app_assoc. f_equal. f_equal. destruct (decide (size ≤ Z.of_nat (length oc))).
  - replace (size - k) with 0 by lia. rewrite take_0, app_nil_r, take_app_le by lia. done.
  - rewrite (take_ge oc) by lia. rewrite take_app_ge by lia. f_equal. f_equal. lia.
Qed.

Lemma Peek_ok s O ps pins c size : lb_rep bm s O ps pins c → 0 < size ≤ Z.of_nat (length c) →
  ∃ s' d, Peek readMore size s = Done (inr d, s') ∧ slice_bytes (h_mem (st_heap s')) d = Some (take (Z.to_nat size) c) ∧ lb_rep bm s' O ps pins c.
Proof.
  intros [Hr Hl Hw] Hsz. unfold Peek. replace (size <=? 0) with false by (symmetry; apply Z.leb_gt; lia).
  erewrite bind_done by (apply ensure_enough; lia). cbv beta iota. assert (c ≠ []) as Hc by (apply nonempty_length; lia).
  destruct (core_nonempty bm _ _ _ _ _ Hr Hc) as (f&ps'&->). destruct (core_front bm _ _ _ _ _ _ Hr) as (Hf&_&_&_&Hcc&_).
  erewrite bind_done by exact Hf. cbv beta. erewrite bind_done by done. cbv beta.
  destruct (peek_one s O _ pins c f size Hr ltac:(set_solver) ltac:(lia)) as (b&d&e&Hb&E1&Hd&Ha&Hbs).
  erewrite bind_done by exact E1. cbv beta. cbn [fst]. set (oc := obj_content (st_heap s) f) in *. destruct (s_len d =? size) eqn:E; breflect.
  - erewrite bind_done by done. cbv beta. eexists _, d. split; [done|]. split.
    + cbn. rewrite Hbs, Hcc. f_equal. rewrite take_app_le by lia. done.
    + constructor; [by apply (rep_flags bm s)|done|done].
  - set (a0 := fresh_key (h_mem (st_heap s))). set (m1 := <[a0 := replicate (Z.to_nat size) 0]> (h_mem (st_heap s))).
    assert (make_bytes size (h_mem (st_heap s)) = Done (GSlice a0 0 size size, m1)) as Em by (unfold make_bytes; bdecide; done).
    pose proof (foreign_fresh bm _ _ _ _ _ a0 Hr (fresh_key_None _)) as Hown.
    destruct (core_foreign bm s O (f :: ps') pins c a0 m1 Hr Hw Hown) as (Hr1&Hw1&Hown1&Hob1); [intros k Hk; unfold m1; by rewrite lookup_insert_ne|].
    erewrite bind_done by (apply on_heap_mem; exact Em). cbv beta. set (s1 := set_heap (set_mem m1 (st_heap s)) s) in *.
    assert (s_arr d ≠ a0) as Hda by (rewrite Ha; destruct Hown as [_ Hne]; eapply Hne; [|exact Hb]; set_solver).
    assert (slice_bytes m1 d = Some (take (Z.to_nat size) oc)) as Hbs1 by (rewrite <- Hbs; unfold slice_bytes, peek, m1; cbn; by rewrite lookup_insert_ne by done).
    assert (peek m1 (Ptr a0 0) size = Some (replicate (Z.to_nat size) 0)) as Hp1.
    { unfold peek, m1. cbn. rewrite lookup_insert_eq, read_at_ok; [|lia|lia|rewrite length_replicate; lia]. cbn. f_equal. apply take_ge. rewrite length_replicate. lia. }
    destruct (go_append_ok m1 a0 0 size _ d _ Hp1 Hbs1) as (m2&full2&E2&Hoff&Hp2&Htk); [rewrite length_take; lia|done|lia|lia|].
    erewrite bind_done by (apply on_heap_mem; exact E2). cbv beta.
    destruct (core_foreign bm s1 O (f :: ps') pins c a0 m2 Hr1 Hw1 Hown1 Hoff) as (Hr2&Hw2&Hown2&Hob2). set (s2 := set_heap (set_mem m2 (st_heap s1)) s1) in *.
    erewrite bind_done by (by apply (core_next bm s2 O [] f ps' pins c)). cbv beta. unfold chain_fuel. erewrite bind_done by done. cbv beta.
    assert (contents (st_heap s2) ps' = contents (st_heap s) ps') as Hcs.
    { assert (∀ r, r ∈ f :: ps' → obj_content (st_heap s2) r = obj_content (st_heap s) r) as Hq by (intros r Hq; etrans; [by apply Hob2|by apply Hob1]).
      clear -Hq. induction ps' as [|r qs IHq]; [done|]. cbn. rewrite Hq by set_solver. f_equal. apply IHq. set_solver. }
    assert (size ≤ Z.of_nat (length oc) + Z.of_nat (length (contents (st_heap s) ps'))) as Hle by (rewrite Hcc, length_app in Hsz; lia).
    destruct (peek_loop_ok ps' (base.size (h_slices (st_heap s2))) s2 O [f] pins c a0 (s_len d) size full2 (size - s_len d)) as (s3&E3&Hb3&Hr3&Hw3&Hbuf3); try done; try lia.
    { rewrite Hcs. lia. }
    { etrans; [|apply (nodup_size _ (f :: ps'))]; [cbn; lia| |].
      - apply (sr_nodup _ _ _ _ (lr_list _ _ _ _ _ _ Hr2)).
      - intros q Hq. by eapply links_lookup; [apply (sr_links _ _ _ _ (lr_list _ _ _ _ _ _ Hr2))|]. }
    erewrite bind_done by exact E3. replace (s_len d + (size - s_len d)) with size in * by lia. eexists s3, _. split; [done|]. split.
    + rewrite Hb3. rewrite Z.add_0_l in Htk. rewrite Htk, Hcs, Hcc. cbn. f_equal. rewrite (take_ge oc) by lia. rewrite take_app_ge by lia. f_equal. f_equal. lia.
    + constructor; [done|by rewrite Hbuf3|done].
Qed.
End peek.
