(* ===== verification/LinkedBufferFifo.v ===== *)
(** * A linked buffer refines a queue of bytes

    Programs of buffer operations, the abstract queue they are compared with,
    and the refinement theorem, for every allocator that satisfies the
    interface; the buffer manager is the instance the witness runs on. *)

From Stdlib Require Import ZArith Lia.
From stdpp Require Import prelude list gmap strings.
From S2P Require Import Prelude GoMem BufferSlice BufferList BufferManager Allocator ShmAllocator LinkedBuffer LinkedBufferProofs LinkedBufferReserve LinkedBufferPeek.

(** ** Programs *)

Inductive lb_op :=
  | LbWrite (data : list Z)
  | LbWriteByte (b : Z)
  | LbReserve (data : list Z)
  | LbReadString (n : Z)
  | LbReadBytes (n : Z)
  | LbPeek (n : Z)
  | LbDiscard (n : Z)
  | LbRelease.

Inductive lb_out :=
  | LbWritten (n : Z)
  | LbBytes (bs : list Z)
  | LbDiscarded (n : Z)
  | LbError (e : error)
  | LbUnit.

(** What the program may ask for: [Discard] needs a positive count, and a
    write fits the width of [alloc]'s argument. *)
Definition lb_op_ok (o : lb_op) : Prop :=
  match o with
  | LbWrite data => Z.of_nat (length data) < 2 ^ 32
  | LbReserve data => 0 < Z.of_nat (length data) < 2 ^ 32
  | LbDiscard n => 0 < n
  | _ => True
  end.

#[global] Instance lb_op_ok_dec o : Decision (lb_op_ok o).
Proof. destruct o; cbn; apply _. Defined.

(** ** The abstract queue *)

(** [e] is what a reader is told when no more data comes. *)
Definition fifo_op (e : error) (c : list Z) (o : lb_op) : lb_out * list Z :=
  match o with
  | LbWrite data | LbReserve data => (LbWritten (Z.of_nat (length data)), c ++ data)
  | LbWriteByte b => (LbUnit, c ++ [b])
  | LbPeek n =>
      if n <=? 0 then (LbBytes [], c)
      else if n <=? Z.of_nat (length c) then (LbBytes (take (Z.to_nat n) c), c)
      else (LbError e, c)
  | LbReadString n | LbReadBytes n =>
      if n <=? 0 then (LbBytes [], c)
      else if n <=? Z.of_nat (length c) then (LbBytes (take (Z.to_nat n) c), drop (Z.to_nat n) c)
      else (LbError e, c)
  | LbDiscard n =>
      if n <=? Z.of_nat (length c) then (LbDiscarded n, drop (Z.to_nat n) c) else (LbError e, c)
  | LbRelease => (LbUnit, c)
  end.

Fixpoint fifo_ops (e : error) (c : list Z) (ops : list lb_op) : list lb_out * list Z :=
  match ops with
  | [] => ([], c)
  | o :: ops => let r := fifo_op e c o in let r' := fifo_ops e r.2 ops in (r.1 :: r'.1, r'.2)
  end.

Section fifo.
Context {A : Type} `{AllocatorLaws A} (bm : A).
Context (readMore : Z → M lbst (option error)) (dirt : nat → list Z).

Definition view (d : gslice) : M lbst (list Z) :=
  if s_len d =? 0 then mret [] else on_heap (on_mem (load_bytes (slice_ptr d) (s_len d))).

Definition run_lb_op (o : lb_op) : M lbst lb_out :=
  match o with
  | LbWrite data => n ← WriteBytes bm data; mret (LbWritten n)
  | LbWriteByte b => _ ← WriteByte bm b; mret LbUnit
  | LbReserve data =>
      r ← Reserve bm (Z.of_nat (length data));
      match r with
      | inl e => mret (LbError e)
      | inr d => _ ← on_heap (on_mem (store_bytes (slice_ptr d) data)); mret (LbWritten (s_len d))
      end
  | LbReadString n =>
      r ← ReadString bm readMore n; mret match r with inl e => LbError e | inr bs => LbBytes bs end
  | LbReadBytes n =>
      r ← ReadBytes bm readMore dirt n;
      match r with inl e => mret (LbError e) | inr d => bs ← view d; mret (LbBytes bs) end
  | LbPeek n =>
      r ← Peek readMore n;
      match r with inl e => mret (LbError e) | inr d => bs ← view d; mret (LbBytes bs) end
  | LbDiscard n =>
      r ← Discard bm readMore n; mret match r.2 with Some e => LbError e | None => LbDiscarded r.1 end
  | LbRelease => _ ← ReleasePreviousRead bm; mret LbUnit
  end.

Fixpoint run_lb_ops (ops : list lb_op) : M lbst (list lb_out) :=
  match ops with
  | [] => mret []
  | o :: ops => x ← run_lb_op o; xs ← run_lb_ops ops; mret (x :: xs)
  end.

Context (e : error).
Hypothesis no_more : ∀ n s, readMore n s = Done (Some e, s).
Hypothesis dirt_length : ∀ n, length (dirt n) = n.

Lemma ensure_short s size : lb_len (st_buf s) < size → ensure readMore size s = Done (Some e, s).
Proof.
  intros Hl. unfold ensure, Len, buf. erewrite bind_done by done. cbv beta.
  replace (lb_len (st_buf s) <? size) with true by (symmetry; apply Z.ltb_lt; lia). apply no_more.
Qed.

Lemma view_ok s d bs : slice_bytes (h_mem (st_heap s)) d = Some bs → view d s = Done (bs, s).
Proof.
  intros Hb. unfold view. pose proof (peek_length _ _ _ _ Hb) as Hl.
  destruct (s_len d =? 0) eqn:E; breflect; [|by apply load_view]. by destruct bs; [|cbn in Hl; lia].
Qed.

(** One operation. *)
Lemma run_lb_op_ok o s O ps pins c :
  lb_rep bm s O ps pins c → lb_op_ok o →
  ∃ s' ps' pins', run_lb_op o s = Done ((fifo_op e c o).1, s') ∧ lb_rep bm s' O ps' pins' (fifo_op e c o).2.
Proof.
  intros Hr Ho. pose proof (lp_len _ _ _ _ _ _ Hr) as Hl. destruct o as [data|b|data|n|n|n|n|]; cbn [run_lb_op fifo_op].
  - destruct (WriteBytes_ok bm s O ps pins c data Hr Ho) as (s'&ps'&E&Hr').
    exists s', ps', pins. by erewrite bind_done by exact E.
  - destruct (WriteByte_ok bm s O ps pins c b Hr) as (s'&ps'&E&Hr'). exists s', ps', pins. by erewrite bind_done by exact E.
  - destruct (Reserve_ok bm s O ps pins c (Z.of_nat (length data)) Hr Ho) as (d&s1&E&Hd&Hfill). destruct (Hfill data eq_refl) as (s'&ps'&E'&Hr').
    exists s', ps', pins. erewrite bind_done by exact E. cbv beta iota. erewrite bind_done by exact E'. by rewrite Hd.
  - destruct (n <=? 0) eqn:E0; [|destruct (n <=? Z.of_nat (length c)) eqn:E1]; breflect.
    + exists s, ps, pins. split; [|done]. unfold ReadString.
      by replace (n <=? 0) with true by (symmetry; by apply Z.leb_le).
    + destruct (ReadString_ok bm readMore s O ps pins c n Hr) as (s'&ps'&pins'&E&Hr'); [lia|].
      exists s', ps', pins'. by erewrite bind_done by exact E.
    + exists s, ps, pins. split; [|done]. unfold ReadString.
      replace (n <=? 0) with false by (symmetry; apply Z.leb_gt; lia). rewrite bind_assoc.
      by erewrite bind_done by (apply ensure_short; lia).
  - destruct (n <=? 0) eqn:E0; [|destruct (n <=? Z.of_nat (length c)) eqn:E1]; breflect.
    + exists s, ps, pins. split; [|done]. unfold ReadBytes.
      by replace (n <=? 0) with true by (symmetry; by apply Z.leb_le).
    + destruct (ReadBytes_ok bm readMore dirt dirt_length s O ps pins c n Hr) as (s'&ps'&pins'&d&E&Hb&Hr'); [lia|].
      exists s', ps', pins'. erewrite bind_done by exact E. cbv beta iota. by erewrite bind_done by (by apply view_ok).
    + exists s, ps, pins. split; [|done]. unfold ReadBytes.
      replace (n <=? 0) with false by (symmetry; apply Z.leb_gt; lia). rewrite bind_assoc.
      by erewrite bind_done by (apply ensure_short; lia).
  - destruct (n <=? 0) eqn:E0; [|destruct (n <=? Z.of_nat (length c)) eqn:E1]; breflect.
    + exists s, ps, pins. split; [|done]. unfold Peek.
      by replace (n <=? 0) with true by (symmetry; by apply Z.leb_le).
    + destruct (Peek_ok bm readMore s O ps pins c n Hr) as (s'&d&E&Hb&Hr'); [lia|].
      exists s', ps, pins. erewrite bind_done by exact E. cbv beta iota. by erewrite bind_done by (by apply view_ok).
    + exists s, ps, pins. split; [|done]. unfold Peek.
      replace (n <=? 0) with false by (symmetry; apply Z.leb_gt; lia). rewrite bind_assoc.
      by erewrite bind_done by (apply ensure_short; lia).
  - cbn in Ho. destruct (n <=? Z.of_nat (length c)) eqn:E1; breflect.
    + destruct (Discard_ok bm readMore s O ps pins c n Hr) as (s'&ps'&pins'&E&Hr'); [lia|].
      exists s', ps', pins'. by erewrite bind_done by exact E.
    + exists s, ps, pins. split; [|done]. unfold Discard. rewrite bind_assoc.
      by erewrite bind_done by (apply ensure_short; lia).
  - destruct (ReleasePreviousRead_ok bm s O ps pins c Hr) as (s'&ps'&E&Hr').
    exists s', ps', []. by erewrite bind_done by exact E.
Qed.
End fifo.

(** A new buffer is empty. *)
Lemma lb_rep_empty {A} `{AllocatorLaws A} (bm : A) h O x :
  al_inv bm h O → lb_rep bm (LbSt h newEmptyLinkedBuffer x) O [] [] [].
Proof.
  intros HI. constructor; [|done|set_solver]. constructor; cbn; [done| | |done].
  - apply slist_rep_empty.
  - exists None. apply slist_rep_empty.
Qed.

(** [C2] Whatever slices the allocator hands out, a linked buffer behaves as a
    queue of bytes: over any program of writes, bytes, reserved parts that
    are filled, reads by copy, reads by view, peeks, discards and releases, the outputs (byte counts, bytes read, the error when
    there are too few bytes and no more come) are those of the queue, nothing
    panics, and the buffer ends up holding the bytes the queue holds. *)
Theorem linked_buffer_fifo {A : Type} `{AllocatorLaws A} (bm : A) readMore dirt e ops s O ps pins c :
  (∀ n s, readMore n s = Done (Some e, s)) → (∀ n, length (dirt n) = n) →
  lb_rep bm s O ps pins c → Forall lb_op_ok ops →
  ∃ s' ps' pins', run_lb_ops bm readMore dirt ops s = Done ((fifo_ops e c ops).1, s') ∧
    lb_rep bm s' O ps' pins' (fifo_ops e c ops).2.
Proof.
  intros Hno Hd. revert s ps pins c. induction ops as [|o ops IH]; intros s ps pins c Hr Hok; cbn [run_lb_ops fifo_ops].
  - by exists s, ps, pins.
  - apply Forall_cons in Hok as [Ho Hok].
    destruct (run_lb_op_ok bm readMore dirt e Hno Hd o s O ps pins c Hr Ho) as (s1&ps1&pins1&E1&Hr1).
    destruct (IH s1 ps1 pins1 _ Hr1 Hok) as (s2&ps2&pins2&E2&Hr2).
    exists s2, ps2, pins2. split; [|done]. erewrite bind_done by exact E1. cbv beta. by erewrite bind_done by exact E2.
Qed.

(** A stream whose peer has closed. *)
Definition end_of_stream : Z → M lbst (option error) := λ _, mret (Some ErrEndOfStream).

(** A buffer over the shared memory of a new manager: the bytes span slices of
    both sizes and a slice of process memory. *)
Lemma linked_buffer_fifo_witness :
  ∃ m s', createBufferManager demo_pairs "a" demo_shm 0 demo_shm_mem
            = Done (inr (manager_of demo_shm 20 0 demo_pairs "a"), m) ∧
    run_lb_ops (manager_of demo_shm 20 0 demo_pairs "a") end_of_stream (λ n, replicate n 255)
      [LbWrite [1; 2; 3; 4; 5; 6; 7; 8; 9; 10]; LbReadString 3; LbReadBytes 6; LbReserve [11; 12]; LbWriteByte 13; LbPeek 3; LbDiscard 1;
       LbRelease; LbReadBytes 9; LbReadString 3]
      (LbSt (Heap m ∅ []) newEmptyLinkedBuffer 0)
      = Done ([LbWritten 10; LbBytes [1; 2; 3]; LbBytes [4; 5; 6; 7; 8; 9]; LbWritten 2; LbUnit; LbBytes [10; 11; 12];
               LbDiscarded 1; LbUnit; LbError ErrEndOfStream; LbBytes [11; 12; 13]], s').
Proof.
  destruct (createBufferManager_ok demo_shm_mem demo_shm 0 demo_pairs "a" demo_room) as (m&E&Hf&_&Hroom).
  destruct (linked_buffer_fifo (manager_of demo_shm 20 0 demo_pairs "a") end_of_stream
              (λ n, replicate n 255) ErrEndOfStream
              [LbWrite [1; 2; 3; 4; 5; 6; 7; 8; 9; 10]; LbReadString 3; LbReadBytes 6; LbReserve [11; 12]; LbWriteByte 13; LbPeek 3; LbDiscard 1;
               LbRelease; LbReadBytes 9; LbReadString 3]
              (LbSt (Heap m ∅ []) newEmptyLinkedBuffer 0) [] [] [] []) as (s'&ps'&pins'&E'&_).
  - reflexivity.
  - intros n. apply length_replicate.
  - apply lb_rep_empty. apply bm_inv_created; [exact Hroom| |apply (bool_decide_unpack _); vm_compute; exact I].
    exact Hf.
  - repeat constructor.
  - exists m, s'. exact (conj E E').
Defined.
