(* ===== verification/LinkedBufferRead.v ===== *)
(** * [read]: the copy behind [Stream.Read] ([buffer.go])

    It fills the buffer of the caller from as many slices as it takes and stops when the
    buffer is full or no slice is left.  A slice that was read to its end is dropped even
    when it is the one to write to, so that a buffer that was read empty has no write slice
    of its own any more; the next slice that is appended becomes it. *)

From Stdlib Require Import ZArith Lia.
From stdpp Require Import prelude list gmap strings.
From S2P Require Import Prelude GoMem BufferSlice BufferList BufferManager Allocator LinkedBuffer LinkedBufferProofs.

(** [copy] of a whole view into the front of a window in an array of its own. *)
Lemma copy_ok m dst src l full : peek m (slice_ptr dst) (s_len dst) = Some full → slice_bytes m src = Some l → s_len src = Z.of_nat (length l) →
  s_len src ≤ s_len dst →
  ∃ m', go_copy dst src m = Done (s_len src, m') ∧ (∀ k, k ≠ s_arr dst → m' !! k = m !! k) ∧
    changes_only m m' [(slice_ptr dst, s_len src)] ∧ peek m' (slice_ptr dst) (s_len src) = Some l.
Proof.
  intros Hp Hs Hl Hle. unfold go_copy. rewrite Z.min_r by lia. destruct (s_len src =? 0) eqn:E; breflect.
  - exists m. rewrite E. split_and!; [done|done|apply changes_only_refl|]. destruct l; [|cbn in Hl; lia]. eapply peek_nil, peek_in_mem, Hp.
  - destruct (poke_ok m (slice_ptr dst) l) as [m' Hm'].
    { rewrite <- Hl, <- (padd_0 (slice_ptr dst)). eapply in_mem_sub; [by eapply peek_in_mem|lia..]. }
    exists m'. split_and!.
    + unfold slice_bytes in Hs. erewrite bind_done by (unfold load_bytes; rewrite Hs; done). cbv beta. by erewrite bind_done by (unfold store_bytes; rewrite Hm'; done).
    + intros k Hk. unfold poke in Hm'. destruct (m !! _); [|done]. destruct (write_at _ _ _); [|done]. injection Hm' as <-. by rewrite lookup_insert_ne.
    + rewrite Hl. by apply poke_changes.
    + rewrite Hl. by eapply peek_poke_same.
Qed.

Section read.
Context {A : Type} `{AllocatorLaws A} (bm : A).

(** The window of the caller, of which the first bytes are [acc]. *)
Definition window (m : gmem) (p : gslice) (acc : list Z) : Prop :=
  ∃ full, peek m (slice_ptr p) (s_len p) = Some full ∧ take (length acc) full = acc ∧ Z.of_nat (length acc) ≤ s_len p.

Lemma window_copy m p acc src l : window m p acc → s_len p ≤ s_cap p → slice_bytes m src = Some l → s_len src = Z.of_nat (length l) →
  Z.of_nat (length acc) + s_len src ≤ s_len p →
  ∃ d m', subslice_from (S:=lbst) p (Z.of_nat (length acc)) = mret d ∧ go_copy d src m = Done (s_len src, m') ∧ (∀ k, k ≠ s_arr p → m' !! k = m !! k) ∧ window m' p (acc ++ l).
Proof.
  intros (full&Hf&Ha&Hlen) Hcap Hs Hl Hle. pose proof (peek_length _ _ _ _ Hf) as Hfl.
  set (d := GSlice (s_arr p) (s_off p + Z.of_nat (length acc)) (s_len p - Z.of_nat (length acc)) (s_cap p - Z.of_nat (length acc))).
  destruct (copy_ok m d src l (drop (Z.to_nat (Z.of_nat (length acc))) full)) as (m'&E&Ho&Hc&Hpk); [|done|done|cbn; lia|].
  { apply (peek_drop _ _ _ _ (Z.of_nat (length acc)) Hf). lia. }
  exists d, m'. split_and!; [|done|done|].
  - unfold subslice_from, subslice. by bdecide.
  - destruct (in_mem_peek m' (slice_ptr p) (s_len p)) as (full'&Hf'&Hl'); [apply Hc; by eapply peek_in_mem|]. exists full'. split_and!; [done| |len].
    assert (peek m' (slice_ptr p) (Z.of_nat (length acc)) = Some acc) as H1.
    { rewrite (proj1 Hc); [|apply Forall_singleton; unfold d, slice_ptr, disjoint_win; cbn; lia]. rewrite (peek_take _ _ _ _ (Z.of_nat (length acc)) Hf) by lia. by rewrite Nat2Z.id, Ha. }
    pose proof (peek_app _ _ _ _ _ _ H1 Hpk) as H2. rewrite Hl in H2. rewrite (peek_take _ _ _ _ _ Hf') in H2 by lia. injection H2 as H2.
    rewrite <- H2 at 2. rewrite length_app. f_equal. lia.
Qed.

(** One round on the first slice: it is consumed, into the window. *)
Lemma read_round s O f ps pins c p acc :
  lb_core bm s O (f :: ps) pins c → own_array bm (st_heap s) ((f :: ps) ++ pins ++ O) (s_arr p) → window (h_mem (st_heap s)) p acc → s_len p ≤ s_cap p →
  ∃ b k d r s', h_slices (st_heap s) !! f = Some b ∧ slice_size b = Z.of_nat (length (obj_content (st_heap s) f)) ∧
    k = Z.min (s_len p - Z.of_nat (length acc)) (slice_size b) ∧ 0 ≤ k ∧
    on_heap (slice_read f (s_len p - Z.of_nat (length acc))) s = Done ((r, if slice_size b <? s_len p - Z.of_nat (length acc) then Some ErrNotEnoughData else None), set_heap (upd_slice (st_heap s) f (with_indices b (bs_readIndex b + k) (bs_writeIndex b))) s) ∧
    subslice_from (S:=lbst) p (Z.of_nat (length acc)) = mret d ∧
    on_heap (on_mem (go_copy d r)) (set_heap (upd_slice (st_heap s) f (with_indices b (bs_readIndex b + k) (bs_writeIndex b))) s) = Done (k, s') ∧
    st_buf s' = st_buf s ∧ h_slices (st_heap s') = <[f := with_indices b (bs_readIndex b + k) (bs_writeIndex b)]> (h_slices (st_heap s)) ∧
    lb_core bm s' O (f :: ps) pins (drop (Z.to_nat k) c) ∧ own_array bm (st_heap s') ((f :: ps) ++ pins ++ O) (s_arr p) ∧
    window (h_mem (st_heap s')) p (acc ++ take (Z.to_nat k) c) ∧ (slice_size b ≤ k → obj_content (st_heap s') f = []) ∧
    ∀ a, a ≠ s_arr p → h_mem (st_heap s') !! a = h_mem (st_heap s) !! a.
Proof.
  intros Hr Hown Hwin Hcap. pose proof Hwin as (_&_&_&Hal). destruct (core_front bm _ _ _ _ _ _ Hr) as (_&b&Hb&Hlen&Hcc&_).
  destruct (al_read bm (st_heap s) ((f :: ps) ++ pins ++ O) f b (s_len p - Z.of_nat (length acc)) (lr_own _ _ _ _ _ _ Hr) ltac:(set_solver) Hb)
    as (Hk&HI&Hobj&_&r&E&Hd&Ha&Hbs); [lia|].
  set (k := Z.min _ _) in *. set (h1 := upd_slice (st_heap s) f (with_indices b (bs_readIndex b + k) (bs_writeIndex b))) in *.
  pose proof (core_consume bm s O f ps pins c b k Hr Hb ltac:(unfold k; lia) HI Hobj) as Hr1. cbn zeta in Hr1. fold h1 in Hr1.
  assert (take (Z.to_nat k) (obj_content (st_heap s) f) = take (Z.to_nat k) c) as Etk by (rewrite Hcc, take_app_le; [done|unfold k; lia]). rewrite Etk in Hbs.
  assert (s_len r = Z.of_nat (length (take (Z.to_nat k) c))) as Hrl by (rewrite <- Etk, length_take; unfold k in *; lia).
  destruct (window_copy _ _ _ r _ Hwin Hcap Hbs Hrl) as (d&m'&Es&Ec&Hm&Hw'); [unfold k in *; lia|].
  assert (own_array bm h1 ((f :: ps) ++ pins ++ O) (s_arr p)) as Hown1.
  { destruct Hown as [Hf Ho]. split; [done|]. intros q x Hq Hx. cbn in Hx. apply lookup_insert_Some in Hx as [[<- <-]|[_ Hx]]; [cbn; by eapply Ho|by eapply Ho]. }
  assert (∀ q, q ∈ (f :: ps) ++ pins ++ O → same_upto_next h1 (set_mem m' h1) q) as Hupto.
  { intros q Hq. destruct (owned_lookup h1 _ q (al_inv_owned _ _ _ HI) Hq) as (x&Hx&_). apply same_slice_upto; [by rewrite Hx|]. split; [done|].
    intros y Hy. cbn. unfold peek. cbn. rewrite Hm; [done|]. by eapply (proj2 Hown1). }
  exists b, k, d, r, (set_heap (set_mem m' h1) (set_heap h1 s)). split_and!; try done.
  - by apply on_heap_ok.
  - rewrite (on_heap_mem _ (set_heap h1 s) (s_len r) m'); [by rewrite Hd|exact Ec].
  - constructor; cbn [st_heap set_heap st_buf].
    + eapply al_foreign_mem; [exact HI|apply Hown1|apply Hown1|exact Hm].
    + apply Hr1.
    + apply Hr1.
    + rewrite <- (lr_content _ _ _ _ _ _ Hr1). eapply (contents_same _ _ ((f :: ps) ++ pins ++ O)); [by eapply al_inv_owned|set_solver|]. intros q Hq. apply Hupto. set_solver.
  - intros Hle. cbn [st_heap set_heap]. rewrite (obj_content_same h1 _ ((f :: ps) ++ pins ++ O) f (al_inv_owned _ _ _ HI)); [|set_solver|apply Hupto; set_solver].
    rewrite Hobj. apply drop_ge. lia.
Qed.

(** What a round leaves alone: the length, the arrays of others, and the pinned slices when
    the first slice is not pinned. *)
Record rounded (s s' : lbst) (a0 : nat) (pins pins' : list nat) : Prop := {
  ro_len : lb_len (st_buf s') = lb_len (st_buf s);
  ro_pins : lb_currentPinned (st_buf s) = false → pins' = pins ∧ lb_currentPinned (st_buf s') = false;
  ro_mem : ∀ r n, al_foreign bm (p_arr r) → p_arr r ≠ a0 → peek (h_mem (st_heap s')) r n = peek (h_mem (st_heap s)) r n
}.

Lemma rounded_refl s a0 pins : rounded s s a0 pins pins.
Proof. by constructor. Qed.
Lemma rounded_trans s1 s2 s3 a0 pins1 pins2 pins3 : rounded s1 s2 a0 pins1 pins2 → rounded s2 s3 a0 pins2 pins3 → rounded s1 s3 a0 pins1 pins3.
Proof.
  intros [L1 P1 M1] [L2 P2 M2]. constructor; [congruence| |intros r n Hf Hr; by rewrite M2, M1].
  intros Hp. destruct (P1 Hp) as [-> Hp2]. by apply P2.
Qed.

(** What is left to write to when bytes are left. *)
Definition write_left (s : lbst) (ps : list nat) (c : list Z) : Prop := c ≠ [] → write_at_end s ps.

Lemma read_loop_ok fuel : ∀ s O ps pins c p acc,
  lb_core bm s O ps pins c → own_array bm (st_heap s) (ps ++ pins ++ O) (s_arr p) → window (h_mem (st_heap s)) p acc → s_len p ≤ s_cap p → (length ps ≤ fuel)%nat →
  let total := Z.min (s_len p - Z.of_nat (length acc)) (Z.of_nat (length c)) in write_left s ps (drop (Z.to_nat total) c) →
  ∃ s' ps' pins', read_loop bm fuel p (Z.of_nat (length acc)) s = Done (Z.of_nat (length acc) + total, s') ∧
    lb_core bm s' O ps' pins' (drop (Z.to_nat total) c) ∧ write_left s' ps' (drop (Z.to_nat total) c) ∧
    rounded s s' (s_arr p) pins pins' ∧ (Z.of_nat (length c) < s_len p - Z.of_nat (length acc) → ps' = []) ∧
    window (h_mem (st_heap s')) p (acc ++ take (Z.to_nat total) c).
Proof.
  induction fuel as [|fuel IH]; intros s O ps pins c p acc Hr Hown Hwin Hcap Hf total Hwl; pose proof Hwin as (_&_&_&Hal).
  all: destruct ps as [|f ps]; [assert (c = []) as -> by (destruct Hr; by subst c); assert (total = 0) as -> by (unfold total; cbn; lia)|].
  1, 3: exists s, [], pins; cbn [read_loop]; erewrite bind_done by (unfold front, buf, reads; rewrite (sr_front _ _ _ _ (lr_list _ _ _ _ _ _ Hr)); done); cbv beta iota; cbn [head];
    rewrite Z.add_0_r, app_nil_r; by split_and!; try apply rounded_refl.
  1: cbn in Hf; lia.
  cbn [read_loop]. erewrite bind_done by (by eapply core_front). cbv beta iota. destruct (s_len p >? Z.of_nat (length acc)) eqn:E; breflect.
  2: { assert (total = 0) as Et by (unfold total; lia). rewrite Et in *. exists s, (f :: ps), pins. rewrite Z.add_0_r. cbn [Z.to_nat take drop]. rewrite app_nil_r. split_and!; try done; first [apply rounded_refl|lia]. }
  destruct (read_round s O f ps pins c p acc Hr Hown Hwin Hcap) as (b&k&d&r&s1&Hb&Hsb&Ek&Hk&E1&Es&E2&Hbuf&Hsl&Hr1&Hown1&Hwin1&Hemp&Hmem1).
  assert (rounded s s1 (s_arr p) pins pins) as Hro1 by (constructor; rewrite ?Hbuf; try done; intros x n _ Hx; unfold peek; by rewrite Hmem1).
  erewrite bind_done by exact E1. cbv beta. rewrite Es, bind_mret. cbn [fst snd]. erewrite bind_done by exact E2. cbv beta zeta.
  destruct (core_front bm _ _ _ _ _ _ Hr) as (_&_&_&_&Hcc&_). apply (f_equal length) in Hcc as Hcl. rewrite length_app in Hcl.
  assert (∀ c', c' ≠ [] → drop (Z.to_nat total) c = c' → write_at_end s1 (f :: ps)) as Hw1.
  { intros c' Hc' Ec. assert (c ≠ []) as Hc by (intros ->; rewrite drop_nil in Ec; by subst). eapply (write_consume bm s O f ps pins c); [done|done|apply Hwl; by rewrite Ec|done|].
    intros q Hq. rewrite Hsl, lookup_insert_ne; [done|]. intros <-. pose proof (rep_nodup bm _ _ _ _ _ Hr) as Hnd. cbn in Hnd. apply NoDup_cons in Hnd as [Hni _]. set_solver. }
  destruct (slice_size b <? s_len p - Z.of_nat (length acc)) eqn:El; breflect.
  - destruct (readNextSlice_ok bm s1 O f ps pins _ Hr1) as (s2&pins2&E3&Hr2&Hl2&Hsw&Hs2&Hfor&Hv&Hpn&Hpf); [apply Hemp; lia|]. erewrite bind_done by exact E3. cbv beta.
    assert (rounded s1 s2 (s_arr p) pins pins2) as Hro2 by (constructor; [done|intros Hpin; split; [by apply Hpn|done]|intros x n Hx _; by apply Hfor]).
    assert (length (acc ++ take (Z.to_nat k) c) = length acc + Z.to_nat k)%nat as Hla by (rewrite length_app, length_take; lia).
    assert (Z.min (s_len p - Z.of_nat (length (acc ++ take (Z.to_nat k) c))) (Z.of_nat (length (drop (Z.to_nat k) c))) = total - k) as Et
      by (rewrite Hla, length_drop; unfold total; lia).
    assert (drop (Z.to_nat (total - k)) (drop (Z.to_nat k) c) = drop (Z.to_nat total) c) as Edr by (rewrite drop_plus by (unfold total; lia); do 2 f_equal; lia).
    destruct (IH s2 O ps pins2 (drop (Z.to_nat k) c) p (acc ++ take (Z.to_nat k) c)) as (s3&ps3&pins3&E4&Hr4&Hw4&Hro4&Hdr4&Hwin4); try done.
    + by eapply own_array_kept.
    + destruct Hwin1 as (full&Hp&Ht&Hle). exists full. split; [|done]. rewrite Hfor; [done|apply Hown1].
    + cbn in Hf. lia.
    + rewrite Et, Edr. intros Hne. eapply (write_pop bm s1); [exact Hr1| |apply Hemp; lia|by eapply Hw1|done|done].
      intros Hd. rewrite <- Edr, Hd, drop_nil in Hne. done.
    + rewrite Et in *. rewrite Edr in *. exists s3, ps3, pins3. replace (Z.of_nat (length acc) + k) with (Z.of_nat (length (acc ++ take (Z.to_nat k) c))) by lia.
      split_and!; [rewrite E4; do 2 f_equal; lia|done|done|by eapply rounded_trans; [|eapply rounded_trans]|intros Hlt; apply Hdr4; rewrite Hla, length_drop; lia|].
      rewrite <- app_assoc, take_plus in Hwin4 by (unfold total; lia). by replace (k + (total - k)) with total in Hwin4 by lia.
  - assert (total = k) as -> by (unfold total; lia). exists s1, (f :: ps), pins. split_and!; [done|done| |done|lia|done].
    intros Hne. by eapply Hw1.
Qed.

(** A buffer that is read from: it holds the bytes [c], and as long as there are any the
    slice to write to is known. *)
Record lb_held (s : lbst) (O ps pins : list nat) (c : list Z) : Prop := {
  lh_core : lb_core bm s O ps pins c;
  lh_len : lb_len (st_buf s) = Z.of_nat (length c);
  lh_write : write_left s ps c
}.

Lemma rep_held s O ps pins c : lb_rep bm s O ps pins c → lb_held s O ps pins c.
Proof. intros []. constructor; [done|done|by intros _]. Qed.
Lemma held_rep s O ps pins c : lb_held s O ps pins c → c ≠ [] → lb_rep bm s O ps pins c.
Proof. intros [] Hc. constructor; auto. Qed.

(** Writing to an array of someone else does not touch the buffer. *)
Lemma held_foreign s O ps pins c a0 m' : lb_held s O ps pins c → own_array bm (st_heap s) (ps ++ pins ++ O) a0 →
  (∀ k, k ≠ a0 → m' !! k = h_mem (st_heap s) !! k) → lb_held (set_heap (set_mem m' (st_heap s)) s) O ps pins c.
Proof.
  intros [Hr Hl Hw] [Hf Ha] Hm. constructor; [|done|exact Hw]. apply rep_same; [done|eapply al_foreign_mem; try done; by destruct Hr|].
  intros q Hq. split; [done|]. intros b Hb. cbn. unfold peek. cbn. rewrite Hm; [done|]. by eapply Ha.
Qed.

(** What [read] leaves: the window of the caller has the first [k] bytes, the buffer the
    others, and no slice when the window was larger than the buffer. *)
Record was_read (s s' : lbst) (p : gslice) (O pins ps' pins' : list nat) (c : list Z) (k : Z) : Prop := {
  wr_bytes : peek (h_mem (st_heap s')) (slice_ptr p) k = Some (take (Z.to_nat k) c);
  wr_held : lb_held s' O ps' pins' (drop (Z.to_nat k) c);
  wr_drained : k < s_len p → ps' = [];
  wr_pins : lb_currentPinned (st_buf s) = false → pins' = pins ∧ lb_currentPinned (st_buf s') = false;
  wr_mem : ∀ r n, al_foreign bm (p_arr r) → p_arr r ≠ s_arr p → peek (h_mem (st_heap s')) r n = peek (h_mem (st_heap s)) r n
}.

Lemma read_copy_ok s O ps pins c p : lb_held s O ps pins c → 0 < s_len p ≤ s_cap p →
  own_array bm (st_heap s) (ps ++ pins ++ O) (s_arr p) → in_mem (h_mem (st_heap s)) (slice_ptr p) (s_len p) →
  let k := Z.min (s_len p) (Z.of_nat (length c)) in
  ∃ s' ps' pins', read_copy bm p s = Done (k, s') ∧ was_read s s' p O pins ps' pins' c k.
Proof.
  intros [Hr Hl Hw] Hp Hown Hin k. destruct (in_mem_peek _ _ _ Hin) as (full&Hf&Hfl).
  destruct (read_loop_ok (S (length ps)) s O ps pins c p []) as (s1&ps1&pins1&E&Hr1&Hw1&[Hl1 Hpn Hme]&Hdr&(full1&Hf1&Ht1&Hle1)); [done|done| |lia|lia| |].
  { exists full. split_and!; [done|done|cbn; lia]. }
  { intros Hd. apply Hw. intros ->. by rewrite drop_nil in Hd. }
  cbn [length] in *. rewrite Z.sub_0_r in *. rewrite Z.add_0_l in E. fold k in E, Hr1, Hw1, Ht1, Hle1. cbn [app] in *.
  eexists _, ps1, pins1. split.
  - unfold read_copy. erewrite bind_done by (by eapply list_fuel_ok). cbv beta. erewrite bind_done by exact E. cbv beta. by erewrite bind_done by done.
  - constructor; cbn; [|constructor|intros Hk; apply Hdr; unfold k in Hk; lia|done|done].
    + rewrite (peek_take _ _ _ _ k Hf1) by lia. f_equal. rewrite <- Ht1. f_equal. rewrite length_take. lia.
    + by apply rep_flags.
    + cbn. rewrite Hl1, Hl, length_drop. lia.
    + exact Hw1.
Qed.

Context (readMore : Z → M lbst (option error)).

(** [read] with data in the buffer: it fills the window of the caller with the first
    bytes, as many as there are and fit, takes exactly these out of the buffer, and returns
    their number. *)
Theorem read_exact s O ps pins c p : lb_held s O ps pins c → c ≠ [] → 0 < s_len p ≤ s_cap p →
  own_array bm (st_heap s) (ps ++ pins ++ O) (s_arr p) → in_mem (h_mem (st_heap s)) (slice_ptr p) (s_len p) →
  let k := Z.min (s_len p) (Z.of_nat (length c)) in
  ∃ s' ps' pins', read bm readMore p s = Done ((k, None), s') ∧ was_read s s' p O pins ps' pins' c k.
Proof.
  intros Hh Hc Hp Hown Hin k. destruct (read_copy_ok s O ps pins c p Hh Hp Hown Hin) as (s1&ps1&pins1&E&Hw).
  exists s1, ps1, pins1. split; [|exact Hw]. unfold read. replace (s_len p <=? 0) with false by (symmetry; apply Z.leb_gt; lia).
  unfold Len. erewrite bind_done by done. cbv beta. rewrite (lh_len _ _ _ _ _ Hh).
  replace (Z.of_nat (length c) <? 1) with false by (symmetry; apply Z.ltb_ge; destruct c; [done|cbn; lia]). rewrite bind_mret.
  by erewrite bind_done by exact E.
Qed.

End read.
