(* ===== verification/Idl.v ===== *)
(** * The codec of the examples ([example/best_practice/idl/example.go])

    The two messages of the examples are written to and read from linked buffers with
    [Reserve], [WriteString], [WriteBytes] and [ReadBytes], and serialised into byte
    slices of a pool.  They are the documented way to use the buffers. *)

From Stdlib Require Import ZArith Lia.
From stdpp Require Import prelude list gmap strings.
From S2P Require Import Prelude GoMem BufferSlice BufferList BufferManager Allocator ShmAllocator LinkedBuffer LinkedBufferProofs LinkedBufferReserve LinkedBufferFifo.

Record Request := MkRequest { rq_ID : Z; rq_Name : list Z; rq_Key : list Z }.
Record Response := MkResponse { rs_ID : Z; rs_Name : list Z; rs_Image : list Z }.

(** [Reset] keeps the array of the last field and empties the slice. *)
Definition Request_Reset (r : Request) : Request := MkRequest 0 [] (take 0 (rq_Key r)).
Definition Response_Reset (r : Response) : Response := MkResponse 0 [] (take 0 (rs_Image r)).

Section codec.
Context {A : Type} `{Allocator A} (bm : A).
Context (readMore : Z → M lbst (option error)) (dirt : nat → list Z).

(** [binary.BigEndian.PutUint64(data, v)] and [PutUint32]: the last byte is checked first. *)
Definition put_be (n : nat) (d : gslice) (v : Z) : M lbst unit :=
  _ ← index_ptr d (Z.of_nat n - 1);
  on_heap (on_mem (store_bytes (slice_ptr d) (be_bytes n v))).

(** A field with its length in front: [data, err = writer.Reserve(4)] and so on. *)
Definition write_len (n : Z) : M lbst (option error) :=
  r ← Reserve bm 4;
  match r with
  | inl e => mret (Some e)
  | inr d => _ ← put_be 4 d (u32 n); mret None
  end.

(** [WriteString] has no error; [body] is the last field. *)
Definition write_message (ID : Z) (name body : list Z) : M lbst (option error) :=
  r ← Reserve bm 8;
  match r with
  | inl e => mret (Some e)
  | inr d =>
      _ ← put_be 8 d ID;
      err ← write_len (Z.of_nat (length name));
      match err with
      | Some e => mret (Some e)
      | None =>
          _ ← WriteString bm name;
          err ← write_len (Z.of_nat (length body));
          match err with
          | Some e => mret (Some e)
          | None => _ ← WriteBytes bm body; mret None
          end
      end
  end.

Definition Request_WriteToShm (r : Request) : M lbst (option error) := write_message (rq_ID r) (rq_Name r) (rq_Key r).
Definition Response_WriteToShm (r : Response) : M lbst (option error) := write_message (rs_ID r) (rs_Name r) (rs_Image r).

(** [data, err = reader.ReadBytes(n)], and what is in [data]. *)
Definition read_data (n : Z) : M lbst (error + list Z) :=
  r ← ReadBytes bm readMore dirt n;
  match r with
  | inl e => mret (inl e)
  | inr d => bs ← view d; mret (inr bs)
  end.

(** [binary.BigEndian.Uint64(data)]: the length is checked. *)
Definition get_be (n : nat) (bs : list Z) : M lbst Z :=
  b ← of_option (bs !! (n - 1)%nat : option Z); mret (be_val (take n bs)).

(** A field with its length in front. *)
Definition read_field : M lbst (error + list Z) :=
  r ← read_data 4;
  match r with
  | inl e => mret (inl e)
  | inr bs => n ← get_be 4 bs; read_data n
  end.

(** The fields that were read before an error are set already. *)
Definition read_message (old : Z * list Z * list Z) : M lbst (option error * (Z * list Z * list Z)) :=
  let '(id0, name0, body0) := old in
  r ← read_data 8;
  match r with
  | inl e => mret (Some e, old)
  | inr bs =>
      ID ← get_be 8 bs;
      r ← read_field;
      match r with
      | inl e => mret (Some e, (ID, name0, body0))
      | inr name =>
          r ← read_field;
          match r with
          | inl e => mret (Some e, (ID, name, body0))
          | inr body => _ ← ReleasePreviousRead bm; mret (None, (ID, name, body))
          end
      end
  end.

Definition Request_ReadFromShm (r : Request) : M lbst (option error * Request) :=
  x ← read_message (rq_ID r, rq_Name r, rq_Key r);
  let '(err, (i, n, k)) := x in mret (err, MkRequest i n k).
Definition Response_ReadFromShm (r : Response) : M lbst (option error * Response) :=
  x ← read_message (rs_ID r, rs_Name r, rs_Image r);
  let '(err, (i, n, k)) := x in mret (err, MkResponse i n k).
End codec.

(** ** Serialisation into a byte slice

    [BufferPool] holds byte slices; a slice that comes back was cut to the length of the
    message it carried last. *)
Record gbuf := Gbuf { gb_len : Z; gb_arr : list Z }.

(** [BufferPool.New] *)
Definition fresh_buf : gbuf := Gbuf 4096 (replicate 4096 0).

(** [data[a:b]]: the upper bound may go up to the capacity. *)
Definition cut (d : gbuf) (a b : Z) : option gbuf :=
  if (0 <=? a) && (a <=? b) && (b <=? Z.of_nat (length (gb_arr d))) then Some (Gbuf (b - a) (drop (Z.to_nat a) (gb_arr d))) else None.

(** The bytes of a slice. *)
Definition gb_bytes (d : gbuf) : list Z := take (Z.to_nat (gb_len d)) (gb_arr d).

(** [binary.BigEndian.PutUint64(data[off:], v)] and [PutUint32]. *)
Definition put_at (n : nat) (off v : Z) (d : gbuf) : option gbuf :=
  if (0 <=? off) && (off + Z.of_nat n <=? gb_len d) then a ← write_at (gb_arr d) off (be_bytes n v); Some (Gbuf (gb_len d) a) else None.

(** [copy(data[off:], src)]: as much as there is room for. *)
Definition copy_at (off : Z) (src : list Z) (d : gbuf) : option (Z * gbuf) :=
  if (0 <=? off) && (off <=? gb_len d) then
    let n := Z.min (Z.of_nat (length src)) (gb_len d - off) in
    a ← write_at (gb_arr d) off (take (Z.to_nat n) src); Some (n, Gbuf (gb_len d) a)
  else None.

(** [binary.BigEndian.Uint64(data[off:])] and [Uint32]. *)
Definition get_at (n : nat) (off : Z) (d : gbuf) : option Z :=
  if (0 <=? off) && (off + Z.of_nat n <=? gb_len d) then be_val <$> read_at (gb_arr d) off (Z.of_nat n) else None.

Definition Request_Serialize (r : Request) (data : gbuf) : option gbuf :=
  data ← put_at 8 0 (rq_ID r) data;
  let offset := 8 in
  data ← put_at 4 offset (u32 (Z.of_nat (length (rq_Name r)))) data;
  let offset := offset + 4 in
  '(_, data) ← copy_at offset (rq_Name r) data;
  let offset := offset + Z.of_nat (length (rq_Name r)) in
  data ← put_at 4 offset (u32 (Z.of_nat (length (rq_Key r)))) data;
  let offset := offset + 4 in
  '(_, data) ← copy_at offset (rq_Key r) data;
  let offset := offset + Z.of_nat (length (rq_Key r)) in
  cut data 0 offset.

(** Here the offset moves by what [copy] copied of the name. *)
Definition Response_Serialize (r : Response) (data : gbuf) : option gbuf :=
  data ← put_at 8 0 (rs_ID r) data;
  let offset := 8 in
  data ← put_at 4 offset (u32 (Z.of_nat (length (rs_Name r)))) data;
  let offset := offset + 4 in
  '(n, data) ← copy_at offset (rs_Name r) data;
  let offset := offset + n in
  data ← put_at 4 offset (u32 (Z.of_nat (length (rs_Image r)))) data;
  let offset := offset + 4 in
  '(_, data) ← copy_at offset (rs_Image r) data;
  let offset := offset + Z.of_nat (length (rs_Image r)) in
  cut data 0 offset.

(** [Deserialize]: [None] is a panic. *)
Definition deserialize (data : gbuf) : option (Z * list Z * list Z) :=
  ID ← get_at 8 0 data;
  let offset := 8 in
  strLen ← get_at 4 offset data;
  let offset := offset + 4 in
  name ← cut data offset (offset + strLen);
  let offset := offset + strLen in
  keyLen ← get_at 4 offset data;
  let offset := offset + 4 in
  body ← cut data offset (offset + keyLen);
  Some (ID, gb_bytes name, gb_bytes body).
Definition Request_Deserialize (data : gbuf) : option Request :=
  '(i, n, k) ← deserialize data; Some (MkRequest i n k).
Definition Response_Deserialize (data : gbuf) : option Response :=
  '(i, n, k) ← deserialize data; Some (MkResponse i n k).

(** What a message looks like. *)
Definition encoding (ID : Z) (name body : list Z) : list Z :=
  be_bytes 8 ID ++ be_bytes 4 (Z.of_nat (length name)) ++ name ++ be_bytes 4 (Z.of_nat (length body)) ++ body.

Definition fits (ID : Z) (name body : list Z) : Prop :=
  0 ≤ ID < 2 ^ 64 ∧ Z.of_nat (length name) < 2 ^ 32 ∧ Z.of_nat (length body) < 2 ^ 32.

Section codec_ok.
Context {A : Type} `{AllocatorLaws A} (bm : A).
Context (readMore : Z → M lbst (option error)) (dirt : nat → list Z).
Hypothesis dirt_length : ∀ n, length (dirt n) = n.

Lemma put_be_ok s d n size O pins c v : fillable bm s d size O pins c → size = Z.of_nat n → (0 < n)%nat →
  ∃ s' ps', put_be n d v s = Done (tt, s') ∧ lb_rep bm s' O ps' pins (c ++ be_bytes n v).
Proof.
  intros [Hd Hf] -> Hn. destruct (Hf (be_bytes n v)) as (s'&ps'&E&Hr); [by rewrite length_be_bytes|]. exists s', ps'. split; [|done].
  unfold put_be. erewrite bind_done by (apply index_ptr_ok; lia). exact E.
Qed.

Lemma write_len_ok s O ps pins c n : lb_rep bm s O ps pins c → 0 ≤ n < 2 ^ 32 →
  ∃ s' ps', write_len bm n s = Done (None, s') ∧ lb_rep bm s' O ps' pins (c ++ be_bytes 4 n).
Proof.
  intros Hr Hn. destruct (Reserve_ok bm s O ps pins c 4 Hr ltac:(lia)) as (d&s1&E&Hf). destruct (put_be_ok s1 d 4 4 O pins c n Hf eq_refl ltac:(lia)) as (s'&ps'&E'&Hr').
  exists s', ps'. split; [|done]. unfold write_len. erewrite bind_done by exact E. cbv beta iota. rewrite u32_small by lia. by erewrite bind_done by exact E'.
Qed.

Lemma write_message_ok s O ps pins c ID name body : lb_rep bm s O ps pins c → fits ID name body →
  ∃ s' ps', write_message bm ID name body s = Done (None, s') ∧ lb_rep bm s' O ps' pins (c ++ encoding ID name body).
Proof.
  intros Hr (Hid&Hn&Hb). destruct (Reserve_ok bm s O ps pins c 8 Hr ltac:(lia)) as (d&s1&E1&Hf).
  destruct (put_be_ok s1 d 8 8 O pins c ID Hf eq_refl ltac:(lia)) as (s2&ps2&E2&Hr2).
  destruct (write_len_ok s2 O ps2 pins _ (Z.of_nat (length name)) Hr2 ltac:(lia)) as (s3&ps3&E3&Hr3).
  destruct (WriteBytes_ok bm s3 O ps3 pins _ name Hr3 Hn) as (s4&ps4&E4&Hr4).
  destruct (write_len_ok s4 O ps4 pins _ (Z.of_nat (length body)) Hr4 ltac:(lia)) as (s5&ps5&E5&Hr5).
  destruct (WriteBytes_ok bm s5 O ps5 pins _ body Hr5 Hb) as (s6&ps6&E6&Hr6).
  exists s6, ps6. unfold encoding. rewrite <- !app_assoc in Hr6. split; [|done]. unfold write_message.
  erewrite bind_done by exact E1. cbv beta iota. erewrite bind_done by exact E2. cbv beta. erewrite bind_done by exact E3. cbv beta iota.
  unfold WriteString. erewrite bind_done by (by erewrite bind_done by exact E4). cbv beta. erewrite bind_done by exact E5. cbv beta iota. by erewrite bind_done by exact E6.
Qed.

Lemma read_data_ok s O ps pins bs c : lb_rep bm s O ps pins (bs ++ c) →
  ∃ s' ps' pins', read_data bm readMore dirt (Z.of_nat (length bs)) s = Done (inr bs, s') ∧ lb_rep bm s' O ps' pins' c.
Proof.
  intros Hr. destruct (decide (bs = [])) as [->|Hne].
  - exists s, ps, pins. split; [|done]. unfold read_data, ReadBytes. cbn. done.
  - assert (0 < length bs)%nat by (destruct bs; [done|cbn; lia]).
    destruct (ReadBytes_ok bm readMore dirt dirt_length s O ps pins _ (Z.of_nat (length bs)) Hr) as (s'&ps'&pins'&d&E&Hb&Hr'); [rewrite length_app; lia|].
    rewrite Nat2Z.id, take_app_length in Hb. rewrite Nat2Z.id, drop_app_length in Hr'. exists s', ps', pins'. split; [|done].
    unfold read_data. erewrite bind_done by exact E. cbv beta iota. by erewrite bind_done by (by apply view_ok).
Qed.

Lemma get_be_ok n v (s : lbst) : (0 < n)%nat → 0 ≤ v < 256 ^ Z.of_nat n → get_be n (be_bytes n v) s = Done (v, s).
Proof.
  intros Hn Hv. unfold get_be. destruct (lookup_lt_is_Some_2 (be_bytes n v) (n - 1)) as [b Hb]; [rewrite length_be_bytes; lia|]. rewrite Hb.
  erewrite bind_done by done. cbv beta. rewrite take_ge by (by rewrite length_be_bytes). rewrite be_val_bytes, Z.mod_small by lia. done.
Qed.

Lemma read_field_ok s O ps pins bs c : lb_rep bm s O ps pins (be_bytes 4 (Z.of_nat (length bs)) ++ bs ++ c) → Z.of_nat (length bs) < 2 ^ 32 →
  ∃ s' ps' pins', read_field bm readMore dirt s = Done (inr bs, s') ∧ lb_rep bm s' O ps' pins' c.
Proof.
  intros Hr Hlen. destruct (read_data_ok s O ps pins _ _ Hr) as (s1&ps1&pins1&E1&Hr1). rewrite length_be_bytes in E1.
  destruct (read_data_ok s1 O ps1 pins1 bs c Hr1) as (s2&ps2&pins2&E2&Hr2). exists s2, ps2, pins2. split; [|done].
  unfold read_field. erewrite bind_done by exact E1. cbv beta iota. erewrite bind_done by (apply get_be_ok; [lia|cbn; lia]). exact E2.
Qed.

Lemma read_message_ok s O ps pins ID name body c old : lb_rep bm s O ps pins (encoding ID name body ++ c) → fits ID name body →
  ∃ s' ps', read_message bm readMore dirt old s = Done ((None, (ID, name, body)), s') ∧ lb_rep bm s' O ps' [] c.
Proof.
  intros Hr (Hid&Hn&Hb). unfold encoding in Hr. rewrite <- !app_assoc in Hr. destruct (read_data_ok s O ps pins _ _ Hr) as (s1&ps1&pins1&E1&Hr1). rewrite length_be_bytes in E1.
  destruct (read_field_ok s1 O ps1 pins1 name _ Hr1 Hn) as (s2&ps2&pins2&E2&Hr2). destruct (read_field_ok s2 O ps2 pins2 body _ Hr2 Hb) as (s3&ps3&pins3&E3&Hr3).
  destruct (ReleasePreviousRead_ok bm s3 O ps3 pins3 c Hr3) as (s4&ps4&E4&Hr4). exists s4, ps4. split; [|done]. destruct old as [[i0 n0] b0]. unfold read_message.
  erewrite bind_done by exact E1. cbv beta iota. erewrite bind_done by (apply get_be_ok; [lia|cbn; lia]). cbv beta.
  erewrite bind_done by exact E2. cbv beta iota. erewrite bind_done by exact E3. cbv beta iota. by erewrite bind_done by exact E4.
Qed.
End codec_ok.

(** ** The serialised form *)

Definition msg_size (name body : list Z) : Z := 16 + Z.of_nat (length name) + Z.of_nat (length body).

Definition gb_wf (d : gbuf) : Prop := 0 ≤ gb_len d ≤ Z.of_nat (length (gb_arr d)).

(** What [Serialize] makes of a buffer: the part of the message within the length of the
    buffer, what was in the array before behind it. *)
Definition serialized (ID : Z) (name body : list Z) (d : gbuf) : option gbuf :=
  let n := Z.to_nat (gb_len d) in
  if (16 + Z.of_nat (length name) <=? gb_len d) && (msg_size name body <=? Z.of_nat (length (gb_arr d)))
  then Some (Gbuf (msg_size name body) (take n (encoding ID name body) ++ drop (n `min` length (encoding ID name body)) (gb_arr d)))
  else None.

Lemma length_encoding ID name body : length (encoding ID name body) = Z.to_nat (msg_size name body).
Proof. unfold encoding, msg_size. rewrite !length_app, !length_be_bytes. lia. Qed.

Lemma write_at_prefix p q l off : off = Z.of_nat (length p) → (length l ≤ length q)%nat →
  write_at (p ++ q) off l = Some ((p ++ l) ++ drop (length l) q).
Proof.
  intros -> Hl. unfold write_at. rewrite length_app. bdecide. cbn [andb]. rewrite Nat2Z.id, take_app_length, drop_app_ge by lia.
  rewrite <- app_assoc. do 3 f_equal. f_equal. lia.
Qed.

Lemma put_at_ok n off v m p q : off = Z.of_nat (length p) → off + Z.of_nat n ≤ m ≤ Z.of_nat (length (p ++ q)) →
  put_at n off v (Gbuf m (p ++ q)) = Some (Gbuf m ((p ++ be_bytes n v) ++ drop n q)).
Proof.
  intros -> Hm. rewrite length_app in Hm. unfold put_at; cbn [gb_len gb_arr]. bdecide. cbn [andb].
  rewrite write_at_prefix by (rewrite ?length_be_bytes; lia). cbn. by rewrite length_be_bytes.
Qed.

Lemma put_at_short n off v d : gb_len d < off + Z.of_nat n → put_at n off v d = None.
Proof. intros. unfold put_at. destruct (_ && _) eqn:E; [breflect; lia|done]. Qed.

Lemma copy_at_ok off src m p q : off = Z.of_nat (length p) → off ≤ m ≤ Z.of_nat (length (p ++ q)) →
  let n := Z.min (Z.of_nat (length src)) (m - off) in
  copy_at off src (Gbuf m (p ++ q)) = Some (n, Gbuf m ((p ++ take (Z.to_nat n) src) ++ drop (Z.to_nat n) q)).
Proof.
  intros -> Hm n. rewrite length_app in Hm. unfold copy_at; cbn [gb_len gb_arr]. bdecide. cbn [andb]. fold n.
  rewrite write_at_prefix by (rewrite ?length_take; lia). cbn. rewrite length_take. by replace (Z.to_nat n `min` length src)%nat with (Z.to_nat n) by lia.
Qed.

(** Both functions, with the move of the offset after the name as an argument. *)
Definition serialize_by (adv : Z → Z) (ID : Z) (name body : list Z) (data : gbuf) : option gbuf :=
  data ← put_at 8 0 ID data;
  let offset := 8 in
  data ← put_at 4 offset (u32 (Z.of_nat (length name))) data;
  let offset := offset + 4 in
  '(n, data) ← copy_at offset name data;
  let offset := offset + adv n in
  data ← put_at 4 offset (u32 (Z.of_nat (length body))) data;
  let offset := offset + 4 in
  '(_, data) ← copy_at offset body data;
  let offset := offset + Z.of_nat (length body) in
  cut data 0 offset.

Lemma serialized_arr ID name body m a : 16 + Z.of_nat (length name) ≤ m →
  (((((be_bytes 8 ID ++ be_bytes 4 (Z.of_nat (length name))) ++ name) ++ be_bytes 4 (Z.of_nat (length body))) ++
     take (Z.to_nat (Z.min (Z.of_nat (length body)) (m - (12 + Z.of_nat (length name) + 4)))) body) ++
     drop (Z.to_nat (Z.min (Z.of_nat (length body)) (m - (12 + Z.of_nat (length name) + 4)))) (drop 4 (drop (length name) (drop 4 (drop 8 a)))))
  = take (Z.to_nat m) (encoding ID name body) ++ drop (Z.to_nat m `min` length (encoding ID name body)) a.
Proof.
  intros Hm. rewrite !drop_drop, length_encoding. unfold encoding, msg_size. rewrite !app_assoc. f_equal; [|f_equal; lia].
  rewrite take_app, (take_ge (_ ++ be_bytes 4 _)) by (rewrite !length_app, !length_be_bytes; lia). f_equal. rewrite !length_app, !length_be_bytes.
  destruct (decide (m - (12 + Z.of_nat (length name) + 4) ≤ Z.of_nat (length body))).
  - f_equal. lia.
  - rewrite !take_ge by lia. done.
Qed.

Lemma serialize_by_ok adv ID name body d : gb_wf d → fits ID name body →
  adv (Z.of_nat (length name)) = Z.of_nat (length name) →
  (∀ c, c = Z.min (Z.of_nat (length name)) (gb_len d - 12) → gb_len d < 16 + Z.of_nat (length name) → gb_len d < 16 + adv c) →
  serialize_by adv ID name body d = serialized ID name body d.
Proof.
  intros Hwf (_&Hn&Hb) Hadv Hshort. destruct d as [m a]. unfold gb_wf in Hwf; cbn in Hwf. unfold serialized, serialize_by; cbn [gb_len gb_arr] in *. change (8 + 4) with 12.
  rewrite !u32_small by lia. change a with ([] ++ a) at 1. destruct (decide (m < 8)) as [?|H8].
  { rewrite put_at_short by (cbn; lia). by bdecide. }
  rewrite put_at_ok by (cbn; lia). cbn [mbind option_bind app]. destruct (decide (m < 12)) as [?|H12].
  { rewrite put_at_short by (cbn; lia). by bdecide. }
  rewrite put_at_ok by (rewrite ?length_app, ?length_be_bytes, ?length_drop; lia). cbn [mbind option_bind].
  rewrite copy_at_ok by (rewrite ?length_app, ?length_be_bytes, ?length_drop; lia). cbn [mbind option_bind].
  destruct (decide (m < 16 + Z.of_nat (length name))) as [Hlt|Hge].
  { rewrite put_at_short by (specialize (Hshort _ eq_refl Hlt); cbn; lia). by bdecide. }
  rewrite (Z.min_l (Z.of_nat (length name))), Hadv, Nat2Z.id, firstn_all by lia.
  rewrite put_at_ok by (rewrite ?length_app, ?length_be_bytes, ?length_drop; lia). cbn [mbind option_bind].
  rewrite copy_at_ok by (rewrite ?length_app, ?length_be_bytes, ?length_drop; lia). cbn [mbind option_bind].
  rewrite serialized_arr by lia. set (e := take _ _ ++ _).
  assert (length e = length a) as He by (unfold e; rewrite length_app, length_take, length_drop, length_encoding; unfold msg_size; lia).
  unfold cut; cbn [gb_len gb_arr]. rewrite He, drop_0, Z.sub_0_r. replace (12 + Z.of_nat (length name) + 4 + Z.of_nat (length body)) with (msg_size name body) by (unfold msg_size; lia).
  replace (0 <=? msg_size name body) with true by (unfold msg_size; bdecide; done). by bdecide.
Qed.

Lemma get_at_ok n off v m p q : off = Z.of_nat (length p) → off + Z.of_nat n ≤ m → 0 ≤ v < 256 ^ Z.of_nat n →
  get_at n off (Gbuf m (p ++ be_bytes n v ++ q)) = Some v.
Proof.
  intros -> Hm Hv. unfold get_at; cbn [gb_len gb_arr]. bdecide. cbn [andb].
  rewrite read_at_ok by (rewrite ?length_app, ?length_be_bytes; lia). rewrite !Nat2Z.id, drop_app_length, take_app_length' by (by rewrite length_be_bytes).
  cbn. by rewrite be_val_bytes, Z.mod_small by lia.
Qed.

Lemma cut_ok off b m p x q : off = Z.of_nat (length p) → b = off + Z.of_nat (length x) →
  ∃ d, cut (Gbuf m (p ++ x ++ q)) off b = Some d ∧ gb_bytes d = x.
Proof.
  intros -> ->. eexists. unfold cut; cbn [gb_arr]. rewrite !length_app. bdecide. cbn [andb]. split; [done|].
  unfold gb_bytes; cbn [gb_len gb_arr]. rewrite Nat2Z.id, drop_app_length, take_app_length' by lia. done.
Qed.

(** [Deserialize] of a buffer that starts with a message. *)
Lemma deserialize_ok ID name body m rest : fits ID name body → msg_size name body ≤ m →
  deserialize (Gbuf m (encoding ID name body ++ rest)) = Some (ID, name, body).
Proof.
  intros (Hi&Hn&Hb) Hm. unfold msg_size in Hm. unfold deserialize. set (a := encoding ID name body ++ rest).
  set (n4 := be_bytes 4 (Z.of_nat (length name))). set (b4 := be_bytes 4 (Z.of_nat (length body))).
  assert (a = [] ++ be_bytes 8 ID ++ n4 ++ name ++ b4 ++ body ++ rest) as E1 by (unfold a, encoding; by rewrite <- !app_assoc).
  assert (a = be_bytes 8 ID ++ n4 ++ name ++ b4 ++ body ++ rest) as E2 by done.
  assert (a = (be_bytes 8 ID ++ n4) ++ name ++ b4 ++ body ++ rest) as E3 by (rewrite E2; by rewrite <- !app_assoc).
  assert (a = (be_bytes 8 ID ++ n4 ++ name) ++ b4 ++ body ++ rest) as E4 by (rewrite E2; by rewrite <- !app_assoc).
  assert (a = (be_bytes 8 ID ++ n4 ++ name ++ b4) ++ body ++ rest) as E5 by (rewrite E2; by rewrite <- !app_assoc).
  destruct (cut_ok 12 (12 + Z.of_nat (length name)) m (be_bytes 8 ID ++ n4) name (b4 ++ body ++ rest) ltac:(rewrite length_app; unfold n4; rewrite !length_be_bytes; lia) eq_refl) as (d1&C1&B1).
  destruct (cut_ok (16 + Z.of_nat (length name)) (16 + Z.of_nat (length name) + Z.of_nat (length body)) m (be_bytes 8 ID ++ n4 ++ name ++ b4) body rest
              ltac:(rewrite !length_app; unfold n4, b4; rewrite !length_be_bytes; lia) eq_refl) as (d2&C2&B2).
  rewrite <- E3 in C1. rewrite <- E5 in C2.
  assert (get_at 8 0 (Gbuf m a) = Some ID) as -> by (rewrite E1; apply get_at_ok; cbn; lia). cbn [mbind option_bind].
  assert (get_at 4 8 (Gbuf m a) = Some (Z.of_nat (length name))) as -> by (rewrite E2; apply (get_at_ok 4); rewrite ?length_be_bytes; lia). cbn [mbind option_bind].
  change (8 + 4) with 12. rewrite C1. cbn [mbind option_bind].
  assert (get_at 4 (12 + Z.of_nat (length name)) (Gbuf m a) = Some (Z.of_nat (length body))) as ->
    by (rewrite E4; apply (get_at_ok 4); rewrite ?length_app; unfold n4; rewrite ?length_be_bytes; lia). cbn [mbind option_bind].
  replace (12 + Z.of_nat (length name) + 4) with (16 + Z.of_nat (length name)) by lia. rewrite C2. cbn. by rewrite B1, B2.
Qed.

(** ** Programs that exchange messages *)

Definition message : Type := Request + Response.
Definition message_fits (m : message) : Prop :=
  match m with inl r => fits (rq_ID r) (rq_Name r) (rq_Key r) | inr r => fits (rs_ID r) (rs_Name r) (rs_Image r) end.
Definition message_bytes (m : message) : list Z :=
  match m with inl r => encoding (rq_ID r) (rq_Name r) (rq_Key r) | inr r => encoding (rs_ID r) (rs_Name r) (rs_Image r) end.

Section programs.
Context {A : Type} `{Allocator A} (bm : A) (readMore : Z → M lbst (option error)) (dirt : nat → list Z).

Fixpoint write_all (ms : list message) : M lbst (list (option error)) :=
  match ms with
  | [] => mret []
  | m :: ms =>
      e ← match m with inl r => Request_WriteToShm bm r | inr r => Response_WriteToShm bm r end;
      es ← write_all ms; mret (e :: es)
  end.

(** Every message is read into the object the last one of its kind was read into. *)
Fixpoint read_all (kinds : list bool) (rq : Request) (rs : Response) : M lbst (list (option error * message)) :=
  match kinds with
  | [] => mret []
  | true :: kinds =>
      x ← Request_ReadFromShm bm readMore dirt rq; xs ← read_all kinds x.2 rs; mret ((x.1, inl x.2) :: xs)
  | false :: kinds =>
      x ← Response_ReadFromShm bm readMore dirt rs; xs ← read_all kinds rq x.2; mret ((x.1, inr x.2) :: xs)
  end.
End programs.

Definition is_request (m : message) : bool := match m with inl _ => true | inr _ => false end.

Section programs_ok.
Context {A : Type} `{AllocatorLaws A} (bm : A) (readMore : Z → M lbst (option error)) (dirt : nat → list Z).
Hypothesis dirt_length : ∀ n, length (dirt n) = n.

Lemma write_all_ok ms s O ps pins c : lb_rep bm s O ps pins c → Forall message_fits ms →
  ∃ s' ps', write_all bm ms s = Done (replicate (length ms) None, s') ∧ lb_rep bm s' O ps' pins (c ++ concat (message_bytes <$> ms)).
Proof.
  intros Hr Hf. revert s ps c Hr. induction Hf as [|m ms Hm Hf IH]; intros s ps c Hr; cbn [write_all fmap list_fmap concat length replicate].
  - exists s, ps. by rewrite app_nil_r.
  - assert (∃ s1 ps1, (match m with inl r => Request_WriteToShm bm r | inr r => Response_WriteToShm bm r end) s = Done (None, s1) ∧
              lb_rep bm s1 O ps1 pins (c ++ message_bytes m)) as (s1&ps1&E1&Hr1) by (destruct m; exact (write_message_ok bm s O ps pins c _ _ _ Hr Hm)).
    destruct (IH s1 ps1 _ Hr1) as (s2&ps2&E2&Hr2). exists s2, ps2. rewrite <- app_assoc in Hr2. split; [|done].
    erewrite bind_done by exact E1. cbv beta. by erewrite bind_done by exact E2.
Qed.

Lemma read_all_ok ms s O ps pins c rq rs : lb_rep bm s O ps pins (concat (message_bytes <$> ms) ++ c) → Forall message_fits ms →
  ∃ s' ps' pins', read_all bm readMore dirt (is_request <$> ms) rq rs s = Done (pair None <$> ms, s') ∧ lb_rep bm s' O ps' pins' c.
Proof.
  intros Hr Hf. revert s ps pins rq rs Hr. induction Hf as [|m ms Hm Hf IH]; intros s ps pins rq rs Hr; cbn [fmap list_fmap concat] in *.
  - by exists s, ps, pins.
  - rewrite <- app_assoc in Hr. destruct m as [[i n k]|[i n k]]; cbn [message_fits message_bytes is_request] in *; cbn [read_all rq_ID rq_Name rq_Key rs_ID rs_Name rs_Image] in *.
    + destruct (read_message_ok bm readMore dirt dirt_length s O ps pins i n k _ (rq_ID rq, rq_Name rq, rq_Key rq) Hr Hm) as (s1&ps1&E1&Hr1).
      destruct (IH s1 ps1 [] (MkRequest i n k) rs Hr1) as (s2&ps2&pins2&E2&Hr2). exists s2, ps2, pins2. split; [|done].
      erewrite bind_done by (unfold Request_ReadFromShm; by erewrite bind_done by exact E1). cbv beta. cbn [fst snd]. by erewrite bind_done by exact E2.
    + destruct (read_message_ok bm readMore dirt dirt_length s O ps pins i n k _ (rs_ID rs, rs_Name rs, rs_Image rs) Hr Hm) as (s1&ps1&E1&Hr1).
      destruct (IH s1 ps1 [] rq (MkResponse i n k) Hr1) as (s2&ps2&pins2&E2&Hr2). exists s2, ps2, pins2. split; [|done].
      erewrite bind_done by (unfold Response_ReadFromShm; by erewrite bind_done by exact E1). cbv beta. cbn [fst snd]. by erewrite bind_done by exact E2.
Qed.
End programs_ok.

(** [C35] The codec over shared memory: whatever slices the allocator hands out, any
    sequence of requests and responses that was written to an empty buffer with
    [WriteToShm] is read back from it with [ReadFromShm], without an error, field by
    field, in order, and nothing is left. *)
Theorem shm_codec_roundtrip {A : Type} `{AllocatorLaws A} (bm : A) readMore dirt ms s O ps pins rq rs :
  (∀ n, length (dirt n) = n) → lb_rep bm s O ps pins [] → Forall message_fits ms →
  ∃ s1 s2 ps' pins', write_all bm ms s = Done (replicate (length ms) None, s1) ∧
    read_all bm readMore dirt (is_request <$> ms) rq rs s1 = Done (pair None <$> ms, s2) ∧ lb_rep bm s2 O ps' pins' [].
Proof.
  intros Hd Hr Hf. destruct (write_all_ok bm ms s O ps pins [] Hr Hf) as (s1&ps1&E1&Hr1). cbn [app] in Hr1.
  rewrite <- (app_nil_r (concat _)) in Hr1. destruct (read_all_ok bm readMore dirt Hd ms s1 O ps1 pins [] rq rs Hr1 Hf) as (s2&ps2&pins2&E2&Hr2). eauto 10.
Qed.

Lemma shm_codec_roundtrip_witness :
  ∃ m s1 s2, createBufferManager demo_pairs "a" demo_shm 0 demo_shm_mem
               = Done (inr (manager_of demo_shm 20 0 demo_pairs "a"), m) ∧
    write_all (manager_of demo_shm 20 0 demo_pairs "a") [inl (MkRequest 7 [104; 105] [1; 2; 3]); inr (MkResponse 258 [] [9])]
      (LbSt (Heap m ∅ []) newEmptyLinkedBuffer 0) = Done ([None; None], s1) ∧
    read_all (manager_of demo_shm 20 0 demo_pairs "a") end_of_stream (λ n, replicate n 255) [true; false] (MkRequest 0 [] []) (MkResponse 1 [5] [6]) s1
      = Done ([(None, inl (MkRequest 7 [104; 105] [1; 2; 3])); (None, inr (MkResponse 258 [] [9]))], s2).
Proof.
  destruct (createBufferManager_ok demo_shm_mem demo_shm 0 demo_pairs "a" demo_room) as (m&E&Hf&_&Hroom).
  destruct (shm_codec_roundtrip (manager_of demo_shm 20 0 demo_pairs "a") end_of_stream (λ n, replicate n 255)
              [inl (MkRequest 7 [104; 105] [1; 2; 3]); inr (MkResponse 258 [] [9])]
              (LbSt (Heap m ∅ []) newEmptyLinkedBuffer 0) [] [] [] (MkRequest 0 [] []) (MkResponse 1 [5] [6])) as (s1&s2&ps'&pins'&E1&E2&_).
  - intros n. apply length_replicate.
  - apply lb_rep_empty. apply bm_inv_created; [exact Hroom| |apply (bool_decide_unpack _); vm_compute; exact I].
    exact Hf.
  - repeat constructor; vm_compute; done.
  - exists m, s1, s2. exact (conj E (conj E1 E2)).
Defined.

Lemma Request_Serialize_ok r d : gb_wf d → message_fits (inl r) → Request_Serialize r d = serialized (rq_ID r) (rq_Name r) (rq_Key r) d.
Proof. intros Hwf Hf. rewrite <- (serialize_by_ok (λ _, Z.of_nat (length (rq_Name r)))); [reflexivity|exact Hwf|exact Hf|reflexivity|intros; lia]. Qed.

Lemma Response_Serialize_ok r d : gb_wf d → message_fits (inr r) → Response_Serialize r d = serialized (rs_ID r) (rs_Name r) (rs_Image r) d.
Proof. intros Hwf Hf. rewrite <- (serialize_by_ok (λ n, n)); [reflexivity|exact Hwf|exact Hf|reflexivity|intros; lia]. Qed.

Lemma serialized_fits ID name body d : gb_wf d → msg_size name body ≤ gb_len d →
  ∃ rest, serialized ID name body d = Some (Gbuf (msg_size name body) (encoding ID name body ++ rest)).
Proof.
  intros Hwf Hm. unfold gb_wf in Hwf. unfold serialized. rewrite take_ge by (rewrite length_encoding; lia).
  replace (16 + Z.of_nat (length name) <=? gb_len d) with true by (symmetry; apply Z.leb_le; unfold msg_size in Hm; lia). bdecide. eauto.
Qed.

(** [Serialize] on every branch, for requests and responses and a buffer of any
    length and capacity: it panics exactly when the name and its length do not fit the
    length of the buffer or the message not its capacity; otherwise it returns the part of
    the message that fits the length followed by what was in the array before, so that
    [Deserialize] gives the message back when all of it fits. *)
Theorem serialize_exact d : gb_wf d →
  (∀ r, message_fits (inl r) → Request_Serialize r d = serialized (rq_ID r) (rq_Name r) (rq_Key r) d ∧
     (msg_size (rq_Name r) (rq_Key r) ≤ gb_len d → (Request_Serialize r d ≫= Request_Deserialize) = Some r)) ∧
  (∀ r, message_fits (inr r) → Response_Serialize r d = serialized (rs_ID r) (rs_Name r) (rs_Image r) d ∧
     (msg_size (rs_Name r) (rs_Image r) ≤ gb_len d → (Response_Serialize r d ≫= Response_Deserialize) = Some r)).
Proof.
  intros Hwf. split; intros r Hf.
  - rewrite Request_Serialize_ok by done. split; [done|]. intros Hm. destruct (serialized_fits (rq_ID r) _ _ d Hwf Hm) as [rest ->].
    cbn [mbind option_bind]. unfold Request_Deserialize. rewrite deserialize_ok by (exact Hf || lia). by destruct r.
  - rewrite Response_Serialize_ok by done. split; [done|]. intros Hm. destruct (serialized_fits (rs_ID r) _ _ d Hwf Hm) as [rest ->].
    cbn [mbind option_bind]. unfold Response_Deserialize. rewrite deserialize_ok by (exact Hf || lia). by destruct r.
Qed.

Lemma serialize_exact_witness :
  gb_wf fresh_buf ∧ (Request_Serialize (MkRequest 7 [104; 105] [1; 2; 3]) fresh_buf ≫= Request_Deserialize) = Some (MkRequest 7 [104; 105] [1; 2; 3]).
Proof.
  assert (gb_wf fresh_buf) as Hwf by (vm_compute; split; discriminate). split; [exact Hwf|].
  destruct (serialize_exact fresh_buf Hwf) as [H _]. apply (H (MkRequest 7 [104; 105] [1; 2; 3])); vm_compute; intuition discriminate.
Defined.

(** The programs of the examples put the slice that [Serialize] returned back into the
    pool: when the next message has a name that is longer than the last message was,
    [Serialize] panics, although the message fits a new buffer. *)
Theorem pool_buffer_shrinks r1 r2 :
  message_fits (inl r1) → message_fits (inl r2) → msg_size (rq_Name r1) (rq_Key r1) < 16 + Z.of_nat (length (rq_Name r2)) →
  msg_size (rq_Name r1) (rq_Key r1) ≤ 4096 → msg_size (rq_Name r2) (rq_Key r2) ≤ 4096 →
  ∃ d d', Request_Serialize r1 fresh_buf = Some d ∧ Request_Serialize r2 d = None ∧ Request_Serialize r2 fresh_buf = Some d'.
Proof.
  intros H1 H2 Hlt Hm1 Hm2. assert (gb_wf fresh_buf) as Hwf by (vm_compute; split; discriminate).
  destruct (serialized_fits (rq_ID r1) _ _ fresh_buf Hwf Hm1) as [q1 E1]. destruct (serialized_fits (rq_ID r2) _ _ fresh_buf Hwf Hm2) as [q2 E2].
  rewrite <- Request_Serialize_ok in E1, E2 by done. eexists _, _. split; [exact E1|]. split; [|exact E2].
  rewrite Request_Serialize_ok; [|unfold gb_wf; cbn [gb_len gb_arr]; rewrite length_app, length_encoding; unfold msg_size in *; lia|done].
  unfold serialized; cbn [gb_len]. by bdecide.
Qed.

(** ** [MustWrite] *)

Section must_write.
Context {W : Type} (conn_Write : list Z → M W (Z * option error)).

Fixpoint MustWrite_loop (fuel : nat) (data : list Z) (written : Z) : M W unit :=
  match fuel with
  | O => out_of_fuel
  | S fuel =>
      if written <? Z.of_nat (length data) then
        r ← conn_Write (drop (Z.to_nat written) data);
        match r with
        | (_, Some err) => panic
        | (n, None) => MustWrite_loop fuel data (written + n)
        end
      else mret tt
  end.

(** Every round writes at least a byte. *)
Definition MustWrite (data : list Z) : M W unit := MustWrite_loop (S (length data)) data 0.

Context (wire : W → list Z).
Hypothesis write_prefix : ∀ data w, data ≠ [] →
  ∃ n w', conn_Write data w = Done ((n, None), w') ∧ 0 < n ≤ Z.of_nat (length data) ∧ wire w' = wire w ++ take (Z.to_nat n) data.

Lemma MustWrite_loop_ok fuel : ∀ data written w, 0 ≤ written ≤ Z.of_nat (length data) → Z.of_nat (length data) - written < Z.of_nat fuel →
  ∃ w', MustWrite_loop fuel data written w = Done (tt, w') ∧ wire w' = wire w ++ drop (Z.to_nat written) data.
Proof.
  induction fuel as [|fuel IH]; intros data written w Hw Hf; [lia|]. cbn [MustWrite_loop]. destruct (written <? _) eqn:E; breflect.
  - destruct (write_prefix (drop (Z.to_nat written) data) w) as (n&w1&E1&Hn&Hw1).
    { intros Hd%(f_equal length). rewrite length_drop in Hd. cbn in Hd. lia. }
    rewrite length_drop in Hn. erewrite bind_done by exact E1. destruct (IH data (written + n) w1) as (w2&E2&Hw2); [lia|lia|].
    exists w2. split; [exact E2|]. rewrite Hw2, Hw1, <- app_assoc. f_equal. rewrite Z2Nat.inj_add by lia. by rewrite <- drop_drop, take_drop.
  - exists w. split; [done|]. by rewrite drop_ge, app_nil_r by lia.
Qed.

(** Over a connection that takes at least a byte of every write [MustWrite] returns and
    everything was written once, in order. *)
Theorem MustWrite_exact data w : ∃ w', MustWrite data w = Done (tt, w') ∧ wire w' = wire w ++ data.
Proof. apply (MustWrite_loop_ok _ data 0 w); lia. Qed.

End must_write.

Example MustWrite_in_parts :
  MustWrite (λ data (w : list Z), Done ((Z.min 2 (Z.of_nat (length data)), None), w ++ take 2 data)) [1; 2; 3; 4; 5] [] = Done (tt, [1; 2; 3; 4; 5]).
Proof. reflexivity. Qed.
