(* ===== verification/Protocol.v ===== *)
(** * The wire protocol ([protocol_event.go], [const.go], parts of [session.go])

    Event headers, the events with a body, their validation, and the metadata
    message of the handshake.  A byte slice that is built and passed by value
    is a list of bytes; an access out of its bounds is a panic. *)

From Stdlib Require Import ZArith Lia.
From stdpp Require Import prelude list gmap strings pretty.
From S2P Require Import Prelude.

(** ** Constants *)

Definition protoVersion : Z := 2.
Definition maxSupportProtoVersion : Z := 3.
Definition magicNumber : Z := 30552.
Definition headerSize : Z := 8.
Definition epochIDLen : Z := 8.

Definition typeShareMemoryByFilePath : Z := 0.
Definition typePolling : Z := 1.
Definition typeStreamClose : Z := 2.
Definition typeFallbackData : Z := 3.
Definition typeExchangeProtoVersion : Z := 4.
Definition typeShareMemoryByMemfd : Z := 5.
Definition typeAckShareMemory : Z := 6.
Definition typeAckReadyRecvFD : Z := 7.
Definition typeHotRestart : Z := 8.
Definition typeHotRestartAck : Z := 9.
Definition minEventType : Z := typeShareMemoryByFilePath.
Definition maxEventType : Z := typeHotRestartAck.

Section bytes.
Context {S : Type}.

(** [l[lo:hi]] and an assignment to [l[o:]]. *)
Definition gsub (l : list Z) (lo hi : Z) : M S (list Z) := of_option (read_at l lo (hi - lo)).
Definition gput (l : list Z) (o : Z) (bs : list Z) : M S (list Z) := of_option (write_at l o bs).
Definition gindex (l : list Z) (i : nat) : M S Z := of_option (l !! i).

(** [make([]byte, n)] *)
Definition gmake (n : Z) : M S (list Z) := if n <? 0 then panic else mret (replicate (Z.to_nat n) 0).

(** ** Headers *)

Definition Length (h : list Z) : M S Z := b ← gsub h 0 4; mret (be_val b).
Definition Magic (h : list Z) : M S Z := b ← gsub h 4 6; mret (be_val b).
Definition Version (h : list Z) : M S Z := gindex h 6.
Definition MsgType (h : list Z) : M S Z := gindex h 7.

Definition header_encode (h : list Z) (length version msgType : Z) : M S (list Z) :=
  h ← gput h 0 (be_bytes 4 length);
  h ← gput h 4 (be_bytes 2 magicNumber);
  h ← gput h 6 [u8 version];
  gput h 7 [u8 msgType].

(** A new header: [header(make([]byte, headerSize))] and [encode]. *)
Definition new_header (version msgType : Z) : M S (list Z) :=
  h ← gmake headerSize; header_encode h headerSize version msgType.

(** header | seqID | status *)
Definition fallbackDataEvent_encode (length version seqID status : Z) : M S (list Z) :=
  f ← gmake (headerSize + 8);
  f ← gput f 0 (be_bytes 4 (u32 length));
  f ← gput f 4 (be_bytes 2 magicNumber);
  f ← gput f 6 [u8 version];
  f ← gput f 7 [u8 typeFallbackData];
  f ← gput f 8 (be_bytes 4 seqID);
  gput f 12 (be_bytes 4 status).

Definition eventType_String (t : Z) : string :=
  if t =? typeShareMemoryByFilePath then "ShareMemoryByFilePath"
  else if t =? typePolling then "Polling"
  else if t =? typeStreamClose then "StreamClose"
  else if t =? typeFallbackData then "FallbackData"
  else if t =? typeShareMemoryByMemfd then "ShareMemoryByMemfd"
  else if t =? typeExchangeProtoVersion then "ExchangeProtoVersion"
  else if t =? typeAckShareMemory then "AckShareMemory"
  else if t =? typeAckReadyRecvFD then "AckReadyRecvFD"
  else if t =? typeHotRestart then "HotRestart"
  else if t =? typeHotRestartAck then "HotRestartAck"
  else "<UNSET>" +:+ pretty t.

Definition header_String (h : list Z) : M S string :=
  l ← Length h; m ← Magic h; v ← Version h; t ← MsgType h;
  mret ("Length:" +:+ pretty l +:+ " Magic:" +:+ pretty m +:+ " Version:" +:+ pretty v
          +:+ " Type:" +:+ eventType_String t +:+ " ").

Definition checkEventValid (hdr : list Z) : M S (option error) :=
  m ← Magic hdr;
  v ← Version hdr;
  if negb (m =? magicNumber) || (v =? 0) then mret (Some ErrInvalidVersion)
  else
    mt ← MsgType hdr;
    if (mt <? minEventType) || (mt >? maxEventType) then mret (Some ErrInvalidMsgType)
    else mret None.

(** The polling event of every version, built when the package is loaded. *)
Fixpoint polling_init (n : nat) : M S (list (list Z)) :=
  match n with
  | O => mret []
  | Datatypes.S n => t ← polling_init n; h ← new_header (Z.of_nat n) typePolling; mret (t ++ [h])
  end.
Definition pollingEventWithVersion : M S (list (list Z)) := polling_init (Z.to_nat maxSupportProtoVersion + 1).

(** ** Metadata of the shared memory

    Paths are byte strings. *)

Definition generateShmMetadata (queuePath bufferPath : list Z) (version eventType : Z) : M S (list Z) :=
  let qn := Z.of_nat (length queuePath) in
  let bn := Z.of_nat (length bufferPath) in
  data ← gmake (headerSize + 2 + qn + 2 + bn);
  let offset := headerSize in
  data ← gput data offset (be_bytes 2 (u16 qn));
  let offset := offset + 2 in
  data ← gput data offset queuePath;
  let offset := offset + qn in
  data ← gput data offset (be_bytes 2 (u16 bn));
  let offset := offset + 2 in
  data ← gput data offset bufferPath;
  header_encode data (u32 (Z.of_nat (length data))) version eventType.

(** It returns the buffer path and the queue path. *)
Definition extractShmMetadata (body : list Z) : M S (list Z * list Z) :=
  b ← gsub body 0 2;
  let queuePathLen := be_val b in
  let offset := 2 in
  queuePath ← gsub body offset (offset + queuePathLen);
  let offset := offset + queuePathLen in
  b ← gsub body offset (offset + 2);
  let bufferPathLen := be_val b in
  let offset := offset + 2 in
  bufferPath ← gsub body offset (offset + bufferPathLen);
  mret (bufferPath, queuePath).
End bytes.

(** ** Facts *)

(** A window at a known place of a list that is laid out in pieces. *)
Lemma read_pieces (a b c : list Z) : read_at (a ++ b ++ c) (Z.of_nat (length a)) (Z.of_nat (length b)) = Some b.
Proof.
  rewrite read_at_ok by len. f_equal. rewrite !Nat2Z.id, drop_app_length, take_app_length. done.
Qed.

Lemma write_pieces (a b b' c : list Z) : length b' = length b →
  write_at (a ++ b ++ c) (Z.of_nat (length a)) b' = Some (a ++ b' ++ c).
Proof.
  intros Hl. unfold write_at.
  replace ((0 <=? Z.of_nat (length a)) && (Z.of_nat (length a) + Z.of_nat (length b') <=? Z.of_nat (length (a ++ b ++ c))))
    with true by (symmetry; apply andb_true_iff; split; apply Z.leb_le; len).
  f_equal. rewrite Nat2Z.id, take_app_length. f_equal. f_equal.
  rewrite Hl, <- drop_drop, drop_app_length, drop_app_length. done.
Qed.

Lemma gsub_pieces {S} (s : S) (a b c : list Z) lo hi :
  lo = Z.of_nat (length a) → hi = lo + Z.of_nat (length b) → gsub (a ++ b ++ c) lo hi s = Done (b, s).
Proof.
  intros -> ->. unfold gsub. replace (_ + _ - _) with (Z.of_nat (length b)) by lia. by rewrite read_pieces.
Qed.

Lemma gput_pieces {S} (s : S) (a b b' c : list Z) o :
  o = Z.of_nat (length a) → length b' = length b → gput (a ++ b ++ c) o b' s = Done (a ++ b' ++ c, s).
Proof. intros -> Hl. unfold gput. by rewrite write_pieces. Qed.

Lemma gmake_ok {S} (s : S) n : 0 ≤ n → gmake n s = Done (replicate (Z.to_nat n) 0, s).
Proof. intros Hn. unfold gmake. by bdecide. Qed.

Lemma be_val_u8 v : be_val [u8 v] = u8 v.
Proof. unfold be_val. cbn. lia. Qed.

(** The bytes of a header. *)
Definition header_bytes (length version msgType : Z) : list Z :=
  be_bytes 4 length ++ be_bytes 2 magicNumber ++ [u8 version; u8 msgType].

Lemma length_header_bytes l v t : length (header_bytes l v t) = 8%nat.
Proof. unfold header_bytes. len. Qed.
#[global] Hint Rewrite length_header_bytes : shm_len.

Lemma header_encode_ok {S} (s : S) h rest l v t :
  length h = 8%nat → header_encode (h ++ rest) l v t s = Done (header_bytes l v t ++ rest, s).
Proof.
  intros Hl. do 8 (destruct h as [|? h]; [done|]). destruct h; [|done].
  unfold header_encode, header_bytes. pose proof (length_be_bytes 4 l) as H4. pose proof (length_be_bytes 2 magicNumber) as H2.
  remember (be_bytes 4 l) as b4. remember (be_bytes 2 magicNumber) as b2. clear Heqb4 Heqb2.
  do 4 (destruct b4 as [|? b4]; [done|]). destruct b4; [|done]. do 2 (destruct b2 as [|? b2]; [done|]). destruct b2; [|done].
  erewrite bind_done by (by apply (gput_pieces s [] [_; _; _; _] _ (_ :: _ :: _ :: _ :: rest))). cbv beta.
  erewrite bind_done by (by apply (gput_pieces s [_; _; _; _] [_; _] _ (_ :: _ :: rest))). cbv beta.
  erewrite bind_done by (by apply (gput_pieces s [_; _; _; _; _; _] [_] _ (_ :: rest))). cbv beta.
  by apply (gput_pieces s [_; _; _; _; _; _; _] [_] _ rest).
Qed.

Lemma header_encode_new {S} (s : S) l v t h : length h = 8%nat → header_encode h l v t s = Done (header_bytes l v t, s).
Proof. intros Hl. rewrite <- (app_nil_r h), header_encode_ok by done. by rewrite app_nil_r. Qed.

Lemma new_header_ok {S} (s : S) v t : new_header v t s = Done (header_bytes headerSize v t, s).
Proof. unfold new_header. erewrite bind_done by (by apply gmake_ok). cbv beta. by apply header_encode_new. Qed.

(** The fields of a header that was encoded, whatever follows. *)
Lemma header_fields {S} (s : S) l v t rest :
  let h := header_bytes l v t ++ rest in
  Length h s = Done (u32 l, s) ∧ Magic h s = Done (magicNumber, s) ∧ Version h s = Done (u8 v, s) ∧
  MsgType h s = Done (u8 t, s).
Proof.
  cbn zeta. unfold header_bytes. split_and!.
  - unfold Length. erewrite bind_done; [|rewrite <- app_assoc; by apply (gsub_pieces s [])].
    cbv beta. by rewrite be_val_bytes.
  - unfold Magic. erewrite bind_done; [|rewrite <- !app_assoc; apply gsub_pieces; by rewrite length_be_bytes].
    cbv beta. by rewrite be_val_bytes.
  - unfold Version, gindex. pose proof (length_be_bytes 4 l) as H4. remember (be_bytes 4 l) as b4.
    do 4 (destruct b4 as [|? b4]; [done|]). by destruct b4.
  - unfold MsgType, gindex. pose proof (length_be_bytes 4 l) as H4. remember (be_bytes 4 l) as b4.
    do 4 (destruct b4 as [|? b4]; [done|]). by destruct b4.
Qed.

Lemma checkEventValid_bytes {S} (s : S) l v t rest :
  checkEventValid (header_bytes l v t ++ rest) s
    = Done (if u8 v =? 0 then Some ErrInvalidVersion
            else if u8 t >? maxEventType then Some ErrInvalidMsgType else None, s).
Proof.
  destruct (header_fields s l v t rest) as (_&Em&Ev&Et). unfold checkEventValid.
  erewrite bind_done by exact Em. cbv beta. erewrite bind_done by exact Ev. cbv beta.
  rewrite Z.eqb_refl. cbn [negb orb]. destruct (u8 v =? 0); [done|]. erewrite bind_done by exact Et. cbv beta.
  assert (0 ≤ u8 t) by (apply Z.mod_pos_bound; lia).
  replace (u8 t <? minEventType) with false by (symmetry; apply Z.ltb_ge; unfold minEventType, typeShareMemoryByFilePath; lia).
  cbn [orb]. by destruct (u8 t >? maxEventType).
Qed.

(** Bytes are determined by the big-endian value. *)
Lemma be_bytes_val bs : Forall is_byte bs → be_bytes (length bs) (be_val bs) = bs.
Proof.
  intros Hb. unfold be_bytes, be_val. rewrite <- (length_reverse bs), le_bytes_val; [apply reverse_involutive|].
  by apply Forall_reverse.
Qed.

Lemma be_val_range bs : Forall is_byte bs → 0 ≤ be_val bs < 256 ^ Z.of_nat (length bs).
Proof. intros Hb. unfold be_val. rewrite <- (length_reverse bs). by apply le_val_range, Forall_reverse. Qed.

(** A header of the right magic is an encoded one. *)
Lemma header_decode h :
  length h = 8%nat → Forall is_byte h → be_val (take 2 (drop 4 h)) = magicNumber →
  ∃ l v t, h = header_bytes l v t ∧ 0 ≤ l < 2 ^ 32 ∧ 0 ≤ v < 256 ∧ 0 ≤ t < 256.
Proof.
  intros Hl Hb Hm. do 8 (destruct h as [|? h]; [done|]). destruct h; [|done].
  repeat (apply Forall_cons in Hb as [? Hb]). unfold is_byte in *.
  exists (be_val [z; z0; z1; z2]), z5, z6.
  assert (∀ bs, Forall (λ b, 0 ≤ b < 256) bs → Forall is_byte bs) as Hbs by done.
  pose proof (be_val_range [z; z0; z1; z2] ltac:(apply Hbs; by rewrite !Forall_cons)) as Hr.
  change (256 ^ Z.of_nat (length [z; z0; z1; z2])) with (2 ^ 32) in Hr.
  split_and!; [|lia..].
  unfold header_bytes. cbn [take drop] in Hm. rewrite <- Hm.
  pose proof (be_bytes_val [z; z0; z1; z2] ltac:(apply Hbs; by rewrite !Forall_cons)) as E1.
  pose proof (be_bytes_val [z3; z4] ltac:(apply Hbs; by rewrite !Forall_cons)) as E2.
  cbn [length] in E1, E2. rewrite E1, E2.
  rewrite !u8_small by lia. done.
Qed.

(** What [encode] writes is what the accessors read: for every length,
    version and type, and whatever follows the header in the buffer, encoding
    succeeds, leaves the rest of the buffer alone, and decoding gives the
    three fields back; the event is valid exactly if the version is not 0 and
    the type is known. *)
Theorem header_roundtrip {S} (s : S) buf rest l v t :
  length buf = 8%nat → 0 ≤ l < 2 ^ 32 → 0 ≤ v < 2 ^ 8 → 0 ≤ t < 2 ^ 8 →
  ∃ h, header_encode (buf ++ rest) l v t s = Done (h ++ rest, s) ∧ length h = 8%nat ∧
    Length (h ++ rest) s = Done (l, s) ∧ Version (h ++ rest) s = Done (v, s) ∧ MsgType (h ++ rest) s = Done (t, s) ∧
    checkEventValid (h ++ rest) s
      = Done (if v =? 0 then Some ErrInvalidVersion
              else if t >? typeHotRestartAck then Some ErrInvalidMsgType else None, s).
Proof.
  intros Hb Hl Hv Ht. exists (header_bytes l v t). destruct (header_fields s l v t rest) as (El&_&Ev&Et).
  rewrite (u32_small l), (u8_small v), (u8_small t) in * by done.
  split_and!; [by apply header_encode_ok|apply length_header_bytes|done|done|done|].
  rewrite checkEventValid_bytes. by rewrite (u8_small v), (u8_small t) by done.
Qed.

Lemma header_roundtrip_witness :
  ∃ h, header_encode (replicate 8 0 ++ [1; 2]) 1000 3 typePolling tt = Done (h ++ [1; 2], tt) ∧
    Length (h ++ [1; 2]) tt = Done (1000, tt).
Proof.
  destruct (header_roundtrip tt (replicate 8 0) [1; 2] 1000 3 typePolling) as (h&E&_&El&_);
    [reflexivity|lia|lia|unfold typePolling; lia|].
  exists h. exact (conj E El).
Defined.

(** The answer of [checkEventValid] on any eight bytes. *)
Lemma checkEventValid_run {S} (s : S) h : length h = 8%nat →
  checkEventValid h s = Done (
    if negb (be_val (take 2 (drop 4 h)) =? magicNumber) || (default 0 (h !! 6%nat) =? 0) then Some ErrInvalidVersion
    else if (default 0 (h !! 7%nat) <? typeShareMemoryByFilePath) || (default 0 (h !! 7%nat) >? maxEventType) then Some ErrInvalidMsgType
    else None, s).
Proof.
  intros Hl. do 8 (destruct h as [|? h]; [done|]). destruct h; [|done].
  cbn [take drop lookup list_lookup default]. unfold checkEventValid. erewrite bind_done by (unfold Magic; by erewrite bind_done by done). cbv beta.
  erewrite bind_done by done. cbv beta. destruct (negb _ || _); [done|]. erewrite bind_done by done. cbv beta. unfold minEventType. by destruct (_ || _).
Qed.

Lemma valid_encodes {S} (s : S) h :
  length h = 8%nat → Forall is_byte h →
  (checkEventValid h s = Done (None, s) ↔
   ∃ l v t, 0 ≤ l < 2 ^ 32 ∧ 1 ≤ v < 256 ∧ typeShareMemoryByFilePath ≤ t ≤ typeHotRestartAck ∧
     header_encode (replicate 8 0) l v t s = Done (h, s)).
Proof.
  intros Hl Hb. split.
  - intros E.
    assert (be_val (take 2 (drop 4 h)) = magicNumber) as Hm.
    { unfold checkEventValid in E. apply bind_done_inv in E as (m&s1&Em&E).
      unfold Magic in Em. apply bind_done_inv in Em as (b&s2&Eb&Em). injection Em as <- <-.
      unfold gsub in Eb. rewrite read_at_ok in Eb by lia. injection Eb as <- <-. cbn in *.
      apply bind_done_inv in E as (v&s3&Ev&E). destruct (be_val _ =? magicNumber) eqn:Emg; breflect; [done|].
      cbn in E. discriminate. }
    destruct (header_decode h Hl Hb Hm) as (l&v&t&->&Hlr&Hv&Ht).
    pose proof (checkEventValid_bytes s l v t []) as E'. rewrite app_nil_r, E in E'. injection E' as E'.
    rewrite (u8_small v), (u8_small t) in E' by lia. exists l, v, t.
    destruct (v =? 0) eqn:E1; breflect; [done|]. destruct (t >? maxEventType) eqn:E2; breflect; [done|].
    unfold maxEventType, typeShareMemoryByFilePath in *. split_and!; try lia. by apply header_encode_new.
  - intros (l&v&t&Hlr&Hv&Ht&E). rewrite header_encode_new in E by done. injection E as <-.
    rewrite <- (app_nil_r (header_bytes _ _ _)), checkEventValid_bytes.
    unfold typeShareMemoryByFilePath, maxEventType, typeHotRestartAck in *.
    rewrite (u8_small v), (u8_small t) by lia. by bdecide.
Qed.

(** [C33] Validation of any eight bytes: it answers [ErrInvalidVersion] exactly when the
    magic number is wrong or the version is 0, and accepts exactly the encodings of some
    length, a version other than 0 (any of 1 to 255: whether it is supported is not asked
    here) and one of the ten event types; every other header gives [ErrInvalidMsgType]. *)
Theorem checkEventValid_exact {S} (s : S) h :
  length h = 8%nat → Forall is_byte h →
  ∃ r, checkEventValid h s = Done (r, s) ∧ (r = None ∨ r = Some ErrInvalidVersion ∨ r = Some ErrInvalidMsgType) ∧
    (r = Some ErrInvalidVersion ↔ be_val (take 2 (drop 4 h)) ≠ magicNumber ∨ h !! 6%nat = Some 0) ∧
    (r = None ↔ ∃ l v t, 0 ≤ l < 2 ^ 32 ∧ 1 ≤ v < 256 ∧ typeShareMemoryByFilePath ≤ t ≤ typeHotRestartAck ∧
       header_encode (replicate 8 0) l v t s = Done (h, s)).
Proof.
  intros Hl Hb. pose proof (checkEventValid_run s h Hl) as Er. eexists. split; [exact Er|].
  destruct (lookup_lt_is_Some_2 h 6) as [v6 E6]; [lia|]. rewrite E6 in *. change (default 0 (Some v6)) with v6 in *. split_and!.
  - repeat case_match; auto.
  - destruct (negb _ || _) eqn:Ec; rewrite ?orb_true_iff, ?orb_false_iff, ?negb_true_iff, ?negb_false_iff, ?Z.eqb_eq, ?Z.eqb_neq in Ec.
    + split; [intros _|done]. destruct Ec as [Ec|Ec]; [by left|right; by rewrite Ec].
    + split; [by case_match|]. intros [?|[= ?]]; tauto.
  - rewrite <- (valid_encodes s h Hl Hb), Er. split; [by intros ->|by intros [= ->]].
Qed.

Lemma checkEventValid_exact_witness :
  (∃ l v t, 0 ≤ l < 2 ^ 32 ∧ 1 ≤ v < 256 ∧ typeShareMemoryByFilePath ≤ t ≤ typeHotRestartAck ∧
    header_encode (replicate 8 0) l v t tt = Done ([0; 0; 0; 12; 119; 88; 9; 2], tt)) ∧
  checkEventValid [0; 0; 0; 12; 119; 88; 0; 2] tt = Done (Some ErrInvalidVersion, tt).
Proof.
  split.
  - destruct (checkEventValid_exact tt [0; 0; 0; 12; 119; 88; 9; 2]) as (r&E&_&_&H); [reflexivity|repeat constructor; discriminate|].
    apply H. vm_compute in E. by injection E.
  - destruct (checkEventValid_exact tt [0; 0; 0; 12; 119; 88; 0; 2]) as (r&E&_&H&_); [reflexivity|repeat constructor; discriminate|].
    rewrite E. f_equal. f_equal. apply H. by right.
Defined.

(** The message of the handshake. *)
Definition metadata_bytes (queuePath bufferPath : list Z) (version eventType : Z) : list Z :=
  let body := be_bytes 2 (Z.of_nat (length queuePath)) ++ queuePath
                ++ be_bytes 2 (Z.of_nat (length bufferPath)) ++ bufferPath in
  header_bytes (headerSize + Z.of_nat (length body)) version eventType ++ body.

Lemma generateShmMetadata_ok {S} (s : S) queuePath bufferPath version eventType :
  Z.of_nat (length queuePath) < 2 ^ 16 → Z.of_nat (length bufferPath) < 2 ^ 16 →
  generateShmMetadata queuePath bufferPath version eventType s
    = Done (metadata_bytes queuePath bufferPath version eventType, s).
Proof.
  intros Hq Hb. unfold generateShmMetadata, headerSize in *.
  set (qn := Z.of_nat (length queuePath)) in *. set (bn := Z.of_nat (length bufferPath)) in *.
  erewrite bind_done by (apply gmake_ok; lia). cbv beta zeta.
  replace (replicate (Z.to_nat (8 + 2 + qn + 2 + bn)) 0) with
    (replicate 8 0 ++ replicate 2 0 ++ (replicate (length queuePath) 0 ++ replicate 2 0 ++ replicate (length bufferPath) 0))
    by (rewrite <- !replicate_add; f_equal; lia).
  rewrite (u16_small qn), (u16_small bn) by lia.
  erewrite bind_done by (apply gput_pieces; len). cbv beta.
  rewrite (app_assoc (replicate 8 0)).
  erewrite bind_done by (apply gput_pieces; len). cbv beta.
  rewrite (app_assoc _ queuePath).
  erewrite bind_done by (apply gput_pieces; len). cbv beta.
  rewrite (app_assoc _ (be_bytes 2 bn)). rewrite <- (app_nil_r (replicate (length bufferPath) 0)).
  erewrite bind_done by (apply gput_pieces; len). cbv beta.
  rewrite app_nil_r. rewrite <- !app_assoc. rewrite header_encode_ok by done. unfold metadata_bytes, headerSize.
  fold qn bn. do 4 f_equal. rewrite u32_small by len. len.
Qed.

Lemma extractShmMetadata_ok {S} (s : S) queuePath bufferPath :
  Z.of_nat (length queuePath) < 2 ^ 16 → Z.of_nat (length bufferPath) < 2 ^ 16 →
  extractShmMetadata (be_bytes 2 (Z.of_nat (length queuePath)) ++ queuePath
                        ++ be_bytes 2 (Z.of_nat (length bufferPath)) ++ bufferPath) s
    = Done ((bufferPath, queuePath), s).
Proof.
  intros Hq Hb. unfold extractShmMetadata.
  set (qn := Z.of_nat (length queuePath)) in *. set (bn := Z.of_nat (length bufferPath)) in *.
  erewrite bind_done by (by apply (gsub_pieces s [])). cbv beta. rewrite be_val_bytes, Z.mod_small by (unfold qn in *; lia).
  erewrite bind_done by (apply gsub_pieces; len). cbv beta. rewrite (app_assoc _ queuePath).
  erewrite bind_done by (apply gsub_pieces; len). cbv beta. rewrite be_val_bytes, Z.mod_small by (unfold bn in *; lia).
  rewrite (app_assoc _ (be_bytes 2 bn)). rewrite <- (app_nil_r bufferPath) at 1.
  erewrite bind_done by (apply gsub_pieces; len). done.
Qed.

(** [C38] The server of a handshake recovers the paths the client sent: the
    metadata message has a valid header whose length is the length of the
    message, and extracting from its body gives the buffer path and the queue
    path, for all paths that fit the 16-bit length fields. *)
Theorem shm_metadata_roundtrip {S} (s : S) queuePath bufferPath version eventType :
  Z.of_nat (length queuePath) < 2 ^ 16 → Z.of_nat (length bufferPath) < 2 ^ 16 →
  1 ≤ version < 256 → typeShareMemoryByFilePath ≤ eventType ≤ typeHotRestartAck →
  ∃ data, generateShmMetadata queuePath bufferPath version eventType s = Done (data, s) ∧
    checkEventValid (take 8 data) s = Done (None, s) ∧ MsgType (take 8 data) s = Done (eventType, s) ∧
    Length (take 8 data) s = Done (Z.of_nat (length data), s) ∧
    extractShmMetadata (drop 8 data) s = Done ((bufferPath, queuePath), s).
Proof.
  intros Hq Hb Hv Ht. exists (metadata_bytes queuePath bufferPath version eventType).
  split; [by apply generateShmMetadata_ok|]. unfold metadata_bytes. set (body := be_bytes 2 _ ++ _).
  set (h := header_bytes _ _ _). assert (length h = 8%nat) as Hl by apply length_header_bytes.
  rewrite <- Hl at 1 2 3. rewrite take_app_length. unfold typeShareMemoryByFilePath, typeHotRestartAck in *.
  destruct (header_fields s (headerSize + Z.of_nat (length body)) version eventType []) as (El&_&_&Et).
  pose proof (checkEventValid_bytes s (headerSize + Z.of_nat (length body)) version eventType []) as Ec.
  rewrite app_nil_r in *. fold h in El, Et, Ec.
  rewrite (u8_small version), (u8_small eventType) in * by lia. split_and!.
  - rewrite Ec. unfold maxEventType, typeHotRestartAck. by bdecide.
  - exact Et.
  - rewrite El. do 2 f_equal. rewrite length_app, Hl. unfold headerSize. rewrite u32_small; [lia|]. unfold body. len.
  - rewrite <- Hl at 1. rewrite drop_app_length. by apply extractShmMetadata_ok.
Qed.

Lemma shm_metadata_roundtrip_witness :
  ∃ data, generateShmMetadata [47; 113] [47; 98; 117] 3 typeShareMemoryByMemfd tt = Done (data, tt) ∧
    extractShmMetadata (drop 8 data) tt = Done (([47; 98; 117], [47; 113]), tt).
Proof.
  destruct (shm_metadata_roundtrip tt [47; 113] [47; 98; 117] 3 typeShareMemoryByMemfd) as (data&E&_&_&_&E');
    [cbn; lia|cbn; lia|lia|unfold typeShareMemoryByFilePath, typeShareMemoryByMemfd, typeHotRestartAck; lia|].
  exists data. exact (conj E E').
Defined.
