(* ===== verification/Handshake.v ===== *)
(** * Blocking I/O and the handshake ([block_io.go], [protocol_initializer.go], [protocol_manager.go])

    Before a session serves events, client and server exchange versions and
    the paths (or descriptors) of the shared memory over the connection, with
    loops around the system calls.  The system calls and the mapping of shared
    memory act on a world [W] and are parameters. *)

From Stdlib Require Import ZArith Lia.
From stdpp Require Import prelude list gmap strings pretty.
From S2P Require Import Prelude Protocol.

Definition memfdDataLen : Z := 4.
Definition memfdCount : Z := 2.
Definition MemMapTypeDevShmFile : Z := 0.
Definition MemMapTypeMemFd : Z := 1.

(** [err.Error()]; the text of an errno is the system's. *)
Definition error_text (errno_text : Z → string) (e : error) : string :=
  match e with
  | ErrInvalidVersion => "invalid protocol version"
  | ErrInvalidMsgType => "invalid msg type"
  | ErrSessionShutdown => "session shutdown"
  | ErrStreamsExhausted => "streams exhausted"
  | ErrTimeout => "i/o deadline reached"
  | ErrStreamClosed => "stream closed"
  | ErrConnectionWriteTimeout => "connection write timeout"
  | ErrEndOfStream => "end of stream"
  | ErrSessionUnhealthy => "now the session is unhealthy, please retry later"
  | ErrNotEnoughData => "current buffer is not enough data to read"
  | ErrNoMoreBuffer => "share memory not more buffer"
  | ErrShareMemoryHadNotLeftSpace => "share memory had not left space"
  | ErrStreamCallbackHadExisted => "stream callbacks had existed"
  | ErrOSNonSupported => "shmipc just support linux OS now"
  | ErrArchNonSupported => "shmipc just support amd64 or arm64 arch"
  | ErrHotRestartInProgress => "hot restart in progress, try again later"
  | ErrInHandshakeStage => "session in handshake stage, try again later"
  | ErrFileNameTooLong => "share memory path prefix too long"
  | ErrQueueFull => "the io queue is full"
  | errQueueEmpty => "the io queue is empty"
  | errPoolFull => "stream pool is full"
  | ioEOF => "EOF"
  | Errorf msg => msg
  | Errno n => errno_text n
  end.

(** Paths are byte strings; error texts are strings. *)
Fixpoint bytes_text (bs : list Z) : string :=
  match bs with
  | [] => EmptyString
  | b :: bs => String (Ascii.ascii_of_N (Z.to_N b)) (bytes_text bs)
  end.

(** ** Loops around the system calls *)

Section io.
Context {W : Type}.
(** [read(fd, n)] and [write(fd, data)] *)
Context (sys_read : Z → M W (Z + list Z)) (sys_write : list Z → M W (Z + Z)).
Context (errno_text : Z → string).

Fixpoint read_full_loop (fuel : nat) (data : list Z) (readSize : Z) : M W (list Z * option error) :=
  if readSize <? Z.of_nat (length data) then
    match fuel with
    | O => out_of_fuel
    | S fuel =>
        r ← sys_read (Z.of_nat (length data) - readSize);
        match r with
        | inl e =>
            mret (data, Some (Errorf ("ReadFull failed, had readSize:" +:+ pretty readSize +:+ " reason:" +:+ errno_text e)))
        | inr bs =>
            data ← gput data readSize bs;
            let readSize := readSize + Z.of_nat (length bs) in
            if Z.of_nat (length bs) =? 0 then mret (data, Some ioEOF) else read_full_loop fuel data readSize
        end
    end
  else mret (data, None).

(** The buffer [data] is filled; every round reads a byte or stops. *)
Definition blockReadFull (data : list Z) : M W (list Z * option error) := read_full_loop (length data) data 0.

Fixpoint write_full_loop (fuel : nat) (data : list Z) (written : Z) : M W (option error) :=
  if written <? Z.of_nat (length data) then
    match fuel with
    | O => out_of_fuel
    | S fuel =>
        rest ← gsub data written (Z.of_nat (length data));
        r ← sys_write rest;
        match r with
        | inl e => mret (Some (Errno e))
        | inr n => write_full_loop fuel data (written + n)
        end
    end
  else mret None.

Definition blockWriteFull (data : list Z) : M W (option error) := write_full_loop (length data) data 0.

(** ** Events of the handshake *)

Definition blockReadEventHeader : M W (error + list Z) :=
  buf ← gmake headerSize;
  r ← blockReadFull buf;
  match r.2 with
  | Some e => mret (inl e)
  | None =>
      let h := r.1 in
      err ← checkEventValid h;
      match err with
      | Some e => mret (inl e)
      | None => mret (inr h)
      end
  end.

Definition waitEventHeader (expectEventType : Z) : M W (error + list Z) :=
  r ← blockReadEventHeader;
  match r with
  | inl e => mret (inl e)
  | inr h =>
      t ← MsgType h;
      if negb (t =? expectEventType) then
        mret (inl (Errorf ("expect eventType:" +:+ pretty expectEventType +:+ " " +:+ eventType_String expectEventType
                             +:+ ", but:" +:+ pretty t)))
      else mret (inr h)
  end.

(** ** The session during the handshake *)

(** Mapped queues and buffers. *)
Context {Q B : Type}.

Record session := HsSession {
  hs_isClient : bool;
  hs_memMapType : Z;
  hs_version : Z;
  hs_queuePath : list Z;
  hs_bufferPath : list Z;
  hs_queueFd : Z;
  hs_bufferFd : Z;
  hs_queueManager : option Q;
  hs_bufferManager : option B;
  hs_handshakeDone : bool
}.

Definition set_version (v : Z) (s : session) : session :=
  HsSession (hs_isClient s) (hs_memMapType s) v (hs_queuePath s) (hs_bufferPath s) (hs_queueFd s) (hs_bufferFd s)
    (hs_queueManager s) (hs_bufferManager s) (hs_handshakeDone s).
Definition set_queue (q : Q) (s : session) : session :=
  HsSession (hs_isClient s) (hs_memMapType s) (hs_version s) (hs_queuePath s) (hs_bufferPath s) (hs_queueFd s) (hs_bufferFd s)
    (Some q) (hs_bufferManager s) (hs_handshakeDone s).
Definition set_buffer (b : B) (s : session) : session :=
  HsSession (hs_isClient s) (hs_memMapType s) (hs_version s) (hs_queuePath s) (hs_bufferPath s) (hs_queueFd s) (hs_bufferFd s)
    (hs_queueManager s) (Some b) (hs_handshakeDone s).
Definition set_done (s : session) : session :=
  HsSession (hs_isClient s) (hs_memMapType s) (hs_version s) (hs_queuePath s) (hs_bufferPath s) (hs_queueFd s) (hs_bufferFd s)
    (hs_queueManager s) (hs_bufferManager s) true.

(** Mapping the shared memory of the peer (Queue.v, BufferManager.v). *)
Context (mappingQueueManager : list Z → M W (error + Q)) (getGlobalBufferManager : list Z → M W (error + B)).
Context (mappingQueueManagerMemfd : list Z → Z → M W (error + Q))
        (getGlobalBufferManagerWithMemFd : list Z → Z → M W (error + B)).
(** [sendmsg]/[recvmsg] with control data, and the parsing of it. *)
Context (sendFd : Z → Z → M W (option error)) (recvmsg : Z → M W (list Z * Z * option error)).
Context (CmsgSpace : Z → Z) (ParseSocketControlMessage : list Z → error + list (list Z))
        (ParseUnixRights : list Z → error + list Z).

(** A step of the handshake: it changes the session and may fail. *)
Definition hstep : Type := session → M W (option error * session).

Definition handleShareMemoryByFilePath (hdr : list Z) : hstep := λ s,
  len ← Length hdr;
  body ← gmake (u32 (len - headerSize));
  r ← blockReadFull body;
  match r.2 with
  | Some e => mret (Some e, s)
  | None =>
      p ← extractShmMetadata r.1;
      let '(bufferPath, queuePath) := p in
      rq ← mappingQueueManager queuePath;
      match rq with
      | inl e =>
          mret (Some (Errorf ("handleShareMemoryByFilePath mappingQueueManager failed,queuePathLen:"
                  +:+ pretty (Z.of_nat (length queuePath)) +:+ " path:" +:+ bytes_text queuePath
                  +:+ " err=" +:+ error_text errno_text e)), s)
      | inr qm =>
          let s := set_queue qm s in
          rb ← getGlobalBufferManager bufferPath;
          match rb with
          | inl e =>
              mret (Some (Errorf ("handleShareMemoryByFilePath mappingBufferManager failed, bufferPathLen:"
                      +:+ pretty (Z.of_nat (length bufferPath)) +:+ " path:" +:+ bytes_text bufferPath
                      +:+ " err=" +:+ error_text errno_text e)), s)
          | inr bm => mret (None, set_done (set_buffer bm s))
          end
      end
  end.

Definition minInt (a b : Z) : Z := if a <? b then a else b.

Definition handleExchangeVersion (h : list Z) : hstep := λ s,
  respHeader ← new_header maxSupportProtoVersion typeExchangeProtoVersion;
  v ← Version h;
  let s := set_version (u8 (minInt v maxSupportProtoVersion)) s in
  err ← blockWriteFull respHeader;
  mret (err, s).

Definition handleShareMemoryByMemFd (h : list Z) : hstep := λ s,
  len ← Length h;
  body ← gmake (u32 (len - headerSize));
  r ← blockReadFull body;
  match r.2 with
  | Some e => mret (Some (Errorf ("read shm metadata failed,reason:" +:+ error_text errno_text e)), s)
  | None =>
      p ← extractShmMetadata r.1;
      let '(bufferPath, queuePath) := p in
      ack ← new_header (hs_version s) typeAckReadyRecvFD;
      err ← blockWriteFull ack;
      match err with
      | Some e => mret (Some (Errorf ("send ack typeAckReadyRecvFD failed reason:" +:+ error_text errno_text e)), s)
      | None =>
          let oobLen := CmsgSpace (memfdCount * memfdDataLen) in
          m ← recvmsg oobLen;
          let '(oob, oobn, err) := m in
          match err with
          | Some e => mret (Some (Errorf ("try recv fd from peer failed,reason:" +:+ error_text errno_text e)), s)
          | None =>
              if negb (oobn =? oobLen) then
                mret (Some (Errorf ("handleShareMemoryByMemFd failed,reason:ReadOutOfBoundForFd ,expect oobnLen:"
                        +:+ pretty oobLen +:+ ", but oobnLen:" +:+ pretty oobn)), s)
              else
                match ParseSocketControlMessage oob with
                | inl e => mret (Some (Errorf ("parse socket control message failed,reason:" +:+ error_text errno_text e)), s)
                | inr [] => mret (Some (Errorf "parse socket control message ret is nil"), s)
                | inr (msg :: _) =>
                    match ParseUnixRights msg with
                    | inl e => mret (Some (Errorf ("parse fd from unix domain failed,reason:" +:+ error_text errno_text e)), s)
                    | inr fds =>
                        if Z.of_nat (length fds) <? memfdCount then
                          mret (Some (Errorf "the number of memfd received is wrong"), s)
                        else
                          bufferFd ← gindex fds 0;
                          queueFd ← gindex fds 1;
                          rq ← mappingQueueManagerMemfd queuePath queueFd;
                          match rq with
                          | inl e => mret (Some e, s)
                          | inr qm =>
                              let s := set_queue qm s in
                              rb ← getGlobalBufferManagerWithMemFd bufferPath bufferFd;
                              match rb with
                              | inl e => mret (Some e, s)
                              | inr bm => mret (None, set_done (set_buffer bm s))
                              end
                          end
                    end
                end
          end
      end
  end.

Definition sendShareMemoryByFilePath : hstep := λ s,
  data ← generateShmMetadata (hs_queuePath s) (hs_bufferPath s) (hs_version s) typeShareMemoryByFilePath;
  err ← blockWriteFull data;
  mret (err, s).

Definition sendMemFdToPeer : hstep := λ s,
  event ← generateShmMetadata (hs_queuePath s) (hs_bufferPath s) (hs_version s) typeShareMemoryByMemfd;
  err ← blockWriteFull event;
  match err with
  | Some e => mret (Some e, s)
  | None =>
      r ← waitEventHeader typeAckReadyRecvFD;
      match r with
      | inl e => mret (Some e, s)
      | inr _ => err ← sendFd (hs_bufferFd s) (hs_queueFd s); mret (err, s)
      end
  end.

(** ** Initializers *)

Inductive protocolInitializer :=
  | protocolInitializerV2 (firstEvent : option (list Z))
  | protocolInitializerV3 (firstEvent : option (list Z)).

Definition initializer_Version (i : protocolInitializer) : Z :=
  match i with protocolInitializerV2 _ => 2 | protocolInitializerV3 _ => 3 end.

(** A method of a nil header slice panics at its first index. *)
Definition first_type (firstEvent : option (list Z)) : M W Z := h ← of_option firstEvent; MsgType h.

Definition initV2 (firstEvent : option (list Z)) : hstep := λ s,
  if negb (hs_isClient s) then
    t ← first_type firstEvent;
    if negb (t =? typeShareMemoryByFilePath) then
      mret (Some (Errorf ("protocolInitializerV2 expect first event is:" +:+ pretty typeShareMemoryByFilePath +:+ "("
              +:+ eventType_String typeShareMemoryByFilePath +:+ "),but:" +:+ pretty t)), s)
    else h ← of_option firstEvent; handleShareMemoryByFilePath h s
  else sendShareMemoryByFilePath s.

Definition serverInit (firstEvent : option (list Z)) : hstep := λ s,
  t ← first_type firstEvent;
  if negb (t =? typeExchangeProtoVersion) then
    mret (Some (Errorf ("protocolInitializerV3 expect firsts event is:" +:+ pretty typeExchangeProtoVersion +:+ "("
            +:+ eventType_String typeExchangeProtoVersion +:+ ") but:" +:+ pretty t)), s)
  else
    h ← of_option firstEvent;
    r ← handleExchangeVersion h s;
    let '(err, s) := r in
    match err with
    | Some e => mret (Some (Errorf ("protocolInitializerV3 exchangeVersion failed, reason:" +:+ error_text errno_text e)), s)
    | None =>
        r ← blockReadEventHeader;
        match r with
        | inl e =>
            mret (Some (Errorf ("protocolInitializerV3 blockReadEventHeader failed,reason:" +:+ error_text errno_text e)), s)
        | inr h =>
            t ← MsgType h;
            r ← (if t =? typeShareMemoryByFilePath then handleShareMemoryByFilePath h s
                 else if t =? typeShareMemoryByMemfd then handleShareMemoryByMemFd h s
                 else mret (Some (Errorf ("expect event type is typeShareMemoryByFilePath or typeShareMemoryByMemfd but:"
                              +:+ pretty t +:+ " " +:+ eventType_String t)), s));
            let '(err, s) := r in
            match err with
            | Some e => mret (Some e, s)
            | None =>
                respHeader ← new_header (hs_version s) typeAckShareMemory;
                err ← blockWriteFull respHeader;
                mret (err, s)
            end
        end
    end.

Definition clientInit : hstep := λ s,
  r ← (if hs_memMapType s =? MemMapTypeDevShmFile then sendShareMemoryByFilePath s
       else if hs_memMapType s =? MemMapTypeMemFd then sendMemFdToPeer s
       else mret (Some (Errorf ("unknown memory type:" +:+ pretty (hs_memMapType s))), s));
  let '(err, s) := r in
  match err with
  | Some e => mret (Some e, s)
  | None =>
      r ← waitEventHeader typeAckShareMemory;
      mret (match r with inl e => Some e | inr _ => None end, s)
  end.

Definition initializer_Init (i : protocolInitializer) : hstep := λ s,
  match i with
  | protocolInitializerV2 firstEvent => initV2 firstEvent s
  | protocolInitializerV3 firstEvent => if hs_isClient s then clientInit s else serverInit firstEvent s
  end.

Definition createProtoVersionInitializer (version : Z) (firstEvent : option (list Z)) : error + protocolInitializer :=
  if version =? 2 then inr (protocolInitializerV2 firstEvent)
  else if version =? 3 then inr (protocolInitializerV3 firstEvent)
  else inl (Errorf ("not support the protocol version:" +:+ pretty version +:+ ", maxSupportVersion is "
              +:+ pretty maxSupportProtoVersion)).

Definition clientGetProtocolInitializer (s : session) : M W (error + protocolInitializer) :=
  if hs_memMapType s =? MemMapTypeDevShmFile then mret (inr (protocolInitializerV2 None))
  else
    let clientVersion := maxSupportProtoVersion in
    h ← new_header (u8 clientVersion) typeExchangeProtoVersion;
    err ← blockWriteFull h;
    match err with
    | Some e => mret (inl e)
    | None =>
        r ← waitEventHeader typeExchangeProtoVersion;
        match r with
        | inl e => mret (inl (Errorf ("protocolInitializerV3 clientInit failed,reason:" +:+ error_text errno_text e)))
        | inr recvHeader =>
            serverVersion ← Version recvHeader;
            mret (createProtoVersionInitializer (u8 (minInt clientVersion serverVersion)) None)
        end
    end.

Definition serverGetProtocolInitializer : M W (error + protocolInitializer) :=
  r ← blockReadEventHeader;
  match r with
  | inl e => mret (inl e)
  | inr h => v ← Version h; mret (createProtoVersionInitializer v (Some h))
  end.

Definition getProtocolInitializer (s : session) : M W (error + protocolInitializer) :=
  if hs_isClient s then clientGetProtocolInitializer s else serverGetProtocolInitializer.

(** The goroutine of [initProtocol]: the result it sends to the session. *)
Definition initProtocol : hstep := λ s,
  r ← getProtocolInitializer s;
  match r with
  | inl e => mret (Some (Errorf ("getProtocolInitializer failed ,error=" +:+ error_text errno_text e)), s)
  | inr i => initializer_Init i (set_version (initializer_Version i) s)
  end.
End io.

(** ** Facts *)

Section pipe.
Context {W : Type} (sys_read : Z → M W (Z + list Z)) (sys_write : list Z → M W (Z + Z)) (errno_text : Z → string).
(** The bytes in flight.  A write takes a non-empty prefix of the data, a read
    delivers a non-empty prefix of what is in flight; neither is larger than
    asked for. *)
Context (wire : W → list Z).

Definition write_spec : Prop := ∀ data w, data ≠ [] →
  ∃ n w', sys_write data w = Done (inr n, w') ∧ 0 < n ≤ Z.of_nat (length data) ∧
    wire w' = wire w ++ take (Z.to_nat n) data.
Definition read_spec : Prop := ∀ n w, 0 < n → wire w ≠ [] →
  ∃ bs w', sys_read n w = Done (inr bs, w') ∧ 0 < Z.of_nat (length bs) ≤ n ∧ wire w = bs ++ wire w'.

Lemma gsub_rest {S} (s : S) (l : list Z) n : 0 ≤ n ≤ Z.of_nat (length l) →
  gsub l n (Z.of_nat (length l)) s = Done (drop (Z.to_nat n) l, s).
Proof.
  intros Hn. unfold gsub. rewrite read_at_ok by lia. rewrite take_ge; [done|]. rewrite length_drop. lia.
Qed.

Lemma write_full_loop_ok (Hwr : write_spec) fuel : ∀ data written w,
  0 ≤ written ≤ Z.of_nat (length data) → Z.of_nat (length data) - written ≤ Z.of_nat fuel →
  ∃ w', write_full_loop sys_write fuel data written w = Done (None, w') ∧
    wire w' = wire w ++ drop (Z.to_nat written) data.
Proof.
  induction fuel as [|fuel IH]; intros data written w Hw Hf; cbn [write_full_loop];
    (destruct (written <? Z.of_nat (length data)) eqn:E; breflect;
     [|exists w; rewrite drop_ge, app_nil_r by lia; done]); [lia|].
  erewrite bind_done by (apply gsub_rest; lia). cbv beta.
  destruct (Hwr (drop (Z.to_nat written) data) w) as (n&w1&E1&Hn&Hw1).
  { intros Hnil. apply (f_equal length) in Hnil. rewrite length_drop in Hnil. cbn in Hnil. lia. }
  rewrite length_drop in Hn. erewrite bind_done by exact E1. cbv beta iota.
  destruct (IH data (written + n) w1) as (w2&E2&Hw2); [lia|lia|]. exists w2. split; [done|].
  rewrite Hw2, Hw1, <- app_assoc. f_equal. rewrite Z2Nat.inj_add, <- drop_drop by lia. apply take_drop.
Qed.

Lemma blockWriteFull_ok data w : write_spec →
  ∃ w', blockWriteFull sys_write data w = Done (None, w') ∧ wire w' = wire w ++ data.
Proof.
  intros Hwr. destruct (write_full_loop_ok Hwr (length data) data 0 w) as (w'&E&Hw); [lia|lia|]. by exists w'.
Qed.

Lemma read_full_loop_ok (Hrd : read_spec) fuel : ∀ pre post w,
  Z.of_nat (length post) ≤ Z.of_nat fuel → Z.of_nat (length post) ≤ Z.of_nat (length (wire w)) →
  ∃ w', read_full_loop sys_read errno_text fuel (pre ++ post) (Z.of_nat (length pre)) w
      = Done ((pre ++ take (length post) (wire w), None), w') ∧ wire w' = drop (length post) (wire w).
Proof.
  induction fuel as [|fuel IH]; intros pre post w Hf Hlen; cbn [read_full_loop];
    (destruct (Z.of_nat (length pre) <? Z.of_nat (length (pre ++ post))) eqn:E; breflect; rewrite length_app in E;
     [|assert (length post = 0%nat) as E0 by lia; destruct post; [|done]; exists w; rewrite !app_nil_r; done]); [lia|].
  destruct (Hrd (Z.of_nat (length (pre ++ post)) - Z.of_nat (length pre)) w) as (bs&w1&E1&Hbs&Hw1).
  { rewrite length_app. lia. }
  { intros Hnil. rewrite Hnil in Hlen. cbn in Hlen. lia. }
  rewrite length_app in Hbs. erewrite bind_done by exact E1. cbv beta iota.
  assert (gput (pre ++ post) (Z.of_nat (length pre)) bs w1 = Done (pre ++ bs ++ drop (length bs) post, w1)) as Eput.
  { rewrite <- (take_drop (length bs) post) at 1. apply gput_pieces; [done|rewrite length_take; lia]. }
  erewrite bind_done by exact Eput. cbv beta.
  replace (Z.of_nat (length bs) =? 0) with false by (symmetry; apply Z.eqb_neq; lia).
  rewrite app_assoc. replace (Z.of_nat (length pre) + Z.of_nat (length bs)) with (Z.of_nat (length (pre ++ bs))) by len.
  assert (length (wire w) = length bs + length (wire w1))%nat as Hwl by (rewrite Hw1; apply length_app).
  destruct (IH (pre ++ bs) (drop (length bs) post) w1) as (w2&E2&Hw2); [rewrite length_drop; lia..|].
  exists w2. rewrite E2, Hw2, Hw1, length_drop. split.
  - do 3 f_equal. rewrite <- app_assoc. f_equal. rewrite take_app_ge by lia. done.
  - rewrite drop_app_ge by lia. done.
Qed.

Lemma blockReadFull_ok data w : read_spec → (length data ≤ length (wire w))%nat →
  ∃ w', blockReadFull sys_read errno_text data w = Done ((take (length data) (wire w), None), w') ∧
    wire w' = drop (length data) (wire w).
Proof. intros Hrd Hl. apply (read_full_loop_ok Hrd (length data) [] data w); lia. Qed.

(** A valid header at the front of the wire is read. *)
Lemma blockReadEventHeader_ok w l v t rest : read_spec →
  wire w = header_bytes l v t ++ rest → 1 ≤ v < 256 → 0 ≤ t ≤ maxEventType →
  ∃ w', blockReadEventHeader sys_read errno_text w = Done (inr (header_bytes l v t), w') ∧ wire w' = rest.
Proof.
  intros Hrd Hw Hv Ht. unfold blockReadEventHeader. erewrite bind_done by (apply gmake_ok; unfold headerSize; lia). cbv beta.
  destruct (blockReadFull_ok (replicate (Z.to_nat headerSize) 0) w Hrd) as (w'&E&Hw').
  { rewrite Hw. len. unfold headerSize. lia. }
  rewrite Hw, length_replicate in E, Hw'. change (Z.to_nat headerSize) with 8%nat in *.
  pose proof (length_header_bytes l v t) as Hl. rewrite take_app_length' in E by done. rewrite drop_app_length' in Hw' by done.
  erewrite bind_done by exact E. cbv beta. cbn [fst snd].
  pose proof (checkEventValid_bytes w' l v t []) as Ec. rewrite app_nil_r in Ec.
  erewrite bind_done by exact Ec. cbv beta. unfold maxEventType, typeHotRestartAck in *.
  rewrite (u8_small v), (u8_small t) by lia. bdecide. by exists w'.
Qed.
End pipe.

(** [C32] The blocking loops lose nothing and add nothing, however the system
    cuts the transfers: over a connection on which nothing is in flight, what
    [blockWriteFull] sends is what [blockReadFull] into a buffer of the same
    length gets on the other side. *)
Theorem block_io_roundtrip {W : Type} (sys_read : Z → M W (Z + list Z)) sys_write errno_text (wire : W → list Z) data buf w :
  write_spec sys_write wire → read_spec sys_read wire → wire w = [] → length buf = length data →
  ∃ w1 w2, blockWriteFull sys_write data w = Done (None, w1) ∧
    blockReadFull sys_read errno_text buf w1 = Done ((data, None), w2) ∧ wire w2 = [].
Proof.
  intros Hwr Hrd Hw Hl. destruct (blockWriteFull_ok sys_write wire data w Hwr) as (w1&E1&Hw1). rewrite Hw in Hw1. cbn in Hw1.
  destruct (blockReadFull_ok sys_read errno_text wire buf w1 Hrd) as (w2&E2&Hw2); [rewrite Hw1; lia|].
  exists w1, w2. rewrite Hw1, Hl, firstn_all in E2. rewrite Hw1, Hl, drop_all in Hw2. done.
Qed.

(** A connection that writes at most three bytes and reads at most two. *)
Definition demo_write (data : list Z) : M (list Z) (Z + Z) := λ w,
  Done (inr (Z.min 3 (Z.of_nat (length data))), w ++ take 3 data).
Definition demo_read (n : Z) : M (list Z) (Z + list Z) := λ w,
  Done (inr (take (Nat.min 2 (Z.to_nat n)) w), drop (Nat.min 2 (Z.to_nat n)) w).

Lemma demo_write_spec : write_spec demo_write id.
Proof.
  intros data w Hd. eexists _, _. split; [reflexivity|]. split; [destruct data; [done|cbn; lia]|]. unfold id. f_equal.
  destruct (decide (length data ≤ 3)%nat) as [Hl|Hl].
  - rewrite !take_ge; [done|lia..].
  - f_equal. lia.
Qed.

Lemma demo_read_spec : read_spec demo_read id.
Proof.
  intros n w Hn Hw. eexists _, _. split; [reflexivity|]. unfold id in *. rewrite take_drop, length_take.
  split; [|done]. destruct w; [done|]. cbn [length]. lia.
Qed.

Lemma block_io_roundtrip_witness :
  ∃ w1 w2, blockWriteFull demo_write [1; 2; 3; 4; 5; 6; 7] [] = Done (None, w1) ∧
    blockReadFull demo_read (λ _, "") (replicate 7 0) w1 = Done (([1; 2; 3; 4; 5; 6; 7], None), w2).
Proof.
  destruct (block_io_roundtrip demo_read demo_write (λ _, "") id [1; 2; 3; 4; 5; 6; 7] (replicate 7 0) [])
    as (w1&w2&E1&E2&_); [apply demo_write_spec|apply demo_read_spec|reflexivity|reflexivity|].
  exists w1, w2. exact (conj E1 E2).
Defined.

(** ** The handshake over files *)

Section handshake_v2.
Context {W Q B : Type} (sys_read : Z → M W (Z + list Z)) (sys_write : list Z → M W (Z + Z)) (errno_text : Z → string).
Context (wire : W → list Z) (mapQ : list Z → M W (error + Q)) (mapB : list Z → M W (error + B)).
Context (mapQfd : list Z → Z → M W (error + Q)) (mapBfd : list Z → Z → M W (error + B)).
Context (sendFd : Z → Z → M W (option error)) (recvmsg : Z → M W (list Z * Z * option error)).
Context (CmsgSpace : Z → Z) (parseCtl : list Z → error + list (list Z)) (parseRights : list Z → error + list Z).
Hypothesis Hwr : write_spec sys_write wire.
Hypothesis Hrd : read_spec sys_read wire.

Notation init := (initProtocol sys_read sys_write errno_text mapQ mapB mapQfd mapBfd sendFd recvmsg CmsgSpace parseCtl parseRights).

Definition v2_message (s : @session Q B) : list Z :=
  metadata_bytes (hs_queuePath s) (hs_bufferPath s) 2 typeShareMemoryByFilePath.

(** A client that shares by path sends its paths. *)
Lemma client_v2_ok s w :
  hs_isClient s = true → hs_memMapType s = MemMapTypeDevShmFile →
  Z.of_nat (length (hs_queuePath s)) < 2 ^ 16 → Z.of_nat (length (hs_bufferPath s)) < 2 ^ 16 →
  ∃ w', init s w = Done ((None, set_version 2 s), w') ∧ wire w' = wire w ++ v2_message s.
Proof.
  intros Hc Hm Hq Hb. unfold initProtocol, getProtocolInitializer, clientGetProtocolInitializer.
  rewrite Hc, Hm. cbn [Z.eqb]. unfold MemMapTypeDevShmFile. cbn [Z.eqb]. erewrite bind_done by done. cbv beta iota.
  unfold initializer_Init, initV2. cbn [hs_isClient set_version initializer_Version]. rewrite Hc. cbn [negb].
  unfold sendShareMemoryByFilePath. cbn [hs_queuePath hs_bufferPath hs_version].
  erewrite bind_done by (by apply generateShmMetadata_ok). cbv beta.
  destruct (blockWriteFull_ok sys_write wire (v2_message s) w Hwr) as (w'&E&Hw). exists w'.
  by erewrite bind_done by exact E.
Qed.

(** The server maps the paths of the message. *)
Lemma server_v2_ok s w q b qm bm :
  hs_isClient s = false → wire w = metadata_bytes q b 2 typeShareMemoryByFilePath →
  Z.of_nat (length q) < 2 ^ 16 → Z.of_nat (length b) < 2 ^ 16 →
  (∀ w, ∃ w', mapQ q w = Done (inr qm, w') ∧ wire w' = wire w) →
  (∀ w, ∃ w', mapB b w = Done (inr bm, w') ∧ wire w' = wire w) →
  ∃ w', init s w = Done ((None, set_done (set_buffer bm (set_queue qm (set_version 2 s)))), w') ∧ wire w' = [].
Proof.
  intros Hc Hw Hq Hb HQ HB. unfold metadata_bytes in Hw. set (body := be_bytes 2 _ ++ _) in Hw.
  assert (0 ≤ Z.of_nat (length body) < 2 ^ 18) as Hbl by (unfold body; len).
  set (l := headerSize + Z.of_nat (length body)) in Hw. unfold headerSize in l.
  destruct (blockReadEventHeader_ok sys_read errno_text wire w l 2 0 body Hrd Hw) as (w1&E1&Hw1);
    [lia|unfold maxEventType, typeHotRestartAck; lia|].
  destruct (header_fields w1 l 2 0 []) as (El&_&Ev&Et). rewrite app_nil_r in *.
  rewrite u32_small in El by (unfold l; lia).
  unfold initProtocol, getProtocolInitializer, serverGetProtocolInitializer. rewrite Hc.
  erewrite bind_done; [|erewrite bind_done by exact E1; cbv beta iota; erewrite bind_done by exact Ev; done].
  cbv beta. cbn [createProtoVersionInitializer Z.eqb Pos.eqb]. change (createProtoVersionInitializer _ _)
    with (@inr error _ (protocolInitializerV2 (Some (header_bytes l 2 0)))). cbv iota.
  unfold initializer_Init, initV2. cbn [hs_isClient set_version initializer_Version]. rewrite Hc. cbn [negb].
  erewrite bind_done; [|unfold first_type; erewrite bind_done by done; exact Et]. cbv beta.
  change (negb (u8 0 =? typeShareMemoryByFilePath)) with false. cbv iota.
  erewrite bind_done by done. cbv beta. unfold handleShareMemoryByFilePath.
  erewrite bind_done by exact El. cbv beta.
  replace (u32 (l - headerSize)) with (Z.of_nat (length body)) by (unfold headerSize; rewrite u32_small; unfold l; lia).
  erewrite bind_done by (apply gmake_ok; lia). cbv beta. rewrite Nat2Z.id.
  destruct (blockReadFull_ok sys_read errno_text wire (replicate (length body) 0) w1 Hrd) as (w2&E2&Hw2).
  { rewrite Hw1. len. }
  rewrite Hw1, length_replicate, firstn_all in E2. rewrite Hw1, length_replicate, drop_all in Hw2.
  erewrite bind_done by exact E2. cbv beta. cbn [fst snd].
  erewrite bind_done by (by apply extractShmMetadata_ok). cbv beta iota.
  destruct (HQ w2) as (w3&E3&Hw3). erewrite bind_done by exact E3. cbv beta iota.
  destruct (HB w3) as (w4&E4&Hw4). erewrite bind_done by exact E4. cbv beta iota.
  exists w4. split; [done|]. congruence.
Qed.
End handshake_v2.

(** [C31] After the handshake over files both sides use the same shared memory:
    when a client with queue path [q] and buffer path [b] has run its part, the
    server's part succeeds, has mapped exactly the queue at [q] and the buffer
    at [b], is marked done at version 2 as the client is, and has read the
    message to its last byte; for any way the system cuts the transfers. *)
Theorem handshake_v2_agrees {W Q B : Type} sys_read sys_write errno_text (wire : W → list Z)
    (mapQ : list Z → M W (error + Q)) (mapB : list Z → M W (error + B)) mapQfd mapBfd sendFd recvmsg CmsgSpace parseCtl parseRights
    (client server : session) qm bm w :
  write_spec sys_write wire → read_spec sys_read wire → wire w = [] →
  hs_isClient client = true → hs_memMapType client = MemMapTypeDevShmFile → hs_isClient server = false →
  Z.of_nat (length (hs_queuePath client)) < 2 ^ 16 → Z.of_nat (length (hs_bufferPath client)) < 2 ^ 16 →
  (∀ w, ∃ w', mapQ (hs_queuePath client) w = Done (inr qm, w') ∧ wire w' = wire w) →
  (∀ w, ∃ w', mapB (hs_bufferPath client) w = Done (inr bm, w') ∧ wire w' = wire w) →
  let init := initProtocol sys_read sys_write errno_text mapQ mapB mapQfd mapBfd sendFd recvmsg CmsgSpace parseCtl parseRights in
  ∃ w1 w2 client' server',
    init client w = Done ((None, client'), w1) ∧ init server w1 = Done ((None, server'), w2) ∧ wire w2 = [] ∧
    hs_version client' = 2 ∧ hs_version server' = 2 ∧ hs_handshakeDone server' = true ∧
    hs_queueManager server' = Some qm ∧ hs_bufferManager server' = Some bm.
Proof.
  intros Hwr Hrd Hw Hc Hm Hs Hq Hb HQ HB init.
  destruct (client_v2_ok sys_read sys_write errno_text wire mapQ mapB mapQfd mapBfd sendFd recvmsg CmsgSpace parseCtl parseRights
              Hwr client w Hc Hm Hq Hb) as (w1&E1&Hw1). rewrite Hw in Hw1.
  destruct (server_v2_ok sys_read sys_write errno_text wire mapQ mapB mapQfd mapBfd sendFd recvmsg CmsgSpace parseCtl parseRights
              Hrd server w1 _ _ qm bm Hs Hw1 Hq Hb HQ HB) as (w2&E2&Hw2).
  eexists w1, w2, _, _. split_and!; [exact E1|exact E2|done..].
Qed.

(** Client and server over the chunked connection; a mapped object is its path. *)
Lemma handshake_v2_agrees_witness :
  let demo_map (p : list Z) : M (list Z) (error + list Z) := mret (inr p) in
  let demo_map_fd (p : list Z) (_ : Z) : M (list Z) (error + list Z) := mret (inr p) in
  let init := initProtocol demo_read demo_write (λ _, "") demo_map demo_map demo_map_fd demo_map_fd
      (λ _ _, mret None) (λ _, mret ([], 0, None)) id (λ _, inr []) (λ _, inr []) in
  ∃ w1 w2 client' server',
    init (HsSession true 0 2 [47; 113] [47; 98] 0 0 None None false) [] = Done ((None, client'), w1) ∧
    init (HsSession false 0 2 [] [] 0 0 None None false) w1 = Done ((None, server'), w2) ∧
    hs_queueManager server' = Some [47; 113] ∧ hs_bufferManager server' = Some [47; 98].
Proof.
  intros demo_map demo_map_fd init.
  destruct (handshake_v2_agrees demo_read demo_write (λ _, "") id demo_map demo_map demo_map_fd demo_map_fd
      (λ _ _, mret None) (λ _, mret ([], 0, None)) id (λ _, inr []) (λ _, inr [])
      (HsSession true 0 2 [47; 113] [47; 98] 0 0 None None false) (HsSession false 0 2 [] [] 0 0 None None false)
      [47; 113] [47; 98] []) as (w1&w2&client'&server'&E1&E2&_&_&_&_&E3&E4).
  - apply demo_write_spec.
  - apply demo_read_spec.
  - reflexivity.
  - reflexivity.
  - reflexivity.
  - reflexivity.
  - cbn. lia.
  - cbn. lia.
  - intros w. exists w. split; reflexivity.
  - intros w. exists w. split; reflexivity.
  - exists w1, w2, client', server'. exact (conj E1 (conj E2 (conj E3 E4))).
Defined.
