(* ===== verification/Events.v ===== *)
(** * Dispatch of events ([Session.handleEvents], [Session.onEventData])

    The bytes of the connection arrive in pieces that have nothing to do with
    the boundaries of events.  [handleEvents] dispatches every complete event
    at the front of the read buffer and reports how much it consumed; the rest
    stays in the buffer until more bytes arrive. *)

From Stdlib Require Import ZArith Lia.
From stdpp Require Import prelude list gmap strings.
From S2P Require Import Prelude Protocol.

Section events.
(** The session, its handlers ([protocolHandlers], indexed by event type), and
    what the session does when it fails. *)
Context {S : Type}.
Definition protocolHandler : Type := list Z → list Z → M S (Z * bool * option error).
Context (protocolHandlers : list (option protocolHandler)).
Context (isClosed : S → bool) (exitErr : error → M S unit).

Fixpoint handle_loop (fuel : nat) (buf : list Z) (consumed : Z) : M S (Z * option error) :=
  rest ← gsub buf consumed (Z.of_nat (length buf));
  if Z.of_nat (length rest) >=? headerSize then
    match fuel with
    | O => out_of_fuel
    | Datatypes.S fuel =>
        eventHeader ← gsub buf consumed (consumed + headerSize);
        err ← checkEventValid eventHeader;
        match err with
        | Some _ => mret (consumed + headerSize, Some ErrInvalidMsgType)
        | None =>
            msgType ← MsgType eventHeader;
            if msgType >=? Z.of_nat (length protocolHandlers) then mret (consumed + headerSize, Some ErrInvalidMsgType)
            else
              match protocolHandlers !! Z.to_nat msgType with
              | Some (Some handler) =>
                  body ← gsub buf (consumed + headerSize) (Z.of_nat (length buf));
                  r ← handler eventHeader body;
                  let '(n, stop, err) := r in
                  let consumed := consumed + n in
                  match err with
                  | Some e => mret (consumed, Some e)
                  | None => if (stop : bool) then mret (consumed, None) else handle_loop fuel buf consumed
                  end
              | _ => mret (consumed + headerSize, Some ErrInvalidMsgType)
              end
        end
    end
  else mret (consumed, None).

(** Every event takes at least a byte. *)
Definition handleEvents (buf : list Z) : M S (Z * option error) := handle_loop (length buf) buf 0.

(** [onEventData]: the part of the buffer that was consumed ([commitRead]). *)
Definition onEventData (buf : list Z) : M S Z :=
  closed ← reads isClosed;
  if (closed : bool) then mret 0
  else
    r ← handleEvents buf;
    let '(consumed, err) := r in
    closed ← reads isClosed;
    match err with
    | Some e => if (closed : bool) then mret consumed else _ ← exitErr e; mret consumed
    | None => mret consumed
    end.

(** The read buffer of the connection around it: bytes are added behind and
    consumed from the front. *)
Definition feed (chunk : list Z) (p : list Z) : M S (list Z) :=
  let buf := p ++ chunk in
  n ← onEventData buf;
  gsub buf n (Z.of_nat (length buf)).

Fixpoint feed_all (chunks : list (list Z)) (p : list Z) : M S (list Z) :=
  match chunks with
  | [] => mret p
  | c :: cs => p ← feed c p; feed_all cs p
  end.

(** ** What a handler is

    A handler waits until the bytes its header asks for are there, then acts
    on exactly these. *)

Record event_handler := EventHandler {
  eh_need : list Z → Z;
  eh_act : list Z → list Z → M S (option error)
}.

Definition handler_of (e : event_handler) : protocolHandler := λ h body,
  if Z.of_nat (length body) <? eh_need e h then mret (0, true, None)
  else err ← eh_act e h (take (Z.to_nat (eh_need e h)) body); mret (headerSize + eh_need e h, false, err).

(** The interface the dispatcher's theorem is proved against. *)
Class Framed (hd : protocolHandler) (e : event_handler) : Prop := {
  fr_eq : ∀ h body s, length h = 8%nat → hd h body s = handler_of e h body s;
  (** A header that asks for less than nothing does not return. *)
  fr_neg : ∀ h b s x, length h = 8%nat → eh_need e h < 0 → eh_act e h b s ≠ Done x;
  (** Handling an event does not close the session. *)
  fr_open : ∀ h b s err s', isClosed s = false → eh_act e h b s = Done (err, s') → isClosed s' = false
}.

Definition framed_entry (o : option protocolHandler) (e : option event_handler) : Prop :=
  match o, e with
  | None, None => True
  | Some hd, Some e => Framed hd e
  | _, _ => False
  end.

(** ** One event at the front of the bytes *)

Inductive verdict :=
  | VMore                              (** not all there *)
  | VBad                               (** rejected *)
  | VEvent (n : Z) (act : M S (option error)).

Context (table : list (option event_handler)).

Definition parse (rest : list Z) : verdict :=
  let h := take 8 rest in
  if Z.of_nat (length rest) <? 8 then VMore
  else
    match checkEventValid h tt with
    | Done (None, _) =>
        match h !! 7%nat with
        | Some t =>
            match table !! Z.to_nat t with
            | Some (Some e) =>
                if Z.of_nat (length rest) - 8 <? eh_need e h then VMore
                else VEvent (8 + eh_need e h) (eh_act e h (take (Z.to_nat (eh_need e h)) (drop 8 rest)))
            | _ => VBad
            end
        | None => VBad
        end
    | _ => VBad
    end.

Fixpoint events_fuel (fuel : nat) (rest : list Z) : M S (Z * option error) :=
  match parse rest with
  | VMore => mret (0, None)
  | VBad => mret (headerSize, Some ErrInvalidMsgType)
  | VEvent n act =>
      match fuel with
      | O => out_of_fuel
      | Datatypes.S fuel =>
          err ← act;
          match err with
          | Some e => mret (n, Some e)
          | None => r ← events_fuel fuel (drop (Z.to_nat n) rest); mret (n + r.1, r.2)
          end
      end
  end.
Definition events (rest : list Z) : M S (Z * option error) := events_fuel (length rest) rest.

(** Validation does not depend on the state. *)
Lemma checkEventValid_pure (s : S) h r : checkEventValid h tt = Done (r, tt) → checkEventValid h s = Done (r, s).
Proof.
  unfold checkEventValid, Magic, Version, MsgType, gsub, gindex, of_option, mbind, M_bind, mret, M_ret, panic.
  destruct (read_at h 4 (6 - 4)); [|done]. destruct (h !! 6%nat); [|done].
  destruct (_ || _); [by intros [= <-]|]. destruct (h !! 7%nat); [|done]. by destruct (_ || _); intros [= <-].
Qed.

Lemma checkEventValid_total h : length h = 8%nat → ∃ r, checkEventValid h tt = Done (r, tt).
Proof.
  intros Hl. do 8 (destruct h as [|? h]; [done|]). destruct h; [|done].
  unfold checkEventValid, Magic, Version, MsgType, gsub, gindex, of_option, mbind, M_bind, mret, M_ret, panic. cbn.
  repeat case_match; simplify_eq; eauto.
Qed.

Hypothesis framed : Forall2 framed_entry protocolHandlers table.

Lemma parse_event rest n act :
  parse rest = VEvent n act → 8 ≤ Z.of_nat (length rest) ∧ n ≤ Z.of_nat (length rest) ∧
    (n < 8 → ∀ s x, act s ≠ Done x) ∧
    (∀ s err s', isClosed s = false → act s = Done (err, s') → isClosed s' = false) ∧
    ∀ more, parse (rest ++ more) = VEvent n act.
Proof.
  unfold parse. destruct (_ <? 8) eqn:E8; breflect; [done|].
  assert (length (take 8 rest) = 8%nat) as Hl by (rewrite length_take; lia).
  destruct (checkEventValid _ tt) as [[[|] u]| |] eqn:Ec; try done.
  destruct (take 8 rest !! 7%nat) as [t|] eqn:Et; [|done].
  destruct (table !! Z.to_nat t) as [[e|]|] eqn:Ee; [|done|done].
  destruct (_ <? eh_need _ _) eqn:En; breflect; [done|]. intros [= <- <-].
  destruct (Forall2_lookup_r _ _ _ _ _ framed Ee) as (o&Ho&Hf). destruct o as [hd|]; [|done].
  change (Framed hd e) in Hf.
  split_and!; [lia|lia| | |].
  - intros Hn s x. eapply (fr_neg (hd := hd)); [done|lia].
  - intros s err s' Hcl. by eapply (fr_open (hd := hd)).
  - intros more. rewrite (take_app_le rest more 8) by lia. rewrite Ec, Et, Ee, length_app.
    replace (_ <? 8) with false by (symmetry; apply Z.ltb_ge; lia).
    replace (_ <? eh_need e _) with false by (symmetry; apply Z.ltb_ge; lia).
    rewrite drop_app_le by lia. rewrite (take_app_le (drop 8 rest)); [done|]. rewrite length_drop. lia.
Qed.

Lemma parse_bad rest more : parse rest = VBad → parse (rest ++ more) = VBad.
Proof.
  unfold parse. destruct (_ <? 8) eqn:E8; breflect; [done|].
  rewrite (take_app_le rest more 8) by lia. rewrite length_app.
  replace (Z.of_nat (length rest + length more) <? 8) with false by (symmetry; apply Z.ltb_ge; lia).
  destruct (checkEventValid _ tt) as [[[|] u]| |]; try done.
  destruct (take 8 rest !! 7%nat) as [t|]; [|done].
  destruct (table !! Z.to_nat t) as [[e|]|]; [|done|done]. by destruct (_ <? eh_need _ _).
Qed.

(** Enough fuel is as good as more. *)
Lemma events_fuel_enough fuel : ∀ rest fuel', (length rest ≤ fuel)%nat → (length rest ≤ fuel')%nat →
  ∀ s, events_fuel fuel rest s = events_fuel fuel' rest s.
Proof.
  induction fuel as [|fuel IH]; intros rest fuel' H1 H2 s.
  - destruct rest; [|cbn in H1; lia]. by destruct fuel'.
  - destruct (parse rest) as [| |n act] eqn:Ep.
    + by destruct fuel'; cbn [events_fuel]; rewrite Ep.
    + by destruct fuel'; cbn [events_fuel]; rewrite Ep.
    + destruct (parse_event _ _ _ Ep) as (Hl&Hn&Hneg&_). destruct fuel' as [|fuel']; [lia|].
      cbn [events_fuel]. rewrite Ep. unfold mbind, M_bind. destruct (act s) as [[[e|] s1]| |] eqn:Ea; [done| |done|done].
      assert (8 ≤ n) by (destruct (decide (n < 8)) as [Hlt|]; [by destruct (Hneg Hlt s _ Ea)|lia]).
      rewrite (IH (drop (Z.to_nat n) rest) fuel'); [done|rewrite length_drop; lia..].
Qed.

(** The recursion equation of [events]. *)
Lemma events_unfold rest s :
  events rest s =
    match parse rest with
    | VMore => Done ((0, None), s)
    | VBad => Done ((headerSize, Some ErrInvalidMsgType), s)
    | VEvent n act =>
        (err ← act;
         match err with
         | Some e => mret (n, Some e)
         | None => r ← events (drop (Z.to_nat n) rest); mret (n + r.1, r.2)
         end) s
    end.
Proof.
  unfold events at 1. destruct (parse rest) as [| |n act] eqn:Ep.
  - destruct (length rest); cbn [events_fuel]; by rewrite Ep.
  - destruct (length rest); cbn [events_fuel]; by rewrite Ep.
  - destruct (parse_event _ _ _ Ep) as (Hl&Hn&Hneg&_). destruct (length rest) as [|k] eqn:El; [lia|].
    cbn [events_fuel]. rewrite Ep. unfold mbind, M_bind. destruct (act s) as [[[e|] s1]| |] eqn:Ea; [done| |done|done].
    assert (8 ≤ n) by (destruct (decide (n < 8)) as [Hlt|]; [by destruct (Hneg Hlt s _ Ea)|lia]).
    unfold events. rewrite (events_fuel_enough k _ (length (drop (Z.to_nat n) rest))); [done|rewrite length_drop; lia..].
Qed.
(** ** The loop does what [events] says *)

Lemma gsub_tail (s : S) (l : list Z) n : 0 ≤ n ≤ Z.of_nat (length l) →
  gsub l n (Z.of_nat (length l)) s = Done (drop (Z.to_nat n) l, s).
Proof.
  intros Hn. unfold gsub. rewrite read_at_ok by lia. rewrite take_ge; [done|]. rewrite length_drop. lia.
Qed.

Lemma valid_type h t u : checkEventValid h tt = Done (None, u) → h !! 7%nat = Some t → 0 ≤ t ≤ maxEventType.
Proof.
  unfold checkEventValid, Magic, Version, MsgType, gsub, gindex, of_option, mbind, M_bind, mret, M_ret, panic.
  destruct (read_at h 4 (6 - 4)); [|done]. destruct (h !! 6%nat); [|done]. destruct (_ || _); [done|].
  intros Hc Ht. rewrite Ht in Hc. destruct ((_ <? _) || _) eqn:E; [done|]. breflect.
  unfold minEventType, typeShareMemoryByFilePath in *. lia.
Qed.

(** The shift of a result by what was consumed before. *)
Definition shift (c : Z) (o : outcome ((Z * option error) * S)) : outcome ((Z * option error) * S) :=
  match o with
  | Done ((n, e), s) => Done ((c + n, e), s)
  | Panic => Panic
  | NoFuel => NoFuel
  end.

Lemma shift_bind c (m : M S (Z * option error)) s : (r ← m; mret (c + r.1, r.2)) s = shift c (m s).
Proof. unfold mbind, M_bind, shift. by destruct (m s) as [[[n e] s']| |]. Qed.

Lemma shift_shift c d o : shift c (shift d o) = shift (c + d) o.
Proof. destruct o as [[[n e] s]| |]; cbn; [|done|done]. by rewrite Z.add_assoc. Qed.

Lemma handle_loop_events fuel : ∀ buf consumed s,
  0 ≤ consumed ≤ Z.of_nat (length buf) → Z.of_nat (length buf) - consumed ≤ Z.of_nat fuel →
  handle_loop fuel buf consumed s = shift consumed (events (drop (Z.to_nat consumed) buf) s).
Proof.
  induction fuel as [|fuel IH]; intros buf consumed s Hc Hf; cbn [handle_loop];
    erewrite bind_done by (by apply gsub_tail); cbv beta;
    set (rest := drop (Z.to_nat consumed) buf);
    assert (Z.of_nat (length rest) = Z.of_nat (length buf) - consumed) as Hlr by (unfold rest; rewrite length_drop; lia);
    rewrite events_unfold; unfold parse, headerSize.
  { replace (_ >=? 8) with false by (symmetry; rewrite Z.geb_leb; apply Z.leb_gt; lia).
    replace (_ <? 8) with true by (symmetry; apply Z.ltb_lt; lia). cbn. by rewrite Z.add_0_r. }
  destruct (Z.of_nat (length rest) <? 8) eqn:E8; breflect.
  { replace (_ >=? 8) with false by (symmetry; rewrite Z.geb_leb; apply Z.leb_gt; lia). cbn. by rewrite Z.add_0_r. }
  replace (_ >=? 8) with true by (symmetry; rewrite Z.geb_leb; apply Z.leb_le; lia).
  assert (gsub buf consumed (consumed + 8) s = Done (take 8 rest, s)) as Eh.
  { unfold gsub. replace (consumed + 8 - consumed) with 8 by lia. by rewrite read_at_ok by lia. }
  erewrite bind_done by exact Eh. cbv beta.
  assert (length (take 8 rest) = 8%nat) as Hl by (rewrite length_take; lia).
  destruct (checkEventValid_total _ Hl) as [r Er]. rewrite Er.
  erewrite bind_done by (by apply checkEventValid_pure). cbv beta.
  destruct r as [e|]; [done|]. destruct (take 8 rest !! 7%nat) as [t|] eqn:Et.
  2: { apply lookup_ge_None in Et. lia. }
  pose proof (valid_type _ _ _ Er Et) as Ht.
  erewrite bind_done by (unfold MsgType, gindex; rewrite Et; done). cbv beta.
  pose proof (Forall2_length _ _ _ framed) as Hlen.
  destruct (t >=? Z.of_nat (length protocolHandlers)) eqn:Eb; breflect.
  { replace (table !! Z.to_nat t) with (@None (option event_handler)) by (symmetry; apply lookup_ge_None; lia). done. } 
  destruct (lookup_lt_is_Some_2 protocolHandlers (Z.to_nat t)) as [o Eo]; [lia|]. unfold protocolHandler in Eo |- *. rewrite Eo.
  destruct (Forall2_lookup_l _ _ _ _ _ framed Eo) as (e&Ee&Hfr). rewrite Ee.
  destruct o as [hd|], e as [e|]; try done. change (Framed hd e) in Hfr.
  erewrite bind_done by (apply gsub_tail; lia). cbv beta.
  replace (drop (Z.to_nat (consumed + 8)) buf) with (drop 8 rest) by (unfold rest; rewrite drop_drop; f_equal; lia).
  unfold mbind, M_bind. rewrite (fr_eq _ _ _ Hl). unfold handler_of. rewrite length_drop.
  replace (Z.of_nat (length rest - 8)) with (Z.of_nat (length rest) - 8) by lia.
  destruct (Z.of_nat (length rest) - 8 <? eh_need e (take 8 rest)) eqn:En; breflect; [done|].
  unfold mbind, M_bind. destruct (eh_act e _ _ s) as [[err s1]| |] eqn:Ea; [|done|done]. cbn.
  destruct err as [x|]; [done|].
  assert (0 ≤ eh_need e (take 8 rest)) as Hpos.
  { destruct (decide (eh_need e (take 8 rest) < 0)) as [Hlt|]; [|lia]. by destruct (fr_neg (hd := hd) _ _ _ _ Hl Hlt Ea). }
  unfold headerSize. rewrite IH by lia. set (n := 8 + eh_need e (take 8 rest)) in *.
  assert (drop (Z.to_nat (consumed + n)) buf = drop (Z.to_nat n) rest) as ->
    by (unfold rest; rewrite drop_drop; f_equal; unfold n; lia).
  rewrite <- shift_shift. f_equal. unfold shift. by destruct (events _ s1) as [[[m x] s2]| |].
Qed.

Lemma handleEvents_events buf s : handleEvents buf s = events buf s.
Proof.
  unfold handleEvents. rewrite handle_loop_events by lia. change (Z.to_nat 0) with 0%nat. rewrite drop_0. unfold shift.
  by destruct (events buf s) as [[[n x] s2]| |].
Qed.
(** ** Chunks *)

(** Case analysis on the first event. *)
Lemma events_ind (P : list Z → Prop) :
  (∀ rest, (∀ n act, parse rest = VEvent n act → 8 ≤ n ≤ Z.of_nat (length rest) → P (drop (Z.to_nat n) rest)) → P rest) →
  ∀ rest, P rest.
Proof.
  intros Hstep rest. remember (length rest) as k eqn:Hk. revert rest Hk. induction k as [k IH] using lt_wf_ind.
  intros rest ->. apply Hstep. intros n act _ Hn. eapply IH; [|reflexivity]. rewrite length_drop. lia.
Qed.

Lemma parse_bad_length rest : parse rest = VBad → 8 ≤ Z.of_nat (length rest).
Proof. unfold parse. destruct (_ <? 8) eqn:E; breflect; done. Qed.

(** What the result of [events] is about. *)
Lemma events_result rest : ∀ s n e s', events rest s = Done ((n, e), s') →
  0 ≤ n ≤ Z.of_nat (length rest) ∧ (isClosed s = false → isClosed s' = false) ∧
  (e = None → parse (drop (Z.to_nat n) rest) = VMore).
Proof.
  induction rest as [rest IH] using events_ind. intros s n e s'. rewrite events_unfold.
  destruct (parse rest) as [| |k act] eqn:Ep.
  - intros [= <- <- <-]. split_and!; [lia|lia|done|]. by rewrite drop_0.
  - intros [= <- <- <-]. pose proof (parse_bad_length _ Ep). unfold headerSize. split_and!; [lia|lia|done|done].
  - destruct (parse_event _ _ _ Ep) as (Hl&Hk&Hneg&Hop&_). unfold mbind, M_bind.
    destruct (act s) as [[[x|] s1]| |] eqn:Ea; [| |done|done];
      (assert (8 ≤ k) by (destruct (decide (k < 8)) as [Hlt|]; [by destruct (Hneg Hlt s _ Ea)|lia])).
    + intros [= <- <- <-]. split_and!; [lia|lia| |done]. intros. by eapply Hop.
    + destruct (events _ s1) as [[[m x] s2]| |] eqn:E2; [|done|done]. intros [= <- <- <-].
      destruct (IH k act eq_refl ltac:(lia) _ _ _ _ E2) as (Hm&Hcl&Hst). rewrite length_drop in Hm. cbn [fst snd].
      split_and!; [lia|lia| |].
      * intros. apply Hcl. by eapply Hop.
      * intros. rewrite drop_drop in Hst. replace (Z.to_nat (k + m)) with (Z.to_nat k + Z.to_nat m)%nat by lia. auto.
Qed.

(** More bytes behind do not change what was done with the first ones. *)
Lemma events_app rest : ∀ more s,
  events (rest ++ more) s =
    match events rest s with
    | Done ((n, None), s1) => shift n (events (drop (Z.to_nat n) rest ++ more) s1)
    | o => o
    end.
Proof.
  induction rest as [rest IH] using events_ind. intros more s. rewrite (events_unfold rest).
  destruct (parse rest) as [| |k act] eqn:Ep.
  - change (Z.to_nat 0) with 0%nat. rewrite drop_0. unfold shift. by destruct (events (rest ++ more) s) as [[[n x] s2]| |].
  - rewrite events_unfold, (parse_bad _ _ Ep). done.
  - destruct (parse_event _ _ _ Ep) as (Hl&Hk&Hneg&_&Happ). rewrite events_unfold, Happ. unfold mbind, M_bind.
    destruct (act s) as [[[x|] s1]| |] eqn:Ea; [done| |done|done].
    assert (8 ≤ k) by (destruct (decide (k < 8)) as [Hlt|]; [by destruct (Hneg Hlt s _ Ea)|lia]).
    rewrite drop_app_le by lia. rewrite (IH k act eq_refl ltac:(lia)).
    destruct (events (drop (Z.to_nat k) rest) s1) as [[[m [x|]] s2]| |] eqn:E2; [done| |done|done].
    destruct (events_result _ _ _ _ _ E2) as (Hm&_). cbn.
    rewrite drop_drop. replace (Z.to_nat k + Z.to_nat m)%nat with (Z.to_nat (k + m)) by lia.
    unfold shift. destruct (events _ s2) as [[[j y] s3]| |]; cbn; [|done|done]. by rewrite Z.add_assoc.
Qed.

Lemma feed_events c p s : isClosed s = false →
  feed c p s =
    match events (p ++ c) s with
    | Done ((n, None), s1) => Done (drop (Z.to_nat n) (p ++ c), s1)
    | Done ((n, Some e), s1) => (_ ← exitErr e; mret (drop (Z.to_nat n) (p ++ c))) s1
    | Panic => Panic
    | NoFuel => NoFuel
    end.
Proof.
  intros Hcl. unfold feed, onEventData, reads. unfold mbind at 1, M_bind at 1. unfold mbind at 1, M_bind at 1. rewrite Hcl.
  unfold mbind at 1, M_bind at 1. rewrite handleEvents_events.
  destruct (events (p ++ c) s) as [[[n e] s1]| |] eqn:E; [|done|done].
  destruct (events_result _ _ _ _ _ E) as (Hn&Hop&_). unfold mbind at 1, M_bind at 1. rewrite (Hop Hcl).
  destruct e as [e|]; unfold mbind, M_bind, mret, M_ret; [destruct (exitErr e s1) as [[? ?]| |]; [|done..]|];
    by rewrite gsub_tail by lia.
Qed.

Lemma feed_closed c p s : isClosed s = true → feed c p s = Done (p ++ c, s).
Proof.
  intros Hcl. unfold feed, onEventData, reads. unfold mbind at 1, M_bind at 1. unfold mbind at 1, M_bind at 1. rewrite Hcl.
  unfold mret, M_ret. by rewrite gsub_tail by lia.
Qed.

Lemma feed_all_closed cs : ∀ p s, isClosed s = true → ∃ p', feed_all cs p s = Done (p', s).
Proof.
  induction cs as [|c cs IH]; intros p s Hcl; cbn [feed_all]; [eauto|].
  erewrite bind_done by (by apply feed_closed). by apply IH.
Qed.

(** The same session; the same unread bytes, unless the session is closed. *)
Definition same_feed (o1 o2 : outcome (list Z * S)) : Prop :=
  match o1, o2 with
  | Done (p1, s1), Done (p2, s2) => s1 = s2 ∧ (isClosed s1 = false → p1 = p2)
  | Panic, Panic => True
  | NoFuel, NoFuel => True
  | _, _ => False
  end.

Hypothesis exit_closes : ∀ e s x s', exitErr e s = Done (x, s') → isClosed s' = true.

#[global] Instance same_feed_refl : Reflexive same_feed.
Proof. by intros [[p s]| |]. Qed.
#[global] Instance same_feed_sym : Symmetric same_feed.
Proof. intros [[p s]| |] [[p' s']| |]; cbn; try done. intros [-> Hp]. split; [done|]. intros Hc. symmetry. auto. Qed.
#[global] Instance same_feed_trans : Transitive same_feed.
Proof.
  intros [[p s]| |] [[p' s']| |] [[p'' s'']| |]; cbn; try done. intros [-> Hp] [-> Hp']. split; [done|].
  intros Hc. etransitivity; auto.
Qed.

(** On a closed session only the session counts. *)
Lemma same_feed_closed p p' s : isClosed s = true → same_feed (Done (p, s)) (Done (p', s)).
Proof. intros Hc. cbn. split; [done|]. by rewrite Hc. Qed.

(** Two chunks are as good as one. *)
Lemma feed_seq c1 c2 p s :
  same_feed ((p1 ← feed c1 p; feed c2 p1) s) (feed (c1 ++ c2) p s).
Proof.
  destruct (isClosed s) eqn:Hcl.
  { erewrite bind_done by (by apply feed_closed). rewrite !feed_closed by done. by apply same_feed_closed. }
  unfold mbind, M_bind. rewrite !feed_events by done. rewrite app_assoc, (events_app (p ++ c1)).
  destruct (events (p ++ c1) s) as [[[n [e|]] s1]| |] eqn:E; [| |done|done].
  - unfold shift, mbind, M_bind, mret, M_ret. destruct (exitErr e s1) as [[x s2]| |] eqn:Ex; [|done|done].
    apply exit_closes in Ex. rewrite feed_closed by done. by apply same_feed_closed.
  - destruct (events_result _ _ _ _ _ E) as (Hn&Hop&_). rewrite feed_events by auto.
    destruct (events (drop (Z.to_nat n) (p ++ c1) ++ c2) s1) as [[[m x] s2]| |] eqn:E2; [|done|done].
    destruct (events_result _ _ _ _ _ E2) as (Hm&_).
    assert (drop (Z.to_nat (n + m)) ((p ++ c1) ++ c2) = drop (Z.to_nat m) (drop (Z.to_nat n) (p ++ c1) ++ c2)) as Ed.
    { rewrite Z2Nat.inj_add, <- drop_drop by lia. f_equal. apply drop_app_le. lia. }
    unfold shift. rewrite Ed. by destruct x.
Qed.

Lemma feed_chunks cs : ∀ c p s, same_feed (feed_all (c :: cs) p s) (feed (c ++ concat cs) p s).
Proof.
  induction cs as [|c' cs IH]; intros c p s.
  - cbn [feed_all concat]. rewrite app_nil_r. unfold mbind, M_bind. by destruct (feed c p s) as [[? ?]| |].
  - etransitivity; [|apply feed_seq]. cbn [feed_all concat]. unfold mbind at 1 3, M_bind at 1 3.
    destruct (feed c p s) as [[p1 s1]| |]; [|done|done]. apply IH.
Qed.
End events.

(** The boundaries of the reads do not matter: two ways to cut the same
    bytes into chunks make the session dispatch the same events in the same
    order, fail at the same event if one is invalid or its handler fails, and
    leave the same incomplete event in the buffer. *)
Lemma events_chunk_independent {S} (handlers : list (option (@protocolHandler S))) isClosed exitErr table c cs c' cs' p (s : S) :
  Forall2 (framed_entry isClosed) handlers table → (∀ e s x s', exitErr e s = Done (x, s') → isClosed s' = true) →
  concat (c :: cs) = concat (c' :: cs') →
  same_feed isClosed (feed_all handlers isClosed exitErr (c :: cs) p s) (feed_all handlers isClosed exitErr (c' :: cs') p s).
Proof.
  intros Hf Hx Hc. cbn [concat] in Hc.
  etransitivity; [by eapply feed_chunks|]. rewrite Hc. symmetry. by eapply feed_chunks.
Qed.

(** A session that logs its events and closes on an error. *)
Definition log_state : Type := list (Z * list Z) * bool.
Definition log_handler (t n : Z) : event_handler :=
  EventHandler (λ _, n) (λ _ b, _ ← modify_state (λ s : log_state, (s.1 ++ [(t, b)], s.2)); mret None).
Definition log_table : list (option (@event_handler log_state)) :=
  [None; Some (log_handler 1 0); Some (log_handler 2 4)].
Definition log_handlers : list (option (@protocolHandler log_state)) := map (option_map handler_of) log_table.
Definition log_exit (e : error) : M log_state unit := modify_state (λ s : log_state, (s.1, true)).

Lemma log_framed : Forall2 (framed_entry snd) log_handlers log_table.
Proof.
  assert (∀ t n, 0 ≤ n → Framed snd (handler_of (log_handler t n)) (log_handler t n)) as H.
  { intros t n Hn. constructor; [done|cbn; lia|]. intros h b s err s' Hs [= <- <-]. done. }
  repeat constructor; [done|apply H; lia..].
Qed.

(** A polling event and a stream-close event, cut in the middle of both. *)
Lemma events_chunk_example :
  let c1 := [0; 0; 0; 8; 119] in let c2 := [88; 3; 1; 0; 0; 0; 12; 119; 88; 3; 2; 0; 0] in let c3 := [0; 7; 0] in
  same_feed snd (feed_all log_handlers snd log_exit [c1; c2; c3] [] ([], false))
    (feed_all log_handlers snd log_exit [c1 ++ c2 ++ c3] [] ([], false)) ∧
  feed_all log_handlers snd log_exit [c1; c2; c3] [] ([], false) = Done ([0], ([(1, []); (2, [0; 0; 0; 7])], false)).
Proof.
  intros c1 c2 c3. split; [|vm_compute; reflexivity].
  apply (events_chunk_independent log_handlers snd log_exit log_table).
  - apply log_framed.
  - intros e s x s' [= _ <-]. reflexivity.
  - reflexivity.
Defined.
