(* ===== verification/EventConn.v ===== *)
(** * The event connection ([event_dispatcher_linux.go])

    A connection of the dispatcher: its read buffer (a window of a growing and
    shrinking array), the writes that wait for the socket to become writable,
    closing, and the queue of deferred functions of the dispatcher.  System
    calls and the callbacks of the session are parameters. *)

From Stdlib Require Import ZArith Lia.
From stdpp Require Import prelude list gmap strings.
From S2P Require Import Prelude Protocol Events.

Definition EAGAIN : Z := 11.
Definition EPIPE : Z := 32.
Definition EPOLLIN : Z := 1.
Definition EPOLLOUT : Z := 4.
Definition EPOLLRDHUP : Z := 8192.
Definition onDataThreshold : Z := 1 * 1024 * 1024.
Definition defaultReadBufferSize : Z := 64 * 1024.

(** ** Data *)

Record connEventHandler := Conn {
  c_readBuffer : list Z;
  c_readStartOff : Z;
  c_readEndOff : Z;
  c_isClose : bool;
  (** [onWriteReadyCh]: a token is in the channel; the channel is closed *)
  c_writeReady : bool;
  c_writeReadyClosed : bool
}.

(** [newConnection] *)
Definition newConnection : connEventHandler :=
  Conn (replicate (Z.to_nat defaultReadBufferSize) 0) 0 0 false false false.

Definition set_window (buf : list Z) (lo hi : Z) (c : connEventHandler) : connEventHandler :=
  Conn buf lo hi (c_isClose c) (c_writeReady c) (c_writeReadyClosed c).

(** Functions handed to [post] run later; the closing of a connection posts
    the release of its descriptor. *)
Inductive lambda := LRelease (fd : Z) | LOther (id : nat).

Section conn.
(** The world the system calls act on, and the session. *)
Context {W S : Type}.

Record cst := CSt { cs_conn : connEventHandler; cs_sess : S; cs_world : W; cs_posted : list lambda }.

Definition upd_conn (f : connEventHandler → connEventHandler) : M cst unit :=
  modify_state (λ s, CSt (f (cs_conn s)) (cs_sess s) (cs_world s) (cs_posted s)).
Definition conn {A} (f : connEventHandler → A) : M cst A := reads (λ s, f (cs_conn s)).
Definition on_world {A} (m : M W A) : M cst A :=
  zoom cs_world (λ w s, CSt (cs_conn s) (cs_sess s) w (cs_posted s)) m.
Definition on_sess {A} (m : M S A) : M cst A :=
  zoom cs_sess (λ x s, CSt (cs_conn s) x (cs_world s) (cs_posted s)) m.
Definition post (f : lambda) : M cst unit :=
  modify_state (λ s, CSt (cs_conn s) (cs_sess s) (cs_world s) (cs_posted s ++ [f])).

(** ** The read buffer *)

Definition maybeExpandReadBuffer : M cst unit :=
  c ← conn id;
  let bufRemain := Z.of_nat (length (c_readBuffer c)) - c_readEndOff c in
  if bufRemain =? 0 then
    newBuf ← gmake (2 * Z.of_nat (length (c_readBuffer c)));
    pending ← gsub (c_readBuffer c) (c_readStartOff c) (c_readEndOff c);
    let n := Z.min (Z.of_nat (length newBuf)) (Z.of_nat (length pending)) in
    newBuf ← gput newBuf 0 (take (Z.to_nat n) pending);
    upd_conn (set_window newBuf 0 n)
  else mret tt.

Definition commitRead (n : Z) : M cst unit :=
  c ← conn id;
  let start := c_readStartOff c + n in
  if start =? c_readEndOff c then
    let minResizedBufferSize := 4 * 1024 * 1024 in
    let len := Z.of_nat (length (c_readBuffer c)) in
    buf ← (if len >? minResizedBufferSize then gsub (c_readBuffer c) 0 (len / 2) else mret (c_readBuffer c));
    upd_conn (set_window buf 0 0)
  else upd_conn (set_window (c_readBuffer c) start (c_readEndOff c)).

(** ** Callbacks and system calls *)

Context (fd : Z).
Context (sys_read : Z → M W (Z + list Z)) (sys_write : list Z → M W (Z + Z)).
(** Wait for the channel [onWriteReadyCh]. *)
Context (wait_writable : M W unit).
Context (cb_onEventData : list Z → M cst (option error)) (cb_onRemoteClose cb_onLocalClose : M cst unit).

Definition deferredClose : M cst unit :=
  closed ← conn c_isClose;
  if (closed : bool) then mret tt
  else
    _ ← upd_conn (λ c, Conn (c_readBuffer c) (c_readStartOff c) (c_readEndOff c) true (c_writeReady c) true);
    post (LRelease fd).

Definition onRemoteClose : M cst unit := _ ← cb_onRemoteClose; deferredClose.

Definition conn_close : M cst (option error) := _ ← cb_onLocalClose; _ ← deferredClose; mret None.

(** The unread part of the buffer. *)
Definition unread : M cst (list Z) :=
  c ← conn id; gsub (c_readBuffer c) (c_readStartOff c) (c_readEndOff c).

(** The loop of [onReadReady]; the result says whether the data is handed to
    the callback at the end. *)
Fixpoint read_ready_loop (fuel : nat) : M cst (option error * bool) :=
  match fuel with
  | O => out_of_fuel
  | Datatypes.S fuel =>
      _ ← maybeExpandReadBuffer;
      c ← conn id;
      (** [&c.readBuffer[c.readEndOff]] is an index expression. *)
      _ ← gindex (c_readBuffer c) (Z.to_nat (c_readEndOff c));
      r ← on_world (sys_read (Z.of_nat (length (c_readBuffer c)) - c_readEndOff c));
      match r with
      | inl errCode => if errCode =? EAGAIN then mret (None, true) else mret (None, false)
      | inr bs =>
          if Z.of_nat (length bs) =? 0 then _ ← onRemoteClose; mret (None, true)
          else
            buf ← gput (c_readBuffer c) (c_readEndOff c) bs;
            let end_ := c_readEndOff c + Z.of_nat (length bs) in
            _ ← upd_conn (set_window buf (c_readStartOff c) end_);
            if end_ - c_readStartOff c >=? onDataThreshold then
              data ← unread;
              err ← cb_onEventData data;
              match err with
              | Some e => mret (Some e, false)
              | None => read_ready_loop fuel
              end
            else read_ready_loop fuel
      end
  end.

Definition onReadReady (fuel : nat) : M cst (option error) :=
  r ← read_ready_loop fuel;
  match r with
  | (err, false) => mret err
  | (_, true) => data ← unread; cb_onEventData data
  end.

(** [asyncNotify] on a channel with room for one token. *)
Definition onWriteReady : M cst (option error) :=
  closed ← conn c_isClose;
  _ ← (if (closed : bool) then mret tt
       else upd_conn (λ c, Conn (c_readBuffer c) (c_readStartOff c) (c_readEndOff c) (c_isClose c) true (c_writeReadyClosed c)));
  mret None.

Definition handleEvent (fuel : nat) (events : Z) : M cst unit :=
  if negb (Z.land events EPOLLRDHUP =? 0) then onRemoteClose
  else
    _ ← (if negb (Z.land events EPOLLIN =? 0) then _ ← onReadReady fuel; mret tt else mret tt);
    if negb (Z.land events EPOLLOUT =? 0) then _ ← onWriteReady; mret tt else mret tt.

(** ** Writing *)

(** The loop stops at an error or when everything is written; it waits when the
    socket is full. *)
Fixpoint conn_write_loop (fuel : nat) (data : list Z) (written : Z) : M cst (option error) :=
  if written <? Z.of_nat (length data) then
    match fuel with
    | O => out_of_fuel
    | Datatypes.S fuel =>
        closed ← conn c_isClose;
        if (closed : bool) then mret (Some (Errno EPIPE))
        else
          rest ← gsub data written (Z.of_nat (length data));
          r ← on_world (sys_write rest);
          match r with
          | inl e =>
              if e =? EAGAIN then _ ← on_world wait_writable; conn_write_loop fuel data written
              else mret (Some (Errno e))
          | inr n => conn_write_loop fuel data (written + n)
          end
    end
  else mret None.

Definition conn_write (fuel : nat) (data : list Z) : M cst (option error) := conn_write_loop fuel data 0.

(** Gathered writes: [ioves] is the array of at most 256 parts, each the unsent
    rest of a slice. *)
Context (sys_writev : list (list Z) → M W (Z + Z)).
Definition maxIoves : nat := 256.

(** Acknowledge [writtenSize] bytes: drop whole parts, shorten the next one. *)
Fixpoint ack_write (ioves : list (list Z)) (writtenSize : Z) : M cst (list (list Z)) :=
  if writtenSize >? 0 then
    match ioves with
    | [] => panic
    | v :: ioves' =>
        if writtenSize >=? Z.of_nat (length v) then ack_write ioves' (writtenSize - Z.of_nat (length v))
        else mret (drop (Z.to_nat writtenSize) v :: ioves')
    end
  else mret ioves.

Fixpoint writev_loop (fuel : nat) (ioves : list (list Z)) : M cst (option error) :=
  match ioves with
  | [] => mret None
  | _ =>
      match fuel with
      | O => out_of_fuel
      | Datatypes.S fuel =>
          closed ← conn c_isClose;
          if (closed : bool) then mret (Some (Errno EPIPE))
          else
            r ← on_world (sys_writev ioves);
            match r with
            | inl e =>
                if e =? EAGAIN then _ ← on_world wait_writable; writev_loop fuel ioves
                else mret (Some (Errno e))
            | inr n => ioves ← ack_write ioves n; writev_loop fuel ioves
            end
      end
  end.

(** [&data[i][0]]: an empty slice panics. *)
Fixpoint iovecs (data : list (list Z)) : M cst (list (list Z)) :=
  match data with
  | [] => mret []
  | d :: data => _ ← gindex d 0; vs ← iovecs data; mret (d :: vs)
  end.

Definition doWritev (fuel : nat) (data : list (list Z)) : M cst (error + Z) :=
  ioves ← iovecs (take maxIoves data);
  err ← writev_loop fuel ioves;
  match err with
  | Some e => mret (inl e)
  | None => mret (inr (Z.of_nat (length ioves)))
  end.

Fixpoint writev_rounds (rounds fuel : nat) (data : list (list Z)) (writtenSliceNum : Z) : M cst (option error) :=
  if writtenSliceNum <? Z.of_nat (length data) then
    match rounds with
    | O => out_of_fuel
    | Datatypes.S rounds =>
        r ← doWritev fuel (drop (Z.to_nat writtenSliceNum) data);
        match r with
        | inl e => mret (Some e)
        | inr n => writev_rounds rounds fuel data (writtenSliceNum + n)
        end
    end
  else mret None.

Definition writev (fuel : nat) (data : list (list Z)) : M cst (option error) :=
  if Z.of_nat (length data) =? 0 then mret None else writev_rounds (length data) fuel data 0.
End conn.

(** ** The read buffer is a queue of bytes *)

Definition window (c : connEventHandler) : list Z :=
  take (Z.to_nat (c_readEndOff c - c_readStartOff c)) (drop (Z.to_nat (c_readStartOff c)) (c_readBuffer c)).

Record conn_wf (c : connEventHandler) : Prop := {
  cw_start : 0 ≤ c_readStartOff c ≤ c_readEndOff c;
  cw_end : c_readEndOff c ≤ Z.of_nat (length (c_readBuffer c));
  cw_len : 0 < Z.of_nat (length (c_readBuffer c))
}.

Lemma newConnection_wf : conn_wf newConnection ∧ window newConnection = [].
Proof.
  split; [|done]. constructor; cbn [newConnection c_readStartOff c_readEndOff c_readBuffer]; [lia| |];
    rewrite length_replicate; unfold defaultReadBufferSize; lia.
Qed.

Section facts.
Context {W S : Type}.
Implicit Types st : @cst W S.

Definition with_conn (c : connEventHandler) (st : cst) : @cst W S := CSt c (cs_sess st) (cs_world st) (cs_posted st).

Lemma window_length c : conn_wf c → Z.of_nat (length (window c)) = c_readEndOff c - c_readStartOff c.
Proof. intros []. unfold window. len. Qed.

Lemma gsub_window st c : conn_wf c → gsub (c_readBuffer c) (c_readStartOff c) (c_readEndOff c) st = Done (window c, st).
Proof. intros []. unfold gsub, window. by rewrite read_at_ok by lia. Qed.

Lemma unread_ok st : conn_wf (cs_conn st) → unread st = Done (window (cs_conn st), st).
Proof. intros Hw. unfold unread, conn. erewrite bind_done by done. cbv beta. by apply gsub_window. Qed.

(** Growing keeps the unread bytes and makes room. *)
Lemma maybeExpandReadBuffer_ok st : conn_wf (cs_conn st) →
  ∃ c, maybeExpandReadBuffer st = Done (tt, with_conn c st) ∧ conn_wf c ∧ window c = window (cs_conn st) ∧
    c_readEndOff c < Z.of_nat (length (c_readBuffer c)).
Proof.
  intros Hw. pose proof Hw as []. unfold maybeExpandReadBuffer, conn. erewrite bind_done by done. cbv beta. cbn [id].
  set (c := cs_conn st) in *. change (id c) with c. destruct (_ =? 0) eqn:E; breflect.
  - set (n := Z.of_nat (length (c_readBuffer c))) in *.
    erewrite bind_done by (apply gmake_ok; lia). cbv beta. erewrite bind_done by (by apply gsub_window). cbv beta.
    pose proof (window_length c Hw) as Hl. rewrite length_replicate.
    replace (Z.min _ _) with (Z.of_nat (length (window c))) by lia. rewrite Nat2Z.id, firstn_all.
    replace (replicate (Z.to_nat (2 * n)) 0) with (replicate (length (window c)) 0 ++ replicate (Z.to_nat (2 * n) - length (window c)) 0)
      by (rewrite <- replicate_add; f_equal; lia).
    erewrite bind_done by (apply (gput_pieces _ []); [done|len]). cbv beta.
    set (buf := [] ++ window c ++ _). exists (set_window buf 0 (Z.of_nat (length (window c))) c). split_and!; [done| | |].
    + constructor; cbn; unfold buf; len.
    + unfold window at 1. cbn [c_readEndOff c_readStartOff c_readBuffer set_window]. rewrite Z.sub_0_r, Nat2Z.id.
      change (Z.to_nat 0) with 0%nat. rewrite drop_0. unfold buf. cbn [app]. apply take_app_length.
    + cbn. unfold buf. len.
  - exists c. split_and!; [by destruct st|done|done|lia].
Qed.

(** Committing consumes from the front. *)
Lemma commitRead_ok st n : conn_wf (cs_conn st) → 0 ≤ n ≤ Z.of_nat (length (window (cs_conn st))) →
  ∃ c, commitRead n st = Done (tt, with_conn c st) ∧ conn_wf c ∧ window c = drop (Z.to_nat n) (window (cs_conn st)).
Proof.
  intros Hw Hn. pose proof Hw as []. pose proof (window_length _ Hw) as Hl. unfold commitRead, conn.
  erewrite bind_done by done. cbv beta. set (c := cs_conn st) in *. change (id c) with c.
  destruct (_ =? c_readEndOff c) eqn:E; breflect.
  - set (L := Z.of_nat (length (c_readBuffer c))) in *.
    assert (∃ buf, (if L >? 4 * 1024 * 1024 then gsub (c_readBuffer c) 0 (L / 2) else mret (c_readBuffer c)) st = Done (buf, st) ∧
              0 < Z.of_nat (length buf)) as (buf&Eb&Hb).
    { destruct (L >? _) eqn:EL; breflect; [|by eexists].
      assert (0 < L / 2 < L) by (split; [apply Z.div_str_pos; lia|apply Z.div_lt; lia]).
      eexists. unfold gsub. rewrite read_at_ok by lia. split; [done|]. len. }
    erewrite bind_done by exact Eb. cbv beta. exists (set_window buf 0 0 c). split_and!; [done| |].
    + constructor; cbn; lia.
    + rewrite drop_ge by lia. done.
  - exists (set_window (c_readBuffer c) (c_readStartOff c + n) (c_readEndOff c) c). split_and!; [done| |].
    + constructor; cbn; lia.
    + unfold window. cbn. rewrite skipn_firstn_comm, drop_drop. f_equal; [lia|]. f_equal. lia.
Qed.
End facts.

(** ** The connection under a session *)

Section session_conn.
Context {W S : Type}.
Context (handlers : list (option (@protocolHandler S))) (isClosed : S → bool) (exitErr : error → M S unit).

(** [Session.onEventData]: dispatch, commit what was consumed, exit on an error. *)
Definition session_onEventData (buf : list Z) : M (@cst W S) (option error) :=
  closed ← on_sess (reads isClosed);
  if (closed : bool) then mret None
  else
    r ← on_sess (handleEvents handlers buf);
    let '(consumed, err) := r in
    _ ← commitRead consumed;
    closed ← on_sess (reads isClosed);
    match err with
    | Some e => if (closed : bool) then mret None else _ ← on_sess (exitErr e); mret None
    | None => mret None
    end.

Context (table : list (option (@event_handler S))).
Hypothesis framed : Forall2 (framed_entry isClosed) handlers table.
Hypothesis exit_closes : ∀ e s x s', exitErr e s = Done (x, s') → isClosed s' = true.

(** What is left of a result: the unread bytes and the session. *)
Definition seen {A} (o : outcome (A * @cst W S)) : outcome (list Z * S) :=
  match o with
  | Done (_, st) => Done (window (cs_conn st), cs_sess st)
  | Panic => Panic
  | NoFuel => NoFuel
  end.

(** The callback consumes from the window as [feed] does from a queue. *)
Lemma session_onEventData_feed (st : @cst W S) : conn_wf (cs_conn st) →
  let r := session_onEventData (window (cs_conn st)) st in
  seen r = feed handlers isClosed exitErr [] (window (cs_conn st)) (cs_sess st) ∧
  ∀ err st', r = Done (err, st') → err = None ∧ conn_wf (cs_conn st') ∧ cs_world st' = cs_world st.
Proof.
  intros Hw. cbn zeta. set (p := window (cs_conn st)). unfold session_onEventData.
  assert (∀ st : @cst W S, on_sess (reads isClosed) st = Done (isClosed (cs_sess st), st)) as Hrd by (by intros []).
  erewrite bind_done by apply Hrd. cbv beta.
  destruct (isClosed (cs_sess st)) eqn:Hcl.
  - rewrite feed_closed by done. rewrite app_nil_r. split; [done|]. intros err st' [= <- <-]. done.
  - rewrite (feed_events _ _ _ _ framed) by done. rewrite app_nil_r.
    pose proof (handleEvents_events _ _ _ framed p (cs_sess st)) as He.
    destruct (events table p (cs_sess st)) as [[[n e] s1]| |] eqn:E;
      [|assert (on_sess (handleEvents handlers p) st = Panic) as Hp by (unfold on_sess, zoom; by rewrite He)
       |assert (on_sess (handleEvents handlers p) st = NoFuel) as Hp by (unfold on_sess, zoom; by rewrite He)];
      [|unfold mbind, M_bind; by rewrite Hp..].
    destruct (events_result _ _ _ framed _ _ _ _ _ E) as (Hn&Hop&_).
    erewrite bind_done by (unfold on_sess; apply zoom_done; exact He). cbv beta iota. set (st1 := CSt _ _ _ _).
    destruct (commitRead_ok st1 n Hw Hn) as (c&Ec&Hwc&Hwin).
    erewrite bind_done by exact Ec. cbv beta. erewrite bind_done by apply Hrd. cbv beta.
    cbn [st1 cs_sess with_conn]. rewrite (Hop Hcl).
    destruct e as [e|]; unfold mbind, M_bind, on_sess, zoom, mret, M_ret, seen; cbn [cs_conn cs_sess with_conn];
      [destruct (exitErr e s1) as [[x s2]| |] eqn:Ex; cbn; rewrite Ex; [|by split..]|];
      (split; [cbn; by rewrite Hwin|intros err st' [= <- <-]; done]).
Qed.

Context (fd : Z) (sys_read : Z → M W (Z + list Z)) (onRemoteCloseCb : M (@cst W S) unit).
(** The bytes that have arrived at the socket.  A read delivers a non-empty
    prefix of them, at most as much as asked for; without any it would block. *)
Context (inbox : W → list Z).
Definition nonblocking_read : Prop := ∀ n w, 0 < n →
  (inbox w = [] ∧ sys_read n w = Done (inl EAGAIN, w)) ∨
  (∃ bs w', sys_read n w = Done (inr bs, w') ∧ 0 < Z.of_nat (length bs) ≤ n ∧ inbox w = bs ++ inbox w').
Hypothesis Hread : nonblocking_read.

Notation ready := (onReadReady fd sys_read session_onEventData onRemoteCloseCb).
Notation loop := (read_ready_loop fd sys_read session_onEventData onRemoteCloseCb).

(** The loop and the final callback. *)
Lemma onReadReady_feed fuel : ∀ st : @cst W S,
  conn_wf (cs_conn st) → (length (inbox (cs_world st)) < fuel)%nat →
  same_feed isClosed (seen (ready fuel st)) (feed handlers isClosed exitErr (inbox (cs_world st)) (window (cs_conn st)) (cs_sess st)) ∧
  ∀ err st', ready fuel st = Done (err, st') → err = None ∧ conn_wf (cs_conn st') ∧ inbox (cs_world st') = [].
Proof.
  induction fuel as [|fuel IH]; intros st Hw Hf; [lia|].
  unfold onReadReady. cbn [read_ready_loop].
  destruct (maybeExpandReadBuffer_ok st Hw) as (c1&E1&Hw1&Hwin1&Hroom).
  rewrite bind_assoc. erewrite bind_done by exact E1. cbv beta. set (st1 := with_conn c1 st).
  rewrite bind_assoc. erewrite bind_done by done. cbv beta. change (id (cs_conn st1)) with c1.
  pose proof Hw1 as [].
  destruct (lookup_lt_is_Some_2 (c_readBuffer c1) (Z.to_nat (c_readEndOff c1))) as [x Hx]; [lia|].
  rewrite bind_assoc. erewrite bind_done by (unfold gindex; rewrite Hx; done). cbv beta. rewrite bind_assoc.
  destruct (Hread (Z.of_nat (length (c_readBuffer c1)) - c_readEndOff c1) (cs_world st)) as [[Hin Er]|(bs&w'&Er&Hbs&Hin)]; [lia| |].
  - erewrite bind_done by (unfold on_world; apply zoom_done; exact Er). cbv beta iota.
    change (EAGAIN =? EAGAIN) with true. cbv iota. erewrite bind_done by done. cbv beta iota.
    set (st2 := CSt _ _ _ _).
    erewrite bind_done by (by apply unread_ok). cbv beta.
    destruct (session_onEventData_feed st2 Hw1) as [Hs Hd].
    change (cs_conn st2) with c1 in *. change (cs_sess st2) with (cs_sess st) in *. rewrite Hin, <- Hwin1, Hs. split; [reflexivity|]. intros err st' E'. destruct (Hd err st' E') as (->&?&->). done.
  - erewrite bind_done by (unfold on_world; apply zoom_done; exact Er). cbv beta iota.
    replace (Z.of_nat (length bs) =? 0) with false by (symmetry; apply Z.eqb_neq; lia).
    set (st2 := CSt _ _ _ _).
    assert (gput (c_readBuffer c1) (c_readEndOff c1) bs st2 = Done (take (Z.to_nat (c_readEndOff c1)) (c_readBuffer c1) ++ bs ++
              drop (Z.to_nat (c_readEndOff c1) + length bs) (c_readBuffer c1), st2)) as Ep.
    { unfold gput, write_at. by bdecide. }
    rewrite bind_assoc. erewrite bind_done by exact Ep. cbv beta. set (buf := take _ _ ++ bs ++ _).
    rewrite bind_assoc. erewrite bind_done by done. cbv beta.
    set (c3 := set_window buf (c_readStartOff c1) (c_readEndOff c1 + Z.of_nat (length bs)) c1).
    set (st3 := CSt (set_window _ _ _ _) _ _ _). change (cs_conn st3) with c3 in *.
    assert (conn_wf c3) as Hw3 by (constructor; cbn; unfold buf; len).
    assert (window c3 = window (cs_conn st) ++ bs) as Hwin3.
    { rewrite <- Hwin1. unfold window, c3. cbn [set_window c_readBuffer c_readStartOff c_readEndOff]. unfold buf.
      rewrite drop_app_le by len. rewrite app_assoc, take_app_le by len. rewrite take_ge by len. f_equal.
      rewrite skipn_firstn_comm. f_equal. lia. }
    assert (length (inbox w') < fuel)%nat as Hf' by (rewrite Hin, length_app in Hf; lia).
    destruct (_ >=? onDataThreshold) eqn:Eth.
    + rewrite bind_assoc. erewrite bind_done by (by apply unread_ok). cbv beta. change (window (cs_conn st3)) with (window c3).
      destruct (session_onEventData_feed st3 Hw3) as [Hs Hd]. change (window (cs_conn st3)) with (window c3) in *.
      change (cs_sess st3) with (cs_sess st) in Hs. rewrite Hin.
      pose proof (feed_seq _ _ _ _ framed exit_closes bs (inbox w') (window (cs_conn st)) (cs_sess st)) as Hseq.
      assert (feed handlers isClosed exitErr bs (window (cs_conn st)) = feed handlers isClosed exitErr [] (window c3)) as Efd.
      { rewrite Hwin3. unfold feed. by rewrite app_nil_r. }
      unfold mbind at 1, M_bind at 1 in Hseq. rewrite Efd, <- Hs in Hseq. rewrite bind_assoc. unfold mbind at 1 4, M_bind at 1 4.
      destruct (session_onEventData (window c3) st3) as [[err4 st4]| |] eqn:E4; cbn [seen] in Hseq;
        [|by destruct (feed _ _ _ (bs ++ _) _ _) as [[? ?]| |]..].
      destruct (Hd _ _ eq_refl) as (->&Hw4&Hcw). destruct (IH st4 Hw4) as [Hsf Hfin]; [by rewrite Hcw|].
      rewrite Hcw in Hsf. change (cs_world st3) with w' in Hsf. split; [|exact Hfin]. etransitivity; [exact Hsf|exact Hseq].
    + destruct (IH st3 Hw3 Hf') as [Hsf Hfin]. split; [|exact Hfin]. etransitivity; [exact Hsf|].
      change (cs_sess st3) with (cs_sess st). change (cs_world st3) with w'. change (cs_conn st3) with c3.
      rewrite Hwin3, Hin. unfold feed. by rewrite app_assoc.
Qed.
End session_conn.

(** Reading from the socket loses, repeats and reorders nothing: when the
    socket becomes readable, the loop empties it through the growing and
    shrinking window of the read buffer, and the session and the unread bytes
    end up as if all bytes that had arrived were appended to a queue and the
    events dispatched once; nothing panics on its own, and the window stays
    well formed. *)
Lemma conn_read_refines {W S : Type} handlers isClosed exitErr table fd sys_read cb inbox fuel (st : @cst W S) :
  Forall2 (framed_entry isClosed) handlers table → (∀ e s x s', exitErr e s = Done (x, s') → isClosed s' = true) →
  nonblocking_read sys_read inbox → conn_wf (cs_conn st) → (length (inbox (cs_world st)) < fuel)%nat →
  let r := onReadReady fd sys_read (session_onEventData handlers isClosed exitErr) cb fuel st in
  same_feed isClosed (seen r) (feed handlers isClosed exitErr (inbox (cs_world st)) (window (cs_conn st)) (cs_sess st)) ∧
  ∀ err st', r = Done (err, st') → err = None ∧ conn_wf (cs_conn st') ∧ inbox (cs_world st') = [].
Proof. intros Hf Hx Hr Hw Hfu. by apply (onReadReady_feed _ _ _ table). Qed.

(** A socket that delivers at most three bytes at a time. *)
Definition sock_read (n : Z) : M (list Z) (Z + list Z) := λ w,
  match w with
  | [] => Done (inl EAGAIN, w)
  | _ => Done (inr (take (Nat.min 3 (Z.to_nat n)) w), drop (Nat.min 3 (Z.to_nat n)) w)
  end.

Lemma sock_read_spec : nonblocking_read sock_read id.
Proof.
  intros n w Hn. destruct w as [|x w]; [by left|]. right. eexists _, _. split; [reflexivity|]. unfold id.
  rewrite take_drop, length_take. split; [cbn [length]; lia|done].
Qed.

(** A connection with a buffer of four bytes has to grow. *)
Lemma conn_read_example :
  let st := CSt (Conn [0; 0; 0; 0] 0 0 false false false) ([], false) [0; 0; 0; 8; 119; 88; 3; 1; 0; 0] [] in
  seen (onReadReady 5 sock_read (session_onEventData log_handlers snd log_exit) (mret tt) 11 st)
    = Done ([0; 0], ([(1, [])], false)).
Proof.
  intros st.
  destruct (conn_read_refines log_handlers snd log_exit log_table 5 sock_read (mret tt) id 11 st) as [Hs _].
  - apply log_framed.
  - intros e s x s' [= _ <-]. reflexivity.
  - apply sock_read_spec.
  - constructor; cbn; lia.
  - cbn. lia.
  - vm_compute in Hs |- *. reflexivity.
Defined.

(** ** Writing *)

Section writes.
Context {W S : Type} (sys_writev : list (list Z) → M W (Z + Z)) (wait_writable : M W unit).
(** What was sent, and how often the socket will still be full. *)
Context (sent : W → list Z) (stalls : W → nat).

(** A gathered write takes a non-empty prefix of the parts, or the socket is
    full and becomes writable later. *)
Definition writev_spec : Prop := ∀ vs w, concat vs ≠ [] →
  (∃ n w', sys_writev vs w = Done (inr n, w') ∧ 0 < n ≤ Z.of_nat (length (concat vs)) ∧
     sent w' = sent w ++ take (Z.to_nat n) (concat vs) ∧ (stalls w' ≤ stalls w)%nat) ∨
  (∃ w1 w2, sys_writev vs w = Done (inl EAGAIN, w1) ∧ wait_writable w1 = Done (tt, w2) ∧
     sent w2 = sent w ∧ (stalls w2 < stalls w)%nat).

Definition with_world (w : W) (st : @cst W S) : cst := CSt (cs_conn st) (cs_sess st) w (cs_posted st).

Lemma ack_write_ok vs : ∀ n (st : @cst W S), Forall (λ v, v ≠ []) vs → 0 ≤ n ≤ Z.of_nat (length (concat vs)) →
  ∃ vs', ack_write vs n st = Done (vs', st) ∧ concat vs' = drop (Z.to_nat n) (concat vs) ∧ Forall (λ v, v ≠ []) vs'.
Proof.
  induction vs as [|v vs IH]; intros n st Hne Hn; cbn [ack_write concat] in *.
  - cbn in Hn. exists []. assert (n = 0) as -> by lia. done.
  - apply Forall_cons in Hne as [Hv Hne]. destruct (n >? 0) eqn:E0; breflect.
    + destruct (n >=? Z.of_nat (length v)) eqn:E1; breflect.
      * rewrite length_app in Hn. destruct (IH (n - Z.of_nat (length v)) st Hne ltac:(lia)) as (vs'&E&Hc&Hn').
        exists vs'. split_and!; [done| |done]. rewrite Hc, drop_app_ge by lia. f_equal. lia.
      * exists (drop (Z.to_nat n) v :: vs). split_and!; [done| |].
        -- cbn. rewrite drop_app_le by lia. done.
        -- constructor; [|done]. intros Hnil. apply (f_equal length) in Hnil. rewrite length_drop in Hnil. cbn in Hnil. lia.
    + assert (n = 0) as -> by lia. exists (v :: vs). split_and!; [done|done|by constructor].
Qed.

Lemma concat_nonempty (vs : list (list Z)) : Forall (λ v, v ≠ []) vs → vs ≠ [] → concat vs ≠ [].
Proof. destruct vs as [|v vs]; [done|]. intros [Hv _]%Forall_cons _. cbn. destruct v; done. Qed.

Lemma writev_loop_ok (Hs : writev_spec) fuel : ∀ vs (st : @cst W S),
  Forall (λ v, v ≠ []) vs → c_isClose (cs_conn st) = false →
  (length (concat vs) + stalls (cs_world st) < fuel)%nat →
  ∃ w', writev_loop wait_writable sys_writev fuel vs st = Done (None, with_world w' st) ∧
    sent w' = sent (cs_world st) ++ concat vs ∧ (stalls w' ≤ stalls (cs_world st))%nat.
Proof.
  induction fuel as [|fuel IH]; intros vs st Hne Hcl Hf; [lia|]. cbn [writev_loop].
  destruct vs as [|v vs]; [exists (cs_world st); split_and!; [by destruct st|by rewrite app_nil_r|lia]|].
  unfold conn. erewrite bind_done by done. cbv beta. rewrite Hcl.
  destruct (Hs (v :: vs) (cs_world st)) as [(n&w1&E&Hn&Hsent&Hst)|(w1&w2&E&Ew&Hsent&Hst)]; [by apply concat_nonempty| |].
  - erewrite bind_done by (unfold on_world; apply zoom_done; exact E). cbv beta iota.
    destruct (ack_write_ok (v :: vs) n (with_world w1 st) Hne ltac:(lia)) as (vs'&Ea&Hc&Hne').
    erewrite bind_done by exact Ea. cbv beta.
    destruct (IH vs' (with_world w1 st) Hne' Hcl) as (w'&E'&Hs'&Hst').
    { cbn [with_world cs_world]. rewrite Hc, length_drop. lia. }
    exists w'. cbn [with_world cs_world] in *. split_and!; [done| |lia]. rewrite Hs', Hsent, Hc, <- app_assoc, take_drop. done.
  - erewrite bind_done by (unfold on_world; apply zoom_done; exact E). cbv beta iota. change (EAGAIN =? EAGAIN) with true. cbv iota.
    erewrite bind_done by (unfold on_world; apply zoom_done; exact Ew). cbv beta.
    destruct (IH (v :: vs) (with_world w2 st) Hne Hcl) as (w'&E'&Hs'&Hst'); [cbn [with_world cs_world]; lia|].
    exists w'. cbn [with_world cs_world] in *. split_and!; [done| |lia]. by rewrite Hs', Hsent.
Qed.

Lemma iovecs_ok data : ∀ st : @cst W S, Forall (λ v, v ≠ []) data → iovecs data st = Done (data, st).
Proof.
  induction data as [|d data IH]; intros st Hd; cbn [iovecs]; [done|]. apply Forall_cons in Hd as [Hv Hd].
  destruct d as [|x d]; [done|]. erewrite bind_done by done. cbv beta. by erewrite bind_done by (by apply IH).
Qed.

Lemma writev_rounds_ok (Hs : writev_spec) rounds fuel : ∀ data k (st : @cst W S),
  Forall (λ v, v ≠ []) data → c_isClose (cs_conn st) = false →
  0 ≤ k ≤ Z.of_nat (length data) → Z.of_nat (length data) - k ≤ Z.of_nat rounds →
  (length (concat data) + stalls (cs_world st) < fuel)%nat →
  ∃ w', writev_rounds wait_writable sys_writev rounds fuel data k st = Done (None, with_world w' st) ∧
    sent w' = sent (cs_world st) ++ concat (drop (Z.to_nat k) data).
Proof.
  induction rounds as [|rounds IH]; intros data k st Hne Hcl Hk Hr Hf; cbn [writev_rounds];
    (destruct (k <? Z.of_nat (length data)) eqn:E; breflect;
     [|exists (cs_world st); rewrite drop_ge, app_nil_r by lia; split; [by destruct st|done]]); [lia|].
  set (rest := drop (Z.to_nat k) data).
  assert (Forall (λ v, v ≠ []) (take maxIoves rest)) as Hne' by (apply Forall_take; unfold rest; by apply Forall_drop).
  assert (length (concat (take maxIoves rest)) ≤ length (concat data))%nat as Hlen.
  { rewrite <- (take_drop (Z.to_nat k) data). fold rest. rewrite <- (take_drop maxIoves rest) at 2.
    rewrite !concat_app, !length_app. lia. }
  destruct (writev_loop_ok Hs fuel (take maxIoves rest) st Hne' Hcl ltac:(lia)) as (w1&E1&Hs1&Hst1).
  assert (doWritev wait_writable sys_writev fuel rest st
            = Done (inr (Z.of_nat (length (take maxIoves rest))), with_world w1 st)) as Ed.
  { unfold doWritev. erewrite bind_done by (by apply iovecs_ok). cbv beta. by erewrite bind_done by exact E1. }
  erewrite bind_done by exact Ed. cbv beta iota.
  assert (length rest = length data - Z.to_nat k)%nat as Hlr by (unfold rest; apply length_drop).
  rewrite length_take in *. unfold maxIoves in *.
  destruct (IH data (k + Z.of_nat (256 `min` length rest)) (with_world w1 st)) as (w2&E2&Hs2); try done; try lia.
  { cbn [with_world cs_world]. lia. }
  exists w2. split; [done|]. rewrite Hs2. cbn [with_world cs_world]. rewrite Hs1, <- app_assoc. f_equal.
  change (drop (Z.to_nat k) data) with rest.
  assert (concat rest = concat (take 256 rest) ++ concat (drop 256 rest)) as -> by (by rewrite <- concat_app, take_drop).
  f_equal. f_equal. unfold rest at 2. rewrite drop_drop.
  destruct (decide (256 ≤ length rest)%nat); [f_equal; lia|]. rewrite !drop_ge; [done|lia..].
Qed.
End writes.

(** [C17] A gathered write sends every byte once and in order: however the
    kernel cuts the transfers, however often the socket is full, and for any
    number of slices (the kernel gets at most 256 at a time), [writev] returns
    without an error and the concatenation of the slices has been sent. *)
Theorem conn_writev_exact {W S : Type} sys_writev wait_writable sent stalls data fuel (st : @cst W S) :
  writev_spec sys_writev wait_writable sent stalls → Forall (λ v, v ≠ []) data → c_isClose (cs_conn st) = false →
  (length (concat data) + stalls (cs_world st) < fuel)%nat →
  ∃ w', writev wait_writable sys_writev fuel data st = Done (None, with_world w' st) ∧
    sent w' = sent (cs_world st) ++ concat data.
Proof.
  intros Hs Hne Hcl Hf. unfold writev. destruct (_ =? 0) eqn:E; breflect.
  - destruct data; [|done]. exists (cs_world st). cbn. rewrite app_nil_r. by destruct st.
  - apply (writev_rounds_ok sys_writev wait_writable sent stalls Hs); try done; lia.
Qed.

(** A socket that is full every other time and takes at most three bytes. *)
Definition sock_writev (vs : list (list Z)) : M (list Z * nat) (Z + Z) := λ w,
  match w.2 with
  | Datatypes.S _ => Done (inl EAGAIN, w)
  | O => Done (inr (Z.min 3 (Z.of_nat (length (concat vs)))), (w.1 ++ take 3 (concat vs), 0%nat))
  end.
Definition sock_wait : M (list Z * nat) unit := λ w, Done (tt, (w.1, pred w.2)).

Lemma sock_writev_spec : writev_spec sock_writev sock_wait fst snd.
Proof.
  intros vs [l [|k]] Hne; [left|right].
  - eexists _, _. split; [reflexivity|]. cbn [fst snd]. split_and!; [|lia| |done].
    + destruct (concat vs); [done|]. cbn [length]. lia.
    + f_equal. destruct (decide (length (concat vs) ≤ 3)%nat); [rewrite !take_ge by lia; done|f_equal; lia].
  - eexists _, _. split; [reflexivity|]. split; [reflexivity|]. cbn. split; [done|lia].
Qed.

Lemma conn_writev_exact_witness :
  ∃ w', writev sock_wait sock_writev 20 [[1; 2]; [3; 4; 5; 6; 7]; [8]] (CSt newConnection tt ([0], 2%nat) [])
          = Done (None, CSt newConnection tt w' []) ∧ w'.1 = [0; 1; 2; 3; 4; 5; 6; 7; 8].
Proof.
  destruct (conn_writev_exact sock_writev sock_wait fst snd [[1; 2]; [3; 4; 5; 6; 7]; [8]] 20
              (CSt newConnection tt ([0], 2%nat) [])) as (w'&E&Hs).
  - apply sock_writev_spec.
  - repeat constructor; done.
  - reflexivity.
  - cbn. lia.
  - exists w'. exact (conj E Hs).
Defined.
