(* ===== verification/Dispatcher.v ===== *)
(** * The dispatcher ([event_dispatcher_linux.go], [event_dispatcher_race_linux.go], [epoll_linux.go])

    One goroutine waits for events of all connections, calls their handlers under
    the lock of the dispatcher and runs the functions that were posted; any number
    of other goroutines make connections, register them, close them and post.
    Goroutines are interleaved at the level of single accesses to what they share.
    The epoll instance is a parameter: class [Epoll] has its operations and what
    the manual says of them. *)

From Stdlib Require Import ZArith Lia.
From stdpp Require Import relations functions prelude list gmap strings.
From S2P Require Import Prelude.

(** ** System calls ([epoll_linux.go]) *)

(** What an event carries: the pointer of its handler, or eight bytes. *)
Inductive edata := DPtr (h : nat) | DBytes (bs : list Z).

(** [epollWait]: the result of the system call becomes an [int]; [err] is the named
    result, which nothing but nil is ever assigned to. *)
Definition epollWait (n_ errNo : Z) : Z * option error :=
  let err : option error := None in
  let err := if errNo =? 0 then None else err in
  (i64 n_, err).

Definition epollCtl (errCode : Z) : option error :=
  if negb (errCode =? 0) then Some (Errno errCode) else None.

(** The epoll instance. *)
Class Epoll (W : Type) := {
  ep_add : Z → edata → W → Z * W;
  ep_del : Z → W → Z * W;
  ep_close : Z → W → W;
  (** [ep_wait w timeout n evs e w']: the number, the events and the errno *)
  ep_wait : W → Z → Z → list (edata * Z) → Z → W → Prop;
  registered : W → Z → edata → Prop;
  ep_add_ok fd x w w' : ep_add fd x w = (0, w') →
    ∀ fd' x', registered w' fd' x' ↔ (fd' = fd ∧ x' = x) ∨ registered w fd' x';
  ep_add_fails fd x w e w' : ep_add fd x w = (e, w') → e ≠ 0 → ∀ fd' x', registered w' fd' x' ↔ registered w fd' x';
  ep_del_ok fd w e w' : ep_del fd w = (e, w') → ∀ fd' x', registered w' fd' x' ↔ fd' ≠ fd ∧ registered w fd' x';
  ep_close_ok fd w fd' x' : registered (ep_close fd w) fd' x' → registered w fd' x';
  ep_wait_ok w t n evs e w' : ep_wait w t n evs e w' →
    (∀ fd x, registered w' fd x ↔ registered w fd x) ∧
    (∀ x ev, (x, ev) ∈ evs → ∃ fd, registered w fd x) ∧ (0 < i64 n → i64 n = Z.of_nat (length evs))
}.

(** ** Data *)

(** A connection as far as the dispatcher is concerned; [hd_ready]: [setCallback]
    has returned; [hd_fileOpen]: its file has not been closed. *)
Record handler := Handler {
  hd_fd : Z; hd_callback : option nat; hd_isClose : bool; hd_ready : bool; hd_fileOpen : bool
}.

(** [newConnection] *)
Definition new_handler (fd : Z) : handler := Handler fd None false false true.
Definition with_callback (cb : nat) (x : handler) : handler := Handler (hd_fd x) (Some cb) (hd_isClose x) (hd_ready x) (hd_fileOpen x).
Definition mark_ready (x : handler) : handler := Handler (hd_fd x) (hd_callback x) (hd_isClose x) true (hd_fileOpen x).
Definition mark_closed (x : handler) : handler := Handler (hd_fd x) (hd_callback x) true (hd_ready x) (hd_fileOpen x).
Definition close_file (x : handler) : handler := Handler (hd_fd x) (hd_callback x) (hd_isClose x) (hd_ready x) false.

(** A posted function: the release of a connection, or anything else. *)
Inductive job := JRelease (h : nat) | JFun (f : nat).
#[global] Instance job_eq_dec : EqDecision job.
Proof. solve_decision. Defined.

(** Where the loop is. *)
Inductive loop_pc :=
  | LWait | LLock (evs : list (edata * Z)) | LEvents (evs : list (edata * Z)) | LHandle (h : nat) (ev : Z) (evs : list (edata * Z))
  | LSwap | LRun (fs : list job)
  | LDelete (h : nat) (fs : list job) | LErase (h : nat) (fs : list job) | LUnlock (h : nat) (fs : list job) | LCloseFile (h : nat) (fs : list job)
  | LExit | LPanic.

(** Where another goroutine is. *)
Inductive thread_pc :=
  | TIdle | TLock (h cb : nat) | TAdd (h cb : nat) | TInsert (h : nat) | TUnlock | TPost (h : nat)
  | TShutWait | TShutLock | TShutBody.

Inductive owner := ByLoop | ByThread (i : nat).

Record dispatcher {W : Type} := Dispatcher {
  d_world : W;
  d_conns : gmap Z nat;
  d_lock : option owner;
  d_pendingLambda : list job;
  d_runningLambda : list job;
  d_isShutdown : bool;
  d_waitLoopExitWg : Z;
  d_timeout : Z;
  d_handlers : gmap nat handler;
  d_loop : loop_pc;
  d_thr : nat → thread_pc;
  (** the functions that were posted and those that have run, in order *)
  d_posted : list job;
  d_ran : list job
}.
Arguments dispatcher : clear implicits.
Arguments Dispatcher {W}.

Definition newEpollDispatcher {W} (w : W) : dispatcher W :=
  Dispatcher w ∅ None [] [] false 0 0 ∅ LWait (λ _, TIdle) [] [].

(** [runLoop]; [created] is the error of [EpollCreate1].  Its goroutine starts at [LWait]. *)
Definition runLoop {W} (created : option error) (d : dispatcher W) : option error * dispatcher W :=
  match created with
  | Some e => (Some e, d)
  | None =>
      (None, Dispatcher (d_world d) (d_conns d) (d_lock d) (d_pendingLambda d) (d_runningLambda d) (d_isShutdown d)
        (d_waitLoopExitWg d + 1) 0 (d_handlers d) LWait (d_thr d) (d_posted d) (d_ran d))
  end.

(** [defaultDispatcher] and [dispatcherInitOnce] ([event_dispatcher.go]) *)
Record global {W : Type} := Global { defaultDispatcher : option (dispatcher W); dispatcherInitOnce : bool }.
Arguments global : clear implicits.

(** A [sync.Once] counts as done also when its function panics. *)
Definition ensureDefaultDispatcherInit {W} (created : option error) : M (global W) unit :=
  g ← get_state;
  match defaultDispatcher g with
  | None => mret tt
  | Some d =>
      if dispatcherInitOnce g then mret tt
      else
        let r := runLoop created d in
        _ ← put_state (Global _ (Some r.2) true);
        match r.1 with Some _ => panic | None => mret tt end
  end.

Section setters.
Context {W : Type}.
Implicit Types s : dispatcher W.

Definition set_world (w : W) s : dispatcher W :=
  Dispatcher w (d_conns s) (d_lock s) (d_pendingLambda s) (d_runningLambda s) (d_isShutdown s) (d_waitLoopExitWg s) (d_timeout s)
    (d_handlers s) (d_loop s) (d_thr s) (d_posted s) (d_ran s).
Definition set_conns (c : gmap Z nat) s : dispatcher W :=
  Dispatcher (d_world s) c (d_lock s) (d_pendingLambda s) (d_runningLambda s) (d_isShutdown s) (d_waitLoopExitWg s) (d_timeout s)
    (d_handlers s) (d_loop s) (d_thr s) (d_posted s) (d_ran s).
Definition set_lock (o : option owner) s : dispatcher W :=
  Dispatcher (d_world s) (d_conns s) o (d_pendingLambda s) (d_runningLambda s) (d_isShutdown s) (d_waitLoopExitWg s) (d_timeout s)
    (d_handlers s) (d_loop s) (d_thr s) (d_posted s) (d_ran s).
Definition set_lambdas (p r : list job) s : dispatcher W :=
  Dispatcher (d_world s) (d_conns s) (d_lock s) p r (d_isShutdown s) (d_waitLoopExitWg s) (d_timeout s)
    (d_handlers s) (d_loop s) (d_thr s) (d_posted s) (d_ran s).
Definition set_isShutdown (b : bool) s : dispatcher W :=
  Dispatcher (d_world s) (d_conns s) (d_lock s) (d_pendingLambda s) (d_runningLambda s) b (d_waitLoopExitWg s) (d_timeout s)
    (d_handlers s) (d_loop s) (d_thr s) (d_posted s) (d_ran s).
Definition set_wg (n : Z) s : dispatcher W :=
  Dispatcher (d_world s) (d_conns s) (d_lock s) (d_pendingLambda s) (d_runningLambda s) (d_isShutdown s) n (d_timeout s)
    (d_handlers s) (d_loop s) (d_thr s) (d_posted s) (d_ran s).
Definition set_timeout (t : Z) s : dispatcher W :=
  Dispatcher (d_world s) (d_conns s) (d_lock s) (d_pendingLambda s) (d_runningLambda s) (d_isShutdown s) (d_waitLoopExitWg s) t
    (d_handlers s) (d_loop s) (d_thr s) (d_posted s) (d_ran s).
Definition set_handler (h : nat) (x : handler) s : dispatcher W :=
  Dispatcher (d_world s) (d_conns s) (d_lock s) (d_pendingLambda s) (d_runningLambda s) (d_isShutdown s) (d_waitLoopExitWg s) (d_timeout s)
    (<[h := x]> (d_handlers s)) (d_loop s) (d_thr s) (d_posted s) (d_ran s).
Definition set_loop (p : loop_pc) s : dispatcher W :=
  Dispatcher (d_world s) (d_conns s) (d_lock s) (d_pendingLambda s) (d_runningLambda s) (d_isShutdown s) (d_waitLoopExitWg s) (d_timeout s)
    (d_handlers s) p (d_thr s) (d_posted s) (d_ran s).
Definition set_thr (i : nat) (p : thread_pc) s : dispatcher W :=
  Dispatcher (d_world s) (d_conns s) (d_lock s) (d_pendingLambda s) (d_runningLambda s) (d_isShutdown s) (d_waitLoopExitWg s) (d_timeout s)
    (d_handlers s) (d_loop s) (<[i := p]> (d_thr s)) (d_posted s) (d_ran s).
Definition set_ran (l : list job) s : dispatcher W :=
  Dispatcher (d_world s) (d_conns s) (d_lock s) (d_pendingLambda s) (d_runningLambda s) (d_isShutdown s) (d_waitLoopExitWg s) (d_timeout s)
    (d_handlers s) (d_loop s) (d_thr s) (d_posted s) l.

(** [post], under [lambdaLock] *)
Definition post (f : job) s : dispatcher W :=
  Dispatcher (d_world s) (d_conns s) (d_lock s) (d_pendingLambda s ++ [f]) (d_runningLambda s) (d_isShutdown s) (d_waitLoopExitWg s) (d_timeout s)
    (d_handlers s) (d_loop s) (d_thr s) (d_posted s ++ [f]) (d_ran s).
End setters.

(** ** What an event carries, and back *)

(** The eight bytes [data] of an event, and the handler they lead to: the pointer of
    the handler itself, or with the race detector the descriptor. *)
Definition event_data (h : nat) : edata := DPtr h.
Definition event_handler (x : edata) : option nat := match x with DPtr h => Some h | DBytes _ => None end.
Definition event_data_race (fd : Z) : edata := DBytes (be_bytes 4 (u32 fd) ++ [0; 0; 0; 0]).
Definition event_handler_race (conns : gmap Z nat) (x : edata) : option nat :=
  match x with DBytes bs => conns !! be_val (take 4 bs) | DPtr _ => None end.

Section steps.
Context {W : Type} `{Epoll W} (race : bool).
Implicit Types s : dispatcher W.

Definition data_of (h : nat) (x : handler) : edata := if race then event_data_race (hd_fd x) else event_data h.
Definition target s (x : edata) : option nat := if race then event_handler_race (d_conns s) x else event_handler x.

Definition setting_up (p : thread_pc) (h : nat) : Prop := (∃ cb, p = TLock h cb) ∨ (∃ cb, p = TAdd h cb) ∨ p = TInsert h.

(** [newConnection]: the file is open, so no other open file has its descriptor. *)
Inductive newConnection_step s : dispatcher W → Prop :=
| nc_new h fd :
    d_handlers s !! h = None → 0 ≤ fd < 2 ^ 31 →
    (∀ h' x, d_handlers s !! h' = Some x → hd_fileOpen x = true → hd_fd x ≠ fd) →
    newConnection_step s (set_handler h (new_handler fd) s).

(** [setCallback], by the goroutine that made the connection *)
Inductive setCallback_step (i : nat) s : dispatcher W → Prop :=
| sc_nonblock_fails h x :
    d_thr s i = TIdle → d_handlers s !! h = Some x → setCallback_step i s s
| sc_nonblock h cb x :
    d_thr s i = TIdle → d_handlers s !! h = Some x → hd_ready x = false → (∀ j, ¬ setting_up (d_thr s j) h) →
    setCallback_step i s (set_thr i (TLock h cb) s)
| sc_lock h cb x :
    d_thr s i = TLock h cb → d_lock s = None → d_handlers s !! h = Some x →
    setCallback_step i s (set_thr i (TAdd h cb) (set_handler h (with_callback cb x) (set_lock (Some (ByThread i)) s)))
| sc_add_fails h cb x e w err :
    d_thr s i = TAdd h cb → d_handlers s !! h = Some x → ep_add (hd_fd x) (data_of h x) (d_world s) = (e, w) → epollCtl e = Some err →
    setCallback_step i s (set_thr i TUnlock (set_world w s))
| sc_add h cb x e w :
    d_thr s i = TAdd h cb → d_handlers s !! h = Some x → ep_add (hd_fd x) (data_of h x) (d_world s) = (e, w) → epollCtl e = None →
    setCallback_step i s (set_thr i (TInsert h) (set_world w s))
| sc_insert h x :
    d_thr s i = TInsert h → d_handlers s !! h = Some x →
    setCallback_step i s (set_thr i TUnlock (set_handler h (mark_ready x) (set_conns (<[hd_fd x := h]> (d_conns s)) s)))
| sc_unlock :
    d_thr s i = TUnlock → setCallback_step i s (set_thr i TIdle (set_lock None s)).

Inductive post_step (i : nat) s : dispatcher W → Prop :=
| po_post f : d_thr s i = TIdle → post_step i s (post (JFun f) s).

(** [deferredClose]; a connection is closed by whoever has it, which is nobody before
    [setCallback] has registered it. *)
Inductive deferredClose_step (i : nat) s : dispatcher W → Prop :=
| dc_cas h x :
    d_thr s i = TIdle → d_handlers s !! h = Some x → hd_ready x = true → hd_isClose x = false →
    deferredClose_step i s (set_thr i (TPost h) (set_handler h (mark_closed x) s))
| dc_closed h x :
    d_thr s i = TIdle → d_handlers s !! h = Some x → hd_isClose x = true → deferredClose_step i s s
| dc_post h :
    d_thr s i = TPost h → deferredClose_step i s (set_thr i TIdle (post (JRelease h) s)).

(** The goroutine of [runLoop].  What [handleEvent] and its callbacks do to the
    dispatcher (posting, closing) is done by the other goroutines meanwhile. *)
Inductive loop_step s : dispatcher W → Prop :=
| lp_fails n evs e w k err :
    d_loop s = LWait → ep_wait (d_world s) (d_timeout s) n evs e w → epollWait n e = (k, Some err) →
    loop_step s (set_loop LExit (set_wg (d_waitLoopExitWg s - 1) (set_world w s)))
| lp_idle n evs e w k :
    d_loop s = LWait → ep_wait (d_world s) (d_timeout s) n evs e w → epollWait n e = (k, None) → k ≤ 0 →
    loop_step s (set_loop LSwap (set_timeout 1000 (set_world w s)))
| lp_events n evs e w k :
    d_loop s = LWait → ep_wait (d_world s) (d_timeout s) n evs e w → epollWait n e = (k, None) → 0 < k →
    loop_step s (set_loop (LLock evs) (set_timeout 0 (set_world w s)))
| lp_lock evs :
    d_loop s = LLock evs → d_lock s = None → loop_step s (set_loop (LEvents evs) (set_lock (Some ByLoop) s))
| lp_handle x ev evs h :
    d_loop s = LEvents ((x, ev) :: evs) → target s x = Some h → loop_step s (set_loop (LHandle h ev evs) s)
| lp_nil x ev evs :
    d_loop s = LEvents ((x, ev) :: evs) → target s x = None → loop_step s (set_loop LPanic s)
| lp_handled h ev evs :
    d_loop s = LHandle h ev evs → loop_step s (set_loop (LEvents evs) s)
| lp_unlock :
    d_loop s = LEvents [] → loop_step s (set_loop LSwap (set_lock None s)).

Inductive runLambda_step s : dispatcher W → Prop :=
| rl_swap :
    d_loop s = LSwap →
    runLambda_step s (set_loop (LRun (d_pendingLambda s)) (set_lambdas (d_runningLambda s) (d_pendingLambda s) s))
| rl_shutdown f fs :
    d_loop s = LRun (f :: fs) → d_isShutdown s = true → runLambda_step s (set_loop LWait s)
| rl_fun f fs :
    d_loop s = LRun (JFun f :: fs) → d_isShutdown s = false →
    runLambda_step s (set_loop (LRun fs) (set_ran (d_ran s ++ [JFun f]) s))
| rl_end :
    d_loop s = LRun [] → runLambda_step s (set_loop LWait (set_lambdas (d_pendingLambda s) [] s)).

(** The function that [deferredClose] posts *)
Inductive release_step s : dispatcher W → Prop :=
| re_del h fs x e w :
    d_loop s = LRun (JRelease h :: fs) → d_isShutdown s = false → d_handlers s !! h = Some x →
    ep_del (hd_fd x) (d_world s) = (e, w) → release_step s (set_loop (LDelete h fs) (set_world w s))
| re_lock h fs :
    d_loop s = LDelete h fs → d_lock s = None → release_step s (set_loop (LErase h fs) (set_lock (Some ByLoop) s))
| re_erase h fs x :
    d_loop s = LErase h fs → d_handlers s !! h = Some x →
    release_step s (set_loop (LUnlock h fs) (set_conns (delete (hd_fd x) (d_conns s)) s))
| re_unlock h fs :
    d_loop s = LUnlock h fs → release_step s (set_loop (LCloseFile h fs) (set_lock None s))
| re_close h fs x :
    d_loop s = LCloseFile h fs → d_handlers s !! h = Some x →
    release_step s (set_loop (LRun fs) (set_ran (d_ran s ++ [JRelease h])
      (set_handler h (close_file x) (set_world (ep_close (hd_fd x) (d_world s)) s)))).

(** [shutdown]: the file it closes first is nil, which [Close] answers with an error. *)
Inductive shutdown_step (i : nat) s : dispatcher W → Prop :=
| sh_call : d_thr s i = TIdle → shutdown_step i s (set_thr i TShutWait s)
| sh_wait : d_thr s i = TShutWait → d_waitLoopExitWg s = 0 → shutdown_step i s (set_thr i TShutLock s)
| sh_lock :
    d_thr s i = TShutLock → d_lock s = None → shutdown_step i s (set_thr i TShutBody (set_lock (Some (ByThread i)) s))
| sh_body :
    d_thr s i = TShutBody →
    shutdown_step i s (set_thr i TIdle (set_lock None (set_isShutdown true (set_conns ∅
      (set_world (foldr ep_close (d_world s) (map_to_list (d_conns s)).*1) s))))).

Definition loop_any s s' : Prop := loop_step s s' ∨ runLambda_step s s' ∨ release_step s s'.
Definition thread_any s s' : Prop :=
  newConnection_step s s' ∨ ∃ i, setCallback_step i s s' ∨ post_step i s s' ∨ deferredClose_step i s s' ∨ shutdown_step i s s'.
Definition dstep s s' : Prop := loop_any s s' ∨ thread_any s s'.

(** From an epoll instance with nothing registered. *)
Definition dreach (w : W) s : Prop := rtc dstep (runLoop None (newEpollDispatcher w)).2 s.

(** ** The invariant: who is where *)

Definition holds_lock (p : thread_pc) : bool := match p with TAdd _ _ | TInsert _ | TUnlock | TShutBody => true | _ => false end.
Definition loop_holds_lock (p : loop_pc) : bool := match p with LEvents _ | LHandle _ _ _ | LErase _ _ | LUnlock _ _ | LPanic => true | _ => false end.
Definition in_shutdown (p : thread_pc) : bool := match p with TShutLock | TShutBody => true | _ => false end.

Record control s : Prop := {
  ct_thread : ∀ i, holds_lock (d_thr s i) = true → d_lock s = Some (ByThread i);
  ct_loop : loop_holds_lock (d_loop s) = true → d_lock s = Some ByLoop;
  ct_runs : d_loop s ≠ LExit;
  ct_wg : d_waitLoopExitWg s = 1;
  ct_up : d_isShutdown s = false;
  ct_shutdown : ∀ i, in_shutdown (d_thr s i) = false;
  ct_who : ∀ i, d_lock s = Some (ByThread i) → holds_lock (d_thr s i) = true;
  ct_who_loop : d_lock s = Some ByLoop → loop_holds_lock (d_loop s) = true
}.

Lemma thr_set i p s j : d_thr (set_thr i p s) j = if decide (i = j) then p else d_thr s j.
Proof. done. Qed.

(** Every session calls it; the loop is started once. *)
Lemma init_once created (d : dispatcher W) g' : ensureDefaultDispatcherInit created (Global _ (Some d) false) = Done (tt, g') →
  g' = Global _ (Some (runLoop None d).2) true ∧ ∀ created', ensureDefaultDispatcherInit created' g' = Done (tt, g').
Proof.
  unfold ensureDefaultDispatcherInit. destruct created; [done|]. cbn. intros [= <-]. done.
Qed.

Lemma epollWait_nil n e k err : epollWait n e ≠ (k, Some err).
Proof. unfold epollWait. by destruct (e =? 0). Qed.

(** All the steps that the dispatcher can take, without those that need the counter
    to be zero or [epollWait] to fail. *)
Ltac step_cases Hs :=
  destruct Hs as [[Hs|[Hs|Hs]]|[Hs|(i&[Hs|[Hs|[Hs|Hs]]])]]; destruct Hs;
  try match goal with H : epollWait _ _ = (_, Some _) |- _ => by apply epollWait_nil in H end.

Ltac dsimpl := cbn [d_world d_conns d_lock d_pendingLambda d_runningLambda d_isShutdown d_waitLoopExitWg d_timeout d_handlers d_loop d_thr d_posted d_ran
  set_world set_conns set_lock set_lambdas set_isShutdown set_wg set_timeout set_handler set_loop set_thr set_ran post] in *.

Ltac thr_cases := repeat match goal with
  | H : context [@insert nat thread_pc _ _ _ _ _ _] |- _ => unfold insert, fn_insert in H; case_decide; subst
  | |- context [@insert nat thread_pc _ _ _ _ _ _] => unfold insert, fn_insert; case_decide; subst
  end.

Lemma control_step s s' : control s → dstep s s' → control s'.
Proof.
  intros C Hs. pose proof C as []. step_cases Hs; try done; try congruence;
    constructor; dsimpl; intros; thr_cases; try done; eauto.
  all: repeat match goal with
    | H : holds_lock (d_thr _ ?j) = true |- _ => apply ct_thread0 in H
    | H : d_thr _ ?j = _ |- _ => pose proof (ct_thread0 j); pose proof (ct_shutdown0 j); pose proof (ct_who0 j); rewrite H in *; clear H
    | H : d_loop _ = _ |- _ => rewrite H in *; clear H
    end; cbn in *; repeat match goal with H : true = true → _ |- _ => specialize (H eq_refl) | H : loop_holds_lock _ = true |- _ => apply ct_loop0 in H end;
    first [congruence | by auto | exfalso; intuition congruence].
Qed.

(** ** The invariant: posted functions *)

(** The functions the loop has still to run in this round. *)
Definition loop_jobs (p : loop_pc) : list job :=
  match p with
  | LRun fs => fs
  | LDelete h fs | LErase h fs | LUnlock h fs | LCloseFile h fs => JRelease h :: fs
  | _ => []
  end.
Definition in_lambda (p : loop_pc) : bool :=
  match p with LRun _ | LDelete _ _ | LErase _ _ | LUnlock _ _ | LCloseFile _ _ => true | _ => false end.

Definition release_of (j : job) : option nat := match j with JRelease h => Some h | JFun _ => None end.
Definition releases (l : list job) : list nat := omap release_of l.

Lemma releases_app l k : releases (l ++ k) = releases l ++ releases k.
Proof. apply omap_app. Qed.
Lemma elem_releases l h : h ∈ releases l ↔ JRelease h ∈ l.
Proof.
  unfold releases. rewrite list_elem_of_omap. split; [intros ([]&?&[= ->]); done|]. intros ?. by exists (JRelease h).
Qed.

Definition closed_handler s (h : nat) : Prop := ∃ x, d_handlers s !! h = Some x ∧ hd_isClose x = true.

(** Functions run in the order in which they were posted, none twice. *)
Record order s : Prop := {
  or_posted : d_posted s = d_ran s ++ loop_jobs (d_loop s) ++ d_pendingLambda s;
  or_running : in_lambda (d_loop s) = false → d_runningLambda s = []
}.

Lemma order_step s s' : control s → order s → dstep s s' → order s'.
Proof.
  intros C J Hs. pose proof J as [Ho Hr]. pose proof (ct_wg s C). pose proof (ct_up s C).
  step_cases Hs; try done; try congruence;
    try match goal with HL : d_loop s = _ |- _ => rewrite HL in Ho, Hr end; cbn in Ho, Hr; constructor; dsimpl; cbn; intros; auto.
  all: rewrite ?Ho, ?Hr, <- ?app_assoc, ?app_nil_r by done; cbn; rewrite ?app_nil_r; done.
Qed.

(** A connection is released once, after it was closed. *)
Record released s : Prop := {
  jb_nodup : NoDup (releases (d_posted s));
  jb_posting : ∀ i h, d_thr s i = TPost h → h ∉ releases (d_posted s) ∧ closed_handler s h;
  jb_one : ∀ i j h, d_thr s i = TPost h → d_thr s j = TPost h → i = j;
  jb_posted : ∀ h, h ∈ releases (d_posted s) → closed_handler s h;
  jb_ready : ∀ h x, d_handlers s !! h = Some x → hd_isClose x = true → hd_ready x = true;
  jb_open : ∀ h x, d_handlers s !! h = Some x → hd_fileOpen x = false → h ∈ releases (d_ran s)
}.

(** Handlers only get more closed. *)
Lemma closed_handler_set s s' h0 y0 h : d_handlers s' = <[h0 := y0]> (d_handlers s) →
  (∀ x0, d_handlers s !! h0 = Some x0 → hd_isClose x0 = true → hd_isClose y0 = true) → closed_handler s h → closed_handler s' h.
Proof.
  intros E Hy (x&Hx&Hc). unfold closed_handler. rewrite E. destruct (decide (h0 = h)) as [->|Hne].
  - rewrite lookup_insert_eq. eauto.
  - rewrite lookup_insert_ne by done. eauto.
Qed.

Lemma released_step s s' : control s → released s → dstep s s' → released s'.
Proof.
  intros C J Hs. pose proof J as []. pose proof (ct_wg s C). pose proof (ct_shutdown s C). pose proof (ct_up s C).
  step_cases Hs; try done; try congruence; constructor; dsimpl; intros; thr_cases; try done; eauto.
  all: rewrite ?releases_app in *; cbn in *; rewrite ?app_nil_r in *.
  all: repeat match goal with
    | H : <[_ := _]> _ !! _ = Some _ |- _ => apply lookup_insert_Some in H as [[? ?]|[? ?]]; subst; cbn in *
    | H : TPost _ = TPost _ |- _ => injection H as <-
    | H : _ ∈ _ ++ _ |- _ => apply elem_of_app in H as [H|H%list_elem_of_singleton]; subst end; try congruence; eauto.
  all: try (eapply closed_handler_set; [reflexivity| |]; [cbn; congruence|by eauto]).
  all: try match goal with H : d_thr _ _ = TPost _ |- _ => destruct (jb_posting0 _ _ H) end.
  all: try (split; [done|eapply closed_handler_set; [reflexivity| |]; [cbn; congruence|by eauto]]).
  - set_solver.
  - set_solver.
  - split; [|exists (mark_closed x); split; [apply lookup_insert_eq|done]]. intros Hp. destruct (jb_posted0 _ Hp) as (y&Hy&Hc). congruence.
  - exfalso. match goal with H : closed_handler _ _ |- _ => destruct H as (y&Hy&Hc) end. congruence.
  - exfalso. match goal with H : closed_handler _ _ |- _ => destruct H as (y&Hy&Hc) end. congruence.
  - apply NoDup_app. split_and!; [done| |apply NoDup_singleton]. set_solver.
  - split; [|done]. rewrite not_elem_of_app. split; [done|]. intros ->%list_elem_of_singleton. eauto.
  - done.
Qed.

(** ** The invariant: what is registered *)

Definition loop_events (p : loop_pc) : list (edata * Z) := match p with LLock evs | LEvents evs | LHandle _ _ evs => evs | _ => [] end.
(** The connection that the loop has taken out of the epoll instance, and out of the map. *)
Definition deregistered (p : loop_pc) : option nat :=
  match p with LDelete h _ | LErase h _ | LUnlock h _ | LCloseFile h _ => Some h | _ => None end.
Definition erased (p : loop_pc) : option nat := match p with LUnlock h _ | LCloseFile h _ => Some h | _ => None end.

(** The data belongs to a connection with an open file that is in the map, or is about to be. *)
Definition listed s (h : nat) (fd : Z) : Prop := d_conns s !! fd = Some h ∨ ∃ i, d_thr s i = TInsert h.
Definition belongs s (fd : Z) (y : edata) : Prop :=
  ∃ h x, d_handlers s !! h = Some x ∧ hd_fd x = fd ∧ hd_fileOpen x = true ∧ y = data_of h x ∧ listed s h fd.

Record regs s : Prop := {
  rg_fd : ∀ h x, d_handlers s !! h = Some x → 0 ≤ hd_fd x < 2 ^ 31;
  rg_fds : ∀ h h' x x', d_handlers s !! h = Some x → d_handlers s !! h' = Some x' → hd_fileOpen x = true → hd_fileOpen x' = true →
    hd_fd x = hd_fd x' → h = h';
  rg_setup : ∀ i h, setting_up (d_thr s i) h → ∃ x, d_handlers s !! h = Some x ∧ hd_ready x = false;
  rg_one : ∀ i j h, setting_up (d_thr s i) h → setting_up (d_thr s j) h → i = j;
  rg_conns : ∀ fd h, d_conns s !! fd = Some h → ∃ x, d_handlers s !! h = Some x ∧ hd_fd x = fd ∧ hd_fileOpen x = true;
  rg_reg : ∀ fd y, registered (d_world s) fd y → belongs s fd y;
  rg_events : ∀ y ev, (y, ev) ∈ loop_events (d_loop s) → ∃ fd, belongs s fd y;
  rg_gone : ∀ h x y, deregistered (d_loop s) = Some h → d_handlers s !! h = Some x → ¬ registered (d_world s) (hd_fd x) y;
  rg_erased : ∀ h x, erased (d_loop s) = Some h → d_handlers s !! h = Some x → d_conns s !! hd_fd x = None
}.

Definition hview (x : handler) : Z * bool * bool := (hd_fd x, hd_ready x, hd_fileOpen x).

Lemma hview_some (A B : gmap nat handler) h x : (hview <$> B !! h) = (hview <$> A !! h) → B !! h = Some x →
  ∃ x0, A !! h = Some x0 ∧ hd_fd x0 = hd_fd x ∧ hd_ready x0 = hd_ready x ∧ hd_fileOpen x0 = hd_fileOpen x.
Proof. intros E Hx. rewrite Hx in E. destruct (A !! h) as [x0|]; [|done]. injection E as E1 E2 E3. by exists x0. Qed.

(** Steps that open, close and register nothing. *)
Lemma regs_frame s s' : regs s → (∀ h, (hview <$> d_handlers s' !! h) = (hview <$> d_handlers s !! h)) →
  (∀ fd h, d_conns s' !! fd = Some h → d_conns s !! fd = Some h) →
  (∀ fd h, d_conns s !! fd = Some h → d_conns s' !! fd = Some h ∨ ((∀ y, ¬ registered (d_world s') fd y) ∧ loop_events (d_loop s') = [])) →
  (∀ fd y, registered (d_world s') fd y → registered (d_world s) fd y) →
  (∀ i h, setting_up (d_thr s' i) h → setting_up (d_thr s i) h) → (∀ i h, d_thr s i = TInsert h → d_thr s' i = TInsert h) →
  (∀ y ev, (y, ev) ∈ loop_events (d_loop s') → (y, ev) ∈ loop_events (d_loop s) ∨ ∃ fd, registered (d_world s) fd y) →
  (∀ h x y, deregistered (d_loop s') = Some h → d_handlers s !! h = Some x → ¬ registered (d_world s') (hd_fd x) y) →
  (∀ h x, erased (d_loop s') = Some h → d_handlers s !! h = Some x → d_conns s' !! hd_fd x = None) → regs s'.
Proof.
  intros [] Hh Hc Hk Hw Hs Hi He Hd Hz.
  assert (∀ fd y, belongs s fd y → registered (d_world s') fd y ∨ loop_events (d_loop s') ≠ [] → belongs s' fd y) as Hb.
  { intros fd y (h&x&Hx&Hfd&Ho&Hy&Hl) Hin. destruct (hview_some (d_handlers s') (d_handlers s) h x (eq_sym (Hh h)) Hx) as (x'&Hx'&E1&E2&E3).
    exists h, x'. split_and!; [done|congruence|congruence| |].
    - rewrite Hy. unfold data_of. by rewrite E1.
    - destruct Hl as [Hl|[i Hl]]; [|right; exists i; by apply Hi]. destruct (Hk fd h Hl) as [?|[Hno Hev]]; [by left|]. destruct Hin; [by destruct (Hno y)|done]. }
  constructor.
  - intros h x Hx. destruct (hview_some _ _ _ _ (Hh h) Hx) as (x0&H0&E1&_). rewrite <- E1. eauto.
  - intros h h' x x' Hx Hx' Ho Ho' E. destruct (hview_some _ _ _ _ (Hh h) Hx) as (x0&H0&E1&_&E3), (hview_some _ _ _ _ (Hh h') Hx') as (x1&H1&F1&_&F3).
    apply (rg_fds0 h h' x0 x1); congruence.
  - intros i h Hi'. destruct (rg_setup0 i h (Hs i h Hi')) as (x&Hx&Hr).
    destruct (hview_some (d_handlers s') (d_handlers s) h x (eq_sym (Hh h)) Hx) as (x'&Hx'&_&E2&_). exists x'. split; [done|congruence].
  - eauto.
  - intros fd h Hl%Hc. destruct (rg_conns0 fd h Hl) as (x&Hx&E&Ho).
    destruct (hview_some (d_handlers s') (d_handlers s) h x (eq_sym (Hh h)) Hx) as (x'&Hx'&E1&_&E3). exists x'. split_and!; [done|congruence|congruence].
  - intros fd y Hr. apply Hb; [apply rg_reg0, Hw, Hr|by left].
  - intros y ev Hin. assert (loop_events (d_loop s') ≠ []) as Hne by (intros E; rewrite E in Hin; by apply not_elem_of_nil in Hin).
    destruct (He y ev Hin) as [Ho|[fd Hr]]; [destruct (rg_events0 y ev Ho) as [fd Hf]; exists fd; apply Hb; auto|exists fd; apply Hb; auto].
  - intros h x y Hl Hx. destruct (hview_some _ _ _ _ (Hh h) Hx) as (x0&H0&E1&_). rewrite <- E1. eauto.
  - intros h x Hl Hx. destruct (hview_some _ _ _ _ (Hh h) Hx) as (x0&H0&E1&_). rewrite <- E1. eauto.
Qed.

Lemma hview_set (A : gmap nat handler) h0 x0 y0 h : A !! h0 = Some x0 → hview y0 = hview x0 → (hview <$> <[h0 := y0]> A !! h) = (hview <$> A !! h).
Proof.
  intros H0 E. destruct (decide (h0 = h)) as [->|Hne]; [rewrite lookup_insert_eq, H0; cbn; by rewrite E|by rewrite lookup_insert_ne].
Qed.

Lemma job_open s h x : order s → released s → JRelease h ∈ loop_jobs (d_loop s) → d_handlers s !! h = Some x →
  hd_fileOpen x = true ∧ hd_ready x = true.
Proof.
  intros [Ho _] [] Hj Hx. rewrite Ho, !releases_app in jb_nodup0. apply elem_releases in Hj.
  destruct (jb_posted0 h) as (y&Hy&Hc); [rewrite Ho, !releases_app; set_solver|]. split.
  - destruct (hd_fileOpen x) eqn:E; [done|]. apply (jb_open0 h x Hx) in E. apply NoDup_app in jb_nodup0 as (_&Hd&_). exfalso. apply (Hd h E). set_solver.
  - eapply jb_ready0; [done|]. congruence.
Qed.

Lemma erased_deregistered p h : erased p = Some h → deregistered p = Some h.
Proof. by destruct p. Qed.

Lemma deregistered_handler s h : order s → released s → deregistered (d_loop s) = Some h →
  ∃ x, d_handlers s !! h = Some x ∧ hd_fileOpen x = true ∧ hd_ready x = true.
Proof.
  intros O J Hl. assert (JRelease h ∈ loop_jobs (d_loop s)) as Hj by (destruct (d_loop s); try done; injection Hl as <-; by left).
  destruct (jb_posted s J h) as (x&Hx&_); [apply elem_releases; rewrite (or_posted s O); set_solver|].
  exists x. split; [done|]. by eapply job_open.
Qed.

Lemma setup_open s i h x : order s → released s → regs s → setting_up (d_thr s i) h → d_handlers s !! h = Some x →
  hd_fileOpen x = true ∧ hd_ready x = false.
Proof.
  intros [Ho _] [] [] Hi Hx. destruct (rg_setup0 i h Hi) as (y&Hy&Hr). rewrite Hx in Hy. injection Hy as <-. split; [|done].
  destruct (hd_fileOpen x) eqn:E; [done|]. apply (jb_open0 h x Hx) in E. destruct (jb_posted0 h) as (y&Hy&Hc); [rewrite Ho, releases_app; set_solver|].
  rewrite Hx in Hy. injection Hy as <-. rewrite (jb_ready0 h x Hx Hc) in Hr. done.
Qed.

(** Steps of the loop, and of the others, that only move on. *)
Lemma regs_loop s s' : regs s → d_handlers s' = d_handlers s → d_conns s' = d_conns s → d_thr s' = d_thr s →
  (∀ fd y, registered (d_world s') fd y → registered (d_world s) fd y) →
  (∀ y ev, (y, ev) ∈ loop_events (d_loop s') → (y, ev) ∈ loop_events (d_loop s) ∨ ∃ fd, registered (d_world s) fd y) →
  (∀ h, deregistered (d_loop s') = Some h → deregistered (d_loop s) = Some h) →
  (∀ h, erased (d_loop s') = Some h → erased (d_loop s) = Some h) → regs s'.
Proof.
  intros R Eh Ec Et Hw He Hd Hz. apply (regs_frame s s' R); rewrite ?Eh, ?Ec, ?Et; auto.
  - intros h x y Hl%Hd Hx Hr%Hw. by eapply (rg_gone s R).
  - intros h x Hl%Hz Hx. by eapply (rg_erased s R).
Qed.

Lemma regs_thread s s' : regs s → d_world s' = d_world s → d_conns s' = d_conns s → d_loop s' = d_loop s →
  (∀ h, (hview <$> d_handlers s' !! h) = (hview <$> d_handlers s !! h)) →
  (∀ i h, setting_up (d_thr s' i) h → setting_up (d_thr s i) h) → (∀ i h, d_thr s i = TInsert h → d_thr s' i = TInsert h) → regs s'.
Proof.
  intros R Ew Ec El Hh Hs Hi. apply (regs_frame s s' R); rewrite ?Ew, ?Ec, ?El; auto; apply R.
Qed.

(** A goroutine that goes from one place to another outside of [setCallback]. *)
Lemma regs_move i p s s' : regs s → d_world s' = d_world s → d_conns s' = d_conns s → d_loop s' = d_loop s →
  (∀ h, (hview <$> d_handlers s' !! h) = (hview <$> d_handlers s !! h)) → d_thr s' = <[i := p]> (d_thr s) →
  (∀ h, setting_up p h → setting_up (d_thr s i) h) → (∀ h, d_thr s i ≠ TInsert h) → regs s'.
Proof.
  intros R Ew Ec El Hh Et Hp Hn. apply (regs_thread s s' R); [done..|rewrite Et|rewrite Et]; intros j h Hj; thr_cases; auto. by destruct (Hn h).
Qed.

Lemma setting_up_iff p h : setting_up p h ↔ match p with TLock h' _ | TAdd h' _ | TInsert h' => h' = h | _ => False end.
Proof. unfold setting_up. destruct p; naive_solver. Qed.

(** Close a goal [regs s'] where the loop only moved on. *)
Ltac loop_moves R := apply (regs_loop _ _ R); [done|done|done|..]; dsimpl;
  try match goal with HL : d_loop _ = _ |- _ => rewrite HL end; cbn [loop_events deregistered erased]; try done;
  try (by intros ? ? ?%not_elem_of_nil).

Lemma regs_loop_step s s' : regs s → loop_step s s' → regs s'.
Proof.
  intros R Hs. destruct Hs; try (by apply epollWait_nil in H2).
  - loop_moves R. intros fd y. apply (ep_wait_ok _ _ _ _ _ _ H1).
  - loop_moves R; [intros fd y; apply (ep_wait_ok _ _ _ _ _ _ H1)|]. intros y ev Hin. right. by eapply (ep_wait_ok _ _ _ _ _ _ H1).
  - loop_moves R. auto.
  - loop_moves R. intros y e Hin. left. by right.
  - loop_moves R.
  - loop_moves R. auto.
  - loop_moves R.
Qed.

Lemma regs_runLambda_step s s' : regs s → runLambda_step s s' → regs s'.
Proof. intros R Hs. destruct Hs; loop_moves R. Qed.

Lemma regs_release_step s s' : order s → released s → regs s → release_step s s' → regs s'.
Proof.
  intros O J R Hs. pose proof R as []. destruct Hs.
  - apply (regs_frame _ _ R); dsimpl; cbn; try done; [auto|intros fd y Hy; by eapply (ep_del_ok _ _ _ _ H3)|..].
    + by intros ? ? ?%not_elem_of_nil.
    + intros h' x' y [= <-] Hx' Hr. rewrite H2 in Hx'. injection Hx' as <-. by eapply (ep_del_ok _ _ _ _ H3) in Hr as [? _].
  - loop_moves R.
  - apply (regs_frame _ _ R); dsimpl; cbn; try done.
    + intros fd h' [_ Hl]%lookup_delete_Some. done.
    + intros fd h' Hl. destruct (decide (fd = hd_fd x)) as [->|Hne]; [right|left; by rewrite lookup_delete_ne].
      split; [|done]. intros y. apply (rg_gone0 h x y); [by rewrite H0|done].
    + by intros ? ? ?%not_elem_of_nil.
    + intros h' x' y [= <-] Hx'. apply (rg_gone0 h); [by rewrite H0|done].
    + intros h' x' [= <-] Hx'. rewrite H1 in Hx'. injection Hx' as <-. apply lookup_delete_eq.
  - loop_moves R.
  - pose proof (rg_erased0 h x ltac:(by rewrite H0) H1) as Hcn. pose proof (rg_gone0 h x) as Hgone. rewrite H0 in Hgone.
    assert (∀ h' x', <[h := close_file x]> (d_handlers s) !! h' = Some x' → hd_fileOpen x' = true → h' ≠ h ∧ d_handlers s !! h' = Some x') as Hother.
    { intros h' x' [[<- <-]|[? ?]]%lookup_insert_Some Ho; [done|auto]. }
    constructor; dsimpl; cbn.
    + intros h' x' [[<- <-]|[? ?]]%lookup_insert_Some; eauto. by apply (rg_fd0 h x).
    + intros h1 h2 x1 x2 H2 H3 Ho1 Ho2. apply Hother in H2 as [_ H2]; [|done]. apply Hother in H3 as [_ H3]; [|done]. eauto.
    + intros i h' Hi. destruct (rg_setup0 i h' Hi) as (y&Hy&Hr). destruct (decide (h = h')) as [->|Hne].
      * exfalso. destruct (job_open s h' x O J) as [_ Hr']; [rewrite H0; by left|done|]. congruence.
      * exists y. by rewrite lookup_insert_ne.
    + done.
    + intros fd h' Hl. destruct (rg_conns0 fd h' Hl) as (y&Hy&E&Ho). exists y. rewrite lookup_insert_ne; [done|]. intros ->. congruence.
    + intros fd y Hr%ep_close_ok. pose proof Hr as (h'&x'&Hx'&E&Ho&Hy&Hl)%rg_reg0. exists h', x'. dsimpl. rewrite lookup_insert_ne; [done|].
      intros ->. rewrite H1 in Hx'. injection Hx' as <-. subst fd. by apply (Hgone y).
    + by intros ? ? ?%not_elem_of_nil.
    + done.
    + done.
Qed.

Lemma regs_newConnection_step s s' : order s → released s → regs s → newConnection_step s s' → regs s'.
Proof.
  intros O J R Hs. pose proof R as []. destruct Hs as [h fd Hnone Hfd Hdist].
  assert (∀ h' x', d_handlers s !! h' = Some x' → <[h := new_handler fd]> (d_handlers s) !! h' = Some x') as Hkeep.
  { intros h' x' Hx'. rewrite lookup_insert_ne; [done|]. congruence. }
  constructor; dsimpl.
  - intros h' x' [[<- <-]|[? ?]]%lookup_insert_Some; eauto.
  - intros h1 h2 x1 x2 [[<- <-]|[? ?]]%lookup_insert_Some [[<- <-]|[? ?]]%lookup_insert_Some Ho1 Ho2 E; [done| | |by eauto].
    + exfalso. by apply (Hdist h2 x2).
    + exfalso. by apply (Hdist h1 x1).
  - intros i h' Hi. destruct (rg_setup0 i h' Hi) as (x&Hx&Hr). eauto.
  - done.
  - intros fd' h' Hl. destruct (rg_conns0 fd' h' Hl) as (x&Hx&?). eauto.
  - intros fd' y (h'&x&Hx&Hrest)%rg_reg0. exists h', x. split; [by apply Hkeep|exact Hrest].
  - intros y ev (fd'&h'&x&Hx&Hrest)%rg_events0. exists fd', h', x. split; [by apply Hkeep|exact Hrest].
  - intros h' x y Hl [[<- <-]|[? ?]]%lookup_insert_Some; [|by eauto]. destruct (deregistered_handler s h O J Hl) as (x&Hx&_). congruence.
  - intros h' x Hl [[<- <-]|[? ?]]%lookup_insert_Some; [|by eauto]. apply erased_deregistered in Hl. destruct (deregistered_handler s h O J Hl) as (x&Hx&_). congruence.
Qed.

(** A connection that is being registered does not have the descriptor of the one
    that is being released. *)
Lemma setup_other_fd s i h x h' x' : order s → released s → regs s → setting_up (d_thr s i) h → d_handlers s !! h = Some x →
  deregistered (d_loop s) = Some h' → d_handlers s !! h' = Some x' → hd_fd x' ≠ hd_fd x.
Proof.
  intros O J R Hi Hx Hl Hx' E. destruct (setup_open s i h x O J R Hi Hx) as [Ho Hr]. destruct (deregistered_handler s h' O J Hl) as (y&Hy&Ho'&Hr').
  rewrite Hx' in Hy. injection Hy as <-. pose proof (rg_fds s R h' h x' x Hx' Hx Ho' Ho E) as ->. congruence.
Qed.

Lemma regs_add i s h cb x e w : order s → released s → regs s → d_thr s i = TAdd h cb → d_handlers s !! h = Some x →
  ep_add (hd_fd x) (data_of h x) (d_world s) = (e, w) → epollCtl e = None → regs (set_thr i (TInsert h) (set_world w s)).
Proof.
  intros O J R Hi Hx E Ee. pose proof R as [].
  assert (e = 0) as -> by (unfold epollCtl in Ee; destruct (e =? 0) eqn:?; [lia|done]). pose proof (ep_add_ok _ _ _ _ E) as Hreg.
  assert (setting_up (d_thr s i) h) as Hset by (by rewrite Hi, setting_up_iff). pose proof (setup_open s i h x O J R Hset Hx) as [Ho Hr].
  assert (∀ fd y, belongs s fd y → belongs (set_thr i (TInsert h) (set_world w s)) fd y) as Hb.
  { intros fd y (h'&x'&Hx'&E'&Ho'&Hy&[Hc|[j Hj]]); exists h', x'; split_and!; try done; [by left|right]. exists j. dsimpl. thr_cases; [congruence|done]. }
  constructor; dsimpl; try done.
  - intros j h' Hj. thr_cases; [|eauto]. rewrite setting_up_iff in Hj; cbn in Hj; subst h'. eauto.
  - intros j k h' Hj Hk. thr_cases; [done| | |by eauto].
    + rewrite setting_up_iff in Hk; cbn in Hk; subst h'. eauto.
    + rewrite setting_up_iff in Hj; cbn in Hj; subst h'. eauto.
  - intros fd y [[-> ->]|Hy]%Hreg; [|by apply Hb, rg_reg0]. exists h, x. split_and!; try done. right. exists i. dsimpl. by thr_cases.
  - intros y ev (fd&Hy)%rg_events0. exists fd. by apply Hb.
  - intros h' x' y Hl Hx' [[E' _]|Hy]%Hreg; [|by eapply rg_gone0]. by apply (setup_other_fd s i h x h' x' O J R).
Qed.

Lemma regs_insert i s h x : order s → released s → regs s → d_thr s i = TInsert h → d_handlers s !! h = Some x →
  regs (set_thr i TUnlock (set_handler h (mark_ready x) (set_conns (<[hd_fd x := h]> (d_conns s)) s))).
Proof.
  intros O J R Hi Hx. pose proof R as []. set (s' := set_thr _ _ _).
  assert (setting_up (d_thr s i) h) as Hset by (by rewrite Hi, setting_up_iff). pose proof (setup_open s i h x O J R Hset Hx) as [Ho Hr].
  assert (∀ h' y, d_handlers s' !! h' = Some y → ∃ y0, d_handlers s !! h' = Some y0 ∧ hd_fd y0 = hd_fd y ∧ hd_fileOpen y0 = hd_fileOpen y) as Hback.
  { unfold s'. dsimpl. intros h' y [[<- <-]|[? ?]]%lookup_insert_Some; eauto. }
  assert (∀ h' y, d_handlers s !! h' = Some y → ∃ y', d_handlers s' !! h' = Some y' ∧ hd_fd y' = hd_fd y ∧ hd_fileOpen y' = hd_fileOpen y) as Hfwd.
  { intros h' y Hy. unfold s'. dsimpl. destruct (decide (h = h')) as [<-|Hne]; [rewrite lookup_insert_eq|rewrite lookup_insert_ne by done; eauto].
    rewrite Hx in Hy. injection Hy as <-. eexists. split; [done|]. done. }
  assert (∀ fd y, belongs s fd y → belongs s' fd y) as Hb.
  { intros fd y (h'&x'&Hx'&E'&Ho'&Hy&Hl). destruct (Hfwd h' x' Hx') as (y'&Hy'&Ef&Eo). exists h', y'. split_and!; [done|congruence|congruence| |].
    - rewrite Hy. unfold data_of. by rewrite Ef.
    - destruct (decide (fd = hd_fd x)) as [->|Hne].
      + left. unfold s'. dsimpl. rewrite lookup_insert_eq. f_equal. symmetry. by apply (rg_fds0 h' h x' x).
      + destruct Hl as [Hl|[j Hj]]; [left; unfold s'; dsimpl; by rewrite lookup_insert_ne|right]. exists j. unfold s'. dsimpl. thr_cases; [|done].
        rewrite Hi in Hj. injection Hj as <-. congruence. }
  constructor.
  - intros h' y Hy. destruct (Hback h' y Hy) as (y0&H0&Ef&_). rewrite <- Ef. eauto.
  - intros h1 h2 y1 y2 H1 H2 Ho1 Ho2 E. destruct (Hback h1 y1 H1) as (z1&Hz1&F1&G1), (Hback h2 y2 H2) as (z2&Hz2&F2&G2). apply (rg_fds0 h1 h2 z1 z2); congruence.
  - intros j h' Hj. unfold s' in *. dsimpl. thr_cases; [by rewrite setting_up_iff in Hj|]. destruct (rg_setup0 j h' Hj) as (y&Hy&Hry).
    exists y. rewrite lookup_insert_ne; [done|]. intros ->. by destruct (rg_one0 i j h' Hset Hj).
  - intros j k h' Hj Hk. unfold s' in *. dsimpl. thr_cases; try done; [by rewrite setting_up_iff in Hk|by rewrite setting_up_iff in Hj|eauto].
  - intros fd h' Hl. unfold s' in Hl. dsimpl. apply lookup_insert_Some in Hl as [[<- <-]|[? Hc]]; [destruct (Hfwd h x Hx) as (y'&?&?&?); exists y'; split_and!; congruence|].
    destruct (rg_conns0 fd h' Hc) as (y&Hy&E&Hoy). destruct (Hfwd h' y Hy) as (y'&?&?&?). exists y'. split_and!; congruence.
  - intros fd y Hy. by apply Hb, rg_reg0.
  - intros y ev (fd&Hy)%rg_events0. exists fd. by apply Hb.
  - intros h' y z Hl Hy. destruct (Hback h' y Hy) as (y0&H0&Ef&_). rewrite <- Ef. by eapply rg_gone0.
  - intros h' y Hl Hy. destruct (Hback h' y Hy) as (y0&H0&Ef&_). rewrite <- Ef. unfold s'. dsimpl.
    rewrite lookup_insert_ne; [by eapply rg_erased0|]. apply not_eq_sym. apply (setup_other_fd s i h x h' y0 O J R Hset Hx); [by apply erased_deregistered|done].
Qed.

Lemma regs_setCallback_step i s s' : control s → order s → released s → regs s → setCallback_step i s s' → regs s'.
Proof.
  intros C O J R Hs. pose proof R as []. destruct Hs as [| h cb x Hi Hx Hr Hno | h cb x Hi Hl Hx | h cb x e w err Hi Hx E Ee | h cb x e w Hi Hx E Ee | h x Hi Hx | Hi].
  - done.
  - constructor; dsimpl; try done.
    + intros j h' Hj. thr_cases; [|eauto]. rewrite setting_up_iff in Hj; cbn in Hj; subst h'. eauto.
    + intros j k h' Hj Hk. thr_cases; [done| | |by eauto]; exfalso.
      * rewrite setting_up_iff in Hk; cbn in Hk; subst h'. by apply (Hno j).
      * rewrite setting_up_iff in Hj; cbn in Hj; subst h'. by apply (Hno k).
    + intros fd y (h'&x'&Hx'&E&Ho&Hy&[Hc|[j Hj]])%rg_reg0; exists h', x'; split_and!; try done; [by left|right]. exists j. dsimpl. thr_cases; [congruence|done].
    + intros y ev (fd&h'&x'&Hx'&E&Ho&Hy&[Hc|[j Hj]])%rg_events0; exists fd, h', x'; split_and!; try done; [by left|right]. exists j. dsimpl. thr_cases; [congruence|done].
  - eapply (regs_move i); try done; dsimpl; [intros h'; by eapply hview_set|..]; rewrite Hi; [|done].
    intros h'. by rewrite !setting_up_iff.
  - assert (e ≠ 0) as He by (intros ->; done). pose proof (ep_add_fails _ _ _ _ _ E He) as Hreg.
    apply (regs_frame _ _ R); dsimpl; try done; [auto|by intros fd y ?%Hreg|..].
    + intros j h' Hj. thr_cases; [|done]. by apply setting_up_iff in Hj.
    + intros j h' Hj. thr_cases; [congruence|done].
    + auto.
    + intros h' x' y Hl Hx' Hy%Hreg. by eapply rg_gone0.
  - by eapply regs_add.
  - by eapply regs_insert.
  - eapply (regs_move i); try done; dsimpl; rewrite ?Hi; [|done]. intros h'. by rewrite !setting_up_iff.
Qed.

Lemma regs_step s s' : control s → order s → released s → regs s → dstep s s' → regs s'.
Proof.
  intros C O J R [[Hs|[Hs|Hs]]|[Hs|(i&[Hs|[Hs|[Hs|Hs]]])]].
  - by eapply regs_loop_step.
  - by eapply regs_runLambda_step.
  - by eapply regs_release_step.
  - by eapply regs_newConnection_step.
  - by eapply regs_setCallback_step.
  - destruct Hs. by apply (regs_thread _ _ R).
  - destruct Hs as [h x Hi Hx _ _|h x Hi Hx Hc|h Hi]; [| done |].
    + eapply (regs_move i); try done; dsimpl; [intros h'; by eapply hview_set|..]; rewrite Hi; [|done]. intros h'. by rewrite !setting_up_iff.
    + eapply (regs_move i); try done; dsimpl; rewrite Hi; [|done]. intros h'. by rewrite !setting_up_iff.
  - pose proof (ct_wg s C). pose proof (ct_shutdown s C i) as Hn. destruct Hs as [Hi|Hi| Hi|Hi]; [|lia|by rewrite Hi in Hn|by rewrite Hi in Hn].
    eapply (regs_move i); try done; dsimpl; rewrite Hi; [|done]. intros h'. by rewrite !setting_up_iff.
Qed.

(** ** All of it *)

(** The data of an event leads back to its connection. *)
Lemma target_data s h x : 0 ≤ hd_fd x < 2 ^ 31 → d_conns s !! hd_fd x = Some h → target s (data_of h x) = Some h.
Proof.
  intros Hfd Hc. unfold target, data_of. destruct race; [|done]. unfold event_handler_race, event_data_race.
  rewrite take_app_le by (by rewrite length_be_bytes). rewrite (take_ge (be_bytes 4 _)) by (by rewrite length_be_bytes). rewrite be_val_bytes. unfold u32.
  change (256 ^ Z.of_nat 4) with (2 ^ 32). rewrite Z.mod_mod, Z.mod_small by lia. done.
Qed.

Lemma event_handler_found s y ev evs : control s → regs s → d_loop s = LEvents ((y, ev) :: evs) →
  ∃ h x, target s y = Some h ∧ d_handlers s !! h = Some x ∧ y = data_of h x ∧ d_conns s !! hd_fd x = Some h ∧ hd_fileOpen x = true.
Proof.
  intros C R Hl. destruct (rg_events s R y ev) as (fd&h&x&Hx&Efd&Ho&Hy&Hlist); [rewrite Hl; by left|]. exists h, x.
  assert (d_conns s !! hd_fd x = Some h) as Hc.
  { destruct Hlist as [Hc|[i Hi]]; [by rewrite Efd|]. exfalso. pose proof (ct_loop s C) as H1. rewrite Hl in H1. pose proof (ct_thread s C i) as H2. rewrite Hi in H2.
    rewrite H1 in H2 by done. by discriminate H2. }
  split_and!; try done. rewrite Hy. apply target_data; [by apply (rg_fd s R h x)|done].
Qed.
Record dinv s : Prop := { di_control : control s; di_order : order s; di_released : released s; di_regs : regs s; di_alive : d_loop s ≠ LPanic }.

Lemma panic_step s s' : dstep s s' → d_loop s' = LPanic → d_loop s = LPanic ∨ ∃ y ev evs, d_loop s = LEvents ((y, ev) :: evs) ∧ target s y = None.
Proof. intros Hs Hp. step_cases Hs; try done; auto. right. by eexists _, _, _. Qed.

Lemma dinv_step s s' : dinv s → dstep s s' → dinv s'.
Proof.
  intros [] Hs. constructor; [by eapply control_step|by eapply order_step|by eapply released_step|by eapply regs_step|].
  intros [?|(y&ev&evs&Hl&Hn)]%(panic_step s s' Hs); [done|]. destruct (event_handler_found s y ev evs di_control0 di_regs0 Hl) as (h&x&Ht&_). congruence.
Qed.

Lemma dinv_steps s s' : dinv s → rtc dstep s s' → dinv s'.
Proof. intros Hi Hs. induction Hs; [done|]. eauto using dinv_step. Qed.

Lemma dinv_init w : (∀ fd y, ¬ registered w fd y) → dinv (runLoop None (newEpollDispatcher w)).2.
Proof.
  intros Hw. constructor; [constructor|constructor|constructor|constructor|]; cbn; try done; intros; try set_solver; try (by rewrite setting_up_iff in *).
  constructor.
Qed.

Lemma dreach_inv w s : (∀ fd y, ¬ registered w fd y) → dreach w s → dinv s.
Proof. intros Hw. apply dinv_steps. by apply dinv_init. Qed.

(** ** Progress of the loop *)

(** No goroutine is inside of [setCallback] with the lock. *)
Definition quiet s : Prop := ∀ i, holds_lock (d_thr s i) = false.

Lemma loop_keeps s s' : rtc loop_any s s' → d_thr s' = d_thr s ∧ d_posted s' = d_posted s.
Proof.
  intros Hs. induction Hs as [|s s1 s' H1 _ [IH1 IH2]]; [done|]. rewrite IH1, IH2. destruct H1 as [H1|[H1|H1]]; by destruct H1.
Qed.

Lemma loop_dinv s s' : rtc loop_any s s' → dinv s → quiet s → dinv s' ∧ quiet s'.
Proof.
  intros Hs Hi Hq. split.
  - eapply dinv_steps; [exact Hi|]. eapply rtc_subrel; [|exact Hs]. intros a b Hab. by left.
  - unfold quiet. by rewrite (proj1 (loop_keeps _ _ Hs)).
Qed.

Lemma lock_free s : dinv s → quiet s → loop_holds_lock (d_loop s) = false → d_lock s = None.
Proof.
  intros [C _ _ _ _] Hq Hl. destruct (d_lock s) as [[|i]|] eqn:E; [|exfalso|done].
  - rewrite (ct_who_loop s C E) in Hl. done.
  - pose proof (ct_who s C i E) as Hi. by rewrite Hq in Hi.
Qed.

(** The loop alone can go on to [p], having run [r] by then; what waits stays. *)
Definition goes s (p : loop_pc) (r : list job) : Prop :=
  ∃ s', rtc loop_any s s' ∧ d_loop s' = p ∧ d_ran s' = r ∧ d_pendingLambda s' = d_pendingLambda s.

Lemma goes_step s s1 p r : dinv s → quiet s → loop_any s s1 → d_pendingLambda s1 = d_pendingLambda s →
  (dinv s1 → quiet s1 → goes s1 p r) → goes s p r.
Proof.
  intros Hi Hq Hs Hp Hg. destruct (loop_dinv s s1 (rtc_once _ _ Hs) Hi Hq) as [Hi1 Hq1]. destruct (Hg Hi1 Hq1) as (s'&Hs'&?&?&Hp').
  exists s'. split_and!; [by eapply rtc_l|done|done|congruence].
Qed.

Lemma goes_here s p r : d_loop s = p → d_ran s = r → goes s p r.
Proof. intros. by exists s. Qed.

(** From every point of a release to its end. *)
Lemma goes_release s h fs p r : dinv s → quiet s →
  (∀ s1, dinv s1 → quiet s1 → d_loop s1 = LRun fs → d_ran s1 = d_ran s ++ [JRelease h] → goes s1 p r) →
  (d_loop s = LRun (JRelease h :: fs) ∨ deregistered (d_loop s) = Some h ∧ loop_jobs (d_loop s) = JRelease h :: fs) → goes s p r.
Proof.
  intros Hi Hq Hk Hl. assert (∃ x, d_handlers s !! h = Some x) as [x Hx].
  { destruct Hi as [_ O J _ _]. destruct (jb_posted s J h) as (x&Hx&_); [|by exists x]. apply elem_releases. rewrite (or_posted s O).
    destruct Hl as [->|[_ ->]]; set_solver. }
  set (P q := ∀ s, dinv s → quiet s → d_handlers s !! h = Some x →
    (∀ s1, dinv s1 → quiet s1 → d_loop s1 = LRun fs → d_ran s1 = d_ran s ++ [JRelease h] → goes s1 p r) → d_loop s = q → goes s p r).
  assert (P (LCloseFile h fs)) as P4.
  { intros s1 Hi1 Hq1 Hx1 Hk1 Hl1. eapply goes_step; [done|done|right; right; by eapply re_close|done|]. intros. by apply Hk1. }
  assert (P (LUnlock h fs)) as P3.
  { intros s1 Hi1 Hq1 Hx1 Hk1 Hl1. eapply goes_step; [done|done|right; right; by eapply re_unlock|done|]. intros. by apply P4. }
  assert (P (LErase h fs)) as P2.
  { intros s1 Hi1 Hq1 Hx1 Hk1 Hl1. eapply goes_step; [done|done|right; right; by eapply re_erase|done|]. intros. by apply P3. }
  assert (P (LDelete h fs)) as P1.
  { intros s1 Hi1 Hq1 Hx1 Hk1 Hl1. assert (d_lock s1 = None) as Hlk by (apply lock_free; [done|done|by rewrite Hl1]).
    eapply goes_step; [done|done|right; right; by eapply re_lock|done|]. intros. by apply P2. }
  destruct Hl as [Hl|[Hl Hj]].
  - destruct (ep_del (hd_fd x) (d_world s)) as [e w] eqn:E. pose proof (ct_up s (di_control s Hi)).
    eapply goes_step; [done|done|right; right; by eapply re_del|done|]. intros. by apply P1.
  - destruct (d_loop s) eqn:El; try done; injection Hl as ->; injection Hj as ->; [by apply P1|by apply P2|by apply P3|by apply P4].
Qed.

Lemma goes_run fs : ∀ s, dinv s → quiet s → d_loop s = LRun fs → goes s LWait (d_ran s ++ fs).
Proof.
  induction fs as [|[h|f] fs IH]; intros s Hi Hq Hl.
  - eapply goes_step; [done|done|right; left; by apply rl_end|done|]. intros. apply goes_here; [done|]. by rewrite app_nil_r.
  - apply (goes_release s h fs); [done|done| |by left]. intros s1 Hi1 Hq1 Hl1 Hr1. rewrite (cons_middle _ (d_ran s)), app_assoc, <- Hr1. by apply IH.
  - eapply goes_step; [done|done|right; left; eapply rl_fun; [done|apply Hi]|done|]. intros Hi1 Hq1.
    replace (d_ran s ++ JFun f :: fs) with ((d_ran s ++ [JFun f]) ++ fs) by (by rewrite <- app_assoc). by apply (IH (set_loop _ (set_ran _ s))).
Qed.

Lemma goes_round s : dinv s → quiet s → in_lambda (d_loop s) = true → goes s LWait (d_ran s ++ loop_jobs (d_loop s)).
Proof.
  intros Hi Hq Hl. destruct (d_loop s) as [| | | | |fs|h fs|h fs|h fs|h fs| |] eqn:E; try done; cbn; [by apply goes_run|..];
    (apply (goes_release s h fs); [done|done| |right; by rewrite E]; intros s1 Hi1 Hq1 Hl1 Hr1; rewrite (cons_middle _ (d_ran s)), app_assoc, <- Hr1; by apply goes_run).
Qed.

Lemma goes_events evs : ∀ s, dinv s → quiet s → d_loop s = LEvents evs → goes s LSwap (d_ran s).
Proof.
  induction evs as [|[y ev] evs IH]; intros s Hi Hq Hl.
  - eapply goes_step; [done|done|left; by apply lp_unlock|done|]. intros. by apply goes_here.
  - destruct (event_handler_found s y ev evs (di_control s Hi) (di_regs s Hi) Hl) as (h&x&Ht&_).
    eapply goes_step; [done|done|left; by eapply lp_handle|done|]. intros Hi1 Hq1.
    eapply goes_step; [done|done|left; by eapply lp_handled|done|]. intros. by apply (IH (set_loop _ (set_loop _ s))).
Qed.

(** The loop gets to its next round, if waiting for events ends. *)
Lemma goes_swap s : (∀ w t, ∃ n evs e w', ep_wait w t n evs e w') → dinv s → quiet s → in_lambda (d_loop s) = false → goes s LSwap (d_ran s).
Proof.
  intros Hwait. assert (∀ evs s, dinv s → quiet s → d_loop s = LLock evs → goes s LSwap (d_ran s)) as Hlock.
  { intros evs s1 Hi Hq Hl. assert (d_lock s1 = None) as Hlk by (apply lock_free; [done|done|by rewrite Hl]).
    eapply goes_step; [done|done|left; by eapply lp_lock|done|]. intros. by apply (goes_events evs (set_loop _ (set_lock _ s1))). }
  intros Hi Hq Hl. destruct (d_loop s) as [|evs|evs|h ev evs| | | | | | | |] eqn:E; try done.
  - destruct (Hwait (d_world s) (d_timeout s)) as (n&evs&e&w&Hw). destruct (epollWait n e) as [k [err|]] eqn:Ew; [by apply epollWait_nil in Ew|].
    destruct (decide (k ≤ 0)).
    + eapply goes_step; [done|done|left; by eapply lp_idle|done|]. intros. by apply goes_here.
    + assert (0 < k) by lia. eapply goes_step; [done|done|left; by eapply lp_events|done|]. intros. by apply (Hlock evs (set_loop _ (set_timeout _ (set_world _ s)))).
  - by eapply Hlock.
  - by eapply goes_events.
  - eapply goes_step; [done|done|left; by eapply lp_handled|done|]. intros. by apply (goes_events evs (set_loop _ s)).
  - by apply goes_here.
  - by destruct (ct_runs s (di_control s Hi)).
  - by destruct (di_alive s Hi).
Qed.

(** From the start of a round everything that was posted is run. *)
Lemma swap_runs s : dinv s → quiet s → d_loop s = LSwap → ∃ s', rtc loop_any s s' ∧ d_loop s' = LWait ∧ d_ran s' = d_posted s.
Proof.
  intros Hi Hq Hl. assert (loop_any s (set_loop (LRun (d_pendingLambda s)) (set_lambdas (d_runningLambda s) (d_pendingLambda s) s))) as Hs by (right; left; by apply rl_swap).
  destruct (loop_dinv _ _ (rtc_once _ _ Hs) Hi Hq) as [Hi1 Hq1]. destruct (goes_run _ _ Hi1 Hq1 eq_refl) as (s'&Hs'&Hl'&Hr'&_).
  exists s'. split_and!; [by eapply rtc_l|done|]. rewrite Hr'. cbn. pose proof (or_posted s (di_order s Hi)) as ->. by rewrite Hl.
Qed.
End steps.

Section claims.
Context {W : Type} `{Epoll W} (race : bool).
Implicit Types s : dispatcher W.

(** [C18] Whenever the loop takes an event, with the race detector or without, the
    data of the event leads to the connection that was registered with it; that
    connection is in the map of the dispatcher, so it is alive, its file is open, and
    its descriptor is that of no other open connection.  The loop never fails to
    find a handler. *)
Theorem dispatch_to_live_handler w s :
  (∀ fd y, ¬ registered w fd y) → dreach race w s →
  d_loop s ≠ LPanic ∧
  ∀ y ev evs, d_loop s = LEvents ((y, ev) :: evs) →
    ∃ h x, target race s y = Some h ∧ d_handlers s !! h = Some x ∧ y = data_of race h x ∧ d_conns s !! hd_fd x = Some h ∧ hd_fileOpen x = true ∧
      ∀ h' x', d_handlers s !! h' = Some x' → hd_fileOpen x' = true → hd_fd x' = hd_fd x → h' = h.
Proof.
  intros Hw Hr. pose proof (dreach_inv race w s Hw Hr) as Hi. split.
  - apply Hi.
  - intros y ev evs Hl. destruct (event_handler_found race s y ev evs (di_control race s Hi) (di_regs race s Hi) Hl) as (h&x&Ht&Hx&Hy&Hc&Ho). exists h, x. split_and!; try done.
    intros h' x' Hx' Ho' E. by apply (rg_fds race s (di_regs race s Hi) h' h x' x).
Qed.

(** [C19] The functions that were posted are those that have run, those of this round
    that have not and those that wait, in the order in which they were posted: none is
    lost, none runs twice.  Each connection is released at most once and only after it
    was closed; a file is closed only by its release; and when the loop starts a release
    the file is still open, so that the descriptor it takes out of the epoll instance
    and closes is its own and not one that was given to a new connection. *)
Theorem posted_once_in_order w s :
  (∀ fd y, ¬ registered w fd y) → dreach race w s →
  d_posted s = d_ran s ++ loop_jobs (d_loop s) ++ d_pendingLambda s ∧
  NoDup (releases (d_posted s)) ∧
  (∀ h, h ∈ releases (d_posted s) → ∃ x, d_handlers s !! h = Some x ∧ hd_isClose x = true) ∧
  (∀ h x, d_handlers s !! h = Some x → hd_fileOpen x = false → h ∈ releases (d_ran s)) ∧
  (∀ h, JRelease h ∈ loop_jobs (d_loop s) → ∃ x, d_handlers s !! h = Some x ∧ hd_fileOpen x = true ∧
     ∀ h' x', d_handlers s !! h' = Some x' → hd_fileOpen x' = true → hd_fd x' = hd_fd x → h' = h).
Proof.
  intros Hw Hr. destruct (dreach_inv race w s Hw Hr) as [C O J R _]. pose proof O as []. pose proof J as []. split_and!; try done.
  intros h Hj. destruct (jb_posted0 h) as (x&Hx&_); [apply elem_releases; rewrite or_posted0; set_solver|]. exists x.
  destruct (job_open s h x O J Hj Hx) as [Ho _]. split_and!; [done|done|]. intros h' x' Hx' Ho' E. by apply (rg_fds race s R h' h x' x).
Qed.

(** [shutdown] does not return: [epollWait] reports no error, so the loop does not
    end, the counter that [shutdown] waits for stays at one, and what [shutdown] does
    after the wait never happens. *)
Theorem shutdown_never_returns w s :
  (∀ fd y, ¬ registered w fd y) → dreach race w s →
  d_loop s ≠ LExit ∧ d_waitLoopExitWg s = 1 ∧ d_isShutdown s = false ∧
  ∀ i, d_thr s i = TShutWait → ∀ s', shutdown_step i s s' → False.
Proof.
  intros Hw Hr. destruct (dreach_inv race w s Hw Hr) as [[] _ _ _ _]. split_and!; try done.
  intros i Hi s' Hs. destruct Hs; congruence.
Qed.

(** [C20] Whatever was posted gets run: from every reachable state in which no
    goroutine is inside of [setCallback] with the lock, the loop alone, if waiting for
    events ends, comes back to waiting having run every function that was posted. *)
Theorem posted_functions_run w s :
  (∀ fd y, ¬ registered w fd y) → (∀ w t, ∃ n evs e w', ep_wait w t n evs e w') → dreach race w s →
  (∀ i, holds_lock (d_thr s i) = false) →
  ∃ s', rtc (loop_any race) s s' ∧ d_loop s' = LWait ∧ d_posted s' = d_posted s ∧ d_ran s' = d_posted s'.
Proof.
  intros Hw Hwait Hr Hq. pose proof (dreach_inv race w s Hw Hr) as Hi.
  assert (∃ s1, rtc (loop_any race) s s1 ∧ in_lambda (d_loop s1) = false) as (s1&H1&Hl1).
  { destruct (in_lambda (d_loop s)) eqn:E; [|by exists s]. destruct (goes_round race s Hi Hq E) as (s1&H1&Hl1&_). exists s1. by rewrite Hl1. }
  destruct (loop_dinv race s s1 H1 Hi Hq) as [Hi1 Hq1]. destruct (goes_swap race s1 Hwait Hi1 Hq1 Hl1) as (s2&H2&Hl2&_).
  destruct (loop_dinv race s1 s2 H2 Hi1 Hq1) as [Hi2 Hq2]. destruct (swap_runs race s2 Hi2 Hq2 Hl2) as (s3&H3&Hl3&Hr3).
  exists s3. assert (rtc (loop_any race) s s2) as H12 by (by etrans). assert (rtc (loop_any race) s s3) as H13 by (by etrans).
  rewrite Hr3, (proj2 (loop_keeps race s s3 H13)), (proj2 (loop_keeps race s s2 H12)). done.
Qed.
End claims.

(** ** An epoll instance and a run *)

Definition EEXIST : Z := 17.
Definition ENOENT : Z := 2.
Definition interest_add (fd : Z) (x : edata) (w : gmap Z edata) : Z * gmap Z edata :=
  match w !! fd with Some _ => (EEXIST, w) | None => (0, <[fd := x]> w) end.
Definition interest_del (fd : Z) (w : gmap Z edata) : Z * gmap Z edata :=
  match w !! fd with Some _ => (0, delete fd w) | None => (ENOENT, w) end.
Definition interest_wait (w : gmap Z edata) (t n : Z) (evs : list (edata * Z)) (e : Z) (w' : gmap Z edata) : Prop :=
  w' = w ∧ ((e = 0 ∧ n = Z.of_nat (length evs) ∧ n ≤ 128 ∧ ∀ x ev, (x, ev) ∈ evs → ∃ fd, w !! fd = Some x)
            ∨ (e ≠ 0 ∧ n = 2 ^ 64 - 1 ∧ evs = [])).

#[refine] Instance interest_list : Epoll (gmap Z edata) := {
  ep_add := interest_add; ep_del := interest_del; ep_close fd w := delete fd w; ep_wait := interest_wait;
  registered w fd x := w !! fd = Some x
}.
Proof.
  - intros fd x w w'. unfold interest_add. destruct (w !! fd) eqn:E; [done|]. intros [= <-] fd' x'. rewrite lookup_insert_Some.
    split; [intros [[-> ->]|[_ ?]]; auto|]. intros [[-> ->]|Hx]; [by left|]. right. split; [congruence|done].
  - intros fd x w e w'. unfold interest_add. destruct (w !! fd); [by intros [= <- <-]|]. by intros [= <- <-].
  - intros fd w e w'. unfold interest_del. destruct (w !! fd) eqn:E; intros [= <- <-] fd' x'.
    + rewrite lookup_delete_Some. naive_solver.
    + split; [|naive_solver]. intros Hx. split; [congruence|done].
  - intros fd w fd' x' [_ ?]%lookup_delete_Some. done.
  - intros w t n evs e w' [-> [(->&->&Hn&Hin)|(He&->&->)]]; (split; [done|]).
    + split; [done|]. intros _. unfold i64. rewrite Z.mod_small; lia.
    + split; [by intros ? ? ?%not_elem_of_nil|]. cbv. done.
Defined.

(** A connection is made and registered, and one goroutine is left idle. *)
Lemma demo_registered race : ∃ s, dreach race (∅ : gmap Z edata) s ∧ d_loop s = LWait ∧
  d_lock s = None ∧ d_world s = {[ 5 := data_of race 0 (new_handler 5) ]} ∧ d_conns s = {[ 5 := 0%nat ]} ∧
  d_handlers s = {[ 0%nat := Handler 5 (Some 7%nat) false true true ]} ∧ (∀ i, d_thr s i = TIdle) ∧ d_posted s = [].
Proof.
  eexists. split.
  { unfold dreach. eapply rtc_l; [right; left; apply (nc_new _ 0 5); [done|lia|done]|].
    eapply rtc_l; [right; right; exists 0%nat; left; eapply (sc_nonblock race 0 _ 0 7); [done|apply lookup_insert_eq|done|intros j Hj; rewrite setting_up_iff in Hj; exact Hj]|].
    eapply rtc_l; [right; right; exists 0%nat; left; by eapply sc_lock|].
    eapply rtc_l; [right; right; exists 0%nat; left; by eapply sc_add|].
    eapply rtc_l; [right; right; exists 0%nat; left; by eapply sc_insert|].
    eapply rtc_l; [right; right; exists 0%nat; left; by eapply sc_unlock|]. apply rtc_refl. }
  split_and!; try reflexivity. by intros [|i].
Qed.

Lemma nothing_registered fd y : ¬ registered (∅ : gmap Z edata) fd y.
Proof. intros Hx. by discriminate Hx. Qed.

(** The connection is closed after a function was posted. *)
Lemma demo_posted race : ∃ s, dreach race (∅ : gmap Z edata) s ∧ d_loop s = LWait ∧ (∀ i, d_thr s i = TIdle) ∧
  d_pendingLambda s = [JFun 3; JRelease 0] ∧ d_posted s = [JFun 3; JRelease 0].
Proof.
  destruct (demo_registered race) as (s&Hr&Hl&Hlk&Hw&Hc&Hh&Ht&Hp). assert (d_pendingLambda s = []) as Hpe.
  { pose proof (or_posted s (di_order race s (dreach_inv race ∅ s nothing_registered Hr))) as Ho. rewrite Hp, Hl in Ho. cbn in Ho.
    symmetry in Ho. by apply app_eq_nil in Ho as [_ ?]. }
  eexists. split.
  { unfold dreach; etrans; [exact Hr|]. eapply rtc_l; [right; right; exists 0%nat; right; left; by apply (po_post 0 s 3)|].
    eapply rtc_l; [right; right; exists 0%nat; right; right; left; eapply (dc_cas 0 _ 0); [by apply Ht|cbn; by rewrite Hh|done|done]|].
    eapply rtc_l; [right; right; exists 0%nat; right; right; left; by eapply dc_post|]. apply rtc_refl. }
  cbn. rewrite Hpe, Hp, Hl. split_and!; try done. intros [|i]; [done|]. apply Ht.
Qed.

Lemma dispatch_to_live_handler_witness :
  ∃ s h, dreach true (∅ : gmap Z edata) s ∧ d_loop s = LEvents [(event_data_race 5, 1)] ∧
    target true s (event_data_race 5) = Some h ∧ ∃ x, d_handlers s !! h = Some x ∧ hd_fileOpen x = true.
Proof.
  destruct (demo_registered true) as (s&Hr&Hl&Hlk&Hw&Hc&Hh&Ht&Hp).
  assert (∃ s', dreach true (∅ : gmap Z edata) s' ∧ d_loop s' = LEvents [(event_data_race 5, 1)]) as (s'&Hr'&Hl').
  { eexists. split; [|shelve]. unfold dreach; etrans; [exact Hr|].
    eapply rtc_l; [left; left; eapply (lp_events true s 1 [(event_data_race 5, 1)] 0 (d_world s) 1); [exact Hl| |reflexivity|lia]|].
    { split; [done|]. left. split_and!; [done|done|lia|]. intros x ev [= -> ->]%list_elem_of_singleton. exists 5. rewrite Hw. apply lookup_singleton_eq. }
    eapply rtc_l; [left; left; by eapply lp_lock|]. apply rtc_refl. Unshelve. reflexivity. }
  destruct (dispatch_to_live_handler true ∅ s' nothing_registered Hr') as [_ Hev].
  destruct (Hev _ _ _ Hl') as (h&x&Htg&Hx&_&_&Ho&_). exists s', h. split; [exact Hr'|]. split; [exact Hl'|]. split; [exact Htg|]. exists x. exact (conj Hx Ho).
Defined.

Lemma posted_once_in_order_witness :
  ∃ s x, dreach false (∅ : gmap Z edata) s ∧ d_ran s = [JFun 3] ∧ d_loop s = LRun [JRelease 0] ∧ d_posted s = [JFun 3; JRelease 0] ∧
    d_handlers s !! 0%nat = Some x ∧ hd_fileOpen x = true.
Proof.
  destruct (demo_posted false) as (s&Hr&Hl&Ht&Hpe&Hp).
  pose proof (ct_up s (di_control false s (dreach_inv false ∅ s nothing_registered Hr))) as Hup.
  assert (∃ s', dreach false (∅ : gmap Z edata) s' ∧ d_loop s' = LRun [JRelease 0] ∧ d_posted s' = [JFun 3; JRelease 0]) as (s'&Hr'&Hl'&Hp').
  { eexists. split; [|shelve]. unfold dreach; etrans; [exact Hr|].
    eapply rtc_l; [left; left; eapply (lp_idle false s 0 [] 0 (d_world s) 0); [exact Hl| |reflexivity|lia]|].
    { split; [done|]. left. split_and!; [done|done|lia|]. by intros x ev ?%not_elem_of_nil. }
    eapply rtc_l; [left; right; left; by eapply rl_swap|].
    eapply rtc_l; [left; right; left; eapply (rl_fun _ 3 [JRelease 0]); [cbn; by rewrite Hpe|exact Hup]|]. apply rtc_refl. Unshelve. exact (conj eq_refl Hp). }
  destruct (posted_once_in_order false ∅ s' nothing_registered Hr') as (Ho&_&_&_&Hjob).
  destruct (Hjob 0%nat) as (x&Hx&Hop&_); [rewrite Hl'; by left|]. exists s', x. split; [exact Hr'|]. rewrite Hp', Hl' in Ho. cbn in Ho.
  split; [|exact (conj Hl' (conj Hp' (conj Hx Hop)))].
  destruct (d_ran s') as [|j0 [|j1 l]]; [discriminate Ho|by injection Ho as <- _|]. injection Ho as _ _ Ho. symmetry in Ho. by apply app_eq_nil in Ho as [_ [=]].
Defined.

Lemma shutdown_never_returns_witness :
  ∃ s, dreach false (∅ : gmap Z edata) s ∧ d_thr s 0%nat = TShutWait ∧ d_waitLoopExitWg s = 1 ∧ ∀ s', shutdown_step 0 s s' → False.
Proof.
  destruct (demo_registered false) as (s&Hr&_&_&_&_&_&Ht&_).
  assert (dreach false (∅ : gmap Z edata) (set_thr 0 TShutWait s)) as Hr'.
  { eapply rtc_r; [exact Hr|]. right; right. exists 0%nat. right; right; right. by apply sh_call. }
  destruct (shutdown_never_returns false ∅ _ nothing_registered Hr') as (_&Hwg&_&Hno).
  exists (set_thr 0 TShutWait s). split; [exact Hr'|]. split; [reflexivity|]. split; [exact Hwg|]. apply Hno. reflexivity.
Defined.

Lemma posted_functions_run_witness :
  ∃ s s', dreach true (∅ : gmap Z edata) s ∧ d_posted s = [JFun 3; JRelease 0] ∧ rtc (loop_any true) s s' ∧ d_ran s' = [JFun 3; JRelease 0].
Proof.
  destruct (demo_posted true) as (s&Hr&Hl&Ht&Hpe&Hp).
  destruct (posted_functions_run true ∅ s nothing_registered) as (s'&Hs'&_&Hp'&Hr').
  - intros w t. exists 0, [], 0, w. split; [reflexivity|]. left. split_and!; [done|done|lia|]. by intros x ev ?%not_elem_of_nil.
  - exact Hr.
  - intros i. by rewrite Ht.
  - exists s, s'. split; [exact Hr|]. split; [exact Hp|]. split; [exact Hs'|]. by rewrite Hr', Hp', Hp.
Defined.
