(* ===== verification/Session.v ===== *)
(** * Streams and sessions ([stream.go], [session.go], [protocol_manager.go])

    One process' view: its heap, its stream objects, the session and what it
    sent.  Every exported or internal operation is a computation on this
    state.  What a goroutine waits for ([select], a [WaitGroup], the result of
    the send loop) is a parameter; a goroutine that is started and a callback
    that is made are recorded, and their bodies are operations of their own. *)

From Stdlib Require Import ZArith Lia.
From stdpp Require Import prelude list gmap strings pretty.
From S2P Require Import Prelude GoMem Queue BufferSlice BufferList BufferManager Allocator ShmAllocator LinkedBuffer Protocol Events.

(** ** Data *)

Definition callbackDefault : Z := 0.
Definition callbackWaitExit : Z := 1.

Record bufferSliceWrapper := Wrapper { w_fallbackSlice : option nat; w_offset : Z }.

Record stream := Stream {
  sm_id : Z;
  sm_state : Z;
  sm_recvBuf : linkedBuffer;
  sm_sendBuf : linkedBuffer;
  sm_pending : list bufferSliceWrapper;
  (** [recvNotifyCh] holds a token; [closeNotifyCh] is closed *)
  sm_recvNotify : bool;
  sm_closeNotified : bool;
  (** zero means no deadline *)
  sm_readDeadline : Z;
  sm_writeDeadline : Z;
  sm_inFallback : bool;
  sm_callback : option nat;
  sm_callbackInProcess : Z;
  sm_asyncWg : Z;
  sm_callbackCloseState : Z;
  sm_pool : option nat
}.

Inductive stat :=
  | allocShmErrorCount | fallbackWriteCount | fallbackReadCount | eventConnErrorCount | queueFullErrorCount
  | recvPollingEventCount | sendPollingEventCount | outFlowBytes | inFlowBytes
  | hotRestartSuccessCount | hotRestartErrorCount.
#[global] Instance stat_eq_dec : EqDecision stat.
Proof. solve_decision. Defined.
Definition stats : Type := stat → Z.
Definition set_stat (c : stat) (v : Z) (f : stats) : stats := λ c', if decide (c' = c) then v else f c'.

Record sendReady := SendReady { sr_Hdr : option (list Z); sr_Body : option (list Z) }.

(** What happens outside of the state: callbacks that were made, goroutines
    that were started, functions that were posted, timers that were set. *)
Inductive note :=
  | NOnLocalClose (p : nat) | NOnRemoteClose (p : nat) | NOnNewStream (p : nat) | NOnShutdown (e : error)
  | NOnData (p : nat) | NAsyncLoop (p : nat) | NCloseLambda | NHealthTimer | NHotRestart (epoch : Z)
  | NConnClosed | NBufferReleased (path : string) | NQueueUnmapped (path : string).

Record session := Session {
  ss_heap : heap;
  ss_objs : gmap nat stream;
  (** [streams]; nil after the session was closed *)
  ss_streams : option (gmap Z nat);
  ss_nextStreamID : Z;
  ss_isClient : bool;
  ss_version : Z;
  ss_shutdown : bool;
  ss_shutdownErr : option error;
  ss_shutdownCh : bool;
  ss_unhealthy : bool;
  ss_writing : bool;
  ss_notifyContinueWrite : bool;
  ss_acceptCh : list nat;
  ss_sendCh : list sendReady;
  ss_bufferManager : bufferManager;
  ss_queueManager : option queueManager;
  ss_stats : stats;
  ss_state : Z;
  ss_listenCallback : bool;
  (** [listener.epoch] and [listener.hotRestartAckCount]; no epoch without a listener *)
  ss_epoch : option Z;
  ss_hotRestartAckCount : Z;
  ss_notes : list note
}.

Definition set_ss_heap (h : heap) (s : session) : session :=
  Session h (ss_objs s) (ss_streams s) (ss_nextStreamID s) (ss_isClient s) (ss_version s) (ss_shutdown s) (ss_shutdownErr s)
    (ss_shutdownCh s) (ss_unhealthy s) (ss_writing s) (ss_notifyContinueWrite s) (ss_acceptCh s) (ss_sendCh s)
    (ss_bufferManager s) (ss_queueManager s) (ss_stats s) (ss_state s) (ss_listenCallback s) (ss_epoch s)
    (ss_hotRestartAckCount s) (ss_notes s).
Definition set_objs (o : gmap nat stream) (s : session) : session :=
  Session (ss_heap s) o (ss_streams s) (ss_nextStreamID s) (ss_isClient s) (ss_version s) (ss_shutdown s) (ss_shutdownErr s)
    (ss_shutdownCh s) (ss_unhealthy s) (ss_writing s) (ss_notifyContinueWrite s) (ss_acceptCh s) (ss_sendCh s)
    (ss_bufferManager s) (ss_queueManager s) (ss_stats s) (ss_state s) (ss_listenCallback s) (ss_epoch s)
    (ss_hotRestartAckCount s) (ss_notes s).
Definition set_streams (m : option (gmap Z nat)) (s : session) : session :=
  Session (ss_heap s) (ss_objs s) m (ss_nextStreamID s) (ss_isClient s) (ss_version s) (ss_shutdown s) (ss_shutdownErr s)
    (ss_shutdownCh s) (ss_unhealthy s) (ss_writing s) (ss_notifyContinueWrite s) (ss_acceptCh s) (ss_sendCh s)
    (ss_bufferManager s) (ss_queueManager s) (ss_stats s) (ss_state s) (ss_listenCallback s) (ss_epoch s)
    (ss_hotRestartAckCount s) (ss_notes s).
Definition set_nextStreamID (n : Z) (s : session) : session :=
  Session (ss_heap s) (ss_objs s) (ss_streams s) n (ss_isClient s) (ss_version s) (ss_shutdown s) (ss_shutdownErr s)
    (ss_shutdownCh s) (ss_unhealthy s) (ss_writing s) (ss_notifyContinueWrite s) (ss_acceptCh s) (ss_sendCh s)
    (ss_bufferManager s) (ss_queueManager s) (ss_stats s) (ss_state s) (ss_listenCallback s) (ss_epoch s)
    (ss_hotRestartAckCount s) (ss_notes s).
Definition set_shutdown (b : bool) (e : option error) (ch : bool) (s : session) : session :=
  Session (ss_heap s) (ss_objs s) (ss_streams s) (ss_nextStreamID s) (ss_isClient s) (ss_version s) b e
    ch (ss_unhealthy s) (ss_writing s) (ss_notifyContinueWrite s) (ss_acceptCh s) (ss_sendCh s)
    (ss_bufferManager s) (ss_queueManager s) (ss_stats s) (ss_state s) (ss_listenCallback s) (ss_epoch s)
    (ss_hotRestartAckCount s) (ss_notes s).
Definition set_unhealthy (b : bool) (s : session) : session :=
  Session (ss_heap s) (ss_objs s) (ss_streams s) (ss_nextStreamID s) (ss_isClient s) (ss_version s) (ss_shutdown s) (ss_shutdownErr s)
    (ss_shutdownCh s) b (ss_writing s) (ss_notifyContinueWrite s) (ss_acceptCh s) (ss_sendCh s)
    (ss_bufferManager s) (ss_queueManager s) (ss_stats s) (ss_state s) (ss_listenCallback s) (ss_epoch s)
    (ss_hotRestartAckCount s) (ss_notes s).
Definition set_writing (b n : bool) (s : session) : session :=
  Session (ss_heap s) (ss_objs s) (ss_streams s) (ss_nextStreamID s) (ss_isClient s) (ss_version s) (ss_shutdown s) (ss_shutdownErr s)
    (ss_shutdownCh s) (ss_unhealthy s) b n (ss_acceptCh s) (ss_sendCh s)
    (ss_bufferManager s) (ss_queueManager s) (ss_stats s) (ss_state s) (ss_listenCallback s) (ss_epoch s)
    (ss_hotRestartAckCount s) (ss_notes s).
Definition set_chans (a : list nat) (c : list sendReady) (s : session) : session :=
  Session (ss_heap s) (ss_objs s) (ss_streams s) (ss_nextStreamID s) (ss_isClient s) (ss_version s) (ss_shutdown s) (ss_shutdownErr s)
    (ss_shutdownCh s) (ss_unhealthy s) (ss_writing s) (ss_notifyContinueWrite s) a c
    (ss_bufferManager s) (ss_queueManager s) (ss_stats s) (ss_state s) (ss_listenCallback s) (ss_epoch s)
    (ss_hotRestartAckCount s) (ss_notes s).
Definition set_queueManager (q : option queueManager) (s : session) : session :=
  Session (ss_heap s) (ss_objs s) (ss_streams s) (ss_nextStreamID s) (ss_isClient s) (ss_version s) (ss_shutdown s) (ss_shutdownErr s)
    (ss_shutdownCh s) (ss_unhealthy s) (ss_writing s) (ss_notifyContinueWrite s) (ss_acceptCh s) (ss_sendCh s)
    (ss_bufferManager s) q (ss_stats s) (ss_state s) (ss_listenCallback s) (ss_epoch s)
    (ss_hotRestartAckCount s) (ss_notes s).
Definition set_stats (f : stats) (s : session) : session :=
  Session (ss_heap s) (ss_objs s) (ss_streams s) (ss_nextStreamID s) (ss_isClient s) (ss_version s) (ss_shutdown s) (ss_shutdownErr s)
    (ss_shutdownCh s) (ss_unhealthy s) (ss_writing s) (ss_notifyContinueWrite s) (ss_acceptCh s) (ss_sendCh s)
    (ss_bufferManager s) (ss_queueManager s) f (ss_state s) (ss_listenCallback s) (ss_epoch s)
    (ss_hotRestartAckCount s) (ss_notes s).
Definition set_restart (st ack : Z) (s : session) : session :=
  Session (ss_heap s) (ss_objs s) (ss_streams s) (ss_nextStreamID s) (ss_isClient s) (ss_version s) (ss_shutdown s) (ss_shutdownErr s)
    (ss_shutdownCh s) (ss_unhealthy s) (ss_writing s) (ss_notifyContinueWrite s) (ss_acceptCh s) (ss_sendCh s)
    (ss_bufferManager s) (ss_queueManager s) (ss_stats s) st (ss_listenCallback s) (ss_epoch s) ack (ss_notes s).
Definition add_note (n : note) (s : session) : session :=
  Session (ss_heap s) (ss_objs s) (ss_streams s) (ss_nextStreamID s) (ss_isClient s) (ss_version s) (ss_shutdown s) (ss_shutdownErr s)
    (ss_shutdownCh s) (ss_unhealthy s) (ss_writing s) (ss_notifyContinueWrite s) (ss_acceptCh s) (ss_sendCh s)
    (ss_bufferManager s) (ss_queueManager s) (ss_stats s) (ss_state s) (ss_listenCallback s) (ss_epoch s)
    (ss_hotRestartAckCount s) (ss_notes s ++ [n]).

(** ** Access *)

Definition sess {A} (f : session → A) : M session A := reads f.
Definition tell (n : note) : M session unit := modify_state (add_note n).
Definition on_ss_heap {A} (m : M heap A) : M session A := zoom ss_heap set_ss_heap m.
Definition get_obj (p : nat) : M session stream := λ s,
  match ss_objs s !! p with Some st => Done (st, s) | None => Panic end.
Definition upd_obj (p : nat) (f : stream → stream) : M session unit :=
  st ← get_obj p; modify_state (λ s, set_objs (<[p := f st]> (ss_objs s)) s).
Definition count (c : stat) (d : Z) : M session unit :=
  modify_state (λ s, set_stats (set_stat c (u64 (ss_stats s c + d)) (ss_stats s)) s).

Definition with_state (x : Z) (t : stream) : stream :=
  Stream (sm_id t) x (sm_recvBuf t) (sm_sendBuf t) (sm_pending t) (sm_recvNotify t) (sm_closeNotified t) (sm_readDeadline t)
    (sm_writeDeadline t) (sm_inFallback t) (sm_callback t) (sm_callbackInProcess t) (sm_asyncWg t) (sm_callbackCloseState t) (sm_pool t).
Definition with_bufs (r w : linkedBuffer) (t : stream) : stream :=
  Stream (sm_id t) (sm_state t) r w (sm_pending t) (sm_recvNotify t) (sm_closeNotified t) (sm_readDeadline t)
    (sm_writeDeadline t) (sm_inFallback t) (sm_callback t) (sm_callbackInProcess t) (sm_asyncWg t) (sm_callbackCloseState t) (sm_pool t).
Definition with_pending (l : list bufferSliceWrapper) (t : stream) : stream :=
  Stream (sm_id t) (sm_state t) (sm_recvBuf t) (sm_sendBuf t) l (sm_recvNotify t) (sm_closeNotified t) (sm_readDeadline t)
    (sm_writeDeadline t) (sm_inFallback t) (sm_callback t) (sm_callbackInProcess t) (sm_asyncWg t) (sm_callbackCloseState t) (sm_pool t).
Definition with_recvNotify (b : bool) (t : stream) : stream :=
  Stream (sm_id t) (sm_state t) (sm_recvBuf t) (sm_sendBuf t) (sm_pending t) b (sm_closeNotified t) (sm_readDeadline t)
    (sm_writeDeadline t) (sm_inFallback t) (sm_callback t) (sm_callbackInProcess t) (sm_asyncWg t) (sm_callbackCloseState t) (sm_pool t).
Definition with_closeNotified (t : stream) : stream :=
  Stream (sm_id t) (sm_state t) (sm_recvBuf t) (sm_sendBuf t) (sm_pending t) (sm_recvNotify t) true (sm_readDeadline t)
    (sm_writeDeadline t) (sm_inFallback t) (sm_callback t) (sm_callbackInProcess t) (sm_asyncWg t) (sm_callbackCloseState t) (sm_pool t).
Definition with_deadlines (r w : Z) (t : stream) : stream :=
  Stream (sm_id t) (sm_state t) (sm_recvBuf t) (sm_sendBuf t) (sm_pending t) (sm_recvNotify t) (sm_closeNotified t) r
    w (sm_inFallback t) (sm_callback t) (sm_callbackInProcess t) (sm_asyncWg t) (sm_callbackCloseState t) (sm_pool t).
Definition with_fallback (b : bool) (t : stream) : stream :=
  Stream (sm_id t) (sm_state t) (sm_recvBuf t) (sm_sendBuf t) (sm_pending t) (sm_recvNotify t) (sm_closeNotified t) (sm_readDeadline t)
    (sm_writeDeadline t) b (sm_callback t) (sm_callbackInProcess t) (sm_asyncWg t) (sm_callbackCloseState t) (sm_pool t).
Definition with_callback (c : option nat) (inProcess wg closeState : Z) (t : stream) : stream :=
  Stream (sm_id t) (sm_state t) (sm_recvBuf t) (sm_sendBuf t) (sm_pending t) (sm_recvNotify t) (sm_closeNotified t) (sm_readDeadline t)
    (sm_writeDeadline t) (sm_inFallback t) c inProcess wg closeState (sm_pool t).
Definition with_pool (x : option nat) (t : stream) : stream :=
  Stream (sm_id t) (sm_state t) (sm_recvBuf t) (sm_sendBuf t) (sm_pending t) (sm_recvNotify t) (sm_closeNotified t) (sm_readDeadline t)
    (sm_writeDeadline t) (sm_inFallback t) (sm_callback t) (sm_callbackInProcess t) (sm_asyncWg t) (sm_callbackCloseState t) x.

(** Run an operation of a linked buffer of a stream. *)
Definition on_buf {A} (get : stream → linkedBuffer) (put : linkedBuffer → stream → stream) (p : nat) (m : M lbst A) : M session A :=
  t ← get_obj p;
  s ← get_state;
  match m (LbSt (ss_heap s) (get t) (ss_stats s allocShmErrorCount)) with
  | Done (a, b) =>
      _ ← modify_state (λ s, set_stats (set_stat allocShmErrorCount (st_allocErrors b) (ss_stats s)) (set_ss_heap (st_heap b) s));
      _ ← upd_obj p (put (st_buf b));
      mret a
  | Panic => panic
  | NoFuel => out_of_fuel
  end.
Definition on_recvBuf {A} (p : nat) (m : M lbst A) : M session A :=
  on_buf sm_recvBuf (λ b t, with_bufs b (sm_sendBuf t) t) p m.
Definition on_sendBuf {A} (p : nat) (m : M lbst A) : M session A :=
  on_buf sm_sendBuf (λ b t, with_bufs (sm_recvBuf t) b t) p m.

Definition getStreamState (p : nat) : M session Z := t ← get_obj p; mret (sm_state t).
Definition IsOpen (p : nat) : M session bool := st ← getStreamState p; mret (st =? streamOpened).
Definition IsClosed : M session bool := sess ss_shutdown.
Definition IsHealthy : M session bool := b ← sess ss_unhealthy; mret (negb b).
Definition getCallbacks (p : nat) : M session (option nat) := t ← get_obj p; mret (sm_callback t).

(** [closeNotifyOnce.Do(close(closeNotifyCh))] *)
Definition safeCloseNotify (p : nat) : M session unit := upd_obj p with_closeNotified.

(** ** Streams *)

Definition bound_buffer : linkedBuffer := set_hasStream true newEmptyLinkedBuffer.

Definition newStream (id : Z) : M session nat := λ s,
  let p := fresh_key (ss_objs s) in
  Done (p, set_objs (<[p := Stream id streamOpened bound_buffer bound_buffer [] false false 0 0 false None 0 0 0 None]> (ss_objs s)) s).

Definition SetCallbacks (p : nat) (callback : nat) : M session (option error) :=
  c ← getCallbacks p;
  match c with
  | Some _ => mret (Some ErrStreamCallbackHadExisted)
  | None => _ ← upd_obj p (λ t, with_callback (Some callback) 0 (sm_asyncWg t) (sm_callbackCloseState t) t); mret None
  end.

Definition SetDeadline (p : nat) (t : Z) : M session (option error) := _ ← upd_obj p (with_deadlines t t); mret None.
Definition SetReadDeadline (p : nat) (t : Z) : M session (option error) :=
  _ ← upd_obj p (λ x, with_deadlines t (sm_writeDeadline x) x); mret None.
Definition SetWriteDeadline (p : nat) (t : Z) : M session (option error) :=
  _ ← upd_obj p (λ x, with_deadlines (sm_readDeadline x) t x); mret None.

(** ** Pending data *)

(** The slices of one message, from the chain of headers in shared memory. *)
Fixpoint move_chain (fuel : nat) (p : nat) (offset : Z) : M session unit :=
  match fuel with
  | O => out_of_fuel
  | S fuel =>
      bm ← sess ss_bufferManager;
      r ← on_ss_heap (readBufferSlice bm offset);
      match r with
      | inl _ => mret tt
      | inr q =>
          b ← on_ss_heap (get_slice q);
          let hd := header_of b in
          if slice_size b =? 0 then
            fr ← on_recvBuf p front;
            match fr with
            | None =>
                offset ← on_ss_heap (on_mem (header_nextBufferOffset hd));
                _ ← on_ss_heap (recycleBuffer bm (Some q));
                move_chain fuel p offset
            | Some _ =>
                preSlice ← on_recvBuf p (buf (λ b, sl_back (lb_sliceList b)));
                pre ← on_ss_heap (x ← deref preSlice; get_slice x);
                hasNext ← on_ss_heap (on_mem (header_hasNext hd));
                if (hasNext : bool) then
                  nx ← on_ss_heap (on_mem (header_nextBufferOffset hd));
                  _ ← on_ss_heap (on_mem (header_linkNext (header_of pre) nx));
                  offset ← on_ss_heap (on_mem (header_nextBufferOffset hd));
                  _ ← on_ss_heap (recycleBuffer bm (Some q));
                  move_chain fuel p offset
                else
                  _ ← on_ss_heap (on_mem (header_clearFlag (header_of pre)));
                  _ ← on_ss_heap (on_mem (header_setInUsed (header_of pre)));
                  on_ss_heap (recycleBuffer bm (Some q))
            end
          else
            _ ← on_recvBuf p (appendBufferSlice (Some q));
            hasNext ← on_ss_heap (on_mem (header_hasNext hd));
            if negb hasNext then mret tt
            else offset ← on_ss_heap (on_mem (header_nextBufferOffset hd)); move_chain fuel p offset
      end
  end.

Fixpoint move_loop (fuel : nat) (p : nat) (unread : list bufferSliceWrapper) : M session unit :=
  match unread with
  | [] => mret tt
  | w :: unread =>
      _ ← match w_fallbackSlice w with
          | Some q => _ ← on_recvBuf p (appendBufferSlice (Some q)); upd_obj p (with_fallback true)
          | None => move_chain fuel p (w_offset w)
          end;
      move_loop fuel p unread
  end.

(** A chain of distinct slices is not longer than the shared memory. *)
Definition shm_fuel : M session nat := bm ← sess ss_bufferManager; mret (alloc_fuel bm).

Definition moveToWithoutLock (p : nat) : M session unit :=
  t ← get_obj p;
  match sm_pending t with
  | [] => mret tt
  | unread =>
      preLen ← on_recvBuf p Len;
      fuel ← shm_fuel;
      _ ← move_loop fuel p unread;
      len ← on_recvBuf p Len;
      _ ← count inFlowBytes (u64 (len - preLen));
      upd_obj p (with_pending [])
  end.

(** Under the mutex of the pending data. *)
Definition moveTo (p : nat) : M session unit := moveToWithoutLock p.

Definition pending_add (p : nat) (w : bufferSliceWrapper) : M session unit :=
  upd_obj p (λ t, with_pending (sm_pending t ++ [w]) t).

Fixpoint clear_loop (fuel : nat) (unread : list bufferSliceWrapper) : M session unit :=
  match unread with
  | [] => mret tt
  | w :: unread =>
      match w_fallbackSlice w with
      | Some q => _ ← on_ss_heap (putBackBufferSlice q); clear_loop fuel unread
      | None =>
          bm ← sess ss_bufferManager;
          r ← on_ss_heap (readBufferSlice bm (w_offset w));
          match r with
          | inl _ => mret tt
          | inr q => _ ← on_ss_heap (recycleBuffers fuel bm (Some q)); clear_loop fuel unread
          end
      end
  end.

Definition pending_clear (p : nat) : M session unit :=
  t ← get_obj p;
  match sm_pending t with
  | [] => mret tt
  | unread => fuel ← shm_fuel; _ ← clear_loop fuel unread; upd_obj p (with_pending [])
  end.

(** ** The session: life of streams *)

Definition map_insert (id : Z) (p : nat) : M session unit := λ s,
  match ss_streams s with
  | Some m => Done (tt, set_streams (Some (<[id := p]> m)) s)
  | None => Panic
  end.
(** Looking up in a nil map finds nothing, deleting from it does nothing. *)
Definition map_lookup (id : Z) : M session (option nat) :=
  sess (λ s, match ss_streams s with Some m => m !! id | None => None end).
Definition map_delete (id : Z) : M session unit :=
  modify_state (λ s, set_streams (delete id <$> ss_streams s) s).

(** The stream or the error. *)
Definition OpenStream : M session (option nat * option error) :=
  closed ← IsClosed;
  if (closed : bool) then e ← sess ss_shutdownErr; mret (None, e)
  else
    healthy ← IsHealthy;
    if negb healthy then mret (None, Some ErrSessionUnhealthy)
    else
      id ← sess (λ s, u32 (ss_nextStreamID s + 1));
      _ ← modify_state (set_nextStreamID id);
      p ← newStream id;
      old ← map_lookup id;
      match old with
      | Some _ => mret (None, Some ErrStreamsExhausted)
      | None => _ ← map_insert id p; mret (Some p, None)
      end.

(** [AcceptStream] when a stream is ready or the session is closed; [None]
    means that it waits. *)
Definition AcceptStream : M session (option (option nat * option error)) :=
  ch ← sess ss_acceptCh;
  match ch with
  | p :: ch => _ ← modify_state (λ s, set_chans ch (ss_sendCh s) s); mret (Some (Some p, None))
  | [] =>
      down ← sess ss_shutdownCh;
      if (down : bool) then e ← sess ss_shutdownErr; mret (Some (None, e)) else mret None
  end.

Definition GetActiveStreamCount : M session Z :=
  sess (λ s, match ss_streams s with Some m => Z.of_nat (size m) | None => 0 end).

Definition onStreamClose (id : Z) : M session unit := map_delete id.

(** A new stream is handed to the listener or put into [acceptCh] (whose bound of
    1024 only makes the dispatcher wait). *)
Definition getStream (id state : Z) : M session (option nat) :=
  old ← map_lookup id;
  client ← sess ss_isClient;
  if negb client && (state =? streamOpened) && bool_decide (old = None) then
    p ← newStream id;
    _ ← map_insert id p;
    cb ← sess ss_listenCallback;
    _ ← (if (cb : bool) then tell (NOnNewStream p)
         else
           down ← sess ss_shutdownCh;
           if (down : bool) then mret tt else modify_state (λ s, set_chans (ss_acceptCh s ++ [p]) (ss_sendCh s) s));
    mret (Some p)
  else mret old.

Definition getStreamById (id : Z) : M session (option nat) := map_lookup id.

(** The timer of the circuit breaker is recorded; when it fires the session is
    healthy again. *)
Definition openCircuitBreaker (debugMode : bool) : M session unit :=
  if debugMode then mret tt
  else
    u ← sess ss_unhealthy;
    if (u : bool) then mret tt else _ ← modify_state (set_unhealthy true); tell NHealthTimer.
Definition health_timer_fires : M session unit := modify_state (set_unhealthy false).

Definition halfClose (p : nat) : M session unit :=
  st ← getStreamState p;
  if st =? streamOpened then
    _ ← upd_obj p (with_state streamHalfClosed);
    _ ← safeCloseNotify p;
    c ← getCallbacks p;
    match c with Some _ => tell (NOnRemoteClose p) | None => mret tt end
  else mret tt.

(** [clean]: forget the stream, release all of its slices. *)
Definition stream_clean (p : nat) : M session unit :=
  t ← get_obj p;
  bm ← sess ss_bufferManager;
  _ ← onStreamClose (sm_id t);
  _ ← pending_clear p;
  _ ← on_recvBuf p (recycle bm);
  on_sendBuf p (recycle bm).

Section session.
(** [eventConn.write] (EventConn.v). *)
Context (conn_write : list Z → M session (option error)).
Context (debugMode : bool).

(** ** Sending *)

(** [Close]: the first call marks the session, wakes all waiters and posts the
    release of its resources. *)
Fixpoint notify_all (ps : list nat) : M session unit :=
  match ps with [] => mret tt | p :: ps => _ ← safeCloseNotify p; notify_all ps end.

Definition live_streams : M session (list nat) :=
  sess (λ s, match ss_streams s with Some m => snd <$> map_to_list m | None => [] end).

Definition Session_Close : M session (option error) :=
  closed ← IsClosed;
  if (closed : bool) then mret None
  else
    _ ← modify_state (λ s, set_shutdown true (Some (default ErrSessionShutdown (ss_shutdownErr s))) (ss_shutdownCh s) s);
    e ← sess ss_shutdownErr;
    cb ← sess ss_listenCallback;
    _ ← (if (cb : bool) then tell (NOnShutdown (default ErrSessionShutdown e)) else mret tt);
    ps ← live_streams;
    _ ← notify_all ps;
    _ ← modify_state (λ s, set_shutdown (ss_shutdown s) (ss_shutdownErr s) true s);
    _ ← tell NCloseLambda;
    mret None.

Definition exitErr (err : error) : M session unit :=
  _ ← count eventConnErrorCount 1;
  _ ← modify_state (λ s, set_shutdown (ss_shutdown s) (Some (default err (ss_shutdownErr s))) (ss_shutdownCh s) s);
  _ ← Session_Close;
  mret tt.

Definition writeEventData (data : list Z) : M session (option error) :=
  err ← conn_write data;
  match err with
  | Some e => _ ← exitErr e; mret (Some e)
  | None => mret None
  end.

(** One round of the send loop: the head of [sendCh] is written; the result
    goes to the waiter. *)
Definition send_round : M session (option (option error)) :=
  ch ← sess ss_sendCh;
  match ch with
  | [] => mret None
  | ready :: ch =>
      writing ← sess ss_writing;
      if (writing : bool) then mret None
      else
        _ ← modify_state (λ s, set_chans (ss_acceptCh s) ch s);
        _ ← modify_state (λ s, set_writing true (ss_notifyContinueWrite s) s);
        e1 ← match sr_Hdr ready with Some h => writeEventData h | None => mret None end;
        e2 ← match sr_Body ready with Some b => writeEventData b | None => mret None end;
        _ ← modify_state (λ s, set_writing false (ss_notifyContinueWrite s) s);
        mret (Some (match e1 with Some e => Some e | None => e2 end))
  end.

(** The two [select]s of [waitForSendErr]. *)
Inductive sel := SelReady | SelShutdown | SelTimeout.
Context (select_send : M session sel) (select_result : M session (sel * option error)).

Definition the_shutdownErr : M session (option error) := sess ss_shutdownErr.

Definition waitForSend (hdr body : option (list Z)) : M session (option error) :=
  s1 ← select_send;
  match s1 with
  | SelShutdown => the_shutdownErr
  | SelTimeout => mret (Some ErrConnectionWriteTimeout)
  | SelReady =>
      _ ← modify_state (λ s, set_chans (ss_acceptCh s) (ss_sendCh s ++ [SendReady hdr body]) s);
      s2 ← select_result;
      match s2 with
      | (SelReady, err) => mret err
      | (SelShutdown, _) => the_shutdownErr
      | (SelTimeout, _) => mret (Some ErrConnectionWriteTimeout)
      end
  end.

Definition sendQueue : M session queue := qm ← sess ss_queueManager; qm ← of_option qm; mret (qm_sendQueue qm).
Definition recvQueue : M session queue := qm ← sess ss_queueManager; qm ← of_option qm; mret (qm_recvQueue qm).

(** Write now if no one else writes, else leave it to the send loop. *)
Definition write_or_queue (data : list Z) : M session unit :=
  writing ← sess ss_writing;
  if (writing : bool) then modify_state (λ s, set_chans (ss_acceptCh s) (ss_sendCh s ++ [SendReady None (Some data)]) s)
  else
    _ ← modify_state (λ s, set_writing true (ss_notifyContinueWrite s) s);
    _ ← writeEventData data;
    modify_state (λ s, set_writing false true s).

Definition wakeUpPeer : M session (option error) :=
  q ← sendQueue;
  idle ← on_ss_heap (on_mem (markWorking q));
  if negb idle then mret None
  else
    _ ← count sendPollingEventCount 1;
    v ← sess ss_version;
    table ← pollingEventWithVersion;
    ev ← of_option (table !! Z.to_nat v);
    _ ← write_or_queue ev;
    mret None.

Definition hotRestart (epoch event : Z) : M session (option error) :=
  if negb (event =? typeHotRestart) && negb (event =? typeHotRestartAck) then
    mret (Some (Errorf ("hotRestart invalid event type " +:+ pretty event +:+ " " +:+ eventType_String event)))
  else
    data ← gmake (headerSize + 8);
    data ← gput data headerSize (be_bytes 8 epoch);
    v ← sess ss_version;
    data ← header_encode data (u32 (Z.of_nat (length data))) v event;
    _ ← write_or_queue data;
    mret None.

(** ** Flush *)

(** The bytes of a list of views. *)
Fixpoint gather (views : list gslice) : M heap (list Z) :=
  match views with
  | [] => mret []
  | d :: views => bs ← on_mem (load_bytes (slice_ptr d) (s_len d)); rest ← gather views; mret (bs ++ rest)
  end.

Definition writeFallback (p : nat) (streamStatus : Z) : M session (option error) :=
  t ← get_obj p;
  bm ← sess ss_bufferManager;
  len ← on_sendBuf p Len;
  v ← sess ss_version;
  event ← fallbackDataEvent_encode (Z.of_nat 16 + len) v (sm_id t) streamStatus;
  views ← on_sendBuf p underlyingData;
  body ← on_ss_heap (gather views);
  _ ← on_sendBuf p (recycle bm);
  _ ← openCircuitBreaker debugMode;
  _ ← count fallbackWriteCount 1;
  waitForSend None (Some (event ++ body)).

(** What the retry of a full queue waits for. *)
Inductive retry := RetryTimer | RetryDeadline | RetryClosed.
Context (select_retry : nat → M session retry).

Definition put_element (p : nat) (state : Z) : M session (option error) :=
  t ← get_obj p;
  q ← sendQueue;
  root ← on_sendBuf p rootBufOffset;
  on_ss_heap (on_mem (queue_put q (QueueElement (sm_id t) root state))).

Fixpoint retry_loop (n : nat) (p : nat) (state : Z) (err : option error) : M session (option error) :=
  match n with
  | O => mret err
  | S n =>
      if bool_decide (err = Some ErrQueueFull) then
        r ← select_retry p;
        err ← match r with
              | RetryTimer => put_element p state
              | RetryDeadline => mret (Some ErrTimeout)
              | RetryClosed => mret (Some ErrStreamClosed)
              end;
        retry_loop n p state err
      else mret err
  end.

(** The body of [Flush] between [done] and the deferred [clean]. *)
Definition flush_body (p : nat) (state : Z) : M session (option error) :=
  bm ← sess ss_bufferManager;
  shm ← on_sendBuf p isFromShareMemory;
  _ ← (if negb shm then upd_obj p (with_fallback true) else mret tt);
  t ← get_obj p;
  if sm_inFallback t then writeFallback p (sm_state t)
  else
    err ← put_element p state;
    err ← (if bool_decide (err = Some ErrQueueFull)
           then _ ← count queueFullErrorCount 1; retry_loop 10 p state err else mret err);
    match err with
    | Some e => _ ← on_sendBuf p (recycle bm); mret (Some e)
    | None => wakeUpPeer
    end.

Definition Flush (p : nat) (endStream : bool) : M session (option error) :=
  bm ← sess ss_bufferManager;
  len ← on_sendBuf p Len;
  if len =? 0 then mret None
  else
    _ ← count outFlowBytes (u64 len);
    state ← getStreamState p;
    if negb (state =? streamOpened) then _ ← on_sendBuf p (recycle bm); mret (Some ErrStreamClosed)
    else
      _ ← on_sendBuf p (lb_done bm);
      r ← flush_body p state;
      _ ← on_sendBuf p clean;
      mret r.

Definition copyWriteAndFlush (p : nat) (data : list Z) : M session (Z * option error) :=
  bm ← sess ss_bufferManager;
  if Z.of_nat (length data) =? 0 then mret (0, None)
  else
    written ← on_sendBuf p (WriteBytes bm data);
    err ← Flush p false;
    mret (written, err).

(** ** Reading *)

Inductive wakeup := WakeRecv | WakeClose | WakeTimeout.
(** The [select] of [readMore]; it consumes the token of [recvNotifyCh]. *)
Context (select_read : nat → M session wakeup).

Fixpoint readMore_loop (fuel : nat) (p : nat) (minSize : Z) : M session (option error) :=
  match fuel with
  | O => out_of_fuel
  | S fuel =>
      w ← select_read p;
      match w with
      | WakeRecv =>
          _ ← moveTo p;
          len ← on_recvBuf p Len;
          if len >=? minSize then mret None else readMore_loop fuel p minSize
      | WakeClose =>
          _ ← moveTo p;
          len ← on_recvBuf p Len;
          if len >=? minSize then mret None
          else
            st ← getStreamState p;
            if st =? streamHalfClosed then mret (Some ErrEndOfStream) else mret (Some ErrStreamClosed)
      | WakeTimeout => mret (Some ErrTimeout)
      end
  end.

(** [fuel] bounds the number of wake-ups. *)
Definition Stream_readMore (fuel : nat) (p : nat) (minSize : Z) : M session (option error) :=
  _ ← moveTo p;
  recvLen ← on_recvBuf p Len;
  if recvLen >=? minSize then mret None
  else
    open ← IsOpen p;
    if (recvLen =? 0) && negb open then mret (Some ErrEndOfStream)
    else readMore_loop fuel p minSize.

(** [linkedBuffer.read] of the read buffer, which waits for data with [readMore] of the stream. *)
Definition copyRead (fuel : nat) (p : nat) (d : gslice) : M session (Z * option error) :=
  if s_len d <=? 0 then mret (0, None)
  else
    len ← on_recvBuf p Len;
    err ← (if len <? 1 then Stream_readMore fuel p 1 else mret None);
    match err with
    | Some e => mret (0, Some e)
    | None =>
        bm ← sess ss_bufferManager;
        written ← on_recvBuf p (read_copy bm d);
        mret (written, None)
    end.

(** The methods of [net.Conn]. *)
Definition Stream_Read (fuel : nat) (p : nat) (d : gslice) : M session (Z * option error) := copyRead fuel p d.
Definition Stream_Write (p : nat) (data : list Z) : M session (Z * option error) := copyWriteAndFlush p data.

(** ** Closing *)

(** [asyncGoroutineWg.Wait()] *)
Context (wait_async : nat → M session unit).

Definition stream_close (p : nat) : M session (option error) :=
  oldState ← getStreamState p;
  if oldState =? streamClosed then mret None
  else
    _ ← upd_obj p (with_state streamClosed);
    c ← getCallbacks p;
    _ ← match c with Some _ => wait_async p | None => mret tt end;
    _ ← stream_clean p;
    if oldState =? streamOpened then
      _ ← safeCloseNotify p;
      c ← getCallbacks p;
      closed ← IsClosed;
      _ ← match c with
          | Some _ => if (closed : bool) then tell (NOnRemoteClose p) else tell (NOnLocalClose p)
          | None => mret tt
          end;
      closed ← IsClosed;
      if (closed : bool) then mret None
      else
        t ← get_obj p;
        q ← sendQueue;
        err ← on_ss_heap (on_mem (queue_put q (QueueElement (sm_id t) 0 streamClosed)));
        match err with
        | Some _ =>
            _ ← count queueFullErrorCount 1;
            ev ← gmake (headerSize + 4);
            v ← sess ss_version;
            ev ← header_encode ev (headerSize + 4) v typeStreamClose;
            ev ← gput ev headerSize (be_bytes 4 (sm_id t));
            waitForSend None (Some ev)
        | None => wakeUpPeer
        end
    else mret None.

Definition Stream_Close (p : nat) : M session (option error) :=
  c ← getCallbacks p;
  _ ← match c with
      | Some _ => upd_obj p (λ t, with_callback (sm_callback t) (sm_callbackInProcess t) (sm_asyncWg t) callbackWaitExit t)
      | None => mret tt
      end;
  t ← get_obj p;
  if sm_callbackInProcess t =? 1 then
    _ ← (if sm_state t =? streamOpened then upd_obj p (with_state streamHalfClosed) else mret tt);
    mret None
  else stream_close p.

(** The function [Close] of the session posts. *)
Fixpoint close_all (ps : list nat) : M session unit :=
  match ps with
  | [] => mret tt
  | p :: ps => _ ← Stream_Close p; _ ← wait_async p; close_all ps
  end.

Definition close_lambda : M session unit :=
  _ ← tell NConnClosed;
  ps ← live_streams;
  _ ← modify_state (set_streams None);
  _ ← close_all ps;
  bm ← sess ss_bufferManager;
  _ ← tell (NBufferReleased (bm_path bm));
  qm ← sess ss_queueManager;
  match qm with
  | Some q => _ ← tell (NQueueUnmapped (qm_path q)); modify_state (set_queueManager None)
  | None => mret tt
  end.

(** ** Reuse *)

Definition stream_reset (p : nat) : M session (option error) :=
  open ← IsOpen p;
  if negb open then mret (Some ErrStreamClosed)
  else
    unreadSize ← on_recvBuf p Len;
    if unreadSize >? 0 then mret (Some (Errorf ("stream had unread data, size:" +:+ pretty unreadSize +:+ " ")))
    else
      t ← get_obj p;
      if (0 <? length (sm_pending t))%nat then
        mret (Some (Errorf ("stream had unread pending data, unread slice len:" +:+ pretty (Z.of_nat (length (sm_pending t))) +:+ " ")))
      else
        _ ← upd_obj p (with_deadlines 0 0);
        _ ← upd_obj p (with_fallback false);
        _ ← upd_obj p (with_recvNotify false);
        _ ← upd_obj p (λ t, with_callback None (sm_callbackInProcess t) (sm_asyncWg t) (sm_callbackCloseState t) t);
        mret None.

Definition ReleaseReadAndReuse (p : nat) : M session unit :=
  bm ← sess ss_bufferManager;
  _ ← on_recvBuf p (releasePreviousReadAndReserve bm);
  t ← get_obj p;
  if (lb_len (sm_recvBuf t) =? 0) && (sl_len (lb_sliceList (sm_recvBuf t)) =? 1)
  then upd_obj p (with_bufs (sm_sendBuf t) (sm_recvBuf t))
  else mret tt.

(** ** Receiving *)

Definition fillDataToReadBuffer (p : nat) (w : bufferSliceWrapper) : M session (option error) :=
  _ ← pending_add p w;
  bm ← sess ss_bufferManager;
  st ← getStreamState p;
  if st =? streamClosed then
    _ ← pending_clear p;
    _ ← on_recvBuf p (recycle bm);
    mret None
  else
    _ ← upd_obj p (with_recvNotify true);
    t ← get_obj p;
    match sm_callback t with
    | Some c =>
        if sm_callbackInProcess t =? 0 then
          _ ← upd_obj p (λ t, with_callback (Some c) 1 (sm_asyncWg t + 1) (sm_callbackCloseState t) t);
          _ ← tell (NAsyncLoop p);
          mret None
        else mret None
    | None => mret None
    end.

(** The goroutine of the asynchronous mode.  [OnData] is the user's; fuel bounds
    the rounds. *)
Context (onData : nat → M session unit).

Fixpoint async_data (fuel : nat) (p : nat) : M session unit :=
  open ← IsOpen p;
  len ← on_recvBuf p Len;
  if (open : bool) && (len >? 0) then
    match fuel with
    | O => out_of_fuel
    | S fuel => _ ← tell (NOnData p); _ ← onData p; _ ← moveTo p; async_data fuel p
    end
  else mret tt.

Definition wg_done (p : nat) : M session unit :=
  upd_obj p (λ t, with_callback (sm_callback t) (sm_callbackInProcess t) (sm_asyncWg t - 1) (sm_callbackCloseState t) t).
Definition set_inProcess (p : nat) (x : Z) : M session unit :=
  upd_obj p (λ t, with_callback (sm_callback t) x (sm_asyncWg t) (sm_callbackCloseState t) t).

Fixpoint async_loop (fuel : nat) (p : nat) : M session unit :=
  match fuel with
  | O => out_of_fuel
  | S fuel' =>
      _ ← moveTo p;
      _ ← async_data fuel p;
      _ ← set_inProcess p 0;
      t ← get_obj p;
      if sm_callbackCloseState t =? callbackWaitExit then
        _ ← wg_done p;
        _ ← stream_close p;
        mret tt
      else
        if (0 <? length (sm_pending t))%nat && (sm_callbackInProcess t =? 0) then
          _ ← set_inProcess p 1; async_loop fuel' p
        else wg_done p
  end.

Definition handleStreamMessage (p : nat) (w : bufferSliceWrapper) (state : Z) : M session (option error) :=
  if state =? streamClosed then _ ← halfClose p; mret None
  else fillDataToReadBuffer p w.

(** ** Handlers *)

Definition fallbackDataHeader : Z := 8.

Definition handleFallbackData (h b : list Z) : M session (Z * bool * option error) :=
  eventLen ← Length h;
  let payloadLen := eventLen - headerSize in
  if Z.of_nat (length b) <? payloadLen then mret (0, true, None)
  else
    _ ← @gmake session payloadLen;
    data ← gsub b 0 payloadLen;
    x ← gsub data 0 4;
    let seqID := be_val x in
    y ← gsub data 4 8;
    let status := Z.land (be_val y) 255 in
    _ ← openCircuitBreaker debugMode;
    rest ← gsub data fallbackDataHeader payloadLen;
    d ← on_ss_heap (on_mem (λ m, let a := fresh_key m in
                              Done (GSlice a 0 (Z.of_nat (length rest)) (Z.of_nat (length rest)), <[a := rest]> m)));
    q ← on_ss_heap (newBufferSlice None d 0 false);
    _ ← on_ss_heap (x ← get_slice q; set_slice q (with_indices x (bs_readIndex x) (Z.of_nat (length rest))));
    _ ← count fallbackReadCount 1;
    st ← getStream seqID status;
    match st with
    | None => mret (eventLen, false, None)
    | Some p =>
        err ← handleStreamMessage p (Wrapper (Some q) 0) status;
        mret (eventLen, false, err)
    end.

Fixpoint poll_pop (fuel : nat) (q : queue) (retErr : option error) : M session (bool * option error) :=
  match fuel with
  | O => out_of_fuel
  | S fuel =>
      r ← on_ss_heap (on_mem (queue_pop q));
      match r with
      | inl _ => mret (true, retErr)
      | inr ele =>
          let state := Z.land (status ele) 255 in
          st ← getStream (seqID ele) state;
          match st with
          | None =>
              if state =? streamOpened then
                bm ← sess ss_bufferManager;
                r ← on_ss_heap (readBufferSlice bm (offsetInShmBuf ele));
                match r with
                | inl e => mret (false, Some e)
                | inr slice =>
                    f ← shm_fuel;
                    _ ← on_ss_heap (recycleBuffers f bm (Some slice));
                    poll_pop fuel q retErr
                end
              else poll_pop fuel q retErr
          | Some p =>
              err ← handleStreamMessage p (Wrapper None (offsetInShmBuf ele)) state;
              poll_pop fuel q err
          end
      end
  end.

(** Rounds of popping until the consumer can sleep. *)
Fixpoint poll_rounds (rounds fuel : nat) (q : queue) (retErr : option error) : M session (option error) :=
  match rounds with
  | O => out_of_fuel
  | S rounds =>
      r ← poll_pop fuel q retErr;
      match r with
      | (false, err) => mret err
      | (true, err) =>
          idle ← on_ss_heap (on_mem (markNotWorking q));
          if (idle : bool) then mret err else poll_rounds rounds fuel q err
      end
  end.

(** The queue holds at most its capacity. *)
Definition handlePolling (h b : list Z) : M session (Z * bool * option error) :=
  _ ← count recvPollingEventCount 1;
  q ← recvQueue;
  err ← poll_rounds (Z.to_nat (q_cap q) + 2) (Z.to_nat (q_cap q) + 2) q None;
  mret (headerSize, false, err).

Definition handleHotRestart (h b : list Z) : M session (Z * bool * option error) :=
  if Z.of_nat (length b) <? epochIDLen then mret (0, true, None)
  else
    x ← gsub b 0 epochIDLen;
    _ ← tell (NHotRestart (be_val x));
    mret (headerSize + epochIDLen, false, None).

Definition hotRestartDoneState : Z := 2.

Definition handleHotRestartAck (h b : list Z) : M session (Z * bool * option error) :=
  if Z.of_nat (length b) <? epochIDLen then mret (0, true, None)
  else
    x ← gsub b 0 epochIDLen;
    (** [s.listener] is nil: panic *)
    ep ← sess ss_epoch;
    ep ← of_option ep;
    ack ← sess ss_hotRestartAckCount;
    _ ← (if be_val x =? ep then modify_state (set_restart hotRestartDoneState (ack - 1)) else mret tt);
    mret (headerSize + epochIDLen, false, None).

Definition handleStreamClose (h b : list Z) : M session (Z * bool * option error) :=
  if Z.of_nat (length b) <? 4 then mret (0, true, None)
  else
    x ← gsub b 0 4;
    st ← getStreamById (be_val x);
    match st with
    | None => mret (headerSize + 4, false, None)
    | Some p => _ ← halfClose p; mret (headerSize + 4, false, None)
    end.

Definition protocolHandlers : list (option (@protocolHandler session)) :=
  [None; Some handlePolling; Some handleStreamClose; Some handleFallbackData; None; None; None; None;
   Some handleHotRestart; Some handleHotRestartAck].

(** ** Metrics *)

Record metrics := Metrics {
  mt_sendQueueCount : Z; mt_receiveQueueCount : Z; mt_capacity : Z; mt_inUsed : Z; mt_activeStreams : Z; mt_stats : stats
}.

Fixpoint shm_bytes (ls : list bufferList) (all used : Z) : M gmem (Z * Z) :=
  match ls with
  | [] => mret (all, used)
  | l :: ls =>
      cap ← load_u32 (bl_cap l);
      per ← load_u32 (bl_capPerBuffer l);
      size ← load_i32 (bl_size l);
      shm_bytes ls (u32 (all + u32 (cap * per))) (u32 (used + u32 (u32 (cap - u32 size) * per)))
  end.

Definition GetMetrics : M session metrics :=
  active ← GetActiveStreamCount;
  closed ← IsClosed;
  qm ← sess ss_queueManager;
  qs ← match qm with
       | Some qm =>
           if (closed : bool) then mret (0, 0)
           else
             x ← on_ss_heap (on_mem (load_i64 (q_tail (qm_sendQueue qm))));
             y ← on_ss_heap (on_mem (load_i64 (q_tail (qm_recvQueue qm))));
             mret (u64 x, u64 y)
       | None => mret (0, 0)
       end;
  bm ← sess ss_bufferManager;
  bs ← (if (closed : bool) then mret (0, 0) else on_ss_heap (on_mem (shm_bytes (bm_lists bm) 0 0)));
  st ← sess ss_stats;
  mret (Metrics qs.1 qs.2 bs.1 bs.2 active st).
End session.
