(* ===== verification/SessionProofs.v ===== *)
(** * The life of streams and sessions

    Relations between the state before and after an operation, a small calculus
    to show that an operation respects such a relation, and the theorems on
    the life cycle of streams and the dispatch of events. *)

From Stdlib Require Import ZArith Lia.
From stdpp Require Import prelude list gmap strings.
From S2P Require Import Prelude GoMem Queue BufferSlice BufferList BufferManager Allocator ShmAllocator LinkedBuffer Protocol Events Session.

(** ** Computations of a session that respect a relation *)

Section keeps_session.
Context (R : session → session → Prop) `{!PreOrder R}.

Lemma keeps_sess {A} (f : session → A) : keeps R (sess f).
Proof. by apply keeps_reads. Qed.
Lemma keeps_get_obj p : keeps R (get_obj p).
Proof. intros s t s'. unfold get_obj. destruct (ss_objs s !! p); [|done]. intros [= _ <-]. reflexivity. Qed.
Lemma keeps_heap {A} (m : M heap A) : (∀ s h, R s (set_ss_heap h s)) → keeps R (on_ss_heap m).
Proof. intros Hh. by apply keeps_zoom. Qed.
Lemma keeps_gsub l lo hi : keeps R (gsub l lo hi).
Proof. by apply keeps_of_option. Qed.
Lemma keeps_gput l o bs : keeps R (gput l o bs).
Proof. by apply keeps_of_option. Qed.
Lemma keeps_gindex l i : keeps R (gindex l i).
Proof. by apply keeps_of_option. Qed.
Lemma keeps_gmake n : keeps R (gmake n).
Proof. unfold gmake. destruct (n <? 0); [apply keeps_panic|by apply keeps_ret]. Qed.
End keeps_session.

(** ** Progress of a stream *)

Definition state_le (a b : Z) : Prop :=
  a = b ∨ (a ≠ streamClosed ∧ b = streamClosed) ∨ (a = streamOpened ∧ b = streamHalfClosed).

#[global] Instance state_le_preorder : PreOrder state_le.
Proof.
  split; [by left|]. unfold state_le, streamClosed, streamOpened, streamHalfClosed. intros a b c. lia.
Qed.

Record stream_le (t t' : stream) : Prop := {
  sl_id : sm_id t' = sm_id t;
  sl_state : state_le (sm_state t) (sm_state t');
  sl_notified : sm_closeNotified t = true → sm_closeNotified t' = true
}.

#[global] Instance stream_le_preorder : PreOrder stream_le.
Proof.
  split; [intros t; by constructor|]. intros t1 t2 t3 [] []. constructor; [congruence|by etransitivity|auto].
Qed.

(** Under every id of the session's map is a stream of that id. *)
Definition map_ok (s : session) : Prop :=
  ∀ m id p, ss_streams s = Some m → m !! id = Some p → ∃ t, ss_objs s !! p = Some t ∧ sm_id t = id.

(** The machine types of the fields: a stream is in one of its three states, the
    next id is a [uint32]; and a session that is shut down has a reason, which
    is recorded before the channel that tells of it is closed. *)
Record typed (s : session) : Prop := {
  ty_state : ∀ p t, ss_objs s !! p = Some t →
    sm_state t = streamOpened ∨ sm_state t = streamClosed ∨ sm_state t = streamHalfClosed;
  ty_next : 0 ≤ ss_nextStreamID s < 2 ^ 32;
  ty_err : ss_shutdown s = true → is_Some (ss_shutdownErr s);
  ty_ch : ss_shutdownCh s = true → ss_shutdown s = true
}.

(** Every stream object is kept and only moves forward, and so does the session. *)
Record life (s s' : session) : Prop := {
  li_objs : ∀ p t, ss_objs s !! p = Some t → ∃ t', ss_objs s' !! p = Some t' ∧ stream_le t t';
  li_down : ss_shutdown s = true → ss_shutdown s' = true;
  li_err : ∀ e, ss_shutdownErr s = Some e → ss_shutdownErr s' = Some e;
  li_client : ss_isClient s' = ss_isClient s;
  li_map : map_ok s → map_ok s';
  li_typed : typed s → typed s'
}.

#[global] Instance life_preorder : PreOrder life.
Proof.
  split.
  - intros s. constructor; [|done..]. intros p t Ht. exists t. done.
  - intros s1 s2 s3 [H1 D1 E1 C1] [H2 D2 E2 C2]. constructor; [|auto|auto|congruence|auto|auto].
    intros p t Ht. destruct (H1 p t Ht) as (t2&Ht2&L1). destruct (H2 p t2 Ht2) as (t3&Ht3&L2). exists t3.
    split; [done|by etransitivity].
Qed.

(** The map follows the objects. *)
Lemma map_ok_mono s s' : (∀ p t, ss_objs s !! p = Some t → ∃ t', ss_objs s' !! p = Some t' ∧ sm_id t' = sm_id t) →
  (∀ m id p, ss_streams s' = Some m → m !! id = Some p → ∃ m', ss_streams s = Some m' ∧ m' !! id = Some p) →
  map_ok s → map_ok s'.
Proof.
  intros Ho Hm Hok m id p Em Ei. destruct (Hm m id p Em Ei) as (m'&Em'&Ei'). destruct (Hok m' id p Em' Ei') as (t&Ht&<-).
  by apply Ho.
Qed.

(** States with the same streams and the same end. *)
Lemma life_next s s' : ss_objs s' = ss_objs s → ss_streams s' = ss_streams s → ss_shutdown s' = ss_shutdown s →
  ss_shutdownErr s' = ss_shutdownErr s → ss_shutdownCh s' = ss_shutdownCh s → ss_isClient s' = ss_isClient s →
  (0 ≤ ss_nextStreamID s < 2 ^ 32 → 0 ≤ ss_nextStreamID s' < 2 ^ 32) → life s s'.
Proof.
  intros E1 E2 E3 E4 E5 E6 E7. constructor; rewrite ?E1, ?E3, ?E4; try done; [intros p t Ht; by exists t| |].
  - apply map_ok_mono; rewrite ?E1, ?E2; eauto.
  - intros []. constructor; rewrite ?E1, ?E3, ?E4, ?E5; auto.
Qed.
Lemma life_same s s' : ss_objs s' = ss_objs s → ss_streams s' = ss_streams s → ss_shutdown s' = ss_shutdown s →
  ss_shutdownErr s' = ss_shutdownErr s → ss_shutdownCh s' = ss_shutdownCh s → ss_isClient s' = ss_isClient s →
  ss_nextStreamID s' = ss_nextStreamID s → life s s'.
Proof. intros E1 E2 E3 E4 E5 E6 E7. apply life_next; try done. by rewrite E7. Qed.

Lemma life_heap s h : life s (set_ss_heap h s).
Proof. by apply life_same. Qed.

(** An object that moves forward. *)
Lemma life_obj s p t t' : ss_objs s !! p = Some t → stream_le t t' → life s (set_objs (<[p := t']> (ss_objs s)) s).
Proof.
  intros Ht Hle.
  assert (∀ q x, ss_objs s !! q = Some x → ∃ x', <[p := t']> (ss_objs s) !! q = Some x' ∧ stream_le x x') as Ho.
  { intros q x Hq. destruct (decide (p = q)) as [<-|Hne].
    - rewrite lookup_insert_eq. rewrite Ht in Hq. injection Hq as <-. eauto.
    - rewrite lookup_insert_ne by done. by exists x. }
  constructor; [exact Ho|done..| |].
  - apply map_ok_mono; [|cbn; eauto]. intros q x Hq. destruct (Ho q x Hq) as (x'&Hx'&[]). eauto.
  - intros []. constructor; try done. intros q x. cbn [ss_objs set_objs]. rewrite lookup_insert_Some.
    intros [[<- <-]|[_ Hq]]; [|eauto]. specialize (ty_state0 p t Ht). destruct Hle as [_ Hs _]. unfold state_le in Hs.
    destruct Hs as [<-|[[_ ->]|[_ ->]]]; auto.
Qed.

Lemma keeps_upd_obj p f : (∀ t, stream_le t (f t)) → keeps life (upd_obj p f).
Proof.
  intros Hf s a s' (t&s1&E1&E2)%bind_done_inv. unfold get_obj in E1. destruct (ss_objs s !! p) as [t0|] eqn:Ht; [|done].
  injection E1 as <- <-. injection E2 as _ <-. by eapply life_obj.
Qed.

Lemma newStream_life id s : life s (set_objs (<[fresh_key (ss_objs s) := Stream id streamOpened bound_buffer bound_buffer [] false false 0 0 false None 0 0 0 None]> (ss_objs s)) s).
Proof.
  assert (∀ q x t', ss_objs s !! q = Some x → <[fresh_key (ss_objs s) := t']> (ss_objs s) !! q = Some x) as Ho.
  { intros q x t' Hq. rewrite lookup_insert_ne; [done|]. intros <-. by rewrite fresh_key_None in Hq. }
  constructor; [|done..| |].
  - intros q x Hq. exists x. split; [by apply Ho|reflexivity].
  - apply map_ok_mono; [|cbn; eauto]. intros q x Hq. exists x. split; [by apply Ho|done].
  - intros []. constructor; try done. intros q x. cbn [ss_objs set_objs]. rewrite lookup_insert_Some.
    intros [[_ <-]|[_ Hq]]; [by left|eauto].
Qed.
Lemma keeps_newStream id : keeps life (newStream id).
Proof. intros s p s' [= _ <-]. apply newStream_life. Qed.

Create HintDb life.
#[export] Hint Resolve keeps_newStream life_heap : life.

(** The computations that keep every preorder. *)
Ltac keeps_pure :=
  first [ apply keeps_ret | apply keeps_panic | apply keeps_fuel | apply keeps_sess | apply keeps_get | apply keeps_of_option
        | apply keeps_get_obj | apply keeps_gsub | apply keeps_gput | apply keeps_gindex | apply keeps_gmake ];
  typeclasses eauto.

(** Walk over the computation. *)
Ltac keeps_step :=
  match goal with
  | |- keeps _ (_ ≫= _) => apply keeps_bind; [typeclasses eauto| |intros ?]
  | |- keeps _ (if ?b then _ else _) => destruct b
  | |- keeps _ (match ?x with _ => _ end) => destruct x
  | |- keeps _ (modify_state _) => apply keeps_modify; intros ?
  | |- keeps _ (upd_obj _ _) => apply keeps_upd_obj; intros ?
  | |- keeps _ (on_ss_heap _) => apply keeps_heap; intros ? ?
  | |- life _ _ => by apply life_same
  | |- stream_le _ _ => constructor; [done|by left|done]
  end.
Ltac keeps_auto := repeat first [solve [eauto 3 with life] | solve [keeps_pure] | progress cbv beta zeta | keeps_step].

Lemma keeps_on_buf {A} get put p (m : M lbst A) :
  (∀ b t, stream_le t (put b t)) → keeps life (on_buf get put p m).
Proof.
  intros Hp. unfold on_buf. keeps_auto.
Qed.

Lemma keeps_on_recvBuf {A} p (m : M lbst A) : keeps life (on_recvBuf p m).
Proof. apply keeps_on_buf. intros. by constructor; [|left|]. Qed.
Lemma keeps_on_sendBuf {A} p (m : M lbst A) : keeps life (on_sendBuf p m).
Proof. apply keeps_on_buf. intros. by constructor; [|left|]. Qed.
Lemma keeps_count c d : keeps life (count c d).
Proof. unfold count. keeps_auto. Qed.
Lemma keeps_tell n : keeps life (tell n).
Proof. unfold tell. keeps_auto. Qed.
#[export] Hint Resolve keeps_on_recvBuf keeps_on_sendBuf keeps_count keeps_tell : life.

Lemma keeps_getStreamState p : keeps life (getStreamState p).
Proof. unfold getStreamState. keeps_auto. Qed.
Lemma keeps_getCallbacks p : keeps life (getCallbacks p).
Proof. unfold getCallbacks. keeps_auto. Qed.
#[export] Hint Resolve keeps_getStreamState keeps_getCallbacks : life.
Lemma keeps_IsOpen p : keeps life (IsOpen p).
Proof. unfold IsOpen. keeps_auto. Qed.
Lemma keeps_IsClosed : keeps life IsClosed.
Proof. unfold IsClosed. keeps_auto. Qed.
Lemma keeps_IsHealthy : keeps life IsHealthy.
Proof. unfold IsHealthy. keeps_auto. Qed.
Lemma keeps_safeCloseNotify p : keeps life (safeCloseNotify p).
Proof. unfold safeCloseNotify. keeps_auto. Qed.
#[export] Hint Resolve keeps_IsOpen keeps_IsClosed keeps_IsHealthy keeps_safeCloseNotify : life.

(** ** Operations *)

Lemma keeps_move_chain fuel : ∀ p offset, keeps life (move_chain fuel p offset).
Proof. induction fuel as [|fuel IH]; intros p offset; cbn [move_chain]; keeps_auto. Qed.
#[export] Hint Resolve keeps_move_chain : life.
Lemma keeps_move_loop fuel p unread : keeps life (move_loop fuel p unread).
Proof. induction unread as [|w unread IH]; cbn [move_loop]; keeps_auto. Qed.
#[export] Hint Resolve keeps_move_loop : life.
Lemma keeps_shm_fuel : keeps life shm_fuel.
Proof. unfold shm_fuel. keeps_auto. Qed.
#[export] Hint Resolve keeps_shm_fuel : life.
Lemma keeps_moveTo p : keeps life (moveTo p).
Proof. unfold moveTo, moveToWithoutLock. keeps_auto. Qed.
Lemma keeps_pending_add p w : keeps life (pending_add p w).
Proof. unfold pending_add. keeps_auto. Qed.
Lemma keeps_clear_loop fuel unread : keeps life (clear_loop fuel unread).
Proof. induction unread as [|w unread IH]; cbn [clear_loop]; keeps_auto. Qed.
#[export] Hint Resolve keeps_moveTo keeps_pending_add keeps_clear_loop : life.
Lemma keeps_pending_clear p : keeps life (pending_clear p).
Proof. unfold pending_clear. keeps_auto. Qed.
#[export] Hint Resolve keeps_pending_clear : life.

Lemma keeps_map_lookup id : keeps life (map_lookup id).
Proof. unfold map_lookup. keeps_auto. Qed.
(** Fewer entries. *)
Lemma life_map s mm : (∀ m id p, mm = Some m → m !! id = Some p → ∃ m', ss_streams s = Some m' ∧ m' !! id = Some p) →
  life s (set_streams mm s).
Proof.
  intros Hm. constructor; try done; [intros p t Ht; by exists t| |].
  - by apply map_ok_mono; [eauto|].
  - intros []. by constructor.
Qed.
Lemma keeps_map_delete id : keeps life (map_delete id).
Proof.
  unfold map_delete. apply keeps_modify. intros s. apply life_map. intros m id' p Em Hp.
  destruct (ss_streams s) as [m'|]; [|done]. injection Em as <-. apply lookup_delete_Some in Hp as [_ Hp]. eauto.
Qed.
#[export] Hint Resolve keeps_map_lookup keeps_map_delete : life.

(** A new stream is registered under its id. *)
Lemma register_life s id p m :
  p = fresh_key (ss_objs s) → ss_streams s = Some m →
  life s (set_streams (Some (<[id := p]> m)) (set_objs (<[p := Stream id streamOpened bound_buffer bound_buffer [] false false 0 0 false None 0 0 0 None]> (ss_objs s)) s)).
Proof.
  intros -> Em. pose proof (newStream_life id s) as [Ho Hd He Hc Hm Ht]. constructor; [exact Ho|done..| |].
  2: { intros Hty. destruct (Ht Hty). by constructor. }
  intros Hok m' id' q [= <-] Hq. apply lookup_insert_Some in Hq as [[<- <-]|[_ Hq]].
  - eexists. split; [apply lookup_insert_eq|done].
  - apply (Hm Hok m id' q); done.
Qed.

Lemma new_registered s s1 s2 s3 id p x :
  newStream id s = Done (p, s1) → s2 = s1 → map_insert id p s2 = Done (x, s3) → life s s3.
Proof.
  intros [= <- <-] -> E. unfold map_insert in E. cbn [ss_streams set_objs] in E.
  destruct (ss_streams s) as [m|] eqn:Em; [|done]. injection E as _ <-. by apply register_life.
Qed.

Lemma keeps_OpenStream : keeps life OpenStream.
Proof.
  unfold OpenStream. apply keeps_bind; [typeclasses eauto|keeps_auto|intros closed].
  destruct closed; [keeps_auto|]. apply keeps_bind; [typeclasses eauto|keeps_auto|intros healthy].
  destruct (negb healthy); [keeps_auto|].
  intros s a s' (id&s0&E0&E)%bind_done_inv. injection E0 as Eid <-. apply bind_done_inv in E as ([]&s0&E0&E).
  injection E0 as Es0. transitivity s0.
  { rewrite <- Es0. apply life_next; try done. intros _. cbn. rewrite <- Eid. apply u32_range. }
  clear Es0 Eid. apply bind_done_inv in E as (p&s1&E1&E). apply bind_done_inv in E as (old&s2&E2&E). injection E2 as <- <-.
  destruct (match ss_streams s1 with Some m => m !! id | None => None end).
  - injection E as _ <-. by eapply keeps_newStream.
  - apply bind_done_inv in E as (x&s3&E3&E). injection E as _ <-. by eapply new_registered.
Qed.
Lemma keeps_AcceptStream : keeps life AcceptStream.
Proof. unfold AcceptStream. keeps_auto. Qed.
Lemma keeps_getStream id st : keeps life (getStream id st).
Proof.
  unfold getStream. apply keeps_bind; [typeclasses eauto|keeps_auto|intros old].
  apply keeps_bind; [typeclasses eauto|keeps_auto|intros client].
  destruct (_ && _ && _); [|keeps_auto].
  intros s a s' (p&s1&E1&E)%bind_done_inv. apply bind_done_inv in E as (x&s2&E2&E). transitivity s2; [by eapply new_registered|].
  revert E. apply (keeps_bind life); [keeps_auto|]. intros ?. keeps_auto.
Qed.
Lemma keeps_openCircuitBreaker d : keeps life (openCircuitBreaker d).
Proof. unfold openCircuitBreaker. keeps_auto. Qed.
#[export] Hint Resolve keeps_OpenStream keeps_AcceptStream keeps_getStream keeps_openCircuitBreaker : life.

(** The transition from open to half closed. *)
Lemma upd_half p s t a s' :
  ss_objs s !! p = Some t → sm_state t = streamOpened → upd_obj p (with_state streamHalfClosed) s = Done (a, s') → life s s'.
Proof.
  intros Ht Ho E. unfold upd_obj in E. erewrite bind_done in E by (unfold get_obj; by rewrite Ht). injection E as _ <-.
  apply (life_obj _ _ t); [done|]. constructor; [done| |done]. right. right. done.
Qed.

Lemma get_obj_inv p s t s' : get_obj p s = Done (t, s') → s' = s ∧ ss_objs s !! p = Some t.
Proof. unfold get_obj. destruct (ss_objs s !! p); [|done]. by intros [= <- <-]. Qed.

Lemma keeps_halfClose p : keeps life (halfClose p).
Proof.
  intros s a s'. unfold halfClose. intros (st&s1&E1&E2)%bind_done_inv.
  unfold getStreamState in E1. apply bind_done_inv in E1 as (t&s2&E1&E3). injection E3 as <- <-.
  apply get_obj_inv in E1 as [-> Ht].
  destruct (sm_state t =? streamOpened) eqn:Eo; breflect; [|injection E2 as _ <-; reflexivity].
  apply bind_done_inv in E2 as ([]&s3&E4&E2). transitivity s3; [by eapply upd_half|].
  revert E2. apply (keeps_bind life); [keeps_auto|]. intros ?. keeps_auto.
Qed.
#[export] Hint Resolve keeps_halfClose : life.

Lemma keeps_stream_clean p : keeps life (stream_clean p).
Proof. unfold stream_clean, onStreamClose. keeps_auto. Qed.
#[export] Hint Resolve keeps_stream_clean : life.

Lemma keeps_notify_all ps : keeps life (notify_all ps).
Proof. induction ps as [|p ps IH]; cbn [notify_all]; keeps_auto. Qed.
#[export] Hint Resolve keeps_notify_all : life.

(** Closing the session: the first error stays. *)
Lemma life_shutdown s b ch e :
  (ss_shutdown s = true → b = true) → (∀ x, ss_shutdownErr s = Some x → e = Some x) →
  (typed s → b = true → is_Some e) → (typed s → ch = true → b = true) → life s (set_shutdown b e ch s).
Proof.
  intros Hb He Hbe Hch. constructor; cbn; [|done|intros; by eapply He|done| |]; [intros p t Ht; by exists t| |].
  - apply map_ok_mono; cbn; eauto.
  - intros Ht. pose proof Ht as []. constructor; cbn; auto.
Qed.

Lemma keeps_close_marked : keeps life (
  e ← sess ss_shutdownErr;
  cb ← sess ss_listenCallback;
  _ ← (if (cb : bool) then tell (NOnShutdown (default ErrSessionShutdown e)) else mret tt);
  ps ← live_streams;
  notify_all ps).
Proof. unfold live_streams. keeps_auto. Qed.

Lemma keeps_Session_Close : keeps life Session_Close.
Proof.
  unfold Session_Close. apply keeps_bind; [typeclasses eauto|keeps_auto|intros closed].
  destruct closed; [keeps_auto|].
  intros s a s' ([]&s1&E1&E)%bind_done_inv. injection E1 as Es1.
  assert (life s s1) as L1 by (rewrite <- Es1; apply life_shutdown; [done|by intros x ->|eauto|by intros []; auto]).
  assert (ss_shutdown s1 = true) as D1 by (by rewrite <- Es1). clear Es1.
  apply bind_done_inv in E as (e&s2&E2&E). apply bind_done_inv in E as (cb&s3&E3&E).
  apply bind_done_inv in E as (?&s4&E4&E). apply bind_done_inv in E as (ps&s5&E5&E). apply bind_done_inv in E as (?&s6&E6&E).
  assert (life s1 s6) as L2.
  { eapply (keeps_close_marked s1). erewrite bind_done by exact E2. erewrite bind_done by exact E3.
    erewrite bind_done by exact E4. erewrite bind_done by exact E5. exact E6. }
  pose proof (li_down _ _ L2 D1) as D6. transitivity s1; [done|]. transitivity s6; [done|]. clear L1 L2 E2 E3 E4 E5 E6.
  revert E. clear D1. revert D6. intros D6 ([]&s7&E7&E)%bind_done_inv. injection E7 as Es7. transitivity s7.
  - rewrite <- Es7. apply life_shutdown; [done|done|by intros []; auto|done].
  - revert E. apply (keeps_bind life); [keeps_auto|]. intros ?. keeps_auto.
Qed.
#[export] Hint Resolve keeps_Session_Close : life.

Lemma keeps_exitErr e : keeps life (exitErr e).
Proof.
  unfold exitErr.
  repeat first [solve [eauto 3 with life] | solve [keeps_pure] | progress cbv beta zeta
               | apply keeps_modify; intros ?; apply life_shutdown; [done|by intros x ->|eauto|by intros []; auto] | keeps_step].
Qed.
#[export] Hint Resolve keeps_exitErr : life.

Section env.
(** What other goroutines do while an operation waits respects the relation. *)
Context (conn_write : list Z → M session (option error)) (debugMode : bool).
Context (select_send : M session sel) (select_result : M session (sel * option error)).
Context (select_retry : nat → M session retry) (select_read : nat → M session wakeup).
Context (wait_async : nat → M session unit) (onData : nat → M session unit).
Hypothesis env_write : ∀ data, keeps life (conn_write data).
Hypothesis env_send : keeps life select_send.
Hypothesis env_result : keeps life select_result.
Hypothesis env_retry : ∀ p, keeps life (select_retry p).
Hypothesis env_read : ∀ p, keeps life (select_read p).
Hypothesis env_async : ∀ p, keeps life (wait_async p).
Hypothesis env_data : ∀ p, keeps life (onData p).
Hint Resolve env_write env_send env_result env_retry env_read env_async env_data : life.

Lemma keeps_writeEventData data : keeps life (writeEventData conn_write data).
Proof. unfold writeEventData. keeps_auto. Qed.
Hint Resolve keeps_writeEventData : life.
Lemma keeps_send_round : keeps life (send_round conn_write).
Proof. unfold send_round. keeps_auto. Qed.
Lemma keeps_waitForSend h b : keeps life (waitForSend select_send select_result h b).
Proof. unfold waitForSend, the_shutdownErr. keeps_auto. Qed.
Lemma keeps_sendQueue : keeps life sendQueue.
Proof. unfold sendQueue. keeps_auto. Qed.
Lemma keeps_recvQueue : keeps life recvQueue.
Proof. unfold recvQueue. keeps_auto. Qed.
Hint Resolve keeps_send_round keeps_waitForSend keeps_sendQueue keeps_recvQueue : life.
Lemma keeps_write_or_queue data : keeps life (write_or_queue conn_write data).
Proof. unfold write_or_queue. keeps_auto. Qed.
Hint Resolve keeps_write_or_queue : life.
Lemma keeps_polling : keeps life pollingEventWithVersion.
Proof. unfold pollingEventWithVersion. generalize (Z.to_nat maxSupportProtoVersion + 1)%nat as n.
  induction n as [|n IH]; cbn [polling_init]; unfold new_header, header_encode; keeps_auto. Qed.
Hint Resolve keeps_polling : life.
Lemma keeps_wakeUpPeer : keeps life (wakeUpPeer conn_write).
Proof. unfold wakeUpPeer. keeps_auto. Qed.
Lemma keeps_hotRestart e x : keeps life (hotRestart conn_write e x).
Proof. unfold hotRestart, header_encode. keeps_auto. Qed.
Lemma keeps_writeFallback p st : keeps life (writeFallback debugMode select_send select_result p st).
Proof. unfold writeFallback, fallbackDataEvent_encode. keeps_auto. Qed.
Lemma keeps_put_element p st : keeps life (put_element p st).
Proof. unfold put_element. keeps_auto. Qed.
Hint Resolve keeps_wakeUpPeer keeps_hotRestart keeps_writeFallback keeps_put_element : life.
Lemma keeps_retry_loop n : ∀ p st err, keeps life (retry_loop select_retry n p st err).
Proof. induction n as [|n IH]; intros p st err; cbn [retry_loop]; keeps_auto. Qed.
Hint Resolve keeps_retry_loop : life.
Lemma keeps_flush_body p st : keeps life (flush_body conn_write debugMode select_send select_result select_retry p st).
Proof. unfold flush_body. keeps_auto. Qed.
Hint Resolve keeps_flush_body : life.
Lemma keeps_Flush p e : keeps life (Flush conn_write debugMode select_send select_result select_retry p e).
Proof. unfold Flush. keeps_auto. Qed.
Hint Resolve keeps_Flush : life.
Lemma keeps_copyWriteAndFlush p d : keeps life (copyWriteAndFlush conn_write debugMode select_send select_result select_retry p d).
Proof. unfold copyWriteAndFlush. keeps_auto. Qed.
Lemma keeps_readMore_loop fuel : ∀ p n, keeps life (readMore_loop select_read fuel p n).
Proof. induction fuel as [|fuel IH]; intros p n; cbn [readMore_loop]; keeps_auto. Qed.
Hint Resolve keeps_copyWriteAndFlush keeps_readMore_loop : life.
Lemma keeps_readMore fuel p n : keeps life (Stream_readMore select_read fuel p n).
Proof. unfold Stream_readMore. keeps_auto. Qed.
Hint Resolve keeps_readMore : life.
Lemma keeps_Stream_Read fuel p d : keeps life (Stream_Read select_read fuel p d).
Proof. unfold Stream_Read, copyRead. keeps_auto. Qed.
Lemma keeps_Stream_Write p d : keeps life (Stream_Write conn_write debugMode select_send select_result select_retry p d).
Proof. unfold Stream_Write. keeps_auto. Qed.

Lemma stream_le_closed t : stream_le t (with_state streamClosed t).
Proof.
  constructor; [done| |done]. cbn. unfold state_le. destruct (decide (sm_state t = streamClosed)); auto.
Qed.
Hint Resolve stream_le_closed : life.

Lemma keeps_stream_close p : keeps life (stream_close conn_write select_send select_result wait_async p).
Proof. unfold stream_close, header_encode. keeps_auto. Qed.
Hint Resolve keeps_stream_close : life.

Lemma keeps_Stream_Close p : keeps life (Stream_Close conn_write select_send select_result wait_async p).
Proof.
  unfold Stream_Close. apply keeps_bind; [typeclasses eauto|keeps_auto|intros c].
  apply keeps_bind; [typeclasses eauto|keeps_auto|intros _].
  intros s a s' (t&s1&E1&E2)%bind_done_inv. apply get_obj_inv in E1 as [-> Ht].
  destruct (sm_callbackInProcess t =? 1); [|by eapply keeps_stream_close].
  apply bind_done_inv in E2 as ([]&s2&E2&E3). injection E3 as _ <-.
  destruct (sm_state t =? streamOpened) eqn:Eo; breflect; [by eapply upd_half|]. injection E2 as <-. reflexivity.
Qed.
Hint Resolve keeps_Stream_Close : life.

Lemma keeps_close_all ps : keeps life (close_all conn_write select_send select_result wait_async ps).
Proof. induction ps as [|p ps IH]; cbn [close_all]; keeps_auto. Qed.
Hint Resolve keeps_close_all : life.
Lemma keeps_close_lambda : keeps life (close_lambda conn_write select_send select_result wait_async).
Proof.
  unfold close_lambda, live_streams.
  repeat first [solve [eauto 3 with life] | solve [keeps_pure] | progress cbv beta zeta
               | apply keeps_modify; intros ?; apply life_map; done | keeps_step].
Qed.
Lemma keeps_stream_reset p : keeps life (stream_reset p).
Proof. unfold stream_reset. keeps_auto. Qed.
Lemma keeps_ReleaseReadAndReuse p : keeps life (ReleaseReadAndReuse p).
Proof. unfold ReleaseReadAndReuse. keeps_auto. Qed.
Lemma keeps_fill p w : keeps life (fillDataToReadBuffer p w).
Proof. unfold fillDataToReadBuffer. keeps_auto. Qed.
Hint Resolve keeps_close_lambda keeps_stream_reset keeps_ReleaseReadAndReuse keeps_fill : life.
Lemma keeps_async_data fuel : ∀ p, keeps life (async_data onData fuel p).
Proof. induction fuel as [|fuel IH]; intros p; cbn [async_data]; keeps_auto. Qed.
Hint Resolve keeps_async_data : life.
Lemma keeps_async_loop fuel : ∀ p, keeps life (async_loop conn_write select_send select_result wait_async onData fuel p).
Proof. induction fuel as [|fuel IH]; intros p; cbn [async_loop]; unfold set_inProcess, wg_done; keeps_auto. Qed.
Lemma keeps_handleStreamMessage p w st : keeps life (handleStreamMessage p w st).
Proof. unfold handleStreamMessage. keeps_auto. Qed.
Hint Resolve keeps_async_loop keeps_handleStreamMessage : life.
Lemma keeps_poll_pop fuel : ∀ q e, keeps life (poll_pop fuel q e).
Proof. induction fuel as [|fuel IH]; intros q e; cbn [poll_pop]; keeps_auto. Qed.
Hint Resolve keeps_poll_pop : life.
Lemma keeps_poll_rounds n : ∀ fuel q e, keeps life (poll_rounds n fuel q e).
Proof. induction n as [|n IH]; intros fuel q e; cbn [poll_rounds]; keeps_auto. Qed.
Hint Resolve keeps_poll_rounds : life.
Lemma keeps_handlePolling h b : keeps life (handlePolling h b).
Proof. unfold handlePolling. keeps_auto. Qed.
Lemma keeps_handleFallbackData h b : keeps life (handleFallbackData debugMode h b).
Proof. unfold handleFallbackData, Length. keeps_auto. Qed.
Lemma keeps_handleHotRestart h b : keeps life (handleHotRestart h b).
Proof. unfold handleHotRestart. keeps_auto. Qed.
Lemma keeps_handleHotRestartAck h b : keeps life (handleHotRestartAck h b).
Proof. unfold handleHotRestartAck. keeps_auto. Qed.
Lemma keeps_handleStreamClose h b : keeps life (handleStreamClose h b).
Proof. unfold handleStreamClose, getStreamById. keeps_auto. Qed.
Hint Resolve keeps_handlePolling keeps_handleFallbackData keeps_handleHotRestart keeps_handleHotRestartAck
  keeps_handleStreamClose : life.
End env.

(** ** Programs *)

(** The environment of a process: the socket, the waits, the user's callback. *)
Record env := Env {
  en_write : list Z → M session (option error);
  en_debug : bool;
  en_send : M session sel;
  en_result : M session (sel * option error);
  en_retry : nat → M session retry;
  en_read : nat → M session wakeup;
  en_async : nat → M session unit;
  en_data : nat → M session unit
}.

(** What happens while an operation waits is itself made of such steps. *)
Record env_life (e : env) : Prop := {
  el_write : ∀ data, keeps life (en_write e data);
  el_send : keeps life (en_send e);
  el_result : keeps life (en_result e);
  el_retry : ∀ p, keeps life (en_retry e p);
  el_read : ∀ p, keeps life (en_read e p);
  el_async : ∀ p, keeps life (en_async e p);
  el_data : ∀ p, keeps life (en_data e p)
}.

Inductive sop :=
  | OOpen | OAccept | OFlush (p : nat) | OWrite (p : nat) (data : list Z) | OReadMore (fuel : nat) (p : nat) (n : Z) | ORead (fuel : nat) (p : nat) (d : gslice)
  | OClose (p : nat) | OReset (p : nat) | OReuse (p : nat) | OSetCallbacks (p c : nat) | OAsync (fuel : nat) (p : nat)
  | OSessionClose | OExit (e : error) | OCloseLambda | OSendRound | OHealthTimer | OHotRestart (epoch event : Z)
  | OHandle (t : nat) (h b : list Z).

Definition run_sop (e : env) (o : sop) : M session unit :=
  match o with
  | OOpen => _ ← OpenStream; mret tt
  | OAccept => _ ← AcceptStream; mret tt
  | OFlush p => _ ← Flush (en_write e) (en_debug e) (en_send e) (en_result e) (en_retry e) p false; mret tt
  | OWrite p data => _ ← Stream_Write (en_write e) (en_debug e) (en_send e) (en_result e) (en_retry e) p data; mret tt
  | OReadMore fuel p n => _ ← Stream_readMore (en_read e) fuel p n; mret tt
  | ORead fuel p d => _ ← Stream_Read (en_read e) fuel p d; mret tt
  | OClose p => _ ← Stream_Close (en_write e) (en_send e) (en_result e) (en_async e) p; mret tt
  | OReset p => _ ← stream_reset p; mret tt
  | OReuse p => ReleaseReadAndReuse p
  | OSetCallbacks p c => _ ← SetCallbacks p c; mret tt
  | OAsync fuel p => async_loop (en_write e) (en_send e) (en_result e) (en_async e) (en_data e) fuel p
  | OSessionClose => _ ← Session_Close; mret tt
  | OExit x => exitErr x
  | OCloseLambda => close_lambda (en_write e) (en_send e) (en_result e) (en_async e)
  | OSendRound => _ ← send_round (en_write e); mret tt
  | OHealthTimer => health_timer_fires
  | OHotRestart epoch event => _ ← hotRestart (en_write e) epoch event; mret tt
  | OHandle t h b =>
      match protocolHandlers (en_debug e) !! t with
      | Some (Some hd) => _ ← hd h b; mret tt
      | _ => mret tt
      end
  end.

Fixpoint run_sops (e : env) (os : list sop) : M session unit :=
  match os with [] => mret tt | o :: os => _ ← run_sop e o; run_sops e os end.

#[export] Hint Resolve keeps_waitForSend keeps_sendQueue keeps_wakeUpPeer : life.
#[export] Hint Resolve keeps_Flush keeps_Stream_Read keeps_Stream_Write keeps_readMore keeps_Stream_Close keeps_stream_reset
  keeps_ReleaseReadAndReuse keeps_async_loop keeps_close_lambda keeps_send_round keeps_hotRestart keeps_handlePolling
  keeps_handleFallbackData keeps_handleHotRestart keeps_handleHotRestartAck keeps_handleStreamClose : life.

Lemma keeps_handler d i hd h b : protocolHandlers d !! i = Some (Some hd) → keeps life (hd h b).
Proof.
  unfold protocolHandlers. intros Hi.
  do 10 (destruct i as [|i]; [cbn in Hi; simplify_eq; eauto with life|]). by destruct i.
Qed.

Lemma keeps_run_sop e o : env_life e → keeps life (run_sop e o).
Proof.
  intros []. destruct o as [| | | | | | | | | | | | | | | | |i h b]; cbn [run_sop]; unfold SetCallbacks, health_timer_fires;
    [..|destruct (protocolHandlers (en_debug e) !! i) as [[hd|]|] eqn:Ei;
        [apply keeps_bind; [typeclasses eauto|by eapply keeps_handler|intros]|..]]; keeps_auto.
Qed.

Lemma keeps_run_sops e os : env_life e → keeps life (run_sops e os).
Proof.
  intros He. induction os as [|o os IH]; cbn [run_sops]; [apply keeps_ret; typeclasses eauto|].
  apply keeps_bind; [typeclasses eauto|by apply keeps_run_sop|intros; exact IH].
Qed.

(** ** A session to run things on *)

Definition demo_bm : bufferManager := manager_of demo_shm 20 0 demo_pairs "a".
Definition demo_bm_mem : gmem :=
  match createBufferManager demo_pairs "a" demo_shm 0 demo_shm_mem with Done (_, m) => m | _ => ∅ end.
Definition demo_qm : queueManager :=
  QueueManager "q" (queue_of false (GSlice 1 0 48 48) 2) (queue_of false (GSlice 1 48 48 48) 2) (GSlice 1 0 96 96)
    Queue.MemMapTypeDevShmFile 0.
Definition demo_session (client : bool) : session :=
  Session (Heap (<[1%nat := replicate 96 0]> demo_bm_mem) ∅ []) ∅ (Some ∅) 1 client 3 false None false false false false [] []
    demo_bm (Some demo_qm) (λ _, 0) 0 false None 0 [].

(** An environment in which nothing else happens. *)
Definition demo_env : env :=
  Env (λ _, mret None) false (mret SelReady) (mret (SelReady, None)) (λ _, mret RetryTimer) (λ _, mret WakeTimeout)
    (λ _, mret tt) (λ _, mret tt).

Lemma demo_env_life : env_life demo_env.
Proof. constructor; intros; apply keeps_ret; typeclasses eauto. Qed.

(** [C21] A stream only moves forward: whatever program of stream, session and
    handler operations runs, and whatever happens while an operation waits, a
    stream that exists goes on to exist under the same id; it changes state
    only from open to half closed and from either to closed, a closed stream
    stays closed, the channel that tells of the end is never reopened, and a
    session that is shut down stays so, for the reason first recorded. *)
Theorem stream_lifecycle e os s s' p t :
  env_life e → run_sops e os s = Done (tt, s') → ss_objs s !! p = Some t →
  ∃ t', ss_objs s' !! p = Some t' ∧ sm_id t' = sm_id t ∧
    (sm_state t' = sm_state t ∨ (sm_state t ≠ streamClosed ∧ sm_state t' = streamClosed) ∨
     (sm_state t = streamOpened ∧ sm_state t' = streamHalfClosed)) ∧
    (sm_closeNotified t = true → sm_closeNotified t' = true) ∧
    (ss_shutdown s = true → ss_shutdown s' = true) ∧
    (∀ x, ss_shutdownErr s = Some x → ss_shutdownErr s' = Some x).
Proof.
  intros He E Ht. destruct (keeps_run_sops e os He s tt s' E) as [Ho Hd Herr _ _ _].
  destruct (Ho p t Ht) as (t'&Ht'&[Hi Hs Hn]). exists t'. split_and!; try done.
  destruct Hs as [Hs|Hs]; [by left|by right].
Qed.

Definition opened_session : session :=
  match run_sops demo_env [OOpen] (demo_session true) with Done (_, s) => s | _ => demo_session true end.

Lemma stream_lifecycle_witness :
  ∃ s' t t', run_sops demo_env [OWrite 0 [1; 2; 3; 4; 5; 6]; OOpen; OClose 0; OSessionClose; OCloseLambda] opened_session
      = Done (tt, s') ∧
    ss_objs opened_session !! 0%nat = Some t ∧ ss_objs s' !! 0%nat = Some t' ∧ sm_id t' = sm_id t ∧
    sm_state t = streamOpened ∧ sm_state t' = streamClosed.
Proof.
  destruct (run_sops demo_env [OWrite 0 [1; 2; 3; 4; 5; 6]; OOpen; OClose 0; OSessionClose; OCloseLambda] opened_session)
    as [[[] s']| |] eqn:E.
  2, 3: vm_compute in E; discriminate E.
  destruct (ss_objs opened_session !! 0%nat) as [t|] eqn:Ht.
  2: { vm_compute in Ht; discriminate Ht. }
  destruct (stream_lifecycle demo_env _ opened_session s' 0%nat t demo_env_life E Ht) as (t'&Ht'&Hid&_).
  exists s', t, t'. split; [reflexivity|]. split; [reflexivity|]. split; [exact Ht'|]. split; [exact Hid|].
  vm_compute in E. injection E as E. vm_compute in Ht. injection Ht as Ht. rewrite <- E in Ht'. vm_compute in Ht'.
  injection Ht' as Ht'. rewrite <- Ht, <- Ht'. split; reflexivity.
Defined.

(** ** Closing *)

Lemma upd_obj_run p f s t : ss_objs s !! p = Some t →
  upd_obj p f s = Done (tt, set_objs (<[p := f t]> (ss_objs s)) s).
Proof. intros Ht. unfold upd_obj. by erewrite bind_done by (unfold get_obj; by rewrite Ht). Qed.

Lemma getStreamState_run p s t : ss_objs s !! p = Some t → getStreamState p s = Done (sm_state t, s).
Proof. intros Ht. unfold getStreamState. by erewrite bind_done by (unfold get_obj; by rewrite Ht). Qed.

(** A closed stream. *)
Definition is_closed (s : session) (p : nat) : Prop := ∃ t, ss_objs s !! p = Some t ∧ sm_state t = streamClosed.

Lemma life_closed s s' p : life s s' → is_closed s p → is_closed s' p.
Proof.
  intros [Ho _ _ _ _ _] (t&Ht&Hc). destruct (Ho p t Ht) as (t'&Ht'&[_ [Hs|[[Hs _]|[Hs _]]] _]); exists t'; split; try done.
  - congruence.
  - rewrite Hc in Hs. discriminate.
Qed.

(** A stream of the asynchronous mode whose callback closes it. *)
Definition closing_env : env :=
  Env (λ _, mret None) false (mret SelReady) (mret (SelReady, None)) (λ _, mret RetryTimer) (λ _, mret WakeTimeout)
    (λ _, mret tt)
    (λ p, _ ← Stream_Close (λ _, mret None) (mret SelReady) (mret (SelReady, None)) (λ _, mret tt) p; mret tt).

(** The messages to the peer: elements of the send queue, and bytes on the
    connection. *)
Definition to_peer : M session (Z * list sendReady) :=
  q ← sendQueue; n ← on_ss_heap (on_mem (queue_size q)); ch ← sess ss_sendCh; mret (n, ch).

(** A stream that is closed from inside of its data callback is closed
    silently: the close takes effect when the callback returns (the state is
    closed and the id is free again), but the peer is sent nothing, neither
    through the queue nor through the connection, and [OnLocalClose] is not
    called; the same close outside of the callback does both. *)
Theorem close_in_callback_silent :
  let arrive := [OSetCallbacks 0 7; OHandle 3 [0; 0; 0; 17; 119; 88; 3; 3] [0; 0; 0; 2; 0; 0; 0; 0; 65]] in
  (∃ s x, run_sops closing_env (arrive ++ [OAsync 3 0]) opened_session = Done (tt, s) ∧
     is_closed s 0 ∧ ss_streams s = Some ∅ ∧ to_peer s = Done ((0, []), x) ∧
     NOnLocalClose 0 ∉ ss_notes s ∧ NOnData 0 ∈ ss_notes s) ∧
  (∃ s x, run_sops demo_env [OSetCallbacks 0 7; OClose 0] opened_session = Done (tt, s) ∧
     is_closed s 0 ∧ to_peer s = Done ((1, []), x) ∧ NOnLocalClose 0 ∈ ss_notes s).
Proof.
  split.
  - destruct (run_sops closing_env _ opened_session) as [[[] s]| |] eqn:E; [|vm_compute in E; discriminate..].
    vm_compute in E. injection E as <-. eexists _, _. split; [reflexivity|]. split.
    { eexists. split; vm_compute; reflexivity. }
    split; [vm_compute; reflexivity|]. split; [vm_compute; reflexivity|]. cbn [ss_notes]. set_solver.
  - destruct (run_sops demo_env _ opened_session) as [[[] s]| |] eqn:E; [|vm_compute in E; discriminate..].
    vm_compute in E. injection E as <-. eexists _, _. split; [reflexivity|]. split.
    { eexists. split; vm_compute; reflexivity. }
    split; [vm_compute; reflexivity|]. cbn [ss_notes]. set_solver.
Qed.
