(* ===== verification/StreamClose.v ===== *)
(** * Closing a stream ([stream.go])

    What [close] leaves behind: the stream is closed and no longer registered, the
    messages it had not read are dropped, the slices of both of its buffers are back
    with the allocator.  What happens while [close] waits is an environment. *)

From Stdlib Require Import ZArith Lia.
From stdpp Require Import prelude list gmap strings.
From S2P Require Import Prelude GoMem Queue BufferSlice BufferList BufferManager Allocator ShmAllocator LinkedBuffer LinkedBufferProofs Protocol Events Session SessionProofs.

(** ** What the end of [close] leaves alone *)

(** Stream [p] is registered under no id. *)
Definition unlisted (p : nat) (s : session) : Prop := ∀ m id, ss_streams s = Some m → m !! id ≠ Some p.

(** The stream is not registered again and nobody fills its buffers. *)
Definition leaves (p : nat) (s s' : session) : Prop :=
  (unlisted p s → unlisted p s') ∧
  ∀ t, ss_objs s !! p = Some t → ∃ t', ss_objs s' !! p = Some t' ∧
    sm_pending t' = sm_pending t ∧ sm_recvBuf t' = sm_recvBuf t ∧ sm_sendBuf t' = sm_sendBuf t.

#[global] Instance leaves_preorder p : PreOrder (leaves p).
Proof.
  split; [intros s; split; [done|]; intros t Ht; by exists t|]. intros s1 s2 s3 [U1 O1] [U2 O2]. split; [auto|].
  intros t Ht. destruct (O1 t Ht) as (t2&Ht2&?&?&?). destruct (O2 t2 Ht2) as (t3&Ht3&?&?&?). exists t3. split_and!; [done|congruence..].
Qed.

Lemma leaves_same p s s' : ss_streams s' = ss_streams s → ss_objs s' = ss_objs s → leaves p s s'.
Proof. intros E1 E2. split; [unfold unlisted; by rewrite E1|]. rewrite E2. intros t Ht. by exists t. Qed.

Lemma leaves_modify p f : (∀ s, ss_streams (f s) = ss_streams s ∧ ss_objs (f s) = ss_objs s) → keeps (leaves p) (modify_state f).
Proof. intros H. apply keeps_modify. intros s. destruct (H s). by apply leaves_same. Qed.

Lemma leaves_heap {A} p (m : M heap A) : keeps (leaves p) (on_ss_heap m).
Proof. apply keeps_heap. intros. by apply leaves_same. Qed.

Lemma leaves_notify p q : keeps (leaves p) (safeCloseNotify q).
Proof.
  intros s [] s' E. unfold safeCloseNotify, upd_obj in E. apply bind_done_inv in E as (t&s1&[-> Ht]%get_obj_inv&[= <-]).
  split; [done|]. intros u Hu. cbn. destruct (decide (q = p)) as [->|]; [rewrite lookup_insert_eq|rewrite lookup_insert_ne by done; by exists u].
  rewrite Ht in Hu. injection Hu as <-. by exists (with_closeNotified t).
Qed.

Create HintDb leaves.
#[export] Hint Resolve leaves_heap leaves_notify : leaves.
Ltac leaves_step :=
  match goal with
  | |- keeps _ (_ ≫= _) => apply keeps_bind; [typeclasses eauto| |intros ?]
  | |- keeps _ (if ?b then _ else _) => destruct b
  | |- keeps _ (match ?x with _ => _ end) => destruct x
  | |- keeps _ (modify_state _) => by apply leaves_modify
  end.
Ltac leaves_auto := repeat first [solve [eauto 2 with leaves] | solve [keeps_pure] | progress cbv beta zeta | leaves_step].

Section close.
Context (e : env) (p : nat).

(** Whatever happens while [close] notifies the peer leaves the stream alone. *)
Record env_leaves : Prop := {
  ev_write : ∀ data, keeps (leaves p) (en_write e data);
  ev_send : keeps (leaves p) (en_send e);
  ev_result : keeps (leaves p) (en_result e)
}.

Section leaving.
Context (He : env_leaves).

Lemma leaves_notify_all ps : keeps (leaves p) (notify_all ps).
Proof. induction ps; cbn [notify_all]; leaves_auto; done. Qed.
#[local] Hint Resolve leaves_notify_all ev_write ev_send ev_result : leaves.
Lemma leaves_exitErr err : keeps (leaves p) (exitErr err).
Proof. unfold exitErr, Session_Close, IsClosed, live_streams, count, tell. leaves_auto. Qed.
#[local] Hint Resolve leaves_exitErr : leaves.
Lemma leaves_polling : keeps (leaves p) pollingEventWithVersion.
Proof.
  unfold pollingEventWithVersion. generalize (Z.to_nat maxSupportProtoVersion + 1)%nat as n.
  induction n as [|n IH]; cbn [polling_init]; unfold new_header, header_encode; leaves_auto.
Qed.
#[local] Hint Resolve leaves_polling : leaves.
Lemma leaves_wakeUpPeer : keeps (leaves p) (wakeUpPeer (en_write e)).
Proof. unfold wakeUpPeer, sendQueue, count, write_or_queue, writeEventData. leaves_auto. Qed.
Lemma leaves_waitForSend h b : keeps (leaves p) (waitForSend (en_send e) (en_result e) h b).
Proof. unfold waitForSend, the_shutdownErr. leaves_auto. Qed.
#[local] Hint Resolve leaves_wakeUpPeer leaves_waitForSend : leaves.

(** The part of [close] that follows [clean]. *)
Definition close_rest (oldState : Z) : M session (option error) :=
  if oldState =? streamOpened then
    _ ← safeCloseNotify p;
    c ← getCallbacks p;
    closed ← IsClosed;
    _ ← match c with
        | Some _ => if (closed : bool) then tell (NOnRemoteClose p) else tell (NOnLocalClose p)
        | None => mret tt
        end;
    closed ← IsClosed;
    if (closed : bool) then mret None
    else
      t ← get_obj p;
      q ← sendQueue;
      err ← on_ss_heap (on_mem (queue_put q (QueueElement (sm_id t) 0 streamClosed)));
      match err with
      | Some _ =>
          _ ← count queueFullErrorCount 1;
          ev ← gmake (headerSize + 4);
          v ← sess ss_version;
          ev ← header_encode ev (headerSize + 4) v typeStreamClose;
          ev ← gput ev headerSize (be_bytes 4 (sm_id t));
          waitForSend (en_send e) (en_result e) None (Some ev)
      | None => wakeUpPeer (en_write e)
      end
  else mret None.

Lemma leaves_close_rest st : keeps (leaves p) (close_rest st).
Proof. unfold close_rest, getCallbacks, IsClosed, tell, sendQueue, count, header_encode. leaves_auto. Qed.
End leaving.

Lemma life_close_rest st : env_life e → keeps life (close_rest st).
Proof. intros []. unfold close_rest, header_encode. keeps_auto. Qed.

(** ** What [clean] does *)

Lemma clean_loop_end fuel : ∀ st st', clean_loop fuel st = Done (tt, st') → sl_len (lb_sliceList (st_buf st')) ≤ 0.
Proof.
  induction fuel as [|fuel IH]; intros st st' E; cbn [clean_loop] in E; apply bind_done_inv in E as (n&st1&[= <- <-]&E);
    destruct (_ >? 0) eqn:Hn; breflect; try done; try (injection E as <-; lia).
  apply bind_done_inv in E as (?&?&_&E). apply bind_done_inv in E as (?&?&_&E). apply bind_done_inv in E as (?&?&_&E). by eapply IH.
Qed.

(** A buffer that was recycled is empty. *)
Definition emptied (b : linkedBuffer) : Prop := lb_len b = 0 ∧ sl_len (lb_sliceList b) ≤ 0.

Lemma recycle_empties (bm : bufferManager) st st' : recycle bm st = Done (tt, st') → emptied (st_buf st').
Proof.
  unfold recycle. intros (f&st1&_&E)%bind_done_inv. apply bind_done_inv in E as ([]&st2&_&E). unfold clean in E.
  apply bind_done_inv in E as (f'&st3&_&E). apply bind_done_inv in E as ([]&st4&E4&E). apply clean_loop_end in E4.
  do 4 (apply bind_done_inv in E as ([]&?&[= <-]&E)). apply bind_done_inv in E as (n&?&[= <- <-]&[= <-]).
  split; cbn; [lia|done].
Qed.

Lemma on_buf_inv {A} get put (m : M lbst A) s a s' : on_buf get put p m s = Done (a, s') →
  ∃ t b, ss_objs s !! p = Some t ∧ m (LbSt (ss_heap s) (get t) (ss_stats s allocShmErrorCount)) = Done (a, b) ∧
    ss_streams s' = ss_streams s ∧ ss_objs s' = <[p := put (st_buf b) t]> (ss_objs s) ∧ ss_heap s' = st_heap b ∧ ss_bufferManager s' = ss_bufferManager s.
Proof.
  unfold on_buf. intros (t&s1&[-> Ht]%get_obj_inv&E)%bind_done_inv. apply bind_done_inv in E as (s2&s3&[= <- <-]&E).
  destruct (m _) as [[x b]| |] eqn:Em; [|done..]. apply bind_done_inv in E as ([]&s4&[= <-]&E). apply bind_done_inv in E as ([]&s5&E5&[= <- <-]).
  unfold upd_obj in E5. apply bind_done_inv in E5 as (t'&s6&[-> Ht']%get_obj_inv&[= <-]). cbn in Ht'. rewrite Ht in Ht'. injection Ht' as <-.
  by exists t, b.
Qed.

Definition only_heap (s s' : session) : Prop := ∃ h, s' = set_ss_heap h s.
#[local] Instance only_heap_preorder : PreOrder only_heap.
Proof. split; [intros s; exists (ss_heap s); by destruct s|]. intros s1 s2 s3 [h ->] [h' ->]. by exists h'. Qed.

Lemma clear_loop_heap fuel ws : keeps only_heap (clear_loop fuel ws).
Proof.
  induction ws as [|w ws IH]; cbn [clear_loop]; [apply keeps_ret, _|]. destruct (w_fallbackSlice w).
  - apply keeps_bind; [apply _|apply keeps_heap; by eexists|intros _; exact IH].
  - apply keeps_bind; [apply _|apply keeps_sess, _|intros bm]. apply keeps_bind; [apply _|apply keeps_heap; by eexists|intros [?|q]]; [apply keeps_ret, _|].
    apply keeps_bind; [apply _|apply keeps_heap; by eexists|intros _; exact IH].
Qed.

Lemma pending_clear_inv s s' t : ss_objs s !! p = Some t → pending_clear p s = Done (tt, s') →
  ss_streams s' = ss_streams s ∧ ss_bufferManager s' = ss_bufferManager s ∧ (sm_pending t = [] → s' = s) ∧
  ∃ t', ss_objs s' !! p = Some t' ∧ sm_pending t' = [] ∧ sm_recvBuf t' = sm_recvBuf t ∧ sm_sendBuf t' = sm_sendBuf t.
Proof.
  intros Ht. unfold pending_clear. intros (t1&s1&[-> Ht1]%get_obj_inv&E)%bind_done_inv. rewrite Ht in Ht1. injection Ht1 as <-.
  destruct (sm_pending t) as [|w ws] eqn:Ep; [injection E as <-; split_and!; try done; by exists t|].
  apply bind_done_inv in E as (f&s2&E2&E). assert (s2 = s) as -> by (unfold shm_fuel in E2; by injection E2).
  apply bind_done_inv in E as ([]&s3&E3&E). destruct (clear_loop_heap _ _ _ _ _ E3) as [h ->].
  unfold upd_obj in E. apply bind_done_inv in E as (t2&s4&[-> Ht2]%get_obj_inv&[= <-]). cbn in Ht2. rewrite Ht in Ht2. injection Ht2 as <-.
  split_and!; [done|done|done|]. exists (with_pending [] t). cbn. by rewrite lookup_insert_eq.
Qed.

(** [clean] forgets the stream and empties its buffers. *)
Lemma stream_clean_inv s s' t : ss_objs s !! p = Some t → stream_clean p s = Done (tt, s') →
  ss_streams s' = delete (sm_id t) <$> ss_streams s ∧
  ∃ t', ss_objs s' !! p = Some t' ∧ sm_pending t' = [] ∧ emptied (sm_recvBuf t') ∧ emptied (sm_sendBuf t').
Proof.
  intros Ht. unfold stream_clean. intros (t0&s0&[-> Ht0]%get_obj_inv&E)%bind_done_inv. rewrite Ht in Ht0. injection Ht0 as <-.
  apply bind_done_inv in E as (bm&s1&[= <- <-]&E). apply bind_done_inv in E as ([]&s2&[= <-]&E). apply bind_done_inv in E as ([]&s3&E3&E).
  destruct (pending_clear_inv (set_streams (delete (sm_id t) <$> ss_streams s) s) s3 t Ht E3) as (Es3&_&_&t3&Ht3&Hp3&_&_).
  apply bind_done_inv in E as ([]&s4&E4&E5). apply on_buf_inv in E4 as (t4&b4&Ht4&Er&Es4&Eo4&_). rewrite Ht3 in Ht4. injection Ht4 as <-.
  apply on_buf_inv in E5 as (t5&b5&Ht5&Er5&Es5&Eo5&_). rewrite Eo4, lookup_insert_eq in Ht5. injection Ht5 as <-.
  apply recycle_empties in Er, Er5. split; [by rewrite Es5, Es4, Es3|]. eexists. rewrite Eo5, lookup_insert_eq. by split_and!.
Qed.

(** Without unread messages every slice of the two buffers is given back: what is left in
    use is what was in use besides, and what the user has pinned. *)
Lemma stream_clean_releases s s' t ps qs O : ss_objs s !! p = Some t → stream_clean p s = Done (tt, s') → sm_pending t = [] →
  al_inv (ss_bufferManager s) (ss_heap s) (ps ++ qs ++ O) →
  slist_rep (h_slices (ss_heap s)) (lb_sliceList (sm_recvBuf t)) ps None → slist_rep (h_slices (ss_heap s)) (lb_sliceList (sm_sendBuf t)) qs None →
  al_inv (ss_bufferManager s) (ss_heap s') O.
Proof.
  intros Ht. unfold stream_clean. intros (t0&s0&[-> Ht0]%get_obj_inv&E)%bind_done_inv Hp HI Hr Hs. rewrite Ht in Ht0. injection Ht0 as <-.
  apply bind_done_inv in E as (bm&s1&[= <- <-]&E). apply bind_done_inv in E as ([]&s2&[= <-]&E). apply bind_done_inv in E as ([]&s3&E3&E).
  destruct (pending_clear_inv (set_streams (delete (sm_id t) <$> ss_streams s) s) s3 t Ht E3) as (_&_&Eq&_). rewrite (Eq Hp) in E. clear E3 Eq.
  apply bind_done_inv in E as ([]&s4&E4&E5). apply on_buf_inv in E4 as (t4&b4&Ht4&Er&_&Eo4&Eh4&_). cbn in Ht4. rewrite Ht in Ht4. injection Ht4 as <-.
  apply on_buf_inv in E5 as (t5&b5&Ht5&Er5&_&_&Eh5&_). rewrite Eo4, lookup_insert_eq in Ht5. injection Ht5 as <-.
  destruct (recycle_ok (ss_bufferManager s) ps (LbSt (ss_heap s) (sm_recvBuf t) (ss_stats s allocShmErrorCount)) (qs ++ O) HI Hr) as (c4&Ec4&HI4&_&_&Hsame). assert (c4 = b4) as -> by (enough (Done (tt, c4) = Done (tt, b4)) as [= H] by exact H; rewrite <- Ec4; exact Er).
  rewrite Eh4 in Er5. destruct (recycle_ok (ss_bufferManager s) qs (LbSt (st_heap b4) (sm_sendBuf t) (ss_stats s4 allocShmErrorCount)) O HI4) as (c5&Ec5&HI5&_).
  { eapply slist_rep_same; [exact Hs|]. intros q Hq. apply Hsame. set_solver. }
  cbn in Er5, Ec5. rewrite Er5 in Ec5. injection Ec5 as <-. by rewrite Eh5.
Qed.

(** ** Closing *)

Notation close := (stream_close (en_write e) (en_send e) (en_result e) (en_async e)).

(** The state of the stream is changed first. *)
Definition marked (s : session) (t : stream) : session := set_objs (<[p := with_state streamClosed t]> (ss_objs s)) s.

(** A call of [close] on a stream that is not closed: the state changes, then comes the
    wait for the callback, then [clean], then the rest. *)
Lemma close_parts s t r s' : env_life e → ss_objs s !! p = Some t → sm_state t ≠ streamClosed → close p s = Done (r, s') →
  ∃ s0 s1 t0, life (marked s t) s0 ∧ (sm_callback t = None → s0 = marked s t) ∧ ss_objs s0 !! p = Some t0 ∧ sm_id t0 = sm_id t ∧
    stream_clean p s0 = Done (tt, s1) ∧ close_rest (sm_state t) s1 = Done (r, s').
Proof.
  intros Hl Ht Hst E. unfold stream_close in E. erewrite bind_done in E by (by apply getStreamState_run). cbv beta in E.
  replace (sm_state t =? streamClosed) with false in E by (symmetry; by apply Z.eqb_neq).
  erewrite bind_done in E by (by apply upd_obj_run). cbv beta in E. fold (marked s t) in E. set (sc := marked s t) in *.
  apply bind_done_inv in E as (c&s2&E2&E). apply bind_done_inv in E as ([]&s0&E0&E). apply bind_done_inv in E as ([]&s1&E1&E).
  assert (s2 = sc ∧ c = sm_callback t) as [-> ->].
  { unfold getCallbacks in E2. apply bind_done_inv in E2 as (t'&s3&[-> Ht']%get_obj_inv&[= <- <-]). cbn in Ht'. rewrite lookup_insert_eq in Ht'. by injection Ht' as <-. }
  assert (life sc s0) as L. { destruct (sm_callback t); [by apply (el_async _ Hl p _ _ _ E0)|by injection E0 as <-]. }
  destruct (li_objs _ _ L p (with_state streamClosed t)) as (t0&Ht0&[Hid _ _]); [cbn; apply lookup_insert_eq|].
  exists s0, s1, t0. split_and!; try done. intros Hcb. rewrite Hcb in E0. by injection E0 as <-.
Qed.

Lemma close_closed s r s' : env_life e → close p s = Done (r, s') → is_closed s' p.
Proof.
  intros He E. unfold stream_close in E. apply bind_done_inv in E as (st&s1&E1&E). unfold getStreamState in E1.
  apply bind_done_inv in E1 as (t&s2&E1&E2). injection E2 as <- <-. apply get_obj_inv in E1 as [-> Ht].
  destruct (sm_state t =? streamClosed) eqn:Ec; breflect.
  - injection E as _ <-. by exists t.
  - apply bind_done_inv in E as ([]&s3&E3&E). rewrite (upd_obj_run p _ s t Ht) in E3. injection E3 as <-.
    eapply (life_closed (set_objs (<[p := with_state streamClosed t]> (ss_objs s)) s)).
    + revert E. destruct He. apply (keeps_bind life); [keeps_auto|]. intros ?. unfold header_encode. keeps_auto.
    + eexists. split; [cbn; apply lookup_insert_eq|done].
Qed.

Lemma close_again s : is_closed s p → close p s = Done (None, s).
Proof. intros (t&Ht&Hc). unfold stream_close. erewrite bind_done by (by apply getStreamState_run). cbv beta. by rewrite Hc. Qed.

Lemma flush_closed s x s' : is_closed s p → Flush (en_write e) (en_debug e) (en_send e) (en_result e) (en_retry e) p false s = Done (x, s') →
  x = None ∧ (∃ t, ss_objs s !! p = Some t ∧ lb_len (sm_sendBuf t) = 0) ∨ x = Some ErrStreamClosed.
Proof.
  intros (t&Ht&Hc) Ef. unfold Flush in Ef.
  apply bind_done_inv in Ef as (bm&s1&E1&Ef). injection E1 as <- <-.
  apply bind_done_inv in Ef as (n&s1&E1&Ef).
  assert (n = lb_len (sm_sendBuf t) ∧ is_closed s1 p) as [-> (t1&Ht1&Hc1)].
  { split; [|eapply life_closed; [by eapply keeps_on_sendBuf|by exists t]].
    unfold on_sendBuf, on_buf in E1. erewrite bind_done in E1 by (unfold get_obj; by rewrite Ht).
    erewrite bind_done in E1 by done. cbn in E1.
    repeat (apply bind_done_inv in E1 as (?&?&_&E1)). by injection E1. }
  destruct (_ =? 0) eqn:E0; breflect; [injection Ef as <- _; left; eauto|]. right.
  apply bind_done_inv in Ef as ([]&s2&E2&Ef).
  assert (is_closed s2 p) as (t2&Ht2&Hc2) by (eapply life_closed; [by eapply keeps_count|by exists t1]).
  erewrite bind_done in Ef by (by apply getStreamState_run). rewrite Hc2 in Ef. cbn in Ef.
  apply bind_done_inv in Ef as (?&?&_&Ef). by injection Ef.
Qed.

Lemma map_ok_state s t q : map_ok s → ss_objs s !! q = Some t → map_ok (set_objs (<[q := with_state streamClosed t]> (ss_objs s)) s).
Proof.
  intros Hm Ht m id u Hs Hu. destruct (Hm m id u Hs Hu) as (x&Hx&Hid). cbn. destruct (decide (q = u)) as [->|].
  - rewrite lookup_insert_eq. eexists. split; [done|]. rewrite Ht in Hx. by injection Hx as ->.
  - exists x. by rewrite lookup_insert_ne.
Qed.

End close.

Lemma opened_map_ok : map_ok opened_session.
Proof.
  destruct (run_sops demo_env [OOpen] (demo_session true)) as [[[] s]| |] eqn:E; [|vm_compute in E; discriminate E..].
  assert (opened_session = s) as -> by (unfold opened_session; by rewrite E).
  apply (li_map _ _ (keeps_run_sops demo_env [OOpen] demo_env_life _ _ _ E)). intros m id p [= <-]. by rewrite lookup_empty.
Qed.

