(* ===== verification/SessionEvents.v ===== *)
(** * The events of a session

    The real handlers of [protocol_manager.go] meet the interface of the framing
    loop (Events.v), so that a session does the same however the bytes of its
    peer are cut; what a session does when it cannot serve; its invariant. *)

From Stdlib Require Import ZArith Lia.
From stdpp Require Import prelude list gmap strings.
From S2P Require Import Prelude GoMem Queue BufferSlice BufferList BufferManager Allocator ShmAllocator LinkedBuffer Protocol Events EventConn Session SessionProofs.

(** ** Handling an event does not shut the session down *)

Definition stays (s s' : session) : Prop := ss_shutdown s' = ss_shutdown s.

#[global] Instance stays_preorder : PreOrder stays.
Proof. split; [by intros s|]. unfold stays. intros s1 s2 s3 -> ->. done. Qed.

Lemma stays_modify f : (∀ s, stays s (f s)) → keeps stays (modify_state f).
Proof. by apply keeps_modify. Qed.
Lemma stays_upd_obj p f : keeps stays (upd_obj p f).
Proof. unfold upd_obj. apply keeps_bind; [typeclasses eauto|apply keeps_get_obj; typeclasses eauto|]. intros t. by apply stays_modify. Qed.

Create HintDb stays.
Ltac stays_step :=
  match goal with
  | |- keeps _ (_ ≫= _) => apply keeps_bind; [typeclasses eauto| |intros ?]
  | |- keeps _ (if ?b then _ else _) => destruct b
  | |- keeps _ (match ?x with _ => _ end) => destruct x
  | |- keeps _ (modify_state _) => by apply stays_modify
  | |- keeps _ (upd_obj _ _) => apply stays_upd_obj
  | |- keeps _ (on_ss_heap _) => by apply keeps_heap
  end.
Ltac stays_auto := repeat first [solve [eauto 2 with stays] | solve [keeps_pure] | progress cbv beta zeta | stays_step].

Lemma stays_on_recvBuf {A} p (m : M lbst A) : keeps stays (on_recvBuf p m).
Proof. unfold on_recvBuf, on_buf. stays_auto. Qed.
Lemma stays_clear_loop fuel unread : keeps stays (clear_loop fuel unread).
Proof. induction unread as [|w unread IH]; cbn [clear_loop]; stays_auto. Qed.
Lemma stays_shm_fuel : keeps stays shm_fuel.
Proof. unfold shm_fuel. stays_auto. Qed.
#[local] Hint Resolve stays_on_recvBuf stays_clear_loop stays_shm_fuel : stays.
Lemma stays_halfClose p : keeps stays (halfClose p).
Proof. unfold halfClose, getStreamState, safeCloseNotify, getCallbacks, tell. stays_auto. Qed.
Lemma stays_fill p w : keeps stays (fillDataToReadBuffer p w).
Proof. unfold fillDataToReadBuffer, pending_add, pending_clear, getStreamState, tell. stays_auto. Qed.
#[local] Hint Resolve stays_halfClose stays_fill : stays.
Lemma stays_message p w st : keeps stays (handleStreamMessage p w st).
Proof. unfold handleStreamMessage. stays_auto. Qed.
Lemma stays_newStream id : keeps stays (newStream id).
Proof. by intros s p s' [= _ <-]. Qed.
Lemma stays_map_insert id p : keeps stays (map_insert id p).
Proof. intros s x s'. unfold map_insert. destruct (ss_streams s); [|done]. by intros [= _ <-]. Qed.
#[local] Hint Resolve stays_message stays_newStream stays_map_insert : stays.
Lemma stays_getStream id st : keeps stays (getStream id st).
Proof. unfold getStream, map_lookup, tell. stays_auto. Qed.
#[local] Hint Resolve stays_getStream : stays.
Lemma stays_poll_pop fuel : ∀ q e, keeps stays (poll_pop fuel q e).
Proof. induction fuel as [|fuel IH]; intros q e; cbn [poll_pop]; stays_auto. Qed.
#[local] Hint Resolve stays_poll_pop : stays.
Lemma stays_poll_rounds n : ∀ fuel q e, keeps stays (poll_rounds n fuel q e).
Proof. induction n as [|n IH]; intros fuel q e; cbn [poll_rounds]; stays_auto. Qed.
#[local] Hint Resolve stays_poll_rounds : stays.

(** ** The handlers as waiting and acting *)

Definition act_polling : event_handler :=
  EventHandler (λ _, 0) (λ _ _,
    _ ← count recvPollingEventCount 1;
    q ← recvQueue;
    poll_rounds (Z.to_nat (q_cap q) + 2) (Z.to_nat (q_cap q) + 2) q None).
Definition act_streamClose : event_handler :=
  EventHandler (λ _, 4) (λ _ b,
    x ← gsub b 0 4;
    st ← getStreamById (be_val x);
    match st with None => mret None | Some p => _ ← halfClose p; mret None end).
Definition act_fallback (debugMode : bool) : event_handler :=
  EventHandler (λ h, be_val (take 4 h) - headerSize) (λ h b, r ← handleFallbackData debugMode h b; mret r.2).
Definition act_restart : event_handler :=
  EventHandler (λ _, epochIDLen) (λ h b, r ← handleHotRestart h b; mret r.2).
Definition act_restartAck : event_handler :=
  EventHandler (λ _, epochIDLen) (λ h b, r ← handleHotRestartAck h b; mret r.2).

Definition session_table (debugMode : bool) : list (option (@event_handler session)) :=
  [None; Some act_polling; Some act_streamClose; Some (act_fallback debugMode); None; None; None; None;
   Some act_restart; Some act_restartAck].

Lemma gsub_front b n (s : session) : 0 ≤ n ≤ Z.of_nat (length b) → gsub b 0 n s = Done (take (Z.to_nat n) b, s).
Proof. intros Hn. unfold gsub, read_at. rewrite Z.sub_0_r. bdecide. by rewrite drop_0. Qed.

(** A handler that reads its body from the front only. *)
Lemma framed_front (hd : @protocolHandler session) need (act : list Z → list Z → M session (option error)) :
  (∀ h b s, length h = 8%nat → Z.of_nat (length b) < need h → hd h b s = Done ((0, true, None), s)) →
  (∀ h b s, length h = 8%nat → need h ≤ Z.of_nat (length b) →
     hd h b s = (err ← act h (take (Z.to_nat (need h)) b); mret (headerSize + need h, false, err)) s) →
  (∀ h b s x, length h = 8%nat → need h < 0 → act h b s ≠ Done x) →
  (∀ h b, keeps stays (act h b)) → Framed ss_shutdown hd (EventHandler need act).
Proof.
  intros H1 H2 H3 H4. constructor; cbn.
  - intros h body s Hh. unfold handler_of. cbn. destruct (Z.of_nat (length body) <? need h) eqn:E; breflect; auto.
  - exact H3.
  - intros h b s err s' Hs E. rewrite (H4 _ _ _ _ _ E). done.
Qed.


(** The result of a handler that consumes its whole event. *)
Lemma consumed_bind (m : M session (Z * bool * option error)) n s :
  (∀ s r s', m s = Done (r, s') → r.1 = (n, false)) → m s = (err ← (r ← m; mret r.2); mret (n, false, err)) s.
Proof.
  intros Hr. rewrite bind_assoc. unfold mbind, M_bind, mret, M_ret. destruct (m s) as [[r s']| |] eqn:E; [|done|done].
  specialize (Hr _ _ _ E). destruct r as [[c st] e]. cbn in Hr. by injection Hr as -> ->.
Qed.

Lemma framed_polling : Framed ss_shutdown handlePolling act_polling.
Proof.
  apply framed_front; [lia| |lia|].
  - intros h b s _ _. unfold handlePolling. rewrite bind_assoc. apply bind_ext. intros _ s1. rewrite bind_assoc.
    by apply bind_ext.
  - intros h b. unfold recvQueue, count. stays_auto.
Qed.

Lemma framed_streamClose : Framed ss_shutdown handleStreamClose act_streamClose.
Proof.
  apply framed_front; [| |lia|].
  - intros h b s _ Hb. unfold handleStreamClose. by bdecide.
  - intros h b s _ Hb. unfold handleStreamClose. bdecide. rewrite bind_assoc.
    erewrite (bind_done (gsub b 0 4)) by (apply gsub_front; len).
    erewrite (bind_done (gsub (take _ b) 0 4)) by (apply gsub_front; len). cbv beta. rewrite take_take, Nat.min_id. rewrite bind_assoc. apply bind_ext. intros [p|] s1; [|done]. by rewrite bind_assoc.
  - intros h b. unfold getStreamById, map_lookup. stays_auto.
Qed.

Lemma framed_restart : Framed ss_shutdown handleHotRestart act_restart.
Proof.
  apply framed_front; [| |unfold epochIDLen; lia|].
  - intros h b s _ Hb. unfold handleHotRestart. by bdecide.
  - intros h b s _ Hb. rewrite bind_assoc. unfold handleHotRestart, epochIDLen in *. bdecide.
    rewrite (proj2 (Z.ltb_ge (Z.of_nat (length (take (Z.to_nat 8) b))) 8)) by len.
    rewrite !bind_assoc. erewrite (bind_done (gsub b 0 8)) by (apply gsub_front; len).
    erewrite (bind_done (gsub (take _ b) 0 8)) by (apply gsub_front; len). cbv beta. by rewrite take_take, Nat.min_id.
  - intros h b. unfold handleHotRestart, tell. stays_auto.
Qed.

Lemma framed_restartAck : Framed ss_shutdown handleHotRestartAck act_restartAck.
Proof.
  apply framed_front; [| |unfold epochIDLen; lia|].
  - intros h b s _ Hb. unfold handleHotRestartAck. by bdecide.
  - intros h b s _ Hb. rewrite bind_assoc. unfold handleHotRestartAck, epochIDLen in *. bdecide.
    rewrite (proj2 (Z.ltb_ge (Z.of_nat (length (take (Z.to_nat 8) b))) 8)) by len.
    rewrite !bind_assoc. erewrite (bind_done (gsub b 0 8)) by (apply gsub_front; len).
    erewrite (bind_done (gsub (take _ b) 0 8)) by (apply gsub_front; len). cbv beta. rewrite take_take, Nat.min_id.
    do 3 (rewrite !bind_assoc; apply bind_ext; intros ? ?). rewrite !bind_assoc. by apply bind_ext.
  - intros h b. unfold handleHotRestartAck. stays_auto.
Qed.

Lemma framed_fallback d : Framed ss_shutdown (handleFallbackData d) (act_fallback d).
Proof.
  assert (∀ h (s : session), length h = 8%nat → Length h s = Done (be_val (take 4 h), s)) as HL.
  { intros h s Hh. unfold Length. by erewrite bind_done by (apply gsub_front; lia). }
  apply framed_front.
  - intros h b s Hh Hb. unfold handleFallbackData. erewrite bind_done by (by apply HL). cbv beta zeta. by bdecide.
  - intros h b s Hh Hb. set (n := be_val (take 4 h) - headerSize) in *.
    assert (handleFallbackData d h b s = handleFallbackData d h (take (Z.to_nat n) b) s) as ->.
    { unfold handleFallbackData. erewrite !(bind_done (Length h)) by (by apply HL). cbv beta zeta. fold n.
      rewrite (proj2 (Z.ltb_ge _ _) Hb), (proj2 (Z.ltb_ge _ _)) by len.
      destruct (decide (n < 0)) as [Hn|Hn]; [unfold mbind at 1 3, M_bind at 1 3, gmake; by bdecide|].
      apply bind_ext. intros _ s1. erewrite (bind_done (gsub b 0 n)) by (apply gsub_front; len).
      erewrite (bind_done (gsub (take _ b) 0 n)) by (apply gsub_front; len). by rewrite take_take, Nat.min_id. }
    cbn [eh_act act_fallback]. apply consumed_bind. intros s1 r s2 E. unfold handleFallbackData in E.
    erewrite (bind_done (Length h)) in E by (by apply HL). cbv beta zeta in E. fold n in E.
    rewrite (proj2 (Z.ltb_ge _ _)) in E by len. replace (headerSize + n) with (be_val (take 4 h)) by lia.
    revert E. apply (returns_bind (λ r, r.1 = (be_val (take 4 h), false))). intros _. do 7 (apply returns_bind; intros ?).
    apply returns_bind. intros _. apply returns_bind. intros _. apply returns_bind. intros [p|]; [|by apply returns_ret].
    apply returns_bind. intros e. by apply returns_ret.
  - intros h b s x Hh Hn E. apply bind_done_inv in E as (r&s1&E&_). unfold handleFallbackData in E.
    erewrite bind_done in E by (by apply HL). cbv beta zeta in E.
    rewrite (proj2 (Z.ltb_ge _ _)) in E by lia. apply bind_done_inv in E as (y&s2&E&_). unfold gmake in E.
    by rewrite (proj2 (Z.ltb_lt _ _)) in E by lia.
  - intros h b. unfold handleFallbackData, Length, openCircuitBreaker, tell, count. stays_auto.
Qed.

(** Each entry of the handler table meets the interface of the framing loop. *)
Lemma session_framed d : Forall2 (framed_entry ss_shutdown) (protocolHandlers d) (session_table d).
Proof.
  unfold protocolHandlers, session_table.
  repeat (apply Forall2_cons_2;
    [first [exact I | exact framed_polling | exact framed_streamClose | exact (framed_fallback d) | exact framed_restart
           | exact framed_restartAck]|]).
  constructor.
Qed.

(** [Close] shuts the session down. *)
Lemma Session_Close_down s x s' : Session_Close s = Done (x, s') → ss_shutdown s' = true.
Proof.
  intros E. unfold Session_Close in E. apply bind_done_inv in E as (c&s1&E1&E). injection E1 as <- <-.
  destruct (ss_shutdown s) eqn:Hs; [by injection E as _ <-|].
  apply bind_done_inv in E as (?&s1&E1&E). injection E1 as _ Es1.
  assert (ss_shutdown s1 = true) as D1 by (by rewrite <- Es1). clear Es1. rewrite <- D1. revert E.
  assert (∀ ps, keeps stays (notify_all ps)) as Hn.
  { induction ps as [|p ps IH]; cbn [notify_all]; unfold safeCloseNotify; stays_auto. }
  apply (λ m, m : keeps stays _). unfold live_streams, tell. stays_auto.
Qed.

(** Giving up on a session shuts it down. *)
Lemma exitErr_closes e s x s' : exitErr e s = Done (x, s') → ss_shutdown s' = true.
Proof.
  unfold exitErr. intros (?&s1&_&E)%bind_done_inv. apply bind_done_inv in E as (?&s2&_&E).
  apply bind_done_inv in E as (?&s3&E&E'). injection E' as _ <-. by eapply Session_Close_down.
Qed.

Lemma notify_all_run ps : ∀ s, Forall (λ p, is_Some (ss_objs s !! p)) ps → ∃ o, notify_all ps s = Done (tt, set_objs o s).
Proof.
  induction ps as [|p ps IH]; intros s Hps; [exists (ss_objs s); by destruct s|]. apply Forall_cons in Hps as [[t Ht] Hps].
  cbn [notify_all]. erewrite bind_done by (unfold safeCloseNotify; by apply upd_obj_run). cbv beta.
  edestruct IH as (o&E); [|exists o; rewrite E; done]. eapply Forall_impl; [exact Hps|]. intros q Hq. cbn. by apply lookup_insert_is_Some'; right.
Qed.

(** It returns, and calls its listener the first time. *)
Lemma Session_Close_calls s : ss_shutdown s = false → map_ok s →
  ∃ s', Session_Close s = Done (None, s') ∧
    ss_notes s' = ss_notes s ++
      (if ss_listenCallback s then [NOnShutdown (default ErrSessionShutdown (ss_shutdownErr s))] else []) ++ [NCloseLambda].
Proof.
  intros Hs Hm. unfold Session_Close. erewrite bind_done by done. cbv beta. rewrite Hs.
  erewrite bind_done by done. cbv beta. erewrite bind_done by done. cbv beta. erewrite bind_done by done. cbv beta.
  cbn [ss_listenCallback set_shutdown]. destruct (ss_listenCallback s);
    (erewrite bind_done by done; cbv beta; unfold live_streams; erewrite bind_done by done; cbv beta;
     match goal with |- context [notify_all ?ps] => set (ps' := ps) end;
     match goal with |- context [(notify_all _ ≫= _) ?s1] => destruct (notify_all_run ps' s1) as (o&E) end;
     [ apply Forall_forall; intros p Hp; unfold ps' in Hp; cbn in Hp; destruct (ss_streams s) as [m|] eqn:Em; [|by apply not_elem_of_nil in Hp];
       apply list_elem_of_fmap in Hp as ([id q]&->&Hq%elem_of_map_to_list); cbn; by destruct (Hm m id q Em Hq) as (t&Ht&_)
     | erewrite bind_done by exact E; cbv beta; erewrite bind_done by done; cbv beta; eexists; split; [done|]; cbn; by rewrite <- ?app_assoc ]).
Qed.

Lemma Session_Close_returns s : map_ok s → ∃ s', Session_Close s = Done (None, s').
Proof.
  intros Hm. destruct (ss_shutdown s) eqn:Hs; [|destruct (Session_Close_calls s Hs Hm) as (s'&E&_); eauto].
  exists s. unfold Session_Close. erewrite bind_done by done. by rewrite Hs.
Qed.

(** ** The properties *)

(** [C15] The boundaries of the reads do not matter to a session: two ways to cut
    the same bytes from the peer into reads make the handlers of polling,
    stream-close, fallback-data and hot-restart events run on the same events
    in the same order, fail at the same event if one is invalid, and leave the
    same session and the same incomplete event behind. *)
Theorem session_chunk_independent d c cs c' cs' p s :
  concat (c :: cs) = concat (c' :: cs') →
  same_feed ss_shutdown (feed_all (protocolHandlers d) ss_shutdown exitErr (c :: cs) p s)
    (feed_all (protocolHandlers d) ss_shutdown exitErr (c' :: cs') p s).
Proof. apply (events_chunk_independent _ _ _ (session_table d)); [apply session_framed|exact exitErr_closes]. Qed.

(** A polling event and the end of stream 2, in one read and in three. *)
Lemma session_chunk_independent_witness :
  let c1 := [0; 0; 0; 8; 119] in let c2 := [88; 3; 1; 0; 0; 0; 12; 119; 88; 3; 2; 0; 0] in let c3 := [0; 2; 0] in
  same_feed ss_shutdown (feed_all (protocolHandlers false) ss_shutdown exitErr [c1; c2; c3] [] opened_session)
    (feed_all (protocolHandlers false) ss_shutdown exitErr [c1 ++ c2 ++ c3] [] opened_session) ∧
  ∃ s t, feed_all (protocolHandlers false) ss_shutdown exitErr [c1; c2; c3] [] opened_session = Done ([0], s) ∧
    ss_objs s !! 0%nat = Some t ∧ sm_state t = streamHalfClosed.
Proof.
  intros c1 c2 c3. split; [by apply session_chunk_independent|]. eexists _, _. vm_compute. split_and!; reflexivity.
Defined.

(** [C16] Reading from the socket loses, repeats and reorders nothing: when the
    socket of a session becomes readable, [onReadReady] empties it through the
    growing and shrinking window of the read buffer, and the session and the
    unread bytes end up as if all bytes that had arrived were appended to a
    queue and its events dispatched once; the window stays well formed and the
    fuel of one more than the bytes that arrived is enough. *)
Theorem session_reads_socket {W : Type} d fd sys_read cb inbox fuel (st : @cst W session) :
  nonblocking_read sys_read inbox → conn_wf (cs_conn st) → (length (inbox (cs_world st)) < fuel)%nat →
  let r := onReadReady fd sys_read (session_onEventData (protocolHandlers d) ss_shutdown exitErr) cb fuel st in
  same_feed ss_shutdown (seen r)
    (feed (protocolHandlers d) ss_shutdown exitErr (inbox (cs_world st)) (window (cs_conn st)) (cs_sess st)) ∧
  ∀ err st', r = Done (err, st') → err = None ∧ conn_wf (cs_conn st') ∧ inbox (cs_world st') = [].
Proof. apply (conn_read_refines _ _ _ (session_table d)); [apply session_framed|exact exitErr_closes]. Qed.

(** A polling event through a buffer of four bytes, three bytes at a time. *)
Lemma session_reads_socket_witness :
  let st := CSt (Conn [0; 0; 0; 0] 0 0 false false false) opened_session [0; 0; 0; 8; 119; 88; 3; 1; 0; 0] [] in
  let r := onReadReady 5 sock_read (session_onEventData (protocolHandlers false) ss_shutdown exitErr) (mret tt) 11 st in
  ∃ s, same_feed ss_shutdown (seen r) (Done ([0; 0], s)) ∧ ss_stats s recvPollingEventCount = 1.
Proof.
  intros st r.
  destruct (session_reads_socket false 5 sock_read (mret tt) id 11 st) as [Hs _];
    [apply sock_read_spec|constructor; cbn; lia|cbn; lia|].
  destruct (feed (protocolHandlers false) ss_shutdown exitErr (id (cs_world st)) (window (cs_conn st)) (cs_sess st))
    as [[p s]| |] eqn:E.
  2, 3: vm_compute in E; discriminate E.
  exists s. vm_compute in E. injection E as <- <-. split; [exact Hs|vm_compute; reflexivity].
Defined.

Lemma getStream_found id st s p s' : map_ok s → getStream id st s = Done (Some p, s') →
  ∃ t, ss_objs s' !! p = Some t ∧ sm_id t = id.
Proof.
  intros Hm. unfold getStream. intros (old&s1&E1&E)%bind_done_inv. injection E1 as <- <-.
  apply bind_done_inv in E as (cl&s1&E1&E). injection E1 as <- <-.
  destruct (_ && _ && _).
  - apply bind_done_inv in E as (q&s1&E1&E). injection E1 as <- <-.
    apply bind_done_inv in E as (?&s2&E2&E). unfold map_insert in E2. cbn [ss_streams set_objs] in E2.
    destruct (ss_streams s); [|done]. injection E2 as _ <-.
    apply bind_done_inv in E as (cb&s3&E3&E). injection E3 as <- <-. apply bind_done_inv in E as (?&s4&E4&E).
    injection E as <- <-.
    assert (ss_objs s4 = ss_objs (set_objs (<[fresh_key (ss_objs s) := Stream id streamOpened bound_buffer bound_buffer [] false false 0 0 false None 0 0 0 None]> (ss_objs s)) s)) as ->.
    { destruct (ss_listenCallback _); [by injection E4 as _ <-|]. apply bind_done_inv in E4 as (dn&s5&E5&E4).
      injection E5 as <- <-. destruct (ss_shutdownCh _); by injection E4 as _ <-. }
    eexists. split; [apply lookup_insert_eq|done].
  - injection E as E <-. destruct (ss_streams s) as [m|] eqn:Em; [|done]. by apply (Hm m).
Qed.

(** [C28] The invariant of a session: whatever program of stream, session and
    handler operations runs from a well-formed session, and whatever happens
    while an operation waits, every stream is in one of the three states, the
    next id is a [uint32], a session that is shut down has a reason, which is
    there before anyone is woken up by the shutdown channel, and a message is
    routed to a stream of the id it carries. *)
Theorem session_invariant e os s s' :
  env_life e → typed s → map_ok s → run_sops e os s = Done (tt, s') →
  typed s' ∧ map_ok s' ∧
  ∀ id st p s'', getStream id st s' = Done (Some p, s'') → ∃ t, ss_objs s'' !! p = Some t ∧ sm_id t = id.
Proof.
  intros He Ht Hm E. destruct (keeps_run_sops e os He s tt s' E). split_and!; [auto|auto|].
  intros id st p s'' Eg. eapply getStream_found; [|exact Eg]. auto.
Qed.

Lemma session_invariant_witness :
  typed (demo_session false) ∧ map_ok (demo_session false) ∧
  ∃ s', run_sops demo_env [OOpen; OSessionClose; OOpen] (demo_session false) = Done (tt, s') ∧ typed s' ∧ map_ok s' ∧
    ss_shutdown s' = true.
Proof.
  assert (typed (demo_session false)) as Ht by (constructor; cbn; [by intros p t|lia|done|done]).
  assert (map_ok (demo_session false)) as Hm by (intros m id p [= <-]; by rewrite lookup_empty).
  split; [done|]. split; [done|].
  destruct (run_sops demo_env [OOpen; OSessionClose; OOpen] (demo_session false)) as [[[] s']| |] eqn:E.
  2, 3: vm_compute in E; discriminate E.
  destruct (session_invariant demo_env [OOpen; OSessionClose; OOpen] (demo_session false) s' demo_env_life Ht Hm E) as (H1&H2&_).
  exists s'. split; [done|]. split; [done|]. split; [done|]. vm_compute in E. injection E as <-. reflexivity.
Defined.

Lemma odd_next n : Z.odd ((n + 1) `mod` 2 ^ 32) = negb (Z.odd n).
Proof. rewrite <- Z.bit0_odd, Z.mod_pow2_bits_low by lia. rewrite Z.bit0_odd, Z.add_1_r, Z.odd_succ. by rewrite Z.negb_odd. Qed.

(** [C29] [OpenStream] on every branch: a session that is shut down gives the
    reason it was shut down for, never a nil error; an unhealthy session gives
    [ErrSessionUnhealthy]; both leave the session as it was.  Otherwise the
    next id, modulo 2^32, is taken: it gives [ErrStreamsExhausted] if a stream
    of that id is still alive, whose registration is not touched, and else a
    new open stream that is registered under it.  The ids of a session go up by
    one on a client as on a server, so odd and even ids alternate, against the
    comment on [nextStreamID] that a client has odd and a server even ones. *)
Theorem open_stream_exact s m :
  typed s → (ss_shutdown s = false → ss_streams s = Some m) →
  let id := (ss_nextStreamID s + 1) `mod` 2 ^ 32 in
  let p := fresh_key (ss_objs s) in
  ∃ r s', OpenStream s = Done (r, s') ∧
    if ss_shutdown s then (∃ e, r = (None, Some e) ∧ ss_shutdownErr s = Some e) ∧ s' = s
    else if ss_unhealthy s then r = (None, Some ErrSessionUnhealthy) ∧ s' = s
    else ss_nextStreamID s' = id ∧ Z.odd id = negb (Z.odd (ss_nextStreamID s)) ∧
      match m !! id with
      | Some _ => r = (None, Some ErrStreamsExhausted) ∧ ss_streams s' = Some m
      | None => r = (Some p, None) ∧ ss_streams s' = Some (<[id := p]> m) ∧ ss_objs s !! p = None ∧
          ∃ t, ss_objs s' !! p = Some t ∧ sm_id t = id ∧ sm_state t = streamOpened ∧ sm_pending t = [] ∧
            lb_len (sm_sendBuf t) = 0 ∧ lb_len (sm_recvBuf t) = 0
      end.
Proof.
  intros [_ _ Herr _] Hm id p. unfold OpenStream. erewrite bind_done by done. cbv beta.
  destruct (ss_shutdown s) eqn:Hs.
  { destruct (Herr eq_refl) as [e He]. eexists _, _. split; [reflexivity|]. split; [|done]. exists e. by rewrite He. }
  erewrite bind_done by done. cbv beta. destruct (ss_unhealthy s).
  { eexists _, _. by split. }
  cbn [negb]. erewrite bind_done by done. erewrite bind_done by done. erewrite bind_done by done.
  erewrite bind_done by done. cbn [set_objs set_nextStreamID ss_streams ss_objs]. rewrite (Hm eq_refl).
  change (u32 (ss_nextStreamID s + 1)) with id. destruct (m !! id) eqn:El.
  { eexists _, _. split; [reflexivity|]. split; [done|]. split; [apply odd_next|]. split; [done|]. exact (Hm eq_refl). }
  eexists _, _. split.
  { unfold mbind, M_bind, map_insert. cbn [ss_streams set_objs set_nextStreamID]. rewrite (Hm eq_refl). reflexivity. }
  split; [done|]. split; [apply odd_next|]. split; [done|]. split; [done|]. split; [apply fresh_key_None|]. eexists.
  split; [cbn; apply lookup_insert_eq|done].
Qed.

Lemma open_stream_exact_witness :
  ∃ r s', OpenStream (demo_session true) = Done (r, s') ∧ r = (Some 0%nat, None) ∧ ss_streams s' = Some {[ 2 := 0%nat ]}.
Proof.
  destruct (open_stream_exact (demo_session true) ∅) as (r&s'&E&_&_&H);
    [constructor; cbn; [by intros p t|lia|done|done]|reflexivity|].
  rewrite lookup_empty in H. destruct H as (->&Hs&_). exists (Some 0%nat, None), s'. split; [exact E|].
  split; [reflexivity|]. rewrite Hs. reflexivity.
Defined.

(** What [GetMetrics] reports of the send queue, and what is in it. *)
Definition send_metrics : M session (Z * Z) :=
  q ← sendQueue; n ← on_ss_heap (on_mem (queue_size q)); x ← GetMetrics; mret (x.(mt_sendQueueCount), n).

(** [SendQueueCount] is not the number of pending elements: when one element
    was put and the peer has taken it, the queue is empty but the metric is
    one; it counts the elements ever put. *)
Theorem metrics_count_total :
  ∃ s s1 x, run_sops demo_env [OWrite 0 [1; 2; 3]] opened_session = Done (tt, s) ∧
    (q ← sendQueue; on_ss_heap (on_mem (queue_pop q))) s = Done (inr x, s1) ∧
    ∃ s2, send_metrics s1 = Done ((1, 0), s2).
Proof.
  destruct (run_sops demo_env [OWrite 0 [1; 2; 3]] opened_session) as [[[] s]| |] eqn:E; [|vm_compute in E; discriminate..].
  vm_compute in E. injection E as <-. eexists _, _, _. split; [reflexivity|]. split; [vm_compute; reflexivity|].
  eexists. vm_compute. reflexivity.
Qed.
