(* ===== verification/Transfer.v ===== *)
(** * From one process to the other ([buffer.go] [done], [stream.go] [moveToWithoutLock])

    [Flush] publishes the slices of the write buffer by writing their sizes and
    links into the headers in shared memory, and sends the offset of the first.
    The peer follows the headers and appends a slice for each to its read buffer.
    Here both ends are put together: the bytes arrive. *)

From Stdlib Require Import ZArith Lia.
From stdpp Require Import prelude list gmap strings.
From S2P Require Import Prelude GoMem Queue BufferSlice BufferList BufferManager Allocator ShmAllocator LinkedBuffer LinkedBufferProofs LinkedBufferPeek LinkedBufferFifo LinkedBufferRead Protocol Events Session SessionProofs.

(** ** Slots that were sent *)

(** The offset of a slot in the mapping. *)
Definition slot_off (g : geom) (s : Z) : Z := s + (g_off g + bufferListHeaderSize).

(** The header and the first bytes of a slot that carries [ct]; [next] is the offset
    of the slot behind it. *)
Record sent_slot (m : gmem) (g : geom) (s : Z) (ct : list Z) (next : option Z) : Prop := {
  se_start : peek_u32 m (padd (slot_ptr g s) bufferDataStartOffset) = Some 0;
  se_size : peek_u32 m (padd (slot_ptr g s) bufferSizeOffset) = Some (Z.of_nat (length ct));
  se_flag : ∃ f, peek_u8 m (padd (slot_ptr g s) bufferFlagOffset) = Some f ∧
                 flag_next f = match next with Some _ => true | None => false end;
  se_next : ∀ o, next = Some o → peek_u32 m (padd (slot_ptr g s) nextBufferOffset) = Some o;
  se_data : peek m (padd (slot_ptr g s) bufferHeaderSize) (Z.of_nat (length ct)) = Some ct
}.

(** A place: the number of a list and a slot of it. *)
Definition place : Type := nat * Z.

Definition is_place (ls : list lstate) (a : place) (x : lstate) : Prop := ls !! a.1 = Some x ∧ is_slot (ls_geom x) a.2.

Definition first_off (ls : list lstate) (cs : list (place * list Z)) : option Z :=
  match cs with [] => None | (a, _) :: _ => x ← ls !! a.1; Some (slot_off (ls_geom x) a.2) end.

(** The places of a message with the bytes they carry. *)
Fixpoint chain (m : gmem) (ls : list lstate) (cs : list (place * list Z)) : Prop :=
  match cs with
  | [] => True
  | (a, ct) :: cs =>
      (∃ x, is_place ls a x ∧ ct ≠ [] ∧ Z.of_nat (length ct) ≤ g_cap (ls_geom x) ∧ sent_slot m (ls_geom x) a.2 ct (first_off ls cs))
      ∧ chain m ls cs
  end.

(** The part of a header that is written when a slice is published. *)
Definition pub_win (g : geom) (s : Z) : ptr * Z := (padd (slot_ptr g s) 4, 16).

Definition slot_all (g : geom) (s : Z) : ptr * Z := (slot_ptr g s, g_step g).

(** Different slots do not overlap. *)
Lemma places_apart m ls a b x y : mgr_rep m ls → is_place ls a x → is_place ls b y → a ≠ b →
  disjoint_win (slot_all (ls_geom x) a.2).1 (slot_all (ls_geom x) a.2).2 (slot_all (ls_geom y) b.2).1 (slot_all (ls_geom y) b.2).2.
Proof.
  intros Hr [Hi Hs] [Hj Ht] Hne. destruct a as [i s], b as [j t]. cbn in *.
  destruct (mgr_geom _ _ _ _ Hr Hi) as [Hgx _], (mgr_geom _ _ _ _ Hr Hj) as [Hgy _].
  destruct (decide (i = j)) as [->|Hij].
  - rewrite Hi in Hj. injection Hj as <-. assert (s ≠ t) as Hst by congruence. unfold slot_all, slot_ptr. cbn.
    destruct (slot_apart _ _ _ Hgx Hs Ht Hst); solve_disj.
  - assert (∀ g u, geom_ok g → is_slot g u → win_in (slot_all g u) (g_win g)) as Hin.
    { intros g u Hg (?&?&_). unfold win_in, slot_all, g_win, slot_ptr. cbn. consts. split_and!; [done|lia|lia]. }
    eapply (win_in_disj (slot_all (ls_geom x) s)); [by apply Hin|]. eapply (win_in_disj_r (slot_all (ls_geom y) t)); [by apply Hin|].
    by apply (mg_apart _ _ Hr i j x y).
Qed.

Lemma pub_in_slot g s : geom_ok g → win_in (pub_win g s) (slot_all g s).
Proof. intros []. unfold win_in, pub_win, slot_all. cbn. consts. split_and!; [done|lia|lia]. Qed.

(** Changes elsewhere do not matter. *)
Lemma sent_slot_frame m m' ws g s ct nx : geom_ok g → Z.of_nat (length ct) ≤ g_cap g →
  sent_slot m g s ct nx → changes_only m m' ws →
  Forall (λ w, disjoint_win w.1 w.2 (slot_all g s).1 (slot_all g s).2) ws → sent_slot m' g s ct nx.
Proof.
  intros [] Hlen [] Hc Hd.
  assert (∀ d n, 0 ≤ d → d + n ≤ g_step g → Forall (λ w, disjoint_win w.1 w.2 (padd (slot_ptr g s) d) n) ws) as Hsub.
  { intros d n Hd0 Hn. eapply Forall_impl; [exact Hd|]. intros w Hw.
    eapply (win_in_disj_r (padd (slot_ptr g s) d, n)); [|exact Hw]. unfold win_in, slot_all. cbn. split_and!; [done|lia|lia]. }
  consts. constructor; consts.
  - eapply changes_peek_u32; [exact Hc|apply Hsub; lia|done].
  - eapply changes_peek_u32; [exact Hc|apply Hsub; lia|done].
  - destruct se_flag0 as (f&Hf&Hn). exists f. split; [|done]. eapply changes_peek_u8; [exact Hc|apply Hsub; lia|done].
  - intros o Ho. eapply changes_peek_u32; [exact Hc|apply Hsub; lia|by apply se_next0].
  - destruct Hc as [Hp _]. rewrite Hp; [done|]. apply Hsub; lia.
Qed.

(** ** Publishing *)

Lemma publish_one h g s p b ct nx :
  geom_ok g → is_slot g s → in_mem (h_mem h) (slot_ptr g s) (g_step g) →
  h_slices h !! p = Some b → slot_obj g s b → bs_start b = 0 → bs_readIndex b = 0 → slice_wf (h_mem h) b →
  slice_content (h_mem h) b = Some ct →
  (∃ f, peek_u8 (h_mem h) (padd (slot_ptr g s) bufferFlagOffset) = Some f ∧ flag_next f = false) →
  match bs_next b with
  | None => nx = None
  | Some n => ∃ nb, h_slices h !! n = Some nb ∧ nx = Some (bs_offsetInShm nb) ∧ 0 ≤ bs_offsetInShm nb < 2 ^ 32
  end →
  ∃ m', slice_update p h = Done (tt, set_mem m' h) ∧ changes_only (h_mem h) m' [pub_win g s] ∧ sent_slot m' g s ct nx.
Proof.
  intros Hg (Hs0&Hs1&_) Hin Hp Ho Hst Hri Hwf Hct (f&Hf&Hfn) Hnx. pose proof Hg as []. pose proof Ho as [(hd&Hhd&Hptr&Hlen) Hdata _ _ Hcap _ _].
  pose proof Hwf as []. assert (bufferHeaderSize ≤ s_len hd) as Hl by lia.
  assert (Z.of_nat (length ct) = slice_size b) as Hsz by (by apply peek_length in Hct). unfold slice_size in Hsz.
  assert (0 ≤ slice_size b < 2 ^ 32) as Hsmall by (unfold slice_size; consts; lia).
  destruct (store_u32_ok (h_mem h) (padd (slot_ptr g s) bufferSizeOffset) (u32 (slice_size b))) as (m1&E1&H1&C1).
  { eapply in_mem_sub; [exact Hin|consts; lia..]. }
  destruct (store_u32_ok m1 (padd (slot_ptr g s) bufferDataStartOffset) (bs_start b)) as (m2&E2&H2&C2).
  { apply C1. eapply in_mem_sub; [exact Hin|consts; lia..]. }
  assert (changes_only (h_mem h) m2 [pub_win g s]) as C12.
  { eapply changes_only_enlarge; [by eapply changes_only_trans|]. unfold pub_win; consts; repeat constructor; cbn; lia. }
  assert (peek_u32 m2 (padd (slot_ptr g s) bufferSizeOffset) = Some (slice_size b)) as H1'.
  { eapply changes_peek_u32; [exact C2|consts; solve_disj|]. rewrite H1. unfold u32. by rewrite Z.mod_mod, Z.mod_small by lia. }
  assert (peek_u8 m2 (padd (slot_ptr g s) bufferFlagOffset) = Some f) as Hf2.
  { eapply changes_peek_u8; [exact C2|consts; solve_disj|]. eapply changes_peek_u8; [exact C1|consts; solve_disj|done]. }
  assert (∀ m', changes_only m2 m' [pub_win g s] → peek m' (padd (slot_ptr g s) bufferHeaderSize) (Z.of_nat (length ct)) = Some ct) as Hd.
  { intros m' C. destruct (changes_only_seq _ _ _ _ C12 C) as [Hp' _]. unfold slice_content in Hct. rewrite Hri, padd_0, Hdata in Hct. unfold slice_size in Hct.
    rewrite Hp', Hsz; [done|]. consts. unfold pub_win. solve_disj. }
  assert (slice_update p h = match bs_next b with
    | None => Done (tt, set_mem m2 h)
    | Some n => (ns ← get_slice n; on_mem (header_linkNext hd (bs_offsetInShm ns))) (set_mem m2 h) end) as Eu.
  { unfold slice_update. erewrite bind_done by (by apply get_slice_ok). cbv beta. rewrite Hhd.
    erewrite bind_done by (apply header_ptr; [done|consts; lia]). cbv beta. rewrite Hptr.
    erewrite bind_done by (apply on_mem_ok; exact E1). cbv beta.
    erewrite bind_done by (apply header_ptr; [done|consts; lia]). cbv beta. rewrite Hptr.
    erewrite bind_done by (apply on_mem_ok; exact E2). cbv beta. by destruct (bs_next b). }
  destruct (bs_next b) as [n|].
  - destruct Hnx as (nb&Hnb&->&Hoff).
    destruct (header_linkNext_ok hd Hl m2 f (bs_offsetInShm nb)) as (m3&E3&H3&H4&C3).
    { rewrite Hptr. apply C12. rewrite <- (padd_0 (slot_ptr g s)). eapply in_mem_sub; [exact Hin|consts; lia..]. }
    { by rewrite Hptr. }
    rewrite Hptr in H3, H4, C3. exists m3.
    assert (changes_only m2 m3 [pub_win g s]) as C3'.
    { eapply changes_only_enlarge; [exact C3|]. unfold pub_win; consts; repeat constructor; cbn; lia. }
    split; [|split; [by eapply changes_only_seq|]].
    + rewrite Eu. erewrite bind_done by (apply get_slice_ok; exact Hnb). cbv beta. by erewrite on_mem_ok by exact E3.
    + constructor.
      * eapply changes_peek_u32; [exact C3|consts; solve_disj|]. by rewrite H2, Hst.
      * rewrite Hsz. eapply changes_peek_u32; [exact C3|consts; solve_disj|]. exact H1'.
      * eexists. split; [exact H4|]. apply flag_next_link.
      * intros o [= <-]. rewrite H3. unfold u32. by rewrite Z.mod_small.
      * by apply Hd.
  - subst nx. exists m2. split; [exact Eu|]. split; [done|]. constructor.
    + by rewrite H2, Hst.
    + by rewrite Hsz.
    + by exists f.
    + done.
    + apply Hd. apply changes_only_refl.
Qed.

(** Object [p] of a write buffer: a slot with bytes that was taken from its list. *)
Record ready (h : heap) (ls : list lstate) (p : nat) (a : place) (ct : list Z) (x : lstate) (b : bufferSlice) : Prop := {
  re_place : is_place ls a x;
  re_obj : h_slices h !! p = Some b;
  re_slot : slot_obj (ls_geom x) a.2 b;
  re_start : bs_start b = 0;
  re_read : bs_readIndex b = 0;
  re_wf : slice_wf (h_mem h) b;
  re_content : slice_content (h_mem h) b = Some ct;
  re_some : ct ≠ [];
  re_flag : ∃ f, peek_u8 (h_mem h) (padd (slot_ptr (ls_geom x) a.2) bufferFlagOffset) = Some f ∧ flag_next f = false
}.
Definition is_ready (h : heap) (ls : list lstate) (p : nat) (c : place * list Z) : Prop := ∃ x b, ready h ls p c.1 c.2 x b.

Lemma ready_len h ls p a ct x b : ready h ls p a ct x b → Z.of_nat (length ct) ≤ g_cap (ls_geom x).
Proof.
  intros []. apply peek_length in re_content0. rewrite re_content0. unfold slice_size. destruct re_wf0. pose proof (so_cap _ _ _ re_slot0). lia.
Qed.

(** Publishing one slot leaves the others alone. *)
Lemma ready_frame h m' ls p a ct y z x b : mgr_rep y ls → is_place ls z.1 z.2 → z.1 ≠ a →
  changes_only (h_mem h) m' [pub_win (ls_geom z.2) z.1.2] → ready h ls p a ct x b → ready (set_mem m' h) ls p a ct x b.
Proof.
  intros Hr Hz Hne Hc Hre. pose proof Hre as [].
  destruct (mgr_geom _ _ _ _ Hr (proj1 Hz)) as [Hgz _], (mgr_geom _ _ _ _ Hr (proj1 re_place0)) as [Hgx _].
  pose proof re_place0 as [_ (Hs0&Hs1&_)]. pose proof Hgx as [].
  assert (∀ d n, 0 ≤ d → d + n ≤ g_step (ls_geom x) →
    Forall (λ w, disjoint_win w.1 w.2 (padd (slot_ptr (ls_geom x) a.2) d) n) [pub_win (ls_geom z.2) z.1.2]) as Hsub.
  { intros d n Hd0 Hn. apply Forall_singleton. eapply win_in_disj; [by apply pub_in_slot|].
    eapply (win_in_disj_r (padd (slot_ptr (ls_geom x) a.2) d, n)); [|by eapply places_apart]. unfold win_in, slot_all. cbn. split_and!; [done|lia|lia]. }
  constructor; try done.
  - destruct re_wf0. constructor; try done. by apply Hc.
  - pose proof (ready_len _ _ _ _ _ _ _ Hre). pose proof (peek_length _ _ _ _ re_content0) as Hl.
    destruct Hc as [Hp _]. unfold slice_content in *. cbn. rewrite Hp; [done|].
    rewrite (so_data _ _ _ re_slot0), re_read0, padd_0. rewrite <- Hl. consts. apply Hsub; lia.
  - destruct re_flag0 as (f&Hf&Hn). exists f. split; [|done]. eapply changes_peek_u8; [exact Hc|consts; apply Hsub; lia|done].
Qed.

Definition wins (ls : list lstate) (cs : list (place * list Z)) : list (ptr * Z) :=
  omap (λ c, (λ x, pub_win (ls_geom x) c.1.2) <$> ls !! c.1.1) cs.

Lemma wins_in ls cs w : w ∈ wins ls cs → ∃ a ct x, (a, ct) ∈ cs ∧ ls !! a.1 = Some x ∧ w = pub_win (ls_geom x) a.2.
Proof. intros ([a ct]&Hc&Hw)%list_elem_of_omap. cbn in Hw. apply fmap_Some in Hw as (x&Hx&->). by exists a, ct, x. Qed.

Lemma first_off_ready h ls q c cs : is_ready h ls q c → ∃ nb, h_slices h !! q = Some nb ∧ first_off ls (c :: cs) = Some (bs_offsetInShm nb).
Proof.
  intros (x&b&[]). destruct c as [a ct]. exists b. split; [done|]. cbn in *. rewrite (proj1 re_place0). cbn. by rewrite (so_off _ _ _ re_slot0).
Qed.

Lemma ready_off m ls h q c : mgr_rep m ls → is_ready h ls q c → ∃ nb, h_slices h !! q = Some nb ∧ 0 ≤ bs_offsetInShm nb < 2 ^ 32.
Proof.
  intros Hr (x&b&[]). exists b. split; [done|]. destruct (mgr_geom _ _ _ _ Hr (proj1 re_place0)) as [Hg _]. pose proof Hg as [].
  destruct re_place0 as [_ (?&?&_)]. rewrite (so_off _ _ _ re_slot0). consts. lia.
Qed.

Lemma ready_all_frame h m' y ls a x ps cs : mgr_rep y ls → is_place ls a x → a ∉ cs.*1 →
  changes_only (h_mem h) m' [pub_win (ls_geom x) a.2] → Forall2 (is_ready h ls) ps cs → Forall2 (is_ready (set_mem m' h) ls) ps cs.
Proof.
  intros Hr Hx Ha Hc Hre. induction Hre as [|r [a2 ct2] ps cs (x2&b2&H2) _ IH]; constructor.
  - exists x2, b2. apply (ready_frame h m' ls r a2 ct2 y (a, x)); [done|done| |done|done]. cbn. rewrite fmap_cons in Ha. set_solver.
  - apply IH. rewrite fmap_cons in Ha. set_solver.
Qed.

Lemma wins_apart h y ls a x ps cs : mgr_rep y ls → is_place ls a x → a ∉ cs.*1 → Forall2 (is_ready h ls) ps cs →
  Forall (λ w, disjoint_win w.1 w.2 (slot_all (ls_geom x) a.2).1 (slot_all (ls_geom x) a.2).2) (wins ls cs).
Proof.
  intros Hr Hx Ha Hre. induction Hre as [|r [a2 ct2] ps cs (x2&b2&H2) _ IH]; [constructor|]. rewrite fmap_cons in Ha.
  pose proof (re_place _ _ _ _ _ _ _ H2) as H2p. cbn in *. rewrite (proj1 H2p). cbn. constructor; [|apply IH; set_solver].
  destruct (mgr_geom _ _ _ _ Hr (proj1 H2p)) as [Hg2 _]. eapply win_in_disj; [by apply pub_in_slot|]. apply (places_apart y ls a2 a); [done..|]. set_solver.
Qed.

Lemma update_loop_ok y ls ps : ∀ p cs fuel st,
  mgr_rep y ls → (∀ q n, in_mem y q n → in_mem (h_mem (st_heap st)) q n) →
  Forall2 (is_ready (st_heap st) ls) (p :: ps) cs → NoDup cs.*1 → NoDup (p :: ps) →
  links (h_slices (st_heap st)) (p :: ps) None → sl_write (lb_sliceList (st_buf st)) = last (p :: ps) →
  (length (p :: ps) ≤ fuel)%nat →
  ∃ m', update_loop fuel (Some p) st = Done (tt, set_heap (set_mem m' (st_heap st)) st)
    ∧ changes_only (h_mem (st_heap st)) m' (wins ls cs) ∧ chain m' ls cs.
Proof.
  induction ps as [|q ps IH]; intros p cs fuel st Hr Hin Hre Hnda Hnd Hl Hw Hfuel;
    (destruct fuel as [|fuel]; [cbn in Hfuel; lia|]); set (h := st_heap st);
    apply Forall2_cons_inv_l in Hre as ([a ct]&cs'&(x&b&Hx)&Hre&->); cbn [fst snd] in Hx; pose proof (re_place _ _ _ _ _ _ _ Hx) as Hpl;
    destruct (mgr_geom _ _ _ _ Hr (proj1 Hpl)) as [Hg Hbl]; pose proof (slot_in_mem _ _ _ _ _ Hbl (proj2 Hpl)) as Hmem;
    destruct (Hl 0%nat p eq_refl) as (b'&Hb'&Hnext); rewrite (re_obj _ _ _ _ _ _ _ Hx) in Hb'; injection Hb' as <-; cbn in Hnext.
  - apply Forall2_nil_inv_l in Hre as ->.
    destruct (publish_one h (ls_geom x) a.2 p b ct None) as (m'&E&Hc&Hs); try apply Hx; [done|apply Hin, Hmem|by rewrite Hnext|].
    exists m'. split_and!.
    + cbn [update_loop]. erewrite bind_done by (by apply on_heap_ok). cbv beta. erewrite bind_done by done. cbv beta.
      change (sl_write _) with (sl_write (lb_sliceList (st_buf st))). rewrite Hw. by rewrite bool_decide_eq_true_2.
    + cbn. by rewrite (proj1 Hpl).
    + split; [|done]. exists x. split_and!; [done|apply Hx|by eapply ready_len|done].
  - apply Forall2_cons_inv_l in Hre as (c2&cs2&Hq&Hre&->). rewrite fmap_cons in Hnda. apply NoDup_cons in Hnda as [Ha Hnda]. apply NoDup_cons in Hnd as [Hp Hnd].
    destruct (ready_off _ _ _ _ _ Hr Hq) as (nb&Hnb&Hoff). destruct (first_off_ready _ _ _ _ cs2 Hq) as (nb'&Hnb'&Hfo).
    rewrite Hnb in Hnb'. injection Hnb' as <-.
    destruct (publish_one h (ls_geom x) a.2 p b ct (Some (bs_offsetInShm nb))) as (m1&E&Hc&Hs); try apply Hx;
      [done|apply Hin, Hmem|rewrite Hnext; by exists nb|].
    destruct (IH q (c2 :: cs2) fuel (set_heap (set_mem m1 h) st)) as (m'&E'&Hc'&Hch); [done| | |done|done| |exact Hw|cbn in *; lia|].
    + intros r n Hrn. cbn. apply Hc, Hin, Hrn.
    + eapply ready_all_frame; [exact Hr|exact Hpl|exact Ha|exact Hc|by constructor].
    + intros i r Hi. exact (Hl (S i) r Hi).
    + exists m'. split_and!.
      * cbn [update_loop]. erewrite bind_done by (by apply on_heap_ok). cbv beta. erewrite bind_done by done. cbv beta.
        change (sl_write _) with (sl_write (lb_sliceList (st_buf st))). rewrite Hw. rewrite bool_decide_eq_false_2.
        2: { intros Heq. symmetry in Heq. rewrite last_cons_cons in Heq. by apply Hp, last_Some_elem_of. }
        erewrite bind_done by (apply on_heap_ok; unfold slice_next; erewrite bind_done by (apply get_slice_ok; apply Hx); done). cbv beta.
        rewrite Hnext. exact E'.
      * cbn [wins omap list_omap]. cbn. rewrite (proj1 Hpl). cbn. apply (changes_only_trans _ _ _ [_] _ Hc Hc').
      * split; [|done]. exists x. split_and!; [done|apply Hx|by eapply ready_len|]. cbn [fst snd]. rewrite Hfo.
        eapply sent_slot_frame; [done|by eapply ready_len|exact Hs|exact Hc'|]. eapply wins_apart; [done|done|exact Ha|by constructor].
Qed.

(** [done] publishes the whole buffer when its last slice is the one written to. *)
Lemma lb_done_ok bm ls st p ps cs :
  mgr_rep (h_mem (st_heap st)) ls → Forall2 (is_ready (st_heap st) ls) (p :: ps) cs → NoDup cs.*1 →
  slist_rep (h_slices (st_heap st)) (lb_sliceList (st_buf st)) (p :: ps) None →
  sl_write (lb_sliceList (st_buf st)) = last (p :: ps) → lb_isFromShm (st_buf st) = true →
  ∃ m', lb_done bm st = Done (tt, set_heap (set_mem m' (st_heap st)) st)
    ∧ changes_only (h_mem (st_heap st)) m' (wins ls cs) ∧ chain m' ls cs.
Proof.
  intros Hr Hre Hnd [] Hw Hshm.
  destruct (update_loop_ok _ ls ps p cs (size (h_slices (st_heap st))) st Hr) as (m'&E&Hc&Hch); [done..| |].
  { apply nodup_size; [done|]. intros q Hq. by eapply links_lookup. }
  exists m'. split_and!; [|done|done]. unfold lb_done. erewrite bind_done by done. cbv beta. rewrite Hshm. erewrite bind_done by done. cbv beta.
  rewrite sr_front. cbn [head]. unfold chain_fuel. erewrite bind_done by done. cbv beta. erewrite bind_done by exact E. cbv beta.
  erewrite bind_done by done. cbv beta. change (sl_write _) with (sl_write (lb_sliceList (st_buf st))). rewrite Hw.
  destruct (last (p :: ps)) as [w|] eqn:El; [|by apply last_None in El]. erewrite bind_done by done. cbv beta.
  rewrite last_lookup in El. destruct (sr_links _ _ El) as (b&Hb&Hn). rewrite (lookup_ge_None_2 (p :: ps)) in Hn by (cbn; lia).
  erewrite bind_done by (apply on_heap_ok; unfold slice_next; erewrite bind_done by (apply get_slice_ok; exact Hb); done). cbv beta. by rewrite Hn.
Qed.

(** ** Receiving *)

(** The lists are where their offsets say. *)
Definition placed (bm : bufferManager) (ls : list lstate) : Prop :=
  s_len (bm_mem bm) ≤ s_cap (bm_mem bm) ∧ s_len (bm_mem bm) < 2 ^ 32 ∧
  ∀ i x, ls !! i = Some x → g_base (ls_geom x) = padd (slice_ptr (bm_mem bm)) (g_off (ls_geom x)) ∧
    g_off (ls_geom x) + bufferListHeaderSize + g_bytes (ls_geom x) ≤ s_len (bm_mem bm).

(** A place that is in no free list and in none of the objects [L]. *)
Definition unheld (ls : list lstate) (h : heap) (L : list nat) (a : place) : Prop :=
  ∀ x, is_place ls a x → (a.2 ∉ ls_free x) ∧ ∀ p b, p ∈ L → h_slices h !! p = Some b → ¬ slot_obj (ls_geom x) a.2 b.

(** What [readBufferSlice] makes of a slot. *)
Definition received (bm : bufferManager) (g : geom) (s : Z) (ct : list Z) : bufferSlice :=
  let off := slot_off g s in
  BufferSlice (Some (GSlice (s_arr (bm_mem bm)) (s_off (bm_mem bm) + off) bufferHeaderSize (s_cap (bm_mem bm) - off)))
    (GSlice (s_arr (bm_mem bm)) (s_off (bm_mem bm) + (off + bufferHeaderSize)) (g_cap g) (s_cap (bm_mem bm) - (off + bufferHeaderSize)))
    (g_cap g) 0 off 0 (Z.of_nat (length ct)) true None.

Lemma received_obj bm ls a x ct : placed bm ls → geom_ok (ls_geom x) → is_place ls a x →
  slot_obj (ls_geom x) a.2 (received bm (ls_geom x) a.2 ct).
Proof.
  intros (Hcap&Hlen&Hpl) [] [Hi (?&?&_)]. destruct (Hpl _ _ Hi) as [Hbase Hend].
  constructor; cbn; try done.
  - eexists. split; [done|]. split; [|done]. unfold slice_ptr, slot_ptr, slot_off. cbn. rewrite Hbase. unfold padd, slice_ptr. cbn. f_equal. lia.
  - unfold slice_ptr, slot_ptr, slot_off. cbn. rewrite Hbase. unfold padd, slice_ptr. cbn. f_equal. lia.
  - unfold slot_off in *. consts. lia.
Qed.

Lemma read_slot bm ls h L a x ct nx :
  bm_own bm ls h L → placed bm ls → is_place ls a x → sent_slot (h_mem h) (ls_geom x) a.2 ct nx → Z.of_nat (length ct) ≤ g_cap (ls_geom x) →
  ∃ q h', readBufferSlice bm (slot_off (ls_geom x) a.2) h = Done (inr q, h') ∧
    fresh_obj h h' q (received bm (ls_geom x) a.2 ct) ∧ h_mem h' = h_mem h.
Proof.
  intros Hb Hpl Hx Hs Hlen. pose proof Hb as []. destruct (mgr_geom _ _ _ _ bw_rep (proj1 Hx)) as [Hg Hbl]. pose proof Hg as [].
  pose proof Hpl as (Hcap&Hmem&Hin). pose proof Hx as [Hi (Hs0&Hs1&_)]. destruct (Hin _ _ Hi) as [Hbase Hend]. pose proof Hs as [].
  assert (peek_u32 (h_mem h) (slot_ptr (ls_geom x) a.2) = Some (g_cap (ls_geom x))) as Hc by exact (br_caps _ _ _ _ Hbl a.2 (proj2 Hx)). set (g := ls_geom x) in *. set (off := slot_off g a.2).
  assert (0 ≤ off ∧ off + 20 + g_cap g ≤ s_len (bm_mem bm)) as [Ho0 Ho1] by (unfold off, slot_off; consts; lia).
  pose proof (received_obj bm ls a x ct Hpl Hg Hx) as [(hd&Hhd&Hptr&Hhl) _ _ _ _ _ _]. cbn [received bs_header] in Hhd. fold g off in Hhd, Hptr.
  set (dt := GSlice (s_arr (bm_mem bm)) (s_off (bm_mem bm) + (off + bufferHeaderSize)) (g_cap g) (s_cap (bm_mem bm) - (off + bufferHeaderSize))).
  destruct (newBufferSlice_shm h hd dt off (g_cap g) 0 (Z.of_nat (length ct))) as (q&h'&E&Hnew&Hpool&Hnp&Hsub&Hm&Hsl).
  { apply bw_own. } { lia. } { rewrite Hptr. unfold bufferCapOffset. by rewrite padd_0. } { by rewrite Hptr. } { by rewrite Hptr. }
  assert (∀ v, 0 ≤ v ≤ s_len (bm_mem bm) → u32 v = v) as Hu by (intros v Hv; unfold u32; rewrite Z.mod_small; lia).
  exists q, h'. split_and!; [| |done].
  - unfold readBufferSlice. fold off. unfold bufferHeaderSize, bufferCapOffset in *. rewrite Z.geb_leb. bdecide. rewrite Z.add_0_r, !(Hu off) by lia.
    rewrite (Hu (off + 20)) by lia.
    erewrite bind_done by (apply index_ptr_ok; lia). cbv beta. rewrite <- Hptr in Hc. injection Hhd as <-.
    erewrite bind_done by (apply on_mem_ok, load_u32_ok; exact Hc). cbv beta zeta. rewrite set_mem_id. rewrite !(Hu (off + 20 + g_cap g)), (Hu (s_len _)) by lia.
    rewrite Z.gtb_ltb. bdecide. erewrite bind_done by (apply subslice_ok; lia). cbv beta. erewrite bind_done by (apply subslice_ok; lia). cbv beta.
    replace (off + 20 - off) with 20 by lia. replace (off + 20 + g_cap g - (off + 20)) with (g_cap g) by lia.
    by erewrite bind_done by exact E.
  - constructor; try done. rewrite Hsl. unfold received. cbv zeta. fold g. fold off. fold dt. rewrite Hhd. by rewrite Hu by lia.
Qed.

Lemma received_wf bm ls m a x ct : mgr_rep m ls → placed bm ls → is_place ls a x → Z.of_nat (length ct) ≤ g_cap (ls_geom x) →
  slice_wf m (received bm (ls_geom x) a.2 ct).
Proof.
  intros Hr Hpl Hx Hlen. destruct (mgr_geom _ _ _ _ Hr (proj1 Hx)) as [Hg Hbl]. pose proof (received_obj bm ls a x ct Hpl Hg Hx) as Ho.
  constructor; [cbn; lia|cbn; lia|done|apply Ho|]. rewrite (so_data _ _ _ Ho), (so_len _ _ _ Ho). pose proof (slot_in_mem _ _ _ _ _ Hbl (proj2 Hx)) as Hm.
  pose proof Hg as []. eapply in_mem_sub; [exact Hm|unfold ls_geom in *; consts; lia..].
Qed.

Lemma bm_own_received bm ls h L a x ct q h' :
  bm_own bm ls h L → placed bm ls → is_place ls a x → unheld ls h L a → Z.of_nat (length ct) ≤ g_cap (ls_geom x) →
  fresh_obj h h' q (received bm (ls_geom x) a.2 ct) → h_mem h' = h_mem h →
  bm_own bm ls h' (q :: L) ∧ ∀ r, r ∈ L → same_slice h h' r.
Proof.
  intros Hb Hpl Hx Hun Hlen Hf Hm. pose proof Hb as []. pose proof Hf as []. destruct (Hun x Hx) as [Hfree Hnot].
  destruct (mgr_geom _ _ _ _ bw_rep (proj1 Hx)) as [Hg _]. pose proof (received_obj bm ls a x ct Hpl Hg Hx) as Ho.
  assert (q ∉ L) as Hq by (by eapply fresh_not_owned).
  split.
  - constructor; rewrite ?Hm; try done.
    + eapply owned_add; [done|done|rewrite Hm; by eapply received_wf|by rewrite Hm|].
      intros r b Hr Hbr. destruct (bw_objs r b Hr Hbr) as [(j&y&u&Hj&Hu&_&Hob)|(_&_&Harr)].
      * eapply (slots_apart _ ls a.1 j); [done|apply Hx|exact Hj|apply Hx|exact Hu| |exact Ho|exact Hob].
        intros Hij Hau. rewrite <- Hij, (proj1 Hx) in Hj. injection Hj as <-. rewrite <- Hau in Hob. by apply (Hnot r b Hr Hbr).
      * left. cbn. congruence.
    + intros r b [->|Hr]%elem_of_cons Hbr; rewrite fo_slices in Hbr.
      * rewrite lookup_insert_eq in Hbr. injection Hbr as <-. left. exists a.1, x, a.2. split_and!; [apply Hx|apply Hx|done|done].
      * rewrite lookup_insert_ne in Hbr by (by intros ->). by eapply bw_objs.
  - intros r Hr. split; [rewrite fo_slices, lookup_insert_ne; [done|by intros ->]|]. intros b Hbr. by rewrite Hm.
Qed.

Lemma received_content bm ls m a x ct nx : mgr_rep m ls → placed bm ls → is_place ls a x → sent_slot m (ls_geom x) a.2 ct nx →
  slice_content m (received bm (ls_geom x) a.2 ct) = Some ct.
Proof.
  intros Hr Hpl Hx []. destruct (mgr_geom _ _ _ _ Hr (proj1 Hx)) as [Hg _]. pose proof (received_obj bm ls a x ct Hpl Hg Hx) as Ho.
  unfold slice_content. rewrite (so_data _ _ _ Ho). cbn [bs_readIndex received]. rewrite padd_0. unfold slice_size. cbn. by rewrite Z.sub_0_r.
Qed.

(** ** Appending to the read buffer *)

Lemma append_received bm ls s h1 O ps pins c p b ct :
  lb_held bm s O ps pins c → bm_own bm ls h1 (p :: ps ++ pins ++ O) →
  (∀ q, q ∈ ps ++ pins ++ O → same_slice (st_heap s) h1 q) →
  h_slices h1 !! p = Some b → bs_next b = None → slice_content (h_mem h1) b = Some ct →
  ∃ s', appendBufferSlice (Some p) (set_heap h1 s) = Done (tt, s') ∧ lb_rep bm s' O (ps ++ [p]) pins (c ++ ct) ∧
    bm_own bm ls (st_heap s') ((ps ++ [p]) ++ pins ++ O) ∧ h_mem (st_heap s') = h_mem h1 ∧
    h_slices (st_heap s') !! p = Some b ∧ (∀ q, q ∈ ps ++ pins ++ O → same_upto_next (st_heap s) (st_heap s') q).
Proof.
  intros Hrep Hb1 Hsame Hb Hnx Hct. pose proof Hrep as [Hr Hlen _]. pose proof Hr as []. pose proof (ow_nodup _ _ (bw_own _ _ _ _ Hb1)) as [Hp _]%NoDup_cons.
  pose proof (al_inv_owned _ _ _ lr_own) as Ho.
  assert (∀ q, q ∈ ps ++ pins ++ O → is_Some (h_slices (st_heap s) !! q)) as Hlive.
  { intros q Hq. destruct (owned_lookup _ _ q Ho Hq) as (bq&->&_). eauto. }
  destruct (bm_pushBack bm ls h1 (p :: ps ++ pins ++ O) (lb_sliceList (st_buf s)) ps p b)
    as (l'&h'&E&Hr'&Hw&Hb'&Hbp&Hs1&Hs2); [done| |set_solver|set_solver|done|done|].
  { eapply slist_rep_same; [done|]. intros q Hq. apply Hsame. set_solver. }
  pose proof (sl_pushBack_mem _ _ _ _ _ E) as Hm.
  assert (∀ q, q ∈ ps ++ pins ++ O → same_upto_next (st_heap s) h' q) as Hupto.
  { intros q Hq. destruct (decide (q ∈ ps)) as [Hin|Hin].
    - eapply same_upto_next_trans; [|by apply Hs2]. apply same_slice_upto; [by apply Hlive|by apply Hsame].
    - apply same_slice_upto; [by apply Hlive|]. eapply same_slice_trans; [by apply Hsame|]. by apply Hs1. }
  pose proof (rep_nodup _ _ _ _ _ _ Hr) as (_&Hd&_)%NoDup_app.
  assert ((ps ++ [p]) ++ pins ++ O ≡ₚ p :: ps ++ pins ++ O) as HP by (by rewrite <- app_assoc, Permutation_middle).
  set (s1 := LbSt h' (set_sliceList l' (st_buf s)) (st_allocErrors s)). set (s2 := if bs_isFromShm b then s1 else LbSt h' (set_isFromShm false (st_buf s1)) (st_allocErrors s)).
  assert (st_heap s2 = h' ∧ lb_sliceList (st_buf s2) = l' ∧ lb_pinnedList (st_buf s2) = lb_pinnedList (st_buf s) ∧ lb_len (st_buf s2) = lb_len (st_buf s)) as (F1&F2&F3&F4)
    by (unfold s2; by destruct (bs_isFromShm b)).
  eexists. split; [|split_and!].
  - unfold appendBufferSlice, pushBack. erewrite bind_done; last first.
    { erewrite bind_done by done. cbv beta. erewrite bind_done by (apply on_heap_ok; exact E). done. }
    cbv beta. erewrite bind_done by (apply on_heap_ok, get_slice_ok; exact Hbp). cbv beta.
    erewrite (bind_done _ _ _ tt s2) by (unfold s2; by destruct (bs_isFromShm b)). cbv beta. by erewrite bind_done by done.
  - assert (bm_own bm ls h' ((ps ++ [p]) ++ pins ++ O)) as Hown by (by eapply bm_own_perm).
    constructor; [constructor|..]; cbn; rewrite ?F1, ?F2, ?F3, ?F4.
    + by exists ls.
    + by destruct Hr'.
    + destruct lr_pins as [e Hpin]. exists e. eapply slist_rep_same; [exact Hpin|]. intros q Hq.
      eapply same_slice_trans; [apply Hsame; set_solver|]. apply Hs1. intros Hq'. apply (Hd q Hq'). set_solver.
    + rewrite contents_app. cbn. rewrite app_nil_r. f_equal.
      * rewrite <- lr_content. eapply (contents_same _ _ (ps ++ pins ++ O)); [done|set_solver|]. intros q Hq. apply Hupto. set_solver.
      * eapply obj_content_eq; [exact Hbp|]. by rewrite Hm.
    + rewrite Hlen, length_app. apply peek_length in Hct. lia.
    + exists ps, []. split; [done|]. set_solver.
  - cbn. rewrite F1. by eapply bm_own_perm.
  - cbn. by rewrite F1.
  - cbn. by rewrite F1.
  - cbn. by rewrite F1.
Qed.

(** ** The chain of a message *)

Lemma slot_obj_next g s b n : slot_obj g s (with_next b n) → slot_obj g s b.
Proof. intros []. by constructor. Qed.

Lemma one_place m ls a a2 x y b : mgr_rep m ls → is_place ls a x → is_place ls a2 y → slot_obj (ls_geom x) a.2 b → slot_obj (ls_geom y) a2.2 b → a = a2.
Proof.
  intros Hr Hx Hy [(hd&Hhd&Hp&_) _ _ _ _ _ _] [(hd'&Hhd'&Hp'&_) _ _ _ _ _ _]. rewrite Hhd in Hhd'. injection Hhd' as <-.
  destruct (decide (a = a2)) as [|Hne]; [done|]. exfalso. pose proof (places_apart _ _ _ _ _ _ Hr Hx Hy Hne) as Hd.
  destruct (mgr_geom _ _ _ _ Hr (proj1 Hx)) as [[] _], (mgr_geom _ _ _ _ Hr (proj1 Hy)) as [[] _].
  unfold slot_all in Hd. cbn [fst snd] in Hd. rewrite <- Hp, <- Hp' in Hd. unfold disjoint_win in Hd. consts. destruct Hd as [|[|]]; [done|lia|lia].
Qed.

Lemma unheld_step bm ls s s1 L q a x ct a2 :
  bm_own bm ls s L → is_place ls a x → slot_obj (ls_geom x) a.2 (received bm (ls_geom x) a.2 ct) →
  h_slices s1 !! q = Some (received bm (ls_geom x) a.2 ct) → (∀ r, r ∈ L → same_upto_next s s1 r) → a2 ≠ a →
  unheld ls s L a2 → ∀ L1, L1 ≡ₚ q :: L → unheld ls s1 L1 a2.
Proof.
  intros Hb Hx Hox Hq Hs Hne Hun L1 HL y Hy. destruct (Hun y Hy) as [Hf Hn]. split; [done|]. intros r b Hr Hbr Hob.
  rewrite HL in Hr. apply elem_of_cons in Hr as [->|Hr].
  - rewrite Hq in Hbr. injection Hbr as <-. apply Hne. symmetry. by eapply (one_place _ _ _ _ _ _ _ (bw_rep _ _ _ _ Hb)).
  - destruct (Hs r Hr) as (b0&n&Hb0&Hb1&_). rewrite Hb1 in Hbr. injection Hbr as <-. apply (Hn r b0 Hr Hb0). by eapply slot_obj_next.
Qed.

(** The read buffer of stream [p] holds the bytes [c]. *)
Definition lb_view (s : session) (t : stream) : lbst := LbSt (ss_heap s) (sm_recvBuf t) (ss_stats s allocShmErrorCount).
Record recv_rep (bm : bufferManager) (ls : list lstate) (s : session) (p : nat) (O ps pins : list nat) (c : list Z) : Prop := {
  rr_bm : ss_bufferManager s = bm;
  rr_rep : ∃ t, ss_objs s !! p = Some t ∧ lb_held bm (lb_view s t) O ps pins c;
  rr_own : bm_own bm ls (ss_heap s) (ps ++ pins ++ O)
}.

Lemma on_recvBuf_done {A} p (m : M lbst A) s t a b : ss_objs s !! p = Some t → m (lb_view s t) = Done (a, b) →
  on_recvBuf p m s = Done (a, set_objs (<[p := with_bufs (st_buf b) (sm_sendBuf t) t]> (ss_objs s))
    (set_stats (set_stat allocShmErrorCount (st_allocErrors b) (ss_stats s)) (set_ss_heap (st_heap b) s))).
Proof.
  intros Ht E. unfold on_recvBuf, on_buf. erewrite bind_done by (unfold get_obj; by rewrite Ht). cbv beta. erewrite bind_done by done. cbv beta.
  change (LbSt _ _ _) with (lb_view s t). rewrite E. erewrite bind_done by done. cbv beta. by erewrite bind_done by (by apply upd_obj_run).
Qed.

Lemma on_ss_heap_done {A} (m : M heap A) s a h : m (ss_heap s) = Done (a, h) → on_ss_heap m s = Done (a, set_ss_heap h s).
Proof. apply zoom_done. Qed.

(** A new object outside of the array joins the others. *)
Lemma own_array_append (bm : bufferManager) h h' ps pins O q b a0 : own_array bm h (ps ++ pins ++ O) a0 → h_slices h' !! q = Some b → s_arr (bs_data b) ≠ a0 →
  (∀ r, r ∈ ps ++ pins ++ O → same_upto_next h h' r) → own_array bm h' ((ps ++ [q]) ++ pins ++ O) a0.
Proof.
  intros [Hf Ha] Hq Hb Hs. split; [done|]. intros r x Hr Hx. destruct (decide (r = q)) as [->|Hne]; [congruence|].
  assert (r ∈ ps ++ pins ++ O) as Hr' by set_solver. destruct (Hs r Hr') as (y&n&Hy&Hy'&_). rewrite Hx in Hy'. injection Hy' as ->. exact (Ha r y Hr' Hy).
Qed.

(** One round: a slot is read and appended. *)
Lemma receive_one bm ls s p O ps pins c a x ct nx :
  recv_rep bm ls s p O ps pins c → placed bm ls → is_place ls a x → unheld ls (ss_heap s) (ps ++ pins ++ O) a →
  ct ≠ [] → Z.of_nat (length ct) ≤ g_cap (ls_geom x) → sent_slot (h_mem (ss_heap s)) (ls_geom x) a.2 ct nx →
  ∃ q h1 s', readBufferSlice bm (slot_off (ls_geom x) a.2) (ss_heap s) = Done (inr q, h1) ∧
    h_slices h1 !! q = Some (received bm (ls_geom x) a.2 ct) ∧
    on_recvBuf p (appendBufferSlice (Some q)) (set_ss_heap h1 s) = Done (tt, s') ∧
    recv_rep bm ls s' p O (ps ++ [q]) pins (c ++ ct) ∧ h_mem (ss_heap s') = h_mem (ss_heap s) ∧
    (∀ a2, a2 ≠ a → unheld ls (ss_heap s) (ps ++ pins ++ O) a2 → unheld ls (ss_heap s') ((ps ++ [q]) ++ pins ++ O) a2) ∧
    (∀ a0, own_array bm (ss_heap s) (ps ++ pins ++ O) a0 → own_array bm (ss_heap s') ((ps ++ [q]) ++ pins ++ O) a0).
Proof.
  intros [Hbm (t&Ht&Hrep) Hown] Hpl Hx Hun Hct Hlen Hs. pose proof (bw_rep _ _ _ _ Hown) as Hmgr.
  destruct (mgr_geom _ _ _ _ Hmgr (proj1 Hx)) as [Hg _]. pose proof (received_obj bm ls a x ct Hpl Hg Hx) as Ho.
  destruct (read_slot bm ls (ss_heap s) _ a x ct nx Hown Hpl Hx Hs Hlen) as (q&h1&E&Hf&Hm).
  destruct (bm_own_received bm ls _ _ a x ct q h1 Hown Hpl Hx Hun Hlen Hf Hm) as [Hown1 Hsame].
  assert (h_slices h1 !! q = Some (received bm (ls_geom x) a.2 ct)) as Hq by (rewrite (fo_slices _ _ _ _ Hf); apply lookup_insert_eq).
  destruct (append_received bm ls (lb_view s t) h1 O ps pins c q (received bm (ls_geom x) a.2 ct) ct Hrep Hown1 Hsame Hq)
    as (st'&E'&Hrep'&Hown'&Hm'&Hq'&Hup); [done|rewrite Hm; by eapply received_content|].
  exists q, h1. eexists. split; [exact E|]. split; [exact Hq|]. split.
  { apply (on_recvBuf_done p _ (set_ss_heap h1 s) t tt st'); [exact Ht|exact E']. }
  split_and!.
  - constructor; [done| |done]. eexists. split; [cbn; apply lookup_insert_eq|]. unfold lb_view. cbn.
    unfold set_stat. rewrite decide_True by done. destruct st'. by apply rep_held.
  - cbn. by rewrite Hm', Hm.
  - intros a2 Hne Hun2. cbn. eapply (unheld_step bm ls (ss_heap s) (st_heap st')); [exact Hown|exact Hx|exact Ho|exact Hq'|exact Hup|done|done|].
    by rewrite <- app_assoc, Permutation_middle.
  - intros a0 Ho0. eapply (own_array_append bm (ss_heap s)); [exact Ho0|exact Hq'| |exact Hup]. cbn. by destruct Ho0 as [H0 _].
Qed.

Lemma on_ss_mem_done {A} (m : M gmem A) s a : m (h_mem (ss_heap s)) = Done (a, h_mem (ss_heap s)) → on_ss_heap (on_mem m) s = Done (a, s).
Proof.
  intros E. erewrite on_ss_heap_done by (by apply on_mem_ok). rewrite set_mem_id. by destruct s.
Qed.

Lemma move_chain_ok bm ls p O pins cs : ∀ fuel s ps c o,
  recv_rep bm ls s p O ps pins c → placed bm ls → chain (h_mem (ss_heap s)) ls cs → NoDup cs.*1 →
  (∀ a, a ∈ cs.*1 → unheld ls (ss_heap s) (ps ++ pins ++ O) a) → first_off ls cs = Some o → (length cs ≤ fuel)%nat →
  ∃ s' qs, move_chain fuel p o s = Done (tt, s') ∧ recv_rep bm ls s' p O (ps ++ qs) pins (c ++ concat cs.*2)
    ∧ h_mem (ss_heap s') = h_mem (ss_heap s)
    ∧ ∀ a0, own_array bm (ss_heap s) (ps ++ pins ++ O) a0 → own_array bm (ss_heap s') ((ps ++ qs) ++ pins ++ O) a0.
Proof.
  induction cs as [|[a ct] cs IH]; intros fuel s ps c o Hrr Hpl Hch Hnd Hun Ho Hfuel; [done|].
  destruct fuel as [|fuel]; [cbn in Hfuel; lia|]. destruct Hch as [(x&Hx&Hct&Hlen&Hs) Hch]. rewrite fmap_cons in Hnd. apply NoDup_cons in Hnd as [Ha Hnd].
  cbn in Ho. rewrite (proj1 Hx) in Ho. cbn in Ho. injection Ho as <-.
  destruct (receive_one bm ls s p O ps pins c a x ct (first_off ls cs) Hrr Hpl Hx) as (q&h1&s1&E&Hq&E1&Hrr1&Hm1&Hun1&Hoa1); [apply Hun; rewrite fmap_cons; set_solver|done..|].
  pose proof (received_obj bm ls a x ct Hpl (proj1 (mgr_geom _ _ _ _ (bw_rep _ _ _ _ (rr_own _ _ _ _ _ _ _ _ Hrr)) (proj1 Hx))) Hx) as [(hd&Hhd&Hptr&Hhl) _ _ _ _ _ _].
  assert (bufferHeaderSize ≤ s_len hd) as Hhl' by lia. pose proof Hs as [_ _ (f&Hf&Hfn) Hnext _]. rewrite <- Hptr in Hf, Hnext.
  assert (move_chain (S fuel) p (slot_off (ls_geom x) a.2) s =
    if negb (flag_next f) then Done (tt, s1)
    else (offset ← on_ss_heap (on_mem (header_nextBufferOffset hd)); move_chain fuel p offset) s1) as Eq.
  { cbn [move_chain]. erewrite bind_done by done. cbv beta. rewrite (rr_bm _ _ _ _ _ _ _ _ Hrr).
    erewrite bind_done by (by apply on_ss_heap_done). cbv beta iota.
    erewrite bind_done by (apply on_ss_heap_done, get_slice_ok; exact Hq). cbv beta zeta.
    replace (slice_size (received bm (ls_geom x) a.2 ct) =? 0) with false by (symmetry; apply Z.eqb_neq; unfold slice_size; cbn; destruct ct; [done|cbn; lia]).
    change (set_ss_heap h1 (set_ss_heap h1 s)) with (set_ss_heap h1 s). erewrite bind_done by exact E1. cbv beta.
    unfold header_of. rewrite Hhd. cbn [default]. erewrite bind_done by (apply on_ss_mem_done; rewrite Hm1; by apply header_hasNext_ok).
    by destruct (negb (flag_next f)). }
  rewrite Eq, Hfn. destruct cs as [|[a2 ct2] cs].
  - exists s1, [q]. cbn. rewrite app_nil_r. done.
  - destruct Hch as [(x2&Hx2&Hrest) Hch]. pose proof (conj (ex_intro _ x2 (conj Hx2 Hrest)) Hch : chain _ ls ((a2, ct2) :: cs)) as Hch'.
    assert (first_off ls ((a2, ct2) :: cs) = Some (slot_off (ls_geom x2) a2.2)) as Hfo by (cbn; by rewrite (proj1 Hx2)).
    rewrite Hfo in Hnext |- *. cbn [negb]. erewrite bind_done; last first.
    { apply on_ss_mem_done. rewrite Hm1. apply header_next_ok; [done|]. by apply Hnext. }
    cbv beta. destruct (IH fuel s1 (ps ++ [q]) (c ++ ct) (slot_off (ls_geom x2) a2.2)) as (s'&qs&E'&Hrr'&Hm'&Hoa'); [done|done|by rewrite Hm1|done| |done|cbn in *; lia|].
    + intros a3 Ha3. apply Hun1; [set_solver|]. apply Hun. rewrite fmap_cons. set_solver.
    + exists s', (q :: qs). split; [exact E'|]. rewrite <- !app_assoc in Hrr'. split; [exact Hrr'|]. split; [by rewrite Hm'|].
      intros a0 Ha0. apply Hoa1, Hoa' in Ha0. by rewrite <- (app_assoc ps) in Ha0.
Qed.

(** A message is shorter than the memory: the fuel of [moveToWithoutLock] is enough. *)
Lemma chain_places m ls cs : chain m ls cs → ∀ a, a ∈ cs.*1 → ∃ x, is_place ls a x.
Proof.
  induction cs as [|[a ct] cs IH]; [by intros _ a ?%not_elem_of_nil|]. intros [(x&Hx&_) Hch] b. rewrite fmap_cons.
  intros [->|Hb]%elem_of_cons; [by exists x|by apply IH].
Qed.

Lemma chain_short bm m m' ls cs : mgr_rep m' ls → placed bm ls → chain m ls cs → NoDup cs.*1 → (length cs ≤ Z.to_nat (s_len (bm_mem bm)))%nat.
Proof.
  intros Hr (_&_&Hpl) Hch Hnd. pose proof (chain_places _ _ _ Hch) as Hin. rewrite <- (length_fmap fst cs). generalize dependent (cs.*1). clear cs Hch. intros as_ Hnd Hin.
  set (off (a : place) := match ls !! a.1 with Some x => slot_off (ls_geom x) a.2 | None => 0 end).
  assert (∀ a, a ∈ as_ → ∃ x, is_place ls a x ∧ off a = slot_off (ls_geom x) a.2) as Hoff.
  { intros a Ha. destruct (Hin a Ha) as (x&Hx). exists x. split; [done|]. unfold off. by rewrite (proj1 Hx). }
  assert (NoDup (off <$> as_)) as Hnd'.
  { apply NoDup_fmap_2_strong; [|done]. intros a b Ha Hb Heq. destruct (Hoff a Ha) as (x&Hx&Ex), (Hoff b Hb) as (y&Hy&Ey).
    destruct (decide (a = b)) as [|Hne]; [done|]. exfalso. pose proof (places_apart _ _ _ _ _ _ Hr Hx Hy Hne) as Hd.
    destruct (Hpl _ _ (proj1 Hx)) as [Bx _], (Hpl _ _ (proj1 Hy)) as [By _]. rewrite Ex, Ey in Heq. unfold slot_off in Heq.
    destruct (mgr_geom _ _ _ _ Hr (proj1 Hx)) as [[] _], (mgr_geom _ _ _ _ Hr (proj1 Hy)) as [[] _].
    unfold slot_all, slot_ptr in Hd. rewrite Bx, By in Hd. unfold disjoint_win, padd in Hd. cbn in Hd. consts. destruct Hd as [|[|]]; [done|lia|lia]. }
  rewrite <- (length_fmap off as_). rewrite <- (length_seqZ 0 (s_len (bm_mem bm))). apply submseteq_length, NoDup_submseteq; [done|].
  intros o (a&->&Ha)%list_elem_of_fmap. destruct (Hoff a Ha) as (x&Hx&->). apply elem_of_seqZ.
  destruct (Hpl _ _ (proj1 Hx)) as [_ He]. destruct (mgr_geom _ _ _ _ Hr (proj1 Hx)) as [[] _]. destruct Hx as [_ (?&?&_)]. unfold slot_off. consts. lia.
Qed.

Lemma recv_rep_ext bm ls s s' p O ps pins c t t' :
  recv_rep bm ls s p O ps pins c → ss_objs s !! p = Some t → ss_objs s' !! p = Some t' → sm_recvBuf t' = sm_recvBuf t →
  ss_heap s' = ss_heap s → ss_bufferManager s' = ss_bufferManager s → recv_rep bm ls s' p O ps pins c.
Proof.
  intros [Hbm (t0&Ht0&Hrep) Hown] Ht Ht' Hbuf Hh Hb. rewrite Ht in Ht0. injection Ht0 as <-. constructor; [by rewrite Hb| |by rewrite Hh].
  exists t'. split; [done|]. unfold lb_view in *. rewrite Hh, Hbuf. destruct Hrep as [[] Hlen Hw]. by constructor.
Qed.

Lemma move_message bm ls p O pins cs s ps c o t :
  recv_rep bm ls s p O ps pins c → placed bm ls → chain (h_mem (ss_heap s)) ls cs → NoDup cs.*1 →
  (∀ a, a ∈ cs.*1 → unheld ls (ss_heap s) (ps ++ pins ++ O) a) → first_off ls cs = Some o →
  ss_objs s !! p = Some t → sm_pending t = [Wrapper None o] →
  ∃ s' qs t', moveToWithoutLock p s = Done (tt, s') ∧ recv_rep bm ls s' p O (ps ++ qs) pins (c ++ concat cs.*2)
    ∧ (ss_objs s' !! p = Some t' ∧ sm_pending t' = []) ∧ h_mem (ss_heap s') = h_mem (ss_heap s)
    ∧ ∀ a0, own_array bm (ss_heap s) (ps ++ pins ++ O) a0 → own_array bm (ss_heap s') ((ps ++ qs) ++ pins ++ O) a0.
Proof.
  intros Hrr Hpl Hch Hnd Hun Ho Ht Hpend. unfold moveToWithoutLock. erewrite bind_done by (unfold get_obj; by rewrite Ht). cbv beta. rewrite Hpend.
  erewrite bind_done by (by apply on_recvBuf_done). cbv beta.
  match goal with |- context [(shm_fuel ≫= _) ?s1] => set (s0 := s1) end. unfold shm_fuel.
  assert (recv_rep bm ls s0 p O ps pins c) as Hrr0.
  { eapply recv_rep_ext; [exact Hrr|exact Ht|cbn; apply lookup_insert_eq|done|done|done]. }
  erewrite bind_done; last (erewrite bind_done by done; done). cbv beta. rewrite (rr_bm _ _ _ _ _ _ _ _ Hrr0).
  destruct (move_chain_ok bm ls p O pins cs (alloc_fuel bm) s0 ps c o) as (s1&qs&E&Hrr1&Hm1&Hoa1); [done|done|done|done|done|done| |].
  { unfold alloc_fuel. pose proof (chain_short bm _ _ ls cs (bw_rep _ _ _ _ (rr_own _ _ _ _ _ _ _ _ Hrr)) Hpl Hch Hnd). lia. }
  destruct (rr_rep _ _ _ _ _ _ _ _ Hrr1) as (t1&Ht1&_).
  rewrite (bind_done _ _ _ tt s1); [|by cbn; erewrite bind_done by exact E].
  erewrite bind_done by (by apply on_recvBuf_done). cbv beta. erewrite bind_done by done. cbv beta.
  erewrite upd_obj_run by (cbn; apply lookup_insert_eq). eexists _, qs, _. split; [done|]. split; [|split; [split; [cbn; apply lookup_insert_eq|done]|split; [exact Hm1|exact Hoa1]]].
  eapply recv_rep_ext; [exact Hrr1|exact Ht1|cbn; apply lookup_insert_eq|done|done|done].
Qed.

(** ** The lists are left alone *)

Lemma pub_keeps_list m m' ls cs : mgr_rep m ls → changes_only m m' (wins ls cs) →
  (∀ a, a ∈ cs.*1 → ∃ x, is_place ls a x ∧ a.2 ∉ ls_free x) → mgr_rep m' ls.
Proof.
  intros Hr Hc Hpl. pose proof Hr as [Hl Ha]. constructor; [|done]. apply Forall_lookup. intros j y Hj. destruct (mgr_geom _ _ _ _ Hr Hj) as [Hgy Hry].
  assert (∀ w, w ∈ wins ls cs → ∃ a x, is_place ls a x ∧ (a.2 ∉ ls_free x) ∧ w = pub_win (ls_geom x) a.2) as Hws.
  { intros w (a&ct&x&Hin&Hx&->)%wins_in. destruct (Hpl a) as (x'&Hx'&Hf); [apply list_elem_of_fmap; by exists (a, ct)|].
    destruct Hx' as [Hx1 Hx2]. rewrite Hx in Hx1. injection Hx1 as <-. by exists a, x. }
  assert (∀ u w, is_slot (ls_geom y) u → w ∈ wins ls cs → (u ∈ ls_free y → disjoint_win w.1 w.2 (slot_ptr (ls_geom y) u) bufferHeaderSize)
    ∧ disjoint_win w.1 w.2 (slot_ptr (ls_geom y) u) 4) as Hslot.
  { intros u w Hu Hw. destruct (Hws w Hw) as (a&x&Hx&Hf&->). destruct (mgr_geom _ _ _ _ Hr (proj1 Hx)) as [Hgx _]. destruct (decide (a = (j, u))) as [->|Hne].
    - destruct Hx as [Hx _]. cbn in *. rewrite Hj in Hx. injection Hx as <-. split; [done|]. unfold pub_win. solve_disj.
    - pose proof (places_apart _ _ a (j, u) x y Hr Hx (conj Hj Hu) Hne) as Hd. pose proof Hgy as [].
      assert (∀ n, n ≤ g_step (ls_geom y) → disjoint_win (pub_win (ls_geom x) a.2).1 (pub_win (ls_geom x) a.2).2 (slot_ptr (ls_geom y) u) n) as Hn.
      { intros n Hn. eapply win_in_disj; [by apply pub_in_slot|]. eapply (win_in_disj_r (slot_ptr (ls_geom y) u, n)); [|exact Hd].
        unfold win_in, slot_all. cbn. split_and!; [done|lia|lia]. }
      split; [intros _|]; apply Hn; consts; lia. }
  eapply blist_rep_frame; [exact Hry|exact Hc|..].
  - apply Forall_forall. intros w Hw. destruct (Hws w Hw) as (a&x&Hx&_&->). destruct (mgr_geom _ _ _ _ Hr (proj1 Hx)) as [Hgx _].
    destruct (decide (a.1 = j)) as [Heq|Hne].
    + destruct Hx as [Hx (?&?&_)]. rewrite Heq, Hj in Hx. injection Hx as <-. unfold pub_win, slot_ptr. unfold ls_geom in *. consts. solve_disj.
    + eapply win_in_disj; [by apply pub_in_slot|]. eapply (win_in_disj _ (g_win (ls_geom x))).
      { unfold win_in, slot_all, g_win, slot_ptr. destruct Hx as [_ (?&?&_)]. cbn. consts. split_and!; [done|lia|lia]. }
      eapply (win_in_disj_r (g_base (ls_geom y), bufferListHeaderSize) (g_win (ls_geom y))); [|by apply (Ha a.1 j x y); [|apply Hx|]].
      unfold win_in, g_win. cbn. pose proof Hgy as []. consts. unfold g_bytes in *. consts. split_and!; [done|lia|]. nia.
  - intros u Hu. apply Forall_forall. intros w Hw. apply Hslot; [|done|done]. pose proof (br_slots _ _ _ _ Hry) as F. rewrite Forall_forall in F. by apply F.
  - intros u Hu. apply Forall_forall. intros w Hw. by apply Hslot.
Qed.

(** ** Both ends *)

(** A slice of the write buffer with bytes in it, in a slot that is not linked. *)
Record written (h : heap) (q : nat) (b : bufferSlice) : Prop := {
  wr_obj : h_slices h !! q = Some b;
  wr_shm : bs_isFromShm b = true;
  wr_start : bs_start b = 0;
  wr_read : bs_readIndex b = 0;
  wr_some : 0 < bs_writeIndex b;
  wr_flag : ∃ hd f, bs_header b = Some hd ∧ peek_u8 (h_mem h) (padd (slice_ptr hd) bufferFlagOffset) = Some f ∧ flag_next f = false
}.

Lemma written_ready bm ls h L q b : bm_own bm ls h L → q ∈ L → written h q b →
  ∃ a x, ready h ls q a (obj_content h q) x b ∧ a.2 ∉ ls_free x.
Proof.
  intros Hb Hq []. pose proof Hb as []. destruct (bw_objs q b Hq wr_obj0) as [(i&x&s&Hi&Hs&Hf&Ho)|(_&Hno&_)]; [|congruence].
  destruct (obj_content_some h L q b bw_own Hq wr_obj0) as (Hct&Hlen&Hwf). destruct wr_flag0 as (hd&f&Hhd&Hfl&Hfn).
  exists (i, s), x. split; [|done]. constructor; try done.
  - intros Hnil. rewrite Hnil in Hlen. unfold slice_size in Hlen. cbn in Hlen. lia.
  - exists f. split; [|done]. cbn. destruct Ho as [(hd'&Hhd'&Hp&_) _ _ _ _ _ _]. rewrite Hhd in Hhd'. injection Hhd' as <-. by rewrite <- Hp.
Qed.

Lemma written_all bm ls h L ps : bm_own bm ls h L → (∀ q, q ∈ ps → q ∈ L) → (∀ q, q ∈ ps → ∃ b, written h q b) →
  ∃ cs, Forall2 (is_ready h ls) ps cs ∧ concat cs.*2 = contents h ps ∧ (∀ a, a ∈ cs.*1 → ∃ x, is_place ls a x ∧ a.2 ∉ ls_free x).
Proof.
  intros Hb Hin Hw. induction ps as [|q ps IH]; [exists []; split_and!; [constructor|done|by intros a ?%not_elem_of_nil]|].
  destruct IH as (cs&Hre&Hct&Hpl); [set_solver..|]. destruct (Hw q) as (b&Hwq); [set_solver|].
  destruct (written_ready bm ls h L q b Hb) as (a&x&Hr&Hf); [set_solver|done|]. exists ((a, obj_content h q) :: cs). split_and!.
  - constructor; [|done]. by exists x, b.
  - cbn. by rewrite Hct.
  - intros a'. rewrite fmap_cons. intros [->|Ha]%elem_of_cons; [exists x; split; [apply Hr|done]|by apply Hpl].
Qed.

(** Different objects are in different slots. *)
Lemma ready_nodup bm ls h L ps cs : bm_own bm ls h L → (∀ q, q ∈ ps → q ∈ L) → NoDup ps → Forall2 (is_ready h ls) ps cs → NoDup cs.*1.
Proof.
  intros Hb Hin Hnd Hre. induction Hre as [|q [a ct] ps cs (x&b&Hq) Hre IH]; [constructor|]. rewrite fmap_cons. apply NoDup_cons in Hnd as [Hni Hnd].
  constructor; [|apply IH; [set_solver|done]]. cbn. intros ([a' ct']&Ha&Hc)%list_elem_of_fmap. cbn in Ha. subst a'.
  apply list_elem_of_lookup in Hc as [i Hi]. destruct (Forall2_lookup_r _ _ _ _ _ Hre Hi) as (r&Hr&(y&b'&Hrr)). cbn in *.
  assert (r ∈ ps) as Hrp by (by eapply list_elem_of_lookup_2). pose proof Hq as []. pose proof Hrr as [].
  destruct re_place0 as [Hx _], re_place1 as [Hy _]. rewrite Hx in Hy. injection Hy as <-.
  pose proof (ow_apart _ _ (bw_own _ _ _ _ Hb) q r b b' ltac:(set_solver) ltac:(set_solver) ltac:(set_solver) re_obj0 re_obj1) as Hd.
  unfold apart in Hd. rewrite (slot_obj_win _ _ _ re_slot0), (slot_obj_win _ _ _ re_slot1) in Hd. cbn in Hd.
  destruct (mgr_geom _ _ _ _ (bw_rep _ _ _ _ Hb) Hx) as [[] _]. unfold disjoint_win in Hd. destruct Hd as [|[|]]; [done|lia|lia].
Qed.

(** The lists as the two processes see them: the same slots, the same free ones. *)
Definition same_lists (ls ls' : list lstate) : Prop :=
  ∀ i x, ls !! i = Some x → ∃ x', ls' !! i = Some x' ∧ g_base (ls_geom x') = g_base (ls_geom x) ∧ g_off (ls_geom x') = g_off (ls_geom x)
    ∧ g_cap (ls_geom x') = g_cap (ls_geom x) ∧ g_num (ls_geom x') = g_num (ls_geom x) ∧ ls_free x' = ls_free x.

Lemma same_place ls ls' a x : same_lists ls ls' → is_place ls a x → ∃ x', is_place ls' a x' ∧ slot_ptr (ls_geom x') = slot_ptr (ls_geom x)
  ∧ slot_off (ls_geom x') = slot_off (ls_geom x) ∧ g_cap (ls_geom x') = g_cap (ls_geom x) ∧ ls_free x' = ls_free x.
Proof.
  intros Hsame [Hi Hs]. destruct (Hsame _ _ Hi) as (x'&Hx'&Eb&Eo&Ec&En&Ef). exists x'. split_and!; [|unfold slot_ptr; by rewrite Eb|unfold slot_off; by rewrite Eo|done|done].
  split; [done|]. unfold is_slot, g_bytes, g_step in *. by rewrite Ec, En.
Qed.

Lemma peek_shared m m' p n : m' !! p_arr p = m !! p_arr p → peek m' p n = peek m p n.
Proof. intros E. unfold peek. by rewrite E. Qed.

Lemma chain_shared m m' arr ls ls' cs : same_lists ls ls' → (∀ i x, ls !! i = Some x → p_arr (g_base (ls_geom x)) = arr) → m' !! arr = m !! arr →
  chain m ls cs → chain m' ls' cs ∧ first_off ls' cs = first_off ls cs.
Proof.
  intros Hsame Harr Hm. assert (∀ c cs, chain m ls (c :: cs) → first_off ls' (c :: cs) = first_off ls (c :: cs)) as Hfo.
  { intros [a ct] cs' [(x&Hx&_) _]. destruct (same_place _ _ _ _ Hsame Hx) as (x'&Hx'&_&Eo&_). cbn. rewrite (proj1 Hx), (proj1 Hx'). cbn. by rewrite Eo. }
  induction cs as [|[a ct] cs IH]; [done|]. intros Hch. split; [|by apply Hfo]. pose proof Hch as [(x&Hx&Hct&Hlen&Hs) Hch']. destruct (IH Hch') as [IHc IHf].
  split; [|done]. destruct (same_place _ _ _ _ Hsame Hx) as (x'&Hx'&Ep&_&Ec&_). exists x'. split_and!; [done|done|by rewrite Ec|].
  assert (∀ d n, peek m' (padd (slot_ptr (ls_geom x) a.2) d) n = peek m (padd (slot_ptr (ls_geom x) a.2) d) n) as Hpk.
  { intros d n. apply peek_shared. cbn. by rewrite (Harr _ _ (proj1 Hx)). }
  destruct Hs. constructor; rewrite Ep; unfold peek_u32, peek_u8 in *; rewrite ?Hpk; try done.
  - destruct se_flag0 as (f&Hf&Hn). exists f. by rewrite IHf.
  - intros o Ho. apply se_next0. by rewrite <- IHf.
Qed.

(** No slice that [L] holds is in the slot of one of the slices [ps] of the peer. *)
Definition not_held (h h' : heap) (ps L : list nat) : Prop :=
  ∀ p b r b', p ∈ ps → h_slices h !! p = Some b → r ∈ L → h_slices h' !! r = Some b' → bs_isFromShm b' = true → bs_offsetInShm b' ≠ bs_offsetInShm b.

Lemma not_held_unheld h h' ls ls' L ps cs : same_lists ls ls' → Forall2 (is_ready h ls) ps cs →
  (∀ a, a ∈ cs.*1 → ∃ x, is_place ls a x ∧ a.2 ∉ ls_free x) → not_held h h' ps L → ∀ a, a ∈ cs.*1 → unheld ls' h' L a.
Proof.
  intros Hsame Hre Hpl Hn a Ha x' Hx'. destruct (Hpl a Ha) as (x&Hx&Hf). destruct (same_place _ _ _ _ Hsame Hx) as (x2&Hx2&_&Eo&_&Ef).
  pose proof (proj1 Hx') as H1. rewrite (proj1 Hx2) in H1. injection H1 as <-. split; [by rewrite Ef|]. intros r b' Hr Hb' Hob.
  apply list_elem_of_fmap in Ha as ([a0 ct]&->&Ha). apply list_elem_of_lookup in Ha as [i Hi]. destruct (Forall2_lookup_r _ _ _ _ _ Hre Hi) as (p&Hp&(y&b&Hy)).
  pose proof Hy as []. cbn in *. destruct re_place0 as [Hy1 _]. rewrite (proj1 Hx) in Hy1. injection Hy1 as <-.
  apply (Hn p b r b'); [by eapply list_elem_of_lookup_2|done|done|done|apply Hob|]. rewrite (so_off _ _ _ Hob), (so_off _ _ _ re_slot0). apply (f_equal (λ f, f a0.2) Eo).
Qed.

(** A message arrives: when the slices of the write buffer are published by
    [done], the memory manager's lists are as before, and a peer that maps the same
    memory and finds the offset of the first slice in its pending data has, after
    [moveToWithoutLock], exactly those bytes behind the ones it had. *)
Theorem message_arrives bm ls st O p ps pins c :
  lb_rep bm st O (p :: ps) pins c → bm_own bm ls (st_heap st) ((p :: ps) ++ pins ++ O) →
  (∀ q, q ∈ p :: ps → ∃ b, written (st_heap st) q b) →
  sl_write (lb_sliceList (st_buf st)) = last (p :: ps) → lb_isFromShm (st_buf st) = true → placed bm ls →
  ∃ m o, lb_done bm st = Done (tt, set_heap (set_mem m (st_heap st)) st) ∧
    rootBufOffset st = Done (o, st) ∧ mgr_rep m ls ∧
    ∀ bm' ls' s k t O' ps' pins' c',
      same_lists ls ls' → placed bm' ls' → recv_rep bm' ls' s k O' ps' pins' c' →
      h_mem (ss_heap s) !! s_arr (bm_mem bm) = m !! s_arr (bm_mem bm) →
      not_held (st_heap st) (ss_heap s) (p :: ps) (ps' ++ pins' ++ O') →
      ss_objs s !! k = Some t → sm_pending t = [Wrapper None o] →
      ∃ s' qs t', moveToWithoutLock k s = Done (tt, s') ∧ recv_rep bm' ls' s' k O' (ps' ++ qs) pins' (c' ++ c)
        ∧ ss_objs s' !! k = Some t' ∧ sm_pending t' = [].
Proof.
  intros [[_ Hsl _ Hct] _ _] Hown Hwr Hw Hshm Hplaced. pose proof (bw_rep _ _ _ _ Hown) as Hr.
  destruct (written_all _ _ _ _ (p :: ps) Hown) as (cs&Hre&Hcs&Hpl); [set_solver|done|].
  assert (NoDup cs.*1) as Hnd by (eapply ready_nodup; [exact Hown| |apply Hsl|exact Hre]; set_solver).
  destruct (lb_done_ok bm ls st p ps cs) as (m&E&Hc&Hch); [done..|].
  pose proof (Forall2_length _ _ _ Hre) as Hlen. destruct cs as [|cc cs]; [done|]. apply Forall2_cons in Hre as [H1 H2]. destruct (first_off_ready _ _ _ _ cs H1) as (b&Hb&Ho).
  exists m, (bs_offsetInShm b). split_and!; [exact E| |by eapply pub_keeps_list|].
  { unfold rootBufOffset. erewrite bind_done by done. cbv beta. rewrite (sr_front _ _ _ _ Hsl). cbn [head].
    unfold slice_of. erewrite bind_done by (erewrite bind_done by done; apply on_heap_ok, get_slice_ok; exact Hb). by destruct st. }
  intros bm' ls' s k t O' ps' pins' c' Hsame Hpl' Hrr Hmem Hnot Ht Hpend.
  destruct (chain_shared m (h_mem (ss_heap s)) (s_arr (bm_mem bm)) ls ls' (cc :: cs) Hsame) as [Hch' Hfo]; [|done|done|].
  { intros i x Hi. destruct Hplaced as (_&_&Hp). by rewrite (proj1 (Hp i x Hi)). }
  rewrite <- Hct, <- Hcs. destruct (move_message bm' ls' k O' pins' (cc :: cs) s ps' c' (bs_offsetInShm b) t) as (s'&qs&t'&E'&Hrr'&(Ht'&Hp')&_);
    [done..| |by rewrite Hfo|done|done|by exists s', qs, t'].
  eapply not_held_unheld; [done| |done|done]. by constructor.
Qed.

(** ** A message on a concrete memory *)

Lemma placed_lists bm ls : bm_lists bm = lists_of ls → s_len (bm_mem bm) ≤ s_cap (bm_mem bm) → s_len (bm_mem bm) < 2 ^ 32 →
  Forall (λ l, bl_size l = padd (slice_ptr (bm_mem bm)) (bl_offsetInShm l) ∧
               bl_offsetInShm l + bufferListHeaderSize + s_len (bl_bufferRegion l) ≤ s_len (bm_mem bm)) (bm_lists bm) → placed bm ls.
Proof.
  intros Hl Hc Hs HF. split_and!; [done|done|]. intros i x Hi. rewrite Hl in HF. rewrite Forall_forall in HF.
  apply (HF (list_of (ls_geom x))). apply list_elem_of_fmap. exists x. split; [done|]. by eapply list_elem_of_lookup_2.
Qed.

(** The lists as a process that mapped the memory has them: its counters are elsewhere. *)
Definition mapped (x : lstate) : lstate :=
  (Geom (g_base x.1) (g_off x.1) 24 (g_cap x.1) (g_num x.1) (g_scap x.1), (0, x.2.2)).
Definition mapped_list (l : bufferList) : bufferList :=
  BufferList (bl_size l) (bl_cap l) (bl_head l) (bl_tail l) (bl_capPerBuffer l) (padd (bl_size l) 24) (bl_bufferRegion l)
    (bl_bufferRegionOffsetInShm l) (bl_offsetInShm l).

Lemma lists_of_mapped ls : lists_of (mapped <$> ls) = mapped_list <$> lists_of ls.
Proof. unfold lists_of. by rewrite <- !list_fmap_compose. Qed.

Lemma same_lists_mapped ls : same_lists ls (mapped <$> ls).
Proof. intros i x Hi. exists (mapped x). by rewrite list_lookup_fmap, Hi. Qed.

Lemma bm_own_mapped bm bm' ls m : mgr_rep m ls → NoDup ((λ x : lstate, g_cap (ls_geom x)) <$> ls) → placed bm ls →
  in_mem m (Ptr (s_arr (bm_mem bm)) 0) 0 → bm_mem bm' = bm_mem bm → bm_lists bm' = lists_of (mapped <$> ls) →
  Forall (λ x : lstate, peek_u32 m (padd (g_base (ls_geom x)) 24) = Some 0) ls → bm_own bm' (mapped <$> ls) (Heap m ∅ []) [].
Proof.
  intros [Hl Ha] Hnd (_&_&Hpl) Hin Hm Hbl Hco. constructor; cbn [h_mem]; rewrite ?Hm; try done.
  - constructor.
    + apply Forall_fmap, Forall_forall. intros x Hx. rewrite Forall_forall in Hl, Hco. specialize (Hl x Hx). specialize (Hco x Hx).
      destruct Hl as [[] ? ? ? ? ? ? ? ? ? ? Hfree]. constructor; try done; [by constructor; auto|by apply counts_exact|].
      intros i s Hi. destruct (Hfree i s Hi). by constructor.
    + intros i j x y Hij. rewrite !list_lookup_fmap. intros (x'&Hx&->)%fmap_Some_1 (y'&Hy&->)%fmap_Some_1. exact (Ha i j x' y' Hij Hx Hy).
  - by rewrite <- list_fmap_compose.
  - apply Forall_fmap, Forall_forall. intros x Hx. apply list_elem_of_lookup in Hx as [i Hi]. destruct (Hpl i x Hi) as [Hb He].
    destruct (mgr_geom m ls i x (Build_mgr_rep _ _ Hl Ha) Hi) as [[] _]. unfold ls_geom in *. cbn. rewrite Hb. split; [done|].
    change (g_bytes (Geom _ _ _ _ _ _)) with (g_bytes x.1). consts. lia.
  - constructor; cbn; [constructor; constructor|constructor|set_solver|set_solver].
Qed.

Definition sender0 : lbst := LbSt (Heap demo_bm_mem ∅ []) newEmptyLinkedBuffer 0.
Definition sender : lbst := match WriteBytes demo_bm [1; 2; 3; 4; 5; 6; 7; 8; 9; 10] sender0 with Done (_, st) => st | _ => sender0 end.
Definition sender_mem : gmem := match lb_done demo_bm sender with Done (_, st) => h_mem (st_heap st) | _ => ∅ end.
Definition peer_bm : bufferManager := manager_of demo_shm 24 0 demo_pairs "b".
Definition peer_stream : stream :=
  Stream 1 streamOpened newEmptyLinkedBuffer newEmptyLinkedBuffer [Wrapper None 224] false false 0 0 false None 0 0 0 None.
Definition peer : session :=
  Session (Heap sender_mem ∅ []) {[ 0%nat := peer_stream ]} (Some {[ 1 := 0%nat ]}) 1 false 3 false None false false false false [] []
    peer_bm None (λ _, 0) 0 false None 0 [].

(** What the slices of a heap must be to be sent, as a test. *)
Definition writtenb (h : heap) (b : bufferSlice) : bool :=
  bs_isFromShm b && (bs_start b =? 0) && (bs_readIndex b =? 0) && (0 <? bs_writeIndex b) &&
  match bs_header b with
  | Some hd => match peek_u8 (h_mem h) (padd (slice_ptr hd) bufferFlagOffset) with Some f => negb (flag_next f) | None => false end
  | None => false
  end.

Lemma writtenb_ok h p b : h_slices h !! p = Some b → writtenb h b = true → written h p b.
Proof.
  intros Hp Hw. unfold writtenb in Hw. destruct (bs_header b) as [hd|] eqn:Hh; [|by rewrite andb_false_r in Hw].
  destruct (peek_u8 _ _) as [f|] eqn:Hf; [|by rewrite andb_false_r in Hw]. rewrite !andb_true_iff in Hw. destruct Hw as [[[[? ?] ?] ?] ?%negb_true_iff].
  constructor; try done; try lia. by exists hd, f.
Qed.

Lemma message_arrives_witness :
  ∃ ls s' qs t', lb_done demo_bm sender = Done (tt, set_heap (set_mem sender_mem (st_heap sender)) sender) ∧
    rootBufOffset sender = Done (224, sender) ∧ moveToWithoutLock 0 peer = Done (tt, s') ∧
    recv_rep peer_bm ls s' 0 [] qs [] [1; 2; 3; 4; 5; 6; 7; 8; 9; 10] ∧ ss_objs s' !! 0%nat = Some t' ∧ sm_pending t' = [].
Proof.
  destruct (createBufferManager_ok demo_shm_mem demo_shm 0 demo_pairs "a" demo_room) as (m&E&Hf&_&Hroom).
  assert (demo_bm_mem = m) as <- by (unfold demo_bm_mem; rewrite E; reflexivity). clear E.
  destruct (WriteBytes_ok demo_bm sender0 [] [] [] [] [1; 2; 3; 4; 5; 6; 7; 8; 9; 10]) as (st&ps&E&Hrep); [|reflexivity|].
  { apply lb_rep_empty. apply bm_inv_created; [exact Hroom|exact Hf|apply (bool_decide_unpack _); vm_compute; exact I]. }
  assert (sender = st) as <- by (unfold sender; rewrite E; reflexivity). clear E.
  pose proof Hrep as [[[ls Hown] Hsl _ Hct] _ _]. destruct ps as [|p ps]; [discriminate Hct|].
  assert (bm_lists demo_bm = lists_of ls) as Hlists by apply Hown.
  assert (placed demo_bm ls) as Hpl by (apply placed_lists; [exact Hlists|done|done|vm_compute; repeat constructor; discriminate]).
  destruct (message_arrives demo_bm ls sender [] p ps [] _ Hrep Hown) as (m&o&E&Eo&Hmgr&Harr).
  - intros q Hq. destruct (links_lookup _ _ _ q (sr_links _ _ _ _ Hsl) Hq) as [b Hb]. exists b. apply writtenb_ok; [exact Hb|].
    assert (map_Forall (λ _ b, writtenb (st_heap sender) b = true) (h_slices (st_heap sender))) as HF
      by (apply (bool_decide_unpack _); vm_compute; exact I). exact (HF q b Hb).
  - rewrite <- (sr_back _ _ _ _ Hsl). reflexivity.
  - reflexivity.
  - exact Hpl.
  - assert (sender_mem = m) as <- by (unfold sender_mem; rewrite E; reflexivity).
    assert (o = 224) as -> by (vm_compute in Eo; congruence).
    assert (bm_own peer_bm (mapped <$> ls) (Heap sender_mem ∅ []) []) as Hpeer.
    { eapply (bm_own_mapped demo_bm); [exact Hmgr|apply Hown|exact Hpl| |reflexivity| |].
      - split; [done|]. split; [done|]. eexists. split; [vm_compute; reflexivity|]. vm_compute. discriminate.
      - rewrite lists_of_mapped, <- Hlists. vm_compute. reflexivity.
      - apply Forall_forall. intros x Hx.
        assert (Forall (λ l, peek_u32 sender_mem (padd (bl_size l) 24) = Some 0) (bm_lists demo_bm)) as HF by (vm_compute; repeat constructor).
        rewrite Forall_forall in HF. apply (HF (list_of (ls_geom x))). rewrite Hlists. apply list_elem_of_fmap. exists x. exact (conj eq_refl Hx). }
    destruct (Harr peer_bm (mapped <$> ls) peer 0%nat peer_stream [] [] [] []) as (s'&qs&t'&E'&Hrr&Ht'&Hp').
    + apply same_lists_mapped.
    + apply placed_lists; [apply Hpeer|done|done|vm_compute; repeat constructor; discriminate].
    + constructor; [reflexivity| |exact Hpeer]. exists peer_stream. split; [reflexivity|]. apply rep_held, lb_rep_empty. exists (mapped <$> ls). exact Hpeer.
    + reflexivity.
    + intros ? ? ? ? _ _ H%elem_of_nil. destruct H.
    + reflexivity.
    + reflexivity.
    + exists (mapped <$> ls), s', qs, t'. split_and!; [exact E|exact Eo|exact E'|exact Hrr|exact Ht'|exact Hp'].
Defined.
