(* ===== verification/EndToEnd.v ===== *)
(** * From [Flush] to the read buffer of the peer

    The parts of a session put together: [Flush] of one process publishes the slices of the
    write buffer, puts an element into the shared queue and wakes the peer; [handlePolling]
    of the other takes the elements out of the queue and gives them to its streams, whose
    next look at the pending data appends the slices to the read buffer.  The two sessions
    have memories of their own, which agree on the arrays of the shared regions. *)

From Stdlib Require Import ZArith Lia.
From stdpp Require Import prelude list gmap strings.
From S2P Require Import Prelude GoMem Queue BufferSlice BufferList BufferManager Allocator ShmAllocator LinkedBuffer LinkedBufferProofs LinkedBufferPeek LinkedBufferFifo LinkedBufferRead Protocol Events Session SessionProofs Transfer.

(** ** Memory *)

(** All parts of the queue are in one array. *)
Definition queue_in (q : queue) (a0 : nat) : Prop := Forall (λ w : ptr * Z, p_arr w.1 = a0) (queue_footprint q).

Lemma queue_rep_shared m m' q h f a0 : queue_in q a0 → m' !! a0 = m !! a0 → queue_rep m q h f → queue_rep m' q h f.
Proof.
  intros Hq Hm [L Hb Hh Ht Hf H0 Hs Hi]. unfold queue_in, queue_footprint in Hq. repeat match goal with H : Forall _ (_ :: _) |- _ => inversion_clear H end. cbn in *.
  assert (∀ p n, p_arr p = a0 → peek m' p n = peek m p n) as Hp by (intros p n Ep; apply peek_shared; by rewrite Ep).
  constructor; try done.
  - destruct Hb as (?&?&bs&E&?). split; [done|]. split; [done|]. exists bs. split; [|done]. cbn in *. congruence.
  - unfold peek_u64 in *. by rewrite Hp.
  - unfold peek_u64 in *. by rewrite Hp.
  - unfold peek_u32 in *. by rewrite Hp.
  - intros i e He. destruct (Hi i e He) as (E0&E4&E8). unfold elem_at, peek_u32 in *. rewrite !Hp by done. done.
Qed.

(** ** Receiving: [handlePolling] *)

(** What the elements [es] bring to stream [p]. *)
Definition deliveries (m : gmap Z nat) (p : nat) (es : list queueElement) : list bufferSliceWrapper :=
  (λ e, Wrapper None (offsetInShmBuf e)) <$> filter (λ e, m !! seqID e = Some p) es.

Lemma deliveries_cons m p e es : deliveries m p (e :: es) = deliveries m p [e] ++ deliveries m p es.
Proof. unfold deliveries. rewrite <- fmap_app, <- filter_app. done. Qed.

(** A stream got [ws] and nothing else happened to its buffers. *)
Record got (t t' : stream) (ws : list bufferSliceWrapper) : Prop := {
  gt_id : sm_id t' = sm_id t;
  gt_state : sm_state t' = sm_state t;
  gt_recv : sm_recvBuf t' = sm_recvBuf t;
  gt_send : sm_sendBuf t' = sm_sendBuf t;
  gt_pending : sm_pending t' = sm_pending t ++ ws;
  gt_notify : ws ≠ [] → sm_recvNotify t' = true
}.

Lemma got_nil t : got t t [].
Proof. constructor; try done. by rewrite app_nil_r. Qed.

Lemma got_app t t1 t2 ws1 ws2 : got t t1 ws1 → got t1 t2 ws2 → (ws2 = [] → sm_recvNotify t2 = sm_recvNotify t1) → got t t2 (ws1 ++ ws2).
Proof.
  intros [] [] Hn. constructor; try congruence; [by rewrite gt_pending1, gt_pending0, app_assoc|].
  intros Hw. destruct ws2 as [|w ws2]; [rewrite app_nil_r in Hw; rewrite Hn by done; auto|auto].
Qed.

(** The same session, but for the queue in array [a0] and the pending data. *)
Record polled (m : gmap Z nat) (a0 : nat) (es : list queueElement) (s s' : session) : Prop := {
  po_streams : ss_streams s' = ss_streams s;
  po_bm : ss_bufferManager s' = ss_bufferManager s;
  po_qm : ss_queueManager s' = ss_queueManager s;
  po_client : ss_isClient s' = ss_isClient s;
  po_shutdown : ss_shutdown s' = ss_shutdown s;
  po_slices : h_slices (ss_heap s') = h_slices (ss_heap s);
  po_pool : h_pool (ss_heap s') = h_pool (ss_heap s);
  po_mem k : k ≠ a0 → h_mem (ss_heap s') !! k = h_mem (ss_heap s) !! k;
  po_alloc : ss_stats s' allocShmErrorCount = ss_stats s allocShmErrorCount;
  po_objs p t : ss_objs s !! p = Some t → ∃ t', ss_objs s' !! p = Some t' ∧ got t t' (deliveries m p es) ∧
                  (deliveries m p es = [] → sm_recvNotify t' = sm_recvNotify t)
}.

Lemma polled_refl m a0 s : polled m a0 [] s s.
Proof. constructor; try done. intros p t Ht. exists t. by split_and!; [|apply got_nil|]. Qed.

Lemma polled_trans m a0 es es' s s1 s2 : polled m a0 es s s1 → polled m a0 es' s1 s2 → polled m a0 (es ++ es') s s2.
Proof.
  intros [] []. constructor; try congruence.
  - intros k Hk. rewrite po_mem1 by done. by apply po_mem0.
  - intros p t Ht. destruct (po_objs0 p t Ht) as (t1&Ht1&Hg1&Hn1). destruct (po_objs1 p t1 Ht1) as (t2&Ht2&Hg2&Hn2). exists t2.
    assert (deliveries m p (es ++ es') = deliveries m p es ++ deliveries m p es') as E by (unfold deliveries; by rewrite filter_app, fmap_app).
    rewrite E. split_and!; [done|by eapply got_app|]. intros [E1 E2]%app_eq_nil. rewrite Hn2, Hn1 by done. done.
Qed.

(** An element for a stream that is there and not closed. *)
Definition deliverable (m : gmap Z nat) (s : session) (e : queueElement) : Prop :=
  Z.land (status e) 255 ≠ streamClosed ∧ ∃ p t, m !! seqID e = Some p ∧ ss_objs s !! p = Some t ∧ sm_state t ≠ streamClosed.

Lemma deliverable_polled m a0 es s s' e : polled m a0 es s s' → deliverable m s e → deliverable m s' e.
Proof.
  intros Hp (Hs&p&t&Hm&Ht&Hst). split; [done|]. destruct (po_objs _ _ _ _ _ Hp p t Ht) as (t'&Ht'&Hg&_). exists p, t'. split_and!; [done|done|].
  by rewrite (gt_state _ _ _ Hg).
Qed.

Lemma fill_ok p w s t : ss_objs s !! p = Some t → sm_state t ≠ streamClosed →
  ∃ s' t', fillDataToReadBuffer p w s = Done (None, s') ∧ ss_objs s' = <[p := t']> (ss_objs s) ∧ got t t' [w] ∧
    ss_heap s' = ss_heap s ∧ ss_streams s' = ss_streams s ∧ ss_bufferManager s' = ss_bufferManager s ∧ ss_queueManager s' = ss_queueManager s ∧
    ss_isClient s' = ss_isClient s ∧ ss_stats s' = ss_stats s ∧ ss_shutdown s' = ss_shutdown s.
Proof.
  intros Ht Hst. unfold fillDataToReadBuffer. erewrite bind_done by (by apply upd_obj_run). cbv beta. erewrite bind_done by done. cbv beta.
  erewrite bind_done by (apply getStreamState_run; cbn; apply lookup_insert_eq). cbv beta. cbn [sm_state with_pending].
  replace (sm_state t =? streamClosed) with false by (symmetry; by apply Z.eqb_neq).
  erewrite bind_done by (apply upd_obj_run; cbn; apply lookup_insert_eq). cbv beta.
  erewrite bind_done by (unfold get_obj; cbn; by rewrite lookup_insert_eq). cbv beta. cbn [sm_callback with_recvNotify with_pending].
  destruct (sm_callback t) as [c|] eqn:Ec; [destruct (sm_callbackInProcess _ =? 0) eqn:Ei|].
  - erewrite bind_done by (apply upd_obj_run; cbn; apply lookup_insert_eq). cbv beta. erewrite bind_done by done. cbv beta.
    eexists _, _. split; [done|]. cbn. rewrite !insert_insert_eq. split; [done|]. split_and!; done.
  - eexists _, _. split; [done|]. cbn. rewrite !insert_insert_eq. split; [done|]. split_and!; done.
  - eexists _, _. split; [done|]. cbn. rewrite !insert_insert_eq. split; [done|]. split_and!; done.
Qed.

Lemma on_queue_done {A} (x : M gmem A) s a m' : x (h_mem (ss_heap s)) = Done (a, m') → on_ss_heap (on_mem x) s = Done (a, set_ss_heap (set_mem m' (ss_heap s)) s).
Proof. intros E. apply on_ss_heap_done. unfold on_mem. by apply zoom_done. Qed.

Lemma polled_mem m a0 s m' : (∀ k, k ≠ a0 → m' !! k = h_mem (ss_heap s) !! k) → polled m a0 [] s (set_ss_heap (set_mem m' (ss_heap s)) s).
Proof. intros Hm. constructor; try done. intros p t Ht. exists t. by split_and!; [|apply got_nil|]. Qed.

Lemma getStream_here id st s m p : ss_streams s = Some m → m !! id = Some p → getStream id st s = Done (Some p, s).
Proof.
  intros Hs Hm. unfold getStream, map_lookup. erewrite bind_done by done. cbv beta. rewrite Hs, Hm. erewrite bind_done by done. cbv beta.
  rewrite (bool_decide_false (Some p = None)) by done. by rewrite andb_false_r.
Qed.

(** One element. *)
Lemma deliver_ok m a0 e s : ss_streams s = Some m → deliverable m s e →
  ∃ p s', getStream (seqID e) (Z.land (status e) 255) s = Done (Some p, s) ∧
    handleStreamMessage p (Wrapper None (offsetInShmBuf e)) (Z.land (status e) 255) s = Done (None, s') ∧ polled m a0 [e] s s' ∧ ss_heap s' = ss_heap s.
Proof.
  intros Hs (Hst&p&t&Hm&Ht&Hop). destruct (fill_ok p (Wrapper None (offsetInShmBuf e)) s t Ht Hop) as (s'&t'&E&Ho&Hg&Hh&E1&E2&E3&E4&E5&E6).
  exists p, s'. split_and!; [by eapply getStream_here| | |done].
  - unfold handleStreamMessage. by replace (Z.land (status e) 255 =? streamClosed) with false by (symmetry; by apply Z.eqb_neq).
  - constructor; try congruence. intros p0 t0 Ht0. rewrite Ho. unfold deliveries. destruct (decide (p = p0)) as [<-|Hne].
    + rewrite filter_cons_True by done. exists t'. rewrite lookup_insert_eq. simplify_eq. split_and!; [done|exact Hg|done].
    + rewrite filter_cons_False by naive_solver. exists t0. rewrite lookup_insert_ne by done. split_and!; [done|by apply got_nil|done].
Qed.

Lemma poll_pop_ok m q a0 es : ∀ s h w fuel, ss_streams s = Some m → queue_in q a0 → queue_rep (h_mem (ss_heap s)) q h (Fifo es w) →
  h + Z.of_nat (length es) < 2 ^ 63 → Forall (deliverable m s) es → (length es < fuel)%nat →
  ∃ s', poll_pop fuel q None s = Done ((true, None), s') ∧ polled m a0 es s s' ∧
        queue_rep (h_mem (ss_heap s')) q (h + Z.of_nat (length es)) (Fifo [] w).
Proof.
  induction es as [|e es IH]; intros s h w fuel Hs Hq Hr Hb Hd Hf; (destruct fuel as [|fuel]; [cbn in Hf; lia|]); cbn [poll_pop].
  - erewrite bind_done by (apply on_queue_done; eapply queue_pop_empty; [exact Hr|cbn in Hb; lia|done]). cbv beta iota.
    eexists. split; [done|]. split; [by apply polled_mem|]. cbn [length Z.of_nat]. rewrite Z.add_0_r. by destruct (ss_heap s).
  - apply Forall_cons in Hd as [He Hd]. destruct (queue_pop_head _ _ _ _ e es Hr) as (m1&E1&R1&C1); [done|done|].
    assert (∀ k, k ≠ a0 → m1 !! k = h_mem (ss_heap s) !! k) as Hk.
    { intros k Hk. eapply changes_other_array; [exact C1| |exact Hk]. constructor; [|done]. unfold queue_in, queue_footprint in Hq. by inversion_clear Hq. }
    pose proof (polled_mem m a0 s m1 Hk) as P1. set (s1 := set_ss_heap (set_mem m1 (ss_heap s)) s) in *.
    destruct (deliver_ok m a0 e s1) as (p&s2&G&H2&P2&Hh2); [done|by eapply deliverable_polled|].
    pose proof (polled_trans _ _ _ _ _ _ _ P1 P2) as P12. cbn [app] in P12.
    destruct (IH s2 (h + 1) w fuel) as (s3&E3&P3&R3).
    + by rewrite (po_streams _ _ _ _ _ P12).
    + done.
    + rewrite Hh2. exact R1.
    + cbn [length] in Hb. lia.
    + eapply Forall_impl; [exact Hd|]. intros e' He'. by eapply deliverable_polled.
    + cbn in Hf. lia.
    + exists s3. split_and!.
      * erewrite bind_done by (apply on_queue_done; exact E1). cbv beta iota. erewrite bind_done by exact G. cbv beta iota. erewrite bind_done by exact H2. exact E3.
      * change (e :: es) with ([e] ++ es). by eapply polled_trans.
      * cbn [length]. by replace (h + Z.of_nat (S (length es))) with (h + 1 + Z.of_nat (length es)) by lia.
Qed.

(** [handlePolling] gives every element of the queue to its stream, in order, and leaves
    the queue empty and the peer free to sleep. *)
Lemma handlePolling_ok m q a0 es s h w qm hd bd : ss_streams s = Some m → ss_queueManager s = Some qm → qm_recvQueue qm = q → queue_in q a0 →
  queue_rep (h_mem (ss_heap s)) q h (Fifo es w) → h + Z.of_nat (length es) < 2 ^ 63 → Forall (deliverable m s) es →
  ∃ s', handlePolling hd bd s = Done ((headerSize, false, None), s') ∧ polled m a0 es s s' ∧
        queue_rep (h_mem (ss_heap s')) q (h + Z.of_nat (length es)) (Fifo [] false).
Proof.
  intros Hs Hqm <- Hq Hr Hb Hd. unfold handlePolling. erewrite bind_done by done. cbv beta.
  match goal with |- context [(recvQueue ≫= _) ?x] => set (s0 := x) end.
  assert (polled m a0 [] s s0) as P0 by (constructor; try done; intros p t Ht; exists t; by split_and!; [|apply got_nil|]).
  unfold recvQueue. erewrite bind_done; [|by erewrite bind_done by done; cbv beta; change (ss_queueManager s0) with (ss_queueManager s); rewrite Hqm]. cbv beta.
  set (q := qm_recvQueue qm) in *. destruct (poll_pop_ok m q a0 es s0 h w (Z.to_nat (q_cap q) + 2)) as (s1&E1&P1&R1); [done|done|done|done| |pose proof (qr_size _ _ _ _ Hr); cbn in *; lia|].
  { eapply Forall_impl; [exact Hd|]. intros e He. by eapply deliverable_polled. }
  destruct (markNotWorking_spec _ _ _ _ R1) as (m2&E2&R2&C2); [cbn; lia|]. cbn in E2, R2.
  exists (set_ss_heap (set_mem m2 (ss_heap s1)) s1). split_and!.
  - replace (Z.to_nat (q_cap q) + 2)%nat with (S (Z.to_nat (q_cap q) + 1))%nat at 1 by lia. cbn [poll_rounds].
    erewrite bind_done; [done|]. erewrite bind_done by exact E1. cbv beta iota. by erewrite bind_done by (apply on_queue_done; exact E2).
  - change es with ([] ++ es). eapply polled_trans; [exact P0|]. rewrite <- (app_nil_r es). eapply polled_trans; [exact P1|]. apply polled_mem.
    intros k Hk. by eapply changes_other_array.
  - exact R2.
Qed.

(** ** Sending: [Flush] *)

(** The same memory, streams and managers; other statistics, notes and channels. *)
Record like (s s' : session) : Prop := {
  lk_heap : ss_heap s' = ss_heap s;
  lk_objs : ss_objs s' = ss_objs s;
  lk_bm : ss_bufferManager s' = ss_bufferManager s;
  lk_qm : ss_queueManager s' = ss_queueManager s;
  lk_version : ss_version s' = ss_version s;
  lk_alloc : ss_stats s' allocShmErrorCount = ss_stats s allocShmErrorCount
}.

#[global] Instance like_pre : PreOrder like.
Proof. split; [by constructor|]. intros s1 s2 s3 [] []. constructor; congruence. Qed.

Lemma count_like c d s : c ≠ allocShmErrorCount → ∃ s', count c d s = Done (tt, s') ∧ like s s'.
Proof. intros Hc. eexists. split; [done|]. constructor; try done. cbn. unfold set_stat. by rewrite decide_False by congruence. Qed.

Definition send_view (s : session) (t : stream) : lbst := LbSt (ss_heap s) (sm_sendBuf t) (ss_stats s allocShmErrorCount).

Lemma on_sendBuf_done {A} p (m : M lbst A) s t a b : ss_objs s !! p = Some t → m (send_view s t) = Done (a, b) →
  ∃ s', on_sendBuf p m s = Done (a, s') ∧ ss_heap s' = st_heap b ∧ ss_objs s' = <[p := with_bufs (sm_recvBuf t) (st_buf b) t]> (ss_objs s) ∧
    ss_bufferManager s' = ss_bufferManager s ∧ ss_queueManager s' = ss_queueManager s ∧ ss_version s' = ss_version s ∧
    ss_stats s' allocShmErrorCount = st_allocErrors b.
Proof.
  intros Ht E. unfold on_sendBuf, on_buf. erewrite bind_done by (unfold get_obj; by rewrite Ht). cbv beta. erewrite bind_done by done. cbv beta.
  change (LbSt _ _ _) with (send_view s t). rewrite E. erewrite bind_done by done. cbv beta. erewrite bind_done by (by apply upd_obj_run). cbv beta.
  eexists. split; [done|]. split_and!; try done.
Qed.

(** An operation that only looks. *)
Lemma on_sendBuf_read {A} p (m : M lbst A) s t a : ss_objs s !! p = Some t → m (send_view s t) = Done (a, send_view s t) →
  ∃ s', on_sendBuf p m s = Done (a, s') ∧ like s s'.
Proof.
  intros Ht E. destruct (on_sendBuf_done p m s t a _ Ht E) as (s'&E'&H1&H2&H3&H4&H5&H6). exists s'. split; [done|]. constructor; try done.
  rewrite H2. apply insert_id. rewrite Ht. by destruct t.
Qed.

Lemma polling_table {S} (s : S) v : 0 ≤ v ≤ maxSupportProtoVersion → ∃ tb ev, pollingEventWithVersion s = Done (tb, s) ∧ tb !! Z.to_nat v = Some ev.
Proof.
  intros Hv. eexists. assert (v = 0 ∨ v = 1 ∨ v = 2 ∨ v = 3) as Hc by (unfold maxSupportProtoVersion in Hv; lia).
  destruct Hc as [->|[->|[->| ->]]]; eexists; (split; [reflexivity|reflexivity]).
Qed.

(** [clean] gives the objects of the buffer back and leaves the memory alone. *)
Lemma clean_loop_ok bm ls ps : ∀ st pins O, bm_own bm ls (st_heap st) (ps ++ pins ++ O) →
  slist_rep (h_slices (st_heap st)) (lb_sliceList (st_buf st)) ps None → (∃ e, slist_rep (h_slices (st_heap st)) (lb_pinnedList (st_buf st)) pins e) →
  ∃ st', clean_loop (length ps) st = Done (tt, st') ∧ h_mem (st_heap st') = h_mem (st_heap st) ∧ bm_own bm ls (st_heap st') (pins ++ O) ∧
    slist_rep (h_slices (st_heap st')) (lb_sliceList (st_buf st')) [] None ∧ (∃ e, slist_rep (h_slices (st_heap st')) (lb_pinnedList (st_buf st')) pins e).
Proof.
  induction ps as [|p ps IH]; intros st pins O Hown Hl Hp; cbn [clean_loop length].
  - exists st. split_and!; try done. unfold buf at 1. erewrite bind_done by done. cbv beta. by rewrite (sr_len _ _ _ _ Hl).
  - unfold buf at 1. erewrite bind_done by done. cbv beta. rewrite (sr_len _ _ _ _ Hl). cbn [length].
    replace (Z.of_nat (S (length ps)) >? 0) with true by (symmetry; apply Z.gtb_lt; lia).
    destruct (sl_popFront_spec _ _ _ _ Hl) as (l&E&_&Hl'). cbn [head tail] in E, Hl'.
    erewrite bind_done; [|unfold popFront; erewrite bind_done by done; cbv beta; erewrite bind_done by (apply on_heap_ok; exact E); cbv beta; by erewrite bind_done by done].
    cbv beta. erewrite bind_done by done. cbv beta. destruct (links_lookup _ _ _ p (sr_links _ _ _ _ Hl)) as [b Hb]; [set_solver|].
    erewrite bind_done by (apply on_heap_ok; eapply putBack_ok; exact Hb). cbv beta.
    pose proof (sr_nodup _ _ _ _ Hl) as [Hnp _]%NoDup_cons. pose proof (ow_nodup _ _ (bw_own _ _ _ _ Hown)) as Hnd. apply NoDup_app in Hnd as (_&Hd&_).
    assert (∀ T l' qs e, slist_rep T l' qs e → p ∉ qs → slist_rep (<[p := zero_bufferSlice]> T) l' qs e) as Hkeep.
    { intros T l' qs e [] Hq. constructor; try done. eapply links_mono; [done|]. intros q b' Hq' Hb'. exists b'. rewrite lookup_insert_ne; [done|]. by intros ->. }
    destruct (IH (set_heap (recycled (st_heap st) (h_mem (st_heap st)) p) (LbSt (st_heap st) (set_sliceList l (st_buf st)) (st_allocErrors st))) pins O) as (st'&E'&Hm&Ho'&Hl''&Hp').
    + by apply bm_putBack.
    + cbn. apply Hkeep; done.
    + destruct Hp as [e Hp]. exists e. cbn. apply Hkeep; [done|]. intros Hin. apply (Hd p); set_solver.
    + exists st'. split_and!; try done.
Qed.

Lemma clean_ok bm ls ps st pins O : bm_own bm ls (st_heap st) (ps ++ pins ++ O) →
  slist_rep (h_slices (st_heap st)) (lb_sliceList (st_buf st)) ps None → (∃ e, slist_rep (h_slices (st_heap st)) (lb_pinnedList (st_buf st)) pins e) →
  ∃ st', clean st = Done (tt, st') ∧ h_mem (st_heap st') = h_mem (st_heap st) ∧ bm_own bm ls (st_heap st') (pins ++ O) ∧ lb_rep bm st' O [] pins [].
Proof.
  intros Hown Hl Hp. destruct (clean_loop_ok bm ls ps st pins O Hown Hl Hp) as (st'&E&Hm&Ho&Hl'&Hp').
  unfold clean, list_fuel. unfold buf at 1. erewrite bind_done by done. cbv beta. rewrite (sr_len _ _ _ _ Hl), Nat2Z.id. erewrite bind_done by exact E. cbv beta.
  do 4 (erewrite bind_done by done; cbv beta). unfold Len, buf. erewrite bind_done by done. cbv beta. eexists. split; [done|]. split_and!; [done|done|].
  constructor; [constructor| |]; cbn; try done.
  - by exists ls.
  - destruct Hl' as []. by constructor.
  - lia.
  - by intros q ?%not_elem_of_nil.
Qed.

(** The connection takes the event that wakes the peer and touches nothing else. *)
Definition conn_takes (conn_write : list Z → M session (option error)) : Prop :=
  ∀ data s, ∃ s', conn_write data s = Done (None, s') ∧ like s s'.

Lemma write_or_queue_like conn_write data s : conn_takes conn_write → ∃ s', write_or_queue conn_write data s = Done (tt, s') ∧ like s s'.
Proof.
  intros Hc. unfold write_or_queue. erewrite bind_done by done. cbv beta. destruct (ss_writing s).
  - eexists. split; [done|]. by constructor.
  - erewrite bind_done by done. cbv beta. destruct (Hc data (set_writing true (ss_notifyContinueWrite s) s)) as (s1&E1&L1).
    erewrite bind_done; [|unfold writeEventData; by erewrite bind_done by exact E1]. cbv beta. eexists. split; [done|]. destruct L1. by constructor.
Qed.

Lemma sendQueue_run s qm : ss_queueManager s = Some qm → sendQueue s = Done (qm_sendQueue qm, s).
Proof. intros Hq. unfold sendQueue. erewrite bind_done by done. cbv beta. rewrite Hq. by erewrite bind_done by done. Qed.

(** [wakeUpPeer]: the flag of the queue is set. *)
Lemma wakeUpPeer_ok conn_write s qm h f : conn_takes conn_write → ss_queueManager s = Some qm → 0 ≤ ss_version s ≤ maxSupportProtoVersion →
  queue_rep (h_mem (ss_heap s)) (qm_sendQueue qm) h f →
  ∃ m' s', wakeUpPeer conn_write s = Done (None, s') ∧ like (set_ss_heap (set_mem m' (ss_heap s)) s) s' ∧
    queue_rep m' (qm_sendQueue qm) h (Fifo (f_items f) true) ∧ changes_only (h_mem (ss_heap s)) m' (queue_footprint (qm_sendQueue qm)).
Proof.
  intros Hc Hq Hv Hr. destruct (markWorking_spec _ _ _ _ Hr) as (m'&E&R&C). exists m'. unfold wakeUpPeer.
  erewrite bind_done by (by apply sendQueue_run). cbv beta. erewrite bind_done by (apply on_queue_done; exact E). cbv beta. cbn [fifo_markWorking fst].
  set (s1 := set_ss_heap (set_mem m' (ss_heap s)) s). destruct (negb (negb (f_working f))).
  - exists s1. split_and!; done.
  - destruct (count_like sendPollingEventCount 1 s1) as (s2&E2&L2); [done|]. erewrite bind_done by exact E2. cbv beta. erewrite bind_done by done. cbv beta.
    destruct (polling_table s2 (ss_version s2)) as (tb&ev&Et&Hev); [by rewrite (lk_version _ _ L2)|]. erewrite bind_done by exact Et. cbv beta. rewrite Hev.
    erewrite bind_done by done. cbv beta. destruct (write_or_queue_like conn_write ev s2 Hc) as (s3&E3&L3). erewrite bind_done by exact E3.
    exists s3. split_and!; [done|by transitivity s2|done|done].
Qed.

(** The element of a message. *)
Definition element_of (t : stream) (o : Z) : queueElement := QueueElement (sm_id t) o streamOpened.

Lemma bm_own_pub bm ls h L m' ws : bm_own bm ls h L → changes_only (h_mem h) m' ws → mgr_rep m' ls → bm_own bm ls (set_mem m' h) L.
Proof.
  intros [] [_ Hin] Hr. constructor; try done; [by apply Hin|]. destruct bw_own. constructor; try done; [by destruct ow_pool|].
  intros p Hp. destruct (ow_live p Hp) as (?&b&Hb&[]). split; [done|]. exists b. split; [done|]. constructor; try done. by apply Hin.
Qed.

(** A stream whose write buffer can be published: opened, its bytes in slots of the shared
    memory. *)
Record sendable (bm : bufferManager) (ls : list lstate) (s : session) (p : nat) (t : stream) (q0 : nat) (ps pins O : list nat) (c : list Z) : Prop := {
  sd_obj : ss_objs s !! p = Some t;
  sd_open : sm_state t = streamOpened;
  sd_id : 0 ≤ sm_id t < 2 ^ 32;
  sd_bm : ss_bufferManager s = bm;
  sd_placed : placed bm ls;
  sd_rep : lb_rep bm (send_view s t) O (q0 :: ps) pins c;
  sd_own : bm_own bm ls (ss_heap s) ((q0 :: ps) ++ pins ++ O);
  sd_written : ∀ q, q ∈ q0 :: ps → ∃ b, written (ss_heap s) q b;
  sd_write : sl_write (lb_sliceList (sm_sendBuf t)) = last (q0 :: ps);
  sd_shm : lb_isFromShm (sm_sendBuf t) = true
}.

(** The send queue, in an array of its own, with room for one more. *)
Record has_room (bm : bufferManager) (s : session) (L : list nat) (qm : queueManager) (a0 : nat) (h : Z) (es : list queueElement) (w : bool) : Prop := {
  hr_qm : ss_queueManager s = Some qm;
  hr_in : queue_in (qm_sendQueue qm) a0;
  hr_apart : a0 ≠ s_arr (bm_mem bm);
  hr_objs : ∀ p b, p ∈ L → h_slices (ss_heap s) !! p = Some b → s_arr (bs_data b) ≠ a0;
  hr_rep : queue_rep (h_mem (ss_heap s)) (qm_sendQueue qm) h (Fifo es w);
  hr_room : Z.of_nat (length es) < q_cap (qm_sendQueue qm);
  hr_bound : h + Z.of_nat (length es) + 1 < 2 ^ 63
}.

(** Publishing: [done] on the write buffer of the stream. *)
Lemma publish_ok bm ls s p t q0 ps pins O c : sendable bm ls s p t q0 ps pins O c →
  ∃ m cs o, lb_done bm (send_view s t) = Done (tt, set_heap (set_mem m (ss_heap s)) (send_view s t)) ∧
    rootBufOffset (set_heap (set_mem m (ss_heap s)) (send_view s t)) = Done (o, set_heap (set_mem m (ss_heap s)) (send_view s t)) ∧
    changes_only (h_mem (ss_heap s)) m (wins ls cs) ∧ chain m ls cs ∧ concat cs.*2 = c ∧ NoDup cs.*1 ∧ cs ≠ [] ∧ first_off ls cs = Some o ∧ 0 ≤ o < 2 ^ 32 ∧
    Forall2 (is_ready (ss_heap s) ls) (q0 :: ps) cs ∧ (∀ a, a ∈ cs.*1 → ∃ x, is_place ls a x ∧ a.2 ∉ ls_free x) ∧
    bm_own bm ls (set_mem m (ss_heap s)) ((q0 :: ps) ++ pins ++ O).
Proof.
  intros [Ht Hop Hid Hbm Hpl [[_ Hsl _ Hct] _ _] Hown Hwr Hw Hshm].
  destruct (written_all _ _ _ _ (q0 :: ps) Hown) as (cs&Hre&Hcs&Hpls); [set_solver|done|].
  assert (NoDup cs.*1) as Hnd by (eapply ready_nodup; [exact Hown| |apply Hsl|exact Hre]; set_solver).
  destruct (lb_done_ok bm ls (send_view s t) q0 ps cs) as (m&E&Hc&Hch); [apply Hown|done..|].
  pose proof Hre as Hre'. destruct cs as [|cc cs]; [by apply Forall2_length in Hre|]. apply Forall2_cons in Hre' as [H1 H2].
  destruct (first_off_ready _ _ _ _ cs H1) as (b&Hb&Ho). destruct (ready_off _ _ _ _ _ (bw_rep _ _ _ _ Hown) H1) as (b'&Hb'&Hoff).
  assert (b' = b) as -> by congruence. exists m, (cc :: cs), (bs_offsetInShm b). split_and!; try done.
  - unfold rootBufOffset. erewrite bind_done by done. cbv beta. pose proof (sr_front _ _ _ _ Hsl) as Ef. cbn [set_heap st_buf send_view head] in Ef |- *. rewrite Ef.
    unfold slice_of. by erewrite bind_done by (erewrite bind_done by done; apply on_heap_ok, get_slice_ok; exact Hb).
  - rewrite Hcs. exact Hct.
  - lia.
  - lia.
  - eapply bm_own_pub; [exact Hown|exact Hc|]. eapply pub_keeps_list; [apply Hown|exact Hc|exact Hpls].
Qed.

(** Publishing writes to the headers of the slots only. *)
Lemma pub_keeps_data bm ls h L m' cs q : bm_own bm ls h L → changes_only (h_mem h) m' (wins ls cs) → (∀ a, a ∈ cs.*1 → ∃ x, is_place ls a x) → q ∈ L →
  same_slice h (set_mem m' h) q.
Proof.
  intros Hb [Hc _] Hpl Hq. split; [done|]. intros b Hbq. cbn [h_mem set_mem]. apply Hc. apply Forall_forall. intros w (a&ct&x&Ha&Hx&->)%wins_in.
  pose proof Hb as []. destruct (Hpl a) as (x'&Hp); [apply list_elem_of_fmap; by exists (a, ct)|]. pose proof (proj1 Hp) as Hx'. rewrite Hx in Hx'. injection Hx' as <-.
  destruct (mgr_geom _ _ _ _ bw_rep Hx) as [Hgx _]. destruct (bw_objs q b Hq Hbq) as [(j&y&u&Hj&Hu&_&Ho)|(_&_&Harr)].
  - rewrite (slot_obj_win _ _ _ Ho). destruct (mgr_geom _ _ _ _ bw_rep Hj) as [Hgy _]. destruct (decide (a = (j, u))) as [->|Hne].
    + cbn [fst snd] in *. rewrite Hx in Hj. injection Hj as <-. unfold pub_win. cbn [fst snd]. consts. solve_disj.
    + eapply win_in_disj; [by apply pub_in_slot|]. eapply (win_in_disj_r (padd (slot_ptr (ls_geom y) u) bufferHeaderSize, g_cap (ls_geom y))); [|by apply (places_apart _ _ a (j, u) x y bw_rep)].
      pose proof Hgy as []. unfold win_in, slot_all. cbn. unfold ls_geom in *. consts. split_and!; [done|lia|lia].
  - left. unfold pub_win, slot_ptr. cbn. destruct (Forall_lookup_1 _ _ _ _ bw_room Hx) as [Ea _]. unfold ls_geom in *. congruence.
Qed.

(** The element is put and the peer is woken. *)
Lemma flush_body_ok conn_write debugMode select_send select_result select_retry bm s p t o qm a0 h es w :
  conn_takes conn_write → 0 ≤ ss_version s ≤ maxSupportProtoVersion → ss_objs s !! p = Some t → sm_inFallback t = false → lb_isFromShm (sm_sendBuf t) = true →
  ss_bufferManager s = bm → rootBufOffset (send_view s t) = Done (o, send_view s t) → elem_ok (element_of t o) → ss_queueManager s = Some qm →
  queue_in (qm_sendQueue qm) a0 → queue_rep (h_mem (ss_heap s)) (qm_sendQueue qm) h (Fifo es w) → Z.of_nat (length es) < q_cap (qm_sendQueue qm) →
  h + Z.of_nat (length es) + 1 < 2 ^ 63 →
  ∃ m' s', flush_body conn_write debugMode select_send select_result select_retry p streamOpened s = Done (None, s') ∧
    like (set_ss_heap (set_mem m' (ss_heap s)) s) s' ∧ queue_rep m' (qm_sendQueue qm) h (Fifo (es ++ [element_of t o]) true) ∧
    (∀ k, k ≠ a0 → m' !! k = h_mem (ss_heap s) !! k).
Proof.
  intros Hc Hv Ht Hdir Hshm Hbm Hroot He Hqm Hin Hr Hroom Hb. unfold flush_body. erewrite bind_done by done. cbv beta. rewrite Hbm.
  destruct (on_sendBuf_read p isFromShareMemory s t true Ht) as (s1&E1&L1); [unfold isFromShareMemory, buf, reads; cbn; by rewrite Hshm|].
  erewrite bind_done by exact E1. cbv beta. cbn [negb]. erewrite bind_done by done. cbv beta. pose proof L1 as [H1 O1 B1 Q1 V1 A1].
  assert (ss_objs s1 !! p = Some t) as Ht1 by (by rewrite O1). erewrite bind_done by (unfold get_obj; by rewrite Ht1). cbv beta. rewrite Hdir.
  assert (send_view s1 t = send_view s t) as Ev by (unfold send_view; by rewrite H1, A1).
  destruct (on_sendBuf_read p rootBufOffset s1 t o Ht1) as (s2&E2&L2); [by rewrite Ev|]. pose proof L2 as [H2 O2 B2 Q2 V2 A2].
  destruct (queue_put_room (h_mem (ss_heap s)) (qm_sendQueue qm) h (Fifo es w) (element_of t o) Hr He Hb Hroom) as (m3&E3&R3&C3). cbn [f_items f_working] in R3.
  assert (put_element p streamOpened s1 = Done (None, set_ss_heap (set_mem m3 (ss_heap s2)) s2)) as Eput.
  { unfold put_element. erewrite bind_done by (unfold get_obj; by rewrite Ht1). cbv beta. erewrite bind_done by (apply sendQueue_run; by rewrite Q1). cbv beta.
    erewrite bind_done by exact E2. cbv beta. apply on_queue_done. rewrite H2, H1. exact E3. }
  erewrite bind_done by exact Eput. cbv beta. rewrite bool_decide_false by done. erewrite bind_done by done. cbv beta iota.
  set (s3 := set_ss_heap (set_mem m3 (ss_heap s2)) s2).
  destruct (wakeUpPeer_ok conn_write s3 qm h (Fifo (es ++ [element_of t o]) w) Hc) as (m4&s4&E4&L4&R4&C4); [cbn; congruence|cbn; by rewrite V2, V1|done|].
  exists m4, s4. split_and!; [exact E4| |exact R4|].
  - pose proof L4 as [H4 O4 B4 Q4 V4 A4]. cbn in H4, O4, B4, Q4, V4, A4. constructor; cbn; try congruence.
    rewrite H4. cbn. rewrite H2, H1. done.
  - intros k Hk. rewrite (changes_other_array _ _ _ a0 k C4 Hin Hk). cbn. by apply (changes_other_array _ _ _ a0 k C3 Hin Hk).
Qed.

Lemma wins_array bm ls cs : placed bm ls → Forall (λ w : ptr * Z, p_arr w.1 = s_arr (bm_mem bm)) (wins ls cs).
Proof.
  intros (_&_&Hp). apply Forall_forall. intros w (a&ct&x&_&Hx&->)%wins_in. unfold pub_win, slot_ptr. cbn. by rewrite (proj1 (Hp _ _ Hx)).
Qed.

(** What a [Flush] that succeeds leaves behind: the chain of slots with the bytes, the
    element in the queue, and a stream with an empty write buffer. *)
Record flushed (bm : bufferManager) (ls : list lstate) (s s' : session) (p : nat) (t : stream) (q0 : nat) (ps pins O : list nat) (c : list Z)
    (qm : queueManager) (a0 : nat) (h : Z) (es : list queueElement) (cs : list (place * list Z)) (o : Z) : Prop := {
  fl_chain : chain (h_mem (ss_heap s')) ls cs;
  fl_bytes : concat cs.*2 = c;
  fl_nodup : NoDup cs.*1;
  fl_first : first_off ls cs = Some o;
  fl_ready : Forall2 (is_ready (ss_heap s) ls) (q0 :: ps) cs;
  fl_places : ∀ a, a ∈ cs.*1 → ∃ x, is_place ls a x ∧ a.2 ∉ ls_free x;
  fl_queue : queue_rep (h_mem (ss_heap s')) (qm_sendQueue qm) h (Fifo (es ++ [element_of t o]) true);
  fl_own : bm_own bm ls (ss_heap s') (pins ++ O);
  fl_stream : ∃ t', ss_objs s' !! p = Some t' ∧ lb_rep bm (send_view s' t') O [] pins [] ∧ sm_id t' = sm_id t ∧ sm_state t' = sm_state t ∧
                sm_inFallback t' = sm_inFallback t;
  fl_frame : ss_bufferManager s' = ss_bufferManager s ∧ ss_queueManager s' = ss_queueManager s ∧ ss_version s' = ss_version s;
  fl_mem : ∀ k, k ≠ a0 → k ≠ s_arr (bm_mem bm) → h_mem (ss_heap s') !! k = h_mem (ss_heap s) !! k
}.

Lemma Flush_ok conn_write debugMode select_send select_result select_retry bm ls s p t q0 ps pins O c qm a0 h es w :
  conn_takes conn_write → 0 ≤ ss_version s ≤ maxSupportProtoVersion → sendable bm ls s p t q0 ps pins O c → sm_inFallback t = false →
  has_room bm s ((q0 :: ps) ++ pins ++ O) qm a0 h es w →
  ∃ s' cs o, Flush conn_write debugMode select_send select_result select_retry p false s = Done (None, s') ∧ flushed bm ls s s' p t q0 ps pins O c qm a0 h es cs o.
Proof.
  intros Hc Hv Hsd Hdir [Hqm Hin Hap Hobjs Hrep Hroom Hbnd]. destruct (publish_ok _ _ _ _ _ _ _ _ _ _ Hsd) as (m&cs&o&Ed&Er&Cm&Hch&Hby&Hnd&Hne&Hfo&Ho&Hre&Hpl&Hown).
  pose proof Hsd as [Ht Hop Hid Hbm Hplaced Hlb _ Hwr _ Hshm].
  assert (c ≠ []) as Hcne.
  { destruct (Forall2_cons_inv_l _ _ _ _ Hre) as ([a ct]&cs'&Hr1&_&->). destruct Hr1 as (x&b&[]). cbn in *. subst c. by destruct ct. }
  unfold Flush. erewrite bind_done by done. cbv beta. rewrite Hbm.
  destruct (on_sendBuf_read p Len s t (Z.of_nat (length c)) Ht) as (s1&E1&L1); [unfold Len, buf, reads; by rewrite (lp_len _ _ _ _ _ _ Hlb)|].
  erewrite bind_done by exact E1. cbv beta. replace (Z.of_nat (length c) =? 0) with false by (symmetry; apply Z.eqb_neq; destruct c; [done|cbn; lia]).
  destruct (count_like outFlowBytes (u64 (Z.of_nat (length c))) s1) as (s2&E2&L2); [done|]. erewrite bind_done by exact E2. cbv beta.
  assert (like s s2) as L12 by (by transitivity s1). pose proof L12 as [H2 O2 B2 Q2 V2 A2].
  erewrite bind_done by (apply getStreamState_run; by rewrite O2). cbv beta. rewrite Hop. cbn [Z.eqb negb streamOpened].
  assert (send_view s2 t = send_view s t) as Ev by (unfold send_view; by rewrite H2, A2).
  destruct (on_sendBuf_done p (lb_done bm) s2 t tt (set_heap (set_mem m (ss_heap s)) (send_view s t))) as (s3&E3&H3&O3&B3&Q3&V3&A3); [by rewrite O2|by rewrite Ev|].
  erewrite bind_done by exact E3. cbv beta. cbn [set_heap st_buf st_heap st_allocErrors send_view] in H3, O3, A3.
  assert (ss_objs s3 !! p = Some t) as Ht3 by (rewrite O3, lookup_insert_eq; by destruct t).
  assert (send_view s3 t = set_heap (set_mem m (ss_heap s)) (send_view s t)) as Ev3 by (unfold send_view, set_heap; cbn; by rewrite H3, A3).
  assert (m !! a0 = h_mem (ss_heap s) !! a0) as Ha0 by (by apply (changes_other_array _ _ _ _ _ Cm (wins_array bm ls cs Hplaced))).
  destruct (flush_body_ok conn_write debugMode select_send select_result select_retry bm s3 p t o qm a0 h es w) as (m4&s4&E4&L4&R4&M4);
    [done|by rewrite V3, V2|done|done|done|congruence|by rewrite Ev3|unfold elem_ok, element_of, streamOpened; cbn; lia|congruence|done|by rewrite H3; eapply queue_rep_shared|done|done|].
  erewrite bind_done by exact E4. cbv beta. pose proof L4 as [H4 O4 B4 Q4 V4 A4]. cbn in H4, O4, B4, Q4, V4, A4.
  rewrite H3 in H4, M4. cbn in H4, M4. assert (ss_objs s4 !! p = Some t) as Ht4 by (by rewrite O4).
  assert (bm_own bm ls (ss_heap s4) ((q0 :: ps) ++ pins ++ O)) as Hown4.
  { rewrite H4. eapply bm_foreign_mem; [exact Hown|exact Hap|done|done]. }
  pose proof Hlb as [[_ Hsl Hpin _] _ _].
  destruct (clean_ok bm ls (q0 :: ps) (send_view s4 t) pins O) as (st&Ec&Hm&Hown5&Hlb5); [done|cbn; by rewrite H4|cbn; by rewrite H4|].
  destruct (on_sendBuf_done p clean s4 t tt st Ht4 Ec) as (s5&E5&H5&O5&B5&Q5&V5&A5). cbn in Hm.
  assert (h_mem (ss_heap s5) = m4) as Hm5 by (rewrite H5, Hm, H4; done).
  exists s5, cs, o. split; [by erewrite bind_done by exact E5|]. constructor; rewrite ?Hm5; try done.
  - destruct (chain_shared m m4 (s_arr (bm_mem bm)) ls ls cs) as [? _]; [intros i x Hi; exists x; done|..|done|done].
    + intros i x Hi. destruct Hplaced as (_&_&Hp). by rewrite (proj1 (Hp i x Hi)).
    + by apply M4.
  - by rewrite H5.
  - exists (with_bufs (sm_recvBuf t) (st_buf st) t). rewrite O5, lookup_insert_eq. split_and!; try done.
    assert (send_view s5 (with_bufs (sm_recvBuf t) (st_buf st) t) = st) as -> by (unfold send_view; cbn; rewrite H5, A5; by destruct st). done.
  - split_and!; congruence.
  - intros k Hk Hk'. rewrite M4 by done. by apply (changes_other_array _ _ _ _ _ Cm (wins_array bm ls cs Hplaced)).
Qed.

(** ** Both ends *)

Lemma recv_rep_polled bm ls m a0 es s s' k t t' ws O ps pins c : recv_rep bm ls s k O ps pins c → polled m a0 es s s' →
  ss_objs s !! k = Some t → ss_objs s' !! k = Some t' → got t t' ws → a0 ≠ s_arr (bm_mem bm) →
  (∀ p b, p ∈ ps ++ pins ++ O → h_slices (ss_heap s) !! p = Some b → s_arr (bs_data b) ≠ a0) → recv_rep bm ls s' k O ps pins c.
Proof.
  intros [Hbm (t0&Ht0&[Hcore Hlen Hw]) Hown] [] Ht Ht' [] Ha Hobj. assert (t0 = t) as -> by congruence.
  assert (ss_heap s' = set_mem (h_mem (ss_heap s')) (ss_heap s)) as Eh by (destruct (ss_heap s'), (ss_heap s); cbn in *; by subst).
  assert (lb_view s' t' = set_heap (set_mem (h_mem (ss_heap s')) (ss_heap s)) (lb_view s t)) as Ev
    by (unfold lb_view, set_heap; cbn; by rewrite <- Eh, gt_recv0, po_alloc0).
  assert (lb_held bm (set_heap (set_mem (h_mem (ss_heap s')) (ss_heap s)) (lb_view s t)) O ps pins c) as Hh
    by (apply (held_foreign bm (lb_view s t) O ps pins c a0); [by constructor|by split|done]).
  constructor; [congruence| |rewrite Eh; by eapply bm_foreign_mem]. exists t'. split; [done|]. by rewrite Ev.
Qed.

(** From [Flush] to the read buffer of the peer: when the write buffer of an open
    stream that is not in fallback holds the bytes [c] in slots of the shared memory and the queue has room, [Flush]
    succeeds, the write buffer is empty again and can be used, and the queue holds one more
    element; a peer whose memory agrees on the two shared regions and which has the stream,
    not closed, handles every element of the queue, leaves it empty with its flag cleared,
    has marked the stream as readable, and after the next look at its pending data has [c]
    behind the bytes that it had. *)
Theorem flush_reaches_peer conn_write debugMode select_send select_result select_retry bm ls s p t q0 ps pins O c qm a0 h es w :
  conn_takes conn_write → 0 ≤ ss_version s ≤ maxSupportProtoVersion → sendable bm ls s p t q0 ps pins O c → sm_inFallback t = false →
  has_room bm s ((q0 :: ps) ++ pins ++ O) qm a0 h es w →
  ∃ s', Flush conn_write debugMode select_send select_result select_retry p false s = Done (None, s') ∧
    (∃ t', ss_objs s' !! p = Some t' ∧ lb_rep bm (send_view s' t') O [] pins [] ∧ sm_state t' = streamOpened) ∧
    bm_own bm ls (ss_heap s') (pins ++ O) ∧
    (∃ e, queue_rep (h_mem (ss_heap s')) (qm_sendQueue qm) h (Fifo (es ++ [e]) true)) ∧
    ∀ bm' ls' r k tk m qm' O' ps' pins' c' hd bd,
      same_lists ls ls' → placed bm' ls' → recv_rep bm' ls' r k O' ps' pins' c' → a0 ≠ s_arr (bm_mem bm') →
      (∀ q b, q ∈ ps' ++ pins' ++ O' → h_slices (ss_heap r) !! q = Some b → s_arr (bs_data b) ≠ a0) →
      h_mem (ss_heap r) !! s_arr (bm_mem bm) = h_mem (ss_heap s') !! s_arr (bm_mem bm) → h_mem (ss_heap r) !! a0 = h_mem (ss_heap s') !! a0 →
      not_held (ss_heap s) (ss_heap r) (q0 :: ps) (ps' ++ pins' ++ O') →
      ss_queueManager r = Some qm' → qm_recvQueue qm' = qm_sendQueue qm →
      ss_streams r = Some m → m !! sm_id t = Some k → ss_objs r !! k = Some tk → sm_state tk ≠ streamClosed → sm_pending tk = [] →
      Forall (deliverable m r) es → deliveries m k es = [] →
      ∃ r1 r2 t1 qs, handlePolling hd bd r = Done ((headerSize, false, None), r1) ∧
        queue_rep (h_mem (ss_heap r1)) (qm_sendQueue qm) (h + Z.of_nat (length es) + 1) (Fifo [] false) ∧
        ss_objs r1 !! k = Some t1 ∧ sm_recvNotify t1 = true ∧
        moveTo k r1 = Done (tt, r2) ∧ recv_rep bm' ls' r2 k O' (ps' ++ qs) pins' (c' ++ c).
Proof.
  intros Hc Hv Hsd Hdir Hroom. destruct (Flush_ok conn_write debugMode select_send select_result select_retry _ _ _ _ _ _ _ _ _ _ _ _ _ _ _ Hc Hv Hsd Hdir Hroom) as (s'&cs&o&E&[]).
  pose proof Hsd as []. pose proof Hroom as []. exists s'. split; [exact E|]. split_and!; [|exact fl_own0|by eexists|].
  { destruct fl_stream0 as (t'&?&?&?&?&?). exists t'. split_and!; [done|done|congruence]. }
  intros bm' ls' r k tk m qm' O' ps' pins' c' hd bd Hsame Hpl' Hrr Ha' Hobj' Hmb Hmq Hnot Hqm' Hq' Hst Hid Htk Hopk Hpend Hdel Hnone.
  destruct (handlePolling_ok m (qm_sendQueue qm) a0 (es ++ [element_of t o]) r h true qm' hd bd) as (r1&E1&P1&R1); try done.
  { eapply queue_rep_shared; [done| |exact fl_queue0]. done. }
  { rewrite length_app. cbn. lia. }
  { apply Forall_app. split; [done|]. constructor; [|done]. split; [done|]. exists k, tk. done. }
  destruct (po_objs _ _ _ _ _ P1 k tk Htk) as (t1&Ht1&Hg1&_).
  assert (deliveries m k (es ++ [element_of t o]) = [Wrapper None o]) as Edel.
  { unfold deliveries in *. rewrite filter_app, fmap_app, Hnone. cbn [app]. by rewrite filter_cons_True. }
  rewrite Edel in Hg1. pose proof (recv_rep_polled _ _ _ _ _ _ _ _ _ _ _ _ _ _ _ Hrr P1 Htk Ht1 Hg1 Ha' Hobj') as Hrr1.
  destruct (chain_shared (h_mem (ss_heap s')) (h_mem (ss_heap r1)) (s_arr (bm_mem bm)) ls ls' cs Hsame) as [Hch Hfo]; [| |done|].
  { intros i x Hi. destruct sd_placed0 as (_&_&Hp). by rewrite (proj1 (Hp i x Hi)). }
  { rewrite (po_mem _ _ _ _ _ P1) by done. done. }
  destruct (move_message bm' ls' k O' pins' cs r1 ps' c' o t1) as (r2&qs&t2&E2&Hrr2&_); try done.
  { intros a Ha. assert (unheld ls' (ss_heap r) (ps' ++ pins' ++ O') a) as Hun by (by eapply not_held_unheld).
    intros x Hx. destruct (Hun x Hx) as [Hf Hn]. split; [done|]. intros q b Hq Hb. rewrite (po_slices _ _ _ _ _ P1) in Hb. by eapply Hn. }
  { by rewrite Hfo. }
  { rewrite (gt_pending _ _ _ Hg1), Hpend. done. }
  exists r1, r2, t1, qs. rewrite fl_bytes0 in Hrr2. split_and!; try done.
  - rewrite length_app in R1. cbn in R1. by replace (h + Z.of_nat (length es) + 1) with (h + Z.of_nat (length es + 1)) by lia.
  - by apply (gt_notify _ _ _ Hg1).
Qed.

(** ** A message on concrete memories *)

Definition e2e_queue : queue := queue_of false (GSlice 9 0 48 48) 2.
Definition e2e_qm : queueManager := QueueManager "q" e2e_queue e2e_queue (GSlice 9 0 48 48) MemMapTypeDevShmFile 0.
Definition e2e_mem : gmem := <[9%nat := le_bytes 4 2 ++ replicate 44 0]> demo_bm_mem.
Definition e2e_start : lbst := LbSt (Heap e2e_mem ∅ []) newEmptyLinkedBuffer 0.

Definition e2e_stream (w : linkedBuffer) : stream := Stream 5 streamOpened newEmptyLinkedBuffer w [] false false 0 0 false None 0 0 0 None.
Definition e2e_session (h : heap) (w : linkedBuffer) (bm : bufferManager) : session :=
  Session h {[ 0%nat := e2e_stream w ]} (Some {[ 5 := 0%nat ]}) 5 true 3 false None false false false false [] []
    bm (Some e2e_qm) (λ _, 0) 0 false None 0 [].

Definition e2e_conn : list Z → M session (option error) := λ _, mret None.
Definition e2e_peer (m : gmem) : session := e2e_session (Heap m ∅ []) newEmptyLinkedBuffer peer_bm.
