(* ===== verification/Fallback.v ===== *)
(** * The fallback path: a message over the socket

    When the shared memory has no room, a stream keeps its bytes in process memory.
    [Flush] then gathers them behind an event of its own ([writeFallback]), gives the
    slices back, opens the circuit breaker and hands the event to the send loop; the peer
    finds the event among the bytes of the connection, however these are cut, and appends
    the payload to the read buffer of the stream ([handleFallbackData]).

    The last section runs the two paths against each other: a message that went through
    the shared queue can be overtaken by a later one of the same stream over the socket. *)

From Stdlib Require Import ZArith Lia.
From stdpp Require Import prelude list gmap strings.
From S2P Require Import Prelude GoMem Queue BufferSlice BufferList BufferManager Allocator ShmAllocator LinkedBuffer LinkedBufferProofs LinkedBufferPeek LinkedBufferFifo LinkedBufferRead Protocol Events Session SessionProofs SessionEvents Transfer EndToEnd.

(** ** The event *)

(** header | seqID | status | payload *)
Definition fallback_event (v id st : Z) (c : list Z) : list Z :=
  header_bytes (u32 (16 + Z.of_nat (length c))) v typeFallbackData ++ be_bytes 4 id ++ be_bytes 4 st ++ c.

Lemma fallback_encode {S} (s : S) (c : list Z) v id st :
  fallbackDataEvent_encode (16 + Z.of_nat (length c)) v id st s =
    Done (header_bytes (u32 (16 + Z.of_nat (length c))) v typeFallbackData ++ be_bytes 4 id ++ be_bytes 4 st, s).
Proof.
  unfold fallbackDataEvent_encode, header_bytes. erewrite bind_done by (by apply gmake_ok). cbv beta.
  set (b4 := be_bytes 4 (u32 _)). set (b2 := be_bytes 2 magicNumber). set (i4 := be_bytes 4 id). set (s4 := be_bytes 4 st).
  assert (length b4 = 4%nat ∧ length b2 = 2%nat ∧ length i4 = 4%nat ∧ length s4 = 4%nat) as (H1&H2&H3&H4) by (unfold b4, b2, i4, s4; by rewrite !length_be_bytes).
  clearbody b4 b2 i4 s4. change (replicate _ 0) with ([] ++ replicate 4 0 ++ replicate 12 0).
  erewrite bind_done by (by apply gput_pieces). cbv beta. change ([] ++ b4 ++ replicate 12 0) with (b4 ++ replicate 2 0 ++ replicate 10 0).
  erewrite bind_done by (apply gput_pieces; [by rewrite H1|done]). cbv beta.
  replace (b4 ++ b2 ++ replicate 10 0) with ((b4 ++ b2) ++ [0] ++ replicate 9 0) by (by rewrite <- app_assoc).
  erewrite bind_done by (apply gput_pieces; [rewrite length_app; lia|done]). cbv beta.
  replace ((b4 ++ b2) ++ [u8 v] ++ replicate 9 0) with ((b4 ++ b2 ++ [u8 v]) ++ [0] ++ replicate 8 0) by (by rewrite <- !app_assoc).
  erewrite bind_done by (apply gput_pieces; [rewrite !length_app; cbn; lia|done]). cbv beta.
  replace ((b4 ++ b2 ++ [u8 v]) ++ [u8 typeFallbackData] ++ replicate 8 0) with ((b4 ++ b2 ++ [u8 v; u8 typeFallbackData]) ++ replicate 4 0 ++ replicate 4 0)
    by (by rewrite <- !app_assoc).
  erewrite bind_done by (apply gput_pieces; [rewrite !length_app; cbn; lia|done]). cbv beta.
  rewrite (app_assoc _ i4). rewrite <- (app_nil_r (replicate 4 0)). erewrite gput_pieces; [|rewrite !length_app; cbn; lia|done].
  by rewrite app_nil_r, <- app_assoc.
Qed.

(** ** Sending: the bytes of the write buffer *)

(** The views that [underlyingData] returns hold the bytes up to the write slice; what is
    behind it is blank. *)
Lemma underlying_ok L ps : ∀ p fuel st, owned (st_heap st) L → (∀ q, q ∈ p :: ps → q ∈ L) → links (h_slices (st_heap st)) (p :: ps) None → NoDup (p :: ps) →
  (∀ w, sl_write (lb_sliceList (st_buf st)) = Some w → ∃ pre post, p :: ps = pre ++ w :: post ∧ ∀ q, q ∈ post → blank (st_heap st) q) →
  (length (p :: ps) ≤ fuel)%nat →
  ∃ views, underlying_loop fuel (Some p) st = Done (views, st) ∧ gather views (st_heap st) = Done (contents (st_heap st) (p :: ps), st_heap st).
Proof.
  induction ps as [|r ps IH]; intros p fuel st Ho Hin Hl Hnd Hw Hf; (destruct fuel as [|fuel]; [cbn in Hf; lia|]); cbn [underlying_loop];
    destruct (Hl 0%nat p eq_refl) as (b&Hb&Hnext); cbn in Hnext;
    destruct (obj_content_some _ L p b Ho) as (Hct&_&[]); [set_solver|done| |set_solver|done|];
    set (d := GSlice (s_arr (bs_data b)) (s_off (bs_data b) + bs_readIndex b) (bs_writeIndex b - bs_readIndex b) (s_cap (bs_data b) - bs_readIndex b));
    (assert (∀ vs c, gather vs (st_heap st) = Done (c, st_heap st) → gather (d :: vs) (st_heap st) = Done (obj_content (st_heap st) p ++ c, st_heap st)) as Hga;
     [intros vs c E; cbn [gather]; erewrite bind_done by (apply on_mem_ok; unfold load_bytes; change (peek _ _ _) with (slice_content (h_mem (st_heap st)) b); by rewrite Hct);
      cbv beta; rewrite set_mem_id; by erewrite bind_done by exact E|]);
    erewrite bind_done by (apply on_heap_ok, get_slice_ok; exact Hb); cbv beta;
    (replace (set_heap (st_heap st) st) with st by (by destruct st));
    erewrite bind_done by (apply subslice_ok; lia); cbv beta; fold d; (erewrite bind_done by done); cbv beta.
  - rewrite Hnext. destruct (bool_decide _); [|erewrite bind_done by (by destruct fuel); cbv beta]; (eexists; split; [done|apply (Hga [] []); done]).
  - destruct (bool_decide (Some p = _)) eqn:E.
    + apply bool_decide_eq_true in E. exists [d]. split; [done|]. rewrite (Hga [] []) by done. do 2 f_equal.
      change (contents _ (p :: r :: ps)) with (obj_content (st_heap st) p ++ contents (st_heap st) (r :: ps)). f_equal.
      destruct (Hw p (eq_sym E)) as (pre&post&Heq&Hbl). destruct pre as [|x pre].
      * injection Heq as <-. rewrite (blanks_content _ L (r :: ps)) by (done || set_solver). done.
      * injection Heq as -> Heq. apply NoDup_cons in Hnd as [Hx _]. rewrite Heq in Hx. set_solver.
    + apply bool_decide_eq_false in E. rewrite Hnext. apply NoDup_cons in Hnd as [Hp Hnd].
      destruct (IH r fuel st) as (vs&Ev&Eg); [done|set_solver|intros i x Hi; exact (Hl (S i) x Hi)|done| |cbn in *; lia|].
      * intros w Ew. destruct (Hw w Ew) as (pre&post&Heq&Hbl). destruct pre as [|x pre]; [injection Heq as -> _; congruence|]. injection Heq as _ Heq. by exists pre, post.
      * exists (d :: vs). split; [by erewrite bind_done by exact Ev|by apply Hga].
Qed.

(** ** Sending: giving the slices back *)

(** [recycle] leaves an empty buffer; nothing of it is owned any more. *)
Lemma recycle_send_ok (bm : bufferManager) ps st pins O : al_inv bm (st_heap st) (ps ++ pins ++ O) →
  slist_rep (h_slices (st_heap st)) (lb_sliceList (st_buf st)) ps None → (∃ e, slist_rep (h_slices (st_heap st)) (lb_pinnedList (st_buf st)) pins e) →
  ∃ st', recycle bm st = Done (tt, st') ∧ lb_rep bm st' O [] pins [].
Proof.
  intros HI Hl [e Hp]. destruct (recycle_slices_ok bm ps st (pins ++ O) HI Hl) as (st1&E1&[ls Hown]&Hl1&Hs&l&Hb).
  assert (∃ e, slist_rep (h_slices (st_heap st1)) (lb_pinnedList (st_buf st1)) pins e) as Hp1.
  { exists e. rewrite Hb. eapply slist_rep_same; [exact Hp|]. intros q Hq. apply Hs. set_solver. }
  destruct (clean_ok bm ls [] st1 pins O Hown Hl1 Hp1) as (st2&E2&_&_&Hrep). exists st2. split; [|done].
  unfold recycle, list_fuel, buf at 1. erewrite bind_done by done. cbv beta. rewrite (sr_len _ _ _ _ Hl), Nat2Z.id. by erewrite bind_done by exact E1.
Qed.

(** ** Sending: [writeFallback] *)

(** The same queue to the send loop and the same health. *)
Definition same_chan (s s' : session) : Prop := ss_sendCh s' = ss_sendCh s ∧ ss_unhealthy s' = ss_unhealthy s ∧ ss_version s' = ss_version s.
#[global] Instance same_chan_pre : PreOrder same_chan.
Proof. split; [done|]. unfold same_chan. intros s1 s2 s3 (->&->&->) (->&->&->). done. Qed.

Lemma on_sendBuf_chan {A} p (m : M lbst A) s a s' : on_sendBuf p m s = Done (a, s') → same_chan s s'.
Proof.
  unfold on_sendBuf, on_buf. intros (t&s1&E1&E)%bind_done_inv. unfold get_obj in E1. destruct (ss_objs s !! p) eqn:Ho; [|done]. injection E1 as -> <-.
  apply bind_done_inv in E as (s2&s3&[= <- <-]&E). destruct (m _) as [[x b]| |]; [|done..]. apply bind_done_inv in E as (u&s4&[= <-]&E).
  apply bind_done_inv in E as (u2&s5&E5&[= <- <-]). subst. erewrite upd_obj_run in E5 by (cbn; exact Ho). injection E5 as _ <-. done.
Qed.

(** The circuit breaker changes the health of the session only. *)
Record tripped (dbg : bool) (s s' : session) : Prop := {
  tr_chan : ss_sendCh s' = ss_sendCh s;
  tr_objs : ss_objs s' = ss_objs s;
  tr_heap : ss_heap s' = ss_heap s;
  tr_stats : ss_stats s' = ss_stats s;
  tr_bm : ss_bufferManager s' = ss_bufferManager s;
  tr_streams : ss_streams s' = ss_streams s;
  tr_qm : ss_queueManager s' = ss_queueManager s;
  tr_version : ss_version s' = ss_version s;
  tr_shutdown : ss_shutdown s' = ss_shutdown s;
  tr_health : dbg = false → ss_unhealthy s' = true
}.

Lemma breaker_ok dbg s : ∃ s', openCircuitBreaker dbg s = Done (tt, s') ∧ tripped dbg s s'.
Proof.
  unfold openCircuitBreaker. destruct dbg; [by exists s|]. erewrite bind_done by done. cbv beta.
  destruct (ss_unhealthy s) eqn:E; [by exists s|]. erewrite bind_done by done. by eexists.
Qed.

(** The send loop takes the event and reports what it did with it. *)
Definition loop_takes (select_send : M session sel) (select_result : M session (sel * option error)) (e : option error) : Prop :=
  (∀ s, select_send s = Done (SelReady, s)) ∧ (∀ s, select_result s = Done ((SelReady, e), s)).

Lemma waitForSend_ok select_send select_result e body s : loop_takes select_send select_result e →
  waitForSend select_send select_result None (Some body) s = Done (e, set_chans (ss_acceptCh s) (ss_sendCh s ++ [SendReady None (Some body)]) s).
Proof.
  intros [H1 H2]. unfold waitForSend. erewrite bind_done by apply H1. cbv beta iota. erewrite bind_done by done. cbv beta. by erewrite bind_done by apply H2.
Qed.

(** What a message over the socket leaves behind. *)
Record sent_over (bm : bufferManager) (dbg : bool) (s s' : session) (p : nat) (t : stream) (pins O : list nat) (body : list Z) : Prop := {
  so_chan : ss_sendCh s' = ss_sendCh s ++ [SendReady None (Some body)];
  so_health : dbg = false → ss_unhealthy s' = true;
  so_bm : ss_bufferManager s' = ss_bufferManager s;
  so_version : ss_version s' = ss_version s;
  so_stream : ∃ t', ss_objs s' !! p = Some t' ∧ lb_rep bm (send_view s' t') O [] pins [] ∧ sm_id t' = sm_id t ∧ sm_state t' = sm_state t ∧
                sm_inFallback t' = sm_inFallback t ∧ sm_recvBuf t' = sm_recvBuf t
}.

Lemma writeFallback_ok dbg select_send select_result e bm s p t ps pins O c st :
  loop_takes select_send select_result e → ss_objs s !! p = Some t → ss_bufferManager s = bm → lb_rep bm (send_view s t) O ps pins c → c ≠ [] →
  ∃ s', writeFallback dbg select_send select_result p st s = Done (e, s') ∧
    sent_over bm dbg s s' p t pins O (fallback_event (ss_version s) (sm_id t) st c).
Proof.
  intros Hsel Ht Hbm Hlb Hc. pose proof Hlb as [[HI Hl Hp Hct] Hlen Hw]. unfold writeFallback.
  erewrite bind_done by (unfold get_obj; by rewrite Ht). cbv beta. erewrite bind_done by done. cbv beta. rewrite Hbm.
  destruct (on_sendBuf_read p Len s t (Z.of_nat (length c)) Ht) as (s1&E1&L1); [unfold Len, buf, reads; by rewrite Hlen|].
  pose proof (on_sendBuf_chan _ _ _ _ _ E1) as C1. erewrite bind_done by exact E1. cbv beta. pose proof L1 as [H1 O1 B1 _ V1 A1].
  erewrite bind_done by done. cbv beta. rewrite V1. erewrite bind_done by apply fallback_encode. cbv beta.
  assert (send_view s1 t = send_view s t) as Ev1 by (unfold send_view; by rewrite H1, A1).
  destruct ps as [|q0 ps]; [by subst c|].
  destruct (underlying_ok ((q0 :: ps) ++ pins ++ O) ps q0 (size (h_slices (ss_heap s))) (send_view s t)) as (vs&Eu&Eg); [by eapply al_inv_owned|set_solver|apply Hl|apply Hl| | |].
  { intros w Ew. unfold write_at_end in Hw. cbn in Ew, Hw. by rewrite Ew in Hw. }
  { apply nodup_size; [apply Hl|]. intros q Hq. by eapply (links_lookup _ _ _ _ (sr_links _ _ _ _ Hl)). }
  destruct (on_sendBuf_read p underlyingData s1 t vs) as (s2&E2&L2); [by rewrite O1| |].
  { rewrite Ev1. unfold underlyingData, front, buf. erewrite bind_done by done. cbv beta. cbn in Hl |- *. rewrite (sr_front _ _ _ _ Hl). cbn [head].
    unfold chain_fuel. by erewrite bind_done by done. }
  pose proof (on_sendBuf_chan _ _ _ _ _ E2) as C2. erewrite bind_done by exact E2. cbv beta. assert (like s s2) as L12 by (by transitivity s1). pose proof L12 as [H2 O2 B2 _ V2 A2].
  assert (ss_heap s2 = ss_heap s) as Eh by done. cbn in Eg, Hct. rewrite Hct in Eg.
  erewrite bind_done by (apply on_ss_heap_done; rewrite Eh; exact Eg). cbv beta. rewrite <- Eh.
  replace (set_ss_heap (ss_heap s2) s2) with s2 by (by destruct s2).
  assert (send_view s2 t = send_view s t) as Ev2 by (unfold send_view; by rewrite H2, A2).
  destruct (recycle_send_ok bm (q0 :: ps) (send_view s t) pins O HI Hl Hp) as (st3&Er&Hrep3).
  destruct (on_sendBuf_done p (recycle bm) s2 t tt st3) as (s3&E3&H3&O3&B3&_&V3&A3); [by rewrite O2|by rewrite Ev2|].
  pose proof (on_sendBuf_chan _ _ _ _ _ E3) as C3. erewrite bind_done by exact E3. cbv beta.
  assert (same_chan s s3) as (C&U&_) by (etransitivity; [exact C1|]; by etransitivity).
  set (t3 := with_bufs (sm_recvBuf t) (st_buf st3) t).
  destruct (breaker_ok dbg s3) as (s4&E4&[F1 F2 F3 F4 F5 _ _ FV _ F6]).
  erewrite bind_done by exact E4. cbv beta. erewrite bind_done by done. cbv beta. rewrite waitForSend_ok with (e := e) by done.
  eexists. split; [done|]. constructor.
  - cbn [ss_sendCh set_chans set_stats]. rewrite F1, C. unfold fallback_event. by rewrite <- !app_assoc.
  - exact F6.
  - cbn. by rewrite F5, B3, B2.
  - cbn. by rewrite FV, V3, V2.
  - exists t3. cbn [ss_objs set_chans set_stats]. rewrite F2, O3, lookup_insert_eq. split_and!; try done.
    unfold send_view. cbn. unfold set_stat. rewrite decide_False by done. rewrite F3, F4, H3, A3. by destruct st3.
Qed.

(** A stream whose next message goes over the socket: part of its write buffer is in process
    memory, or it is in fallback already. *)
Record over_socket (bm : bufferManager) (ls : list lstate) (s : session) (p : nat) (t : stream) (q0 : nat) (ps pins O : list nat) (c : list Z) : Prop := {
  ov_obj : ss_objs s !! p = Some t;
  ov_open : sm_state t = streamOpened;
  ov_id : 0 ≤ sm_id t < 2 ^ 32;
  ov_bm : ss_bufferManager s = bm;
  ov_rep : lb_rep bm (send_view s t) O (q0 :: ps) pins c;
  ov_some : c ≠ [];
  ov_len : 16 + Z.of_nat (length c) < 2 ^ 32;
  ov_why : lb_isFromShm (sm_sendBuf t) = false ∨ (sm_inFallback t = true ∧ sendable bm ls s p t q0 ps pins O c)
}.

(** [done] keeps the bytes. *)
Lemma done_keeps bm ls s p t q0 ps pins O c : over_socket bm ls s p t q0 ps pins O c →
  ∃ st, lb_done bm (send_view s t) = Done (tt, st) ∧ lb_rep bm st O (q0 :: ps) pins c ∧ st_buf st = sm_sendBuf t ∧ st_allocErrors st = ss_stats s allocShmErrorCount.
Proof.
  intros [Ht _ _ Hbm Hlb _ _ [Hno|[_ Hsd]]].
  - exists (send_view s t). split_and!; try done. unfold lb_done, buf at 1. erewrite bind_done by done. cbv beta. cbn. by rewrite Hno.
  - destruct (publish_ok _ _ _ _ _ _ _ _ _ _ Hsd) as (m&cs&o&Ed&_&Cm&Hch&_&_&_&_&_&_&Hpl&Hown).
    eexists. split; [exact Ed|]. split_and!; try done. pose proof Hlb as [Hcore Hlen Hw].
    assert (∀ q, q ∈ (q0 :: ps) ++ pins ++ O → same_slice (ss_heap s) (set_mem m (ss_heap s)) q) as Hs.
    { intros q Hq. eapply pub_keeps_data; [apply Hsd|exact Cm| |exact Hq]. intros a Ha. destruct (Hpl a Ha) as (x&Hx&_). by exists x. }
    constructor; [|done|].
    + apply rep_same; [done|by exists ls|exact Hs].
    + unfold write_at_end in *. cbn in *. exact Hw.
Qed.

Lemma flush_body_over conn_write dbg select_send select_result select_retry e bm s p t q0 ps pins O c :
  loop_takes select_send select_result e → ss_objs s !! p = Some t → ss_bufferManager s = bm → lb_rep bm (send_view s t) O (q0 :: ps) pins c → c ≠ [] →
  lb_isFromShm (sm_sendBuf t) = false ∨ sm_inFallback t = true →
  ∃ s', flush_body conn_write dbg select_send select_result select_retry p streamOpened s = Done (e, s') ∧
    sent_over bm dbg s s' p (with_fallback true t) pins O (fallback_event (ss_version s) (sm_id t) (sm_state t) c).
Proof.
  intros Hsel Ht Hbm Hlb Hc Hwhy. unfold flush_body. erewrite bind_done by done. cbv beta. rewrite Hbm.
  destruct (on_sendBuf_read p isFromShareMemory s t (lb_isFromShm (sm_sendBuf t)) Ht) as (s1&E1&L1); [done|].
  pose proof (on_sendBuf_chan _ _ _ _ _ E1) as (C1&U1&W1). erewrite bind_done by exact E1. cbv beta. pose proof L1 as [H1 O1 B1 _ V1 A1].
  assert (∃ s2, (if negb (lb_isFromShm (sm_sendBuf t)) then upd_obj p (with_fallback true) else mret tt) s1 = Done (tt, s2) ∧ ss_objs s2 !! p = Some (with_fallback true t) ∧
    ss_heap s2 = ss_heap s ∧ ss_stats s2 = ss_stats s1 ∧ same_chan s1 s2 ∧ ss_bufferManager s2 = bm) as (s2&E2&Ht2&H2&S2&(C2&U2&W2)&B2).
  { destruct (lb_isFromShm (sm_sendBuf t)) eqn:Es; cbn [negb].
    - destruct Hwhy as [|Hin]; [done|]. exists s1. split_and!; try done; [|congruence]. rewrite O1, Ht. f_equal. destruct t; cbn in *. by subst.
    - eexists. split; [apply upd_obj_run; rewrite O1; exact Ht|]. cbn. rewrite lookup_insert_eq. by rewrite B1, H1. }
  erewrite bind_done by exact E2. cbv beta. erewrite bind_done by (unfold get_obj; by rewrite Ht2). cbv beta. cbn [sm_inFallback with_fallback].
  destruct (writeFallback_ok dbg select_send select_result e bm s2 p (with_fallback true t) (q0 :: ps) pins O c (sm_state t) Hsel Ht2 B2) as (s3&E3&[Hch Hhe Hb Hv Hst]); [|done|].
  { unfold send_view. cbn [sm_sendBuf with_fallback]. rewrite H2, S2, A1. exact Hlb. }
  exists s3. split; [exact E3|]. constructor; try done; [|congruence|congruence]. rewrite Hch, C2, C1, W2, W1. done.
Qed.

Lemma Flush_over conn_write dbg select_send select_result select_retry e bm ls s p t q0 ps pins O c :
  loop_takes select_send select_result e → over_socket bm ls s p t q0 ps pins O c →
  ∃ s', Flush conn_write dbg select_send select_result select_retry p false s = Done (e, s') ∧
    sent_over bm dbg s s' p (with_fallback true t) pins O (fallback_event (ss_version s) (sm_id t) streamOpened c).
Proof.
  intros Hsel Hov. destruct (done_keeps _ _ _ _ _ _ _ _ _ _ Hov) as (st&Ed&Hrd&Hbd&Had). pose proof Hov as [Ht Hop _ Hbm Hlb Hc _ Hwhy].
  unfold Flush. erewrite bind_done by done. cbv beta. rewrite Hbm.
  destruct (on_sendBuf_read p Len s t (Z.of_nat (length c)) Ht) as (s1&E1&L1); [unfold Len, buf, reads; by rewrite (lp_len _ _ _ _ _ _ Hlb)|].
  pose proof (on_sendBuf_chan _ _ _ _ _ E1) as C1. erewrite bind_done by exact E1. cbv beta.
  replace (Z.of_nat (length c) =? 0) with false by (symmetry; apply Z.eqb_neq; destruct c; [done|cbn; lia]).
  destruct (count_like outFlowBytes (u64 (Z.of_nat (length c))) s1) as (s2&E2&L2); [done|].
  assert (same_chan s1 s2) as C2 by (injection E2 as <-; done). erewrite bind_done by exact E2. cbv beta.
  assert (like s s2) as L12 by (by transitivity s1). pose proof L12 as [H2 O2 B2 _ V2 A2].
  erewrite bind_done by (apply getStreamState_run; by rewrite O2). cbv beta. rewrite Hop. cbn [Z.eqb negb streamOpened].
  assert (send_view s2 t = send_view s t) as Ev by (unfold send_view; by rewrite H2, A2).
  destruct (on_sendBuf_done p (lb_done bm) s2 t tt st) as (s3&E3&H3&O3&B3&_&V3&A3); [by rewrite O2|by rewrite Ev|].
  pose proof (on_sendBuf_chan _ _ _ _ _ E3) as C3. erewrite bind_done by exact E3. cbv beta.
  assert (same_chan s s3) as (C&U&W) by (etransitivity; [exact C1|]; by etransitivity).
  rewrite Hbd in O3. assert (ss_objs s3 !! p = Some t) as Ht3 by (rewrite O3, lookup_insert_eq; by destruct t).
  assert (send_view s3 t = st) as Ev3 by (unfold send_view; rewrite H3, A3, <- Hbd; by destruct st).
  destruct (flush_body_over conn_write dbg select_send select_result select_retry e bm s3 p t q0 ps pins O c Hsel Ht3) as (s4&E4&[Hch Hhe Hb4 Hv4 (t4&Ht4&Hr4&I1&I2&I3&I4)]); [congruence|by rewrite Ev3|done|tauto|].
  erewrite bind_done by exact E4. cbv beta. pose proof Hr4 as [[[ls4 Hown4] Hsl4 Hp4 _] _ _].
  destruct (clean_ok bm ls4 [] (send_view s4 t4) pins O Hown4 Hsl4 Hp4) as (st5&E5&_&_&Hr5).
  destruct (on_sendBuf_done p clean s4 t4 tt st5 Ht4 E5) as (s5&E5'&H5&O5&B5&_&V5&A5). pose proof (on_sendBuf_chan _ _ _ _ _ E5') as (C5&U5&_).
  exists s5. split; [by erewrite bind_done by exact E5'|]. rewrite Hop, W in Hch. constructor.
  - by rewrite C5, Hch, C.
  - rewrite U5. exact Hhe.
  - congruence.
  - congruence.
  - exists (with_bufs (sm_recvBuf t4) (st_buf st5) t4). rewrite O5, lookup_insert_eq. split_and!; try done.
    unfold send_view. cbn. rewrite H5, A5. by destruct st5.
Qed.

(** ** Receiving *)

(** A slice over a copy of [c] in process memory, written to its end. *)
Definition filled (a : nat) (c : list Z) : bufferSlice :=
  let n := Z.of_nat (length c) in BufferSlice None (GSlice a 0 n n) n 0 0 0 n false None.

Lemma adopt_bytes bm ls h L c : bm_own bm ls h L → Z.of_nat (length c) < 2 ^ 32 →
  let n := Z.of_nat (length c) in let a := fresh_key (h_mem h) in let d := GSlice a 0 n n in
  ∃ q h2 h3, newBufferSlice None d 0 false (set_mem (<[a := c]> (h_mem h)) h) = Done (q, h2) ∧
    (x ← get_slice q; set_slice q (with_indices x (bs_readIndex x) n)) h2 = Done (tt, h3) ∧
    bm_own bm ls h3 (q :: L) ∧ h_slices h3 !! q = Some (filled a c) ∧ slice_content (h_mem h3) (filled a c) = Some c ∧
    (∀ r, r ∈ L → same_slice h h3 r) ∧ h_mem h3 = <[a := c]> (h_mem h).
Proof.
  intros Hb Hn n a d. pose proof (fresh_key_None (h_mem h)) as Ha. fold a in Ha. pose proof (bw_own _ _ _ _ Hb) as Ho.
  destruct (newBufferSlice_proc (set_mem (<[a := c]> (h_mem h)) h) d) as (q&E&Hnew&Hnp); [by destruct (ow_pool _ _ Ho)|]. cbn in Hnew, Hnp.
  assert (u32 n = n) as Eu by (apply u32_small; unfold n; lia).
  set (h3 := Heap (<[a := c]> (h_mem h)) (<[q := filled a c]> (h_slices h)) (tail (h_pool h))).
  assert (bm_own bm ls h3 (q :: L)) as Hb3.
  { apply bm_adopt; try done.
    - destruct (ow_pool _ _ Ho) as [_ Hnd]. destruct (h_pool h); [constructor|]. by inversion_clear Hnd.
    - intros r Hr. destruct (h_pool h); [done|by right].
    - constructor; cbn; try lia. split_and!; cbn; try lia. eexists. rewrite lookup_insert_eq. split; [done|]. lia. }
  pose proof (ow_nodup _ _ (bw_own _ _ _ _ Hb3)) as [Hq _]%NoDup_cons.
  exists q. eexists. exists h3. split; [exact E|]. split_and!.
  - erewrite bind_done by (apply get_slice_ok; cbn; apply lookup_insert_eq). cbv beta. rewrite set_slice_ok. f_equal. f_equal.
    unfold upd_slice, h3, with_indices, proc_slice, filled. cbn. rewrite insert_insert_eq. by rewrite Eu.
  - done.
  - cbn. apply lookup_insert_eq.
  - unfold slice_content, slice_size, peek. cbn. rewrite lookup_insert_eq. cbn. rewrite read_at_ok by lia. cbn. rewrite Z.sub_0_r, Nat2Z.id, drop_0. by rewrite firstn_all.
  - intros r Hr. split; [cbn; apply lookup_insert_ne; by intros ->|]. intros b Hbr. cbn. destruct (owned_lookup _ _ r Ho Hr) as (b'&Hb'&[]). rewrite Hbr in Hb'. injection Hb' as <-.
    destruct sw_mem as (_&_&x&Hx&_). unfold peek. rewrite lookup_insert_ne; [done|]. cbn in Hx |- *. congruence.
  - done.
Qed.

(** Stream [k] of session [r] is there, not closed, with [c] in its read buffer and nothing pending. *)
Record listens (bm : bufferManager) (ls : list lstate) (r : session) (k : nat) (id : Z) (tk : stream) (O ps pins : list nat) (c : list Z) : Prop := {
  li_rep : recv_rep bm ls r k O ps pins c;
  li_map : ∃ m, ss_streams r = Some m ∧ m !! id = Some k;
  li_obj : ss_objs r !! k = Some tk;
  li_open : sm_state tk ≠ streamClosed;
  li_pending : sm_pending tk = []
}.

(** A slice with the bytes [c] waits for stream [k]. *)
Record waits (bm : bufferManager) (ls : list lstate) (r r1 : session) (k : nat) (tk : stream) (q : nat) (O ps pins : list nat) (c : list Z) : Prop := {
  wa_bm : ss_bufferManager r1 = bm;
  wa_obj : ∃ t1, ss_objs r1 !! k = Some t1 ∧ got tk t1 [Wrapper (Some q) 0];
  wa_own : bm_own bm ls (ss_heap r1) (q :: ps ++ pins ++ O);
  wa_slice : ∃ b, h_slices (ss_heap r1) !! q = Some b ∧ bs_next b = None ∧ slice_content (h_mem (ss_heap r1)) b = Some c ∧
               h_mem (ss_heap r) !! s_arr (bs_data b) = None;
  wa_same : ∀ x, x ∈ ps ++ pins ++ O → same_slice (ss_heap r) (ss_heap r1) x;
  wa_alloc : ss_stats r1 allocShmErrorCount = ss_stats r allocShmErrorCount;
  wa_frame : ss_streams r1 = ss_streams r ∧ ss_queueManager r1 = ss_queueManager r ∧ ss_shutdown r1 = ss_shutdown r;
  wa_mem : ∀ a, is_Some (h_mem (ss_heap r) !! a) → h_mem (ss_heap r1) !! a = h_mem (ss_heap r) !! a
}.

Lemma handleFallbackData_ok dbg v id c bm ls r k tk O ps pins c' :
  listens bm ls r k id tk O ps pins c' → 0 ≤ id < 2 ^ 32 → 16 + Z.of_nat (length c) < 2 ^ 32 →
  ∃ r1 q, handleFallbackData dbg (header_bytes (u32 (16 + Z.of_nat (length c))) v typeFallbackData) (be_bytes 4 id ++ be_bytes 4 streamOpened ++ c) r
            = Done ((16 + Z.of_nat (length c), false, None), r1) ∧ waits bm ls r r1 k tk q O ps pins c.
Proof.
  intros [[Hbm (t0&Ht0&Hrep) Hown] (m&Hm&Hk) Htk Hop Hpend] Hid Hlen. unfold handleFallbackData. set (n := Z.of_nat (length c)) in *.
  destruct (header_fields r (u32 (16 + n)) v typeFallbackData []) as (EL&_). rewrite app_nil_r in EL. erewrite bind_done by exact EL. cbv beta zeta.
  rewrite !(u32_small (16 + n)) by (unfold n; lia). unfold headerSize, fallbackDataHeader. replace (16 + n - 8) with (8 + n) by lia.
  set (bi := be_bytes 4 id). set (bs := be_bytes 4 streamOpened). assert (length bi = 4%nat ∧ length bs = 4%nat) as [Hbi Hbs] by (split; apply length_be_bytes).
  assert (be_val bi = id) as Ei by (unfold bi; rewrite be_val_bytes; apply u32_small; lia). assert (be_val bs = 0) as Es by done. clearbody bi bs.
  assert (Z.of_nat (length (bi ++ bs ++ c)) = 8 + n) as Hb by (rewrite !length_app; unfold n; lia). rewrite Hb. replace (8 + n <? 8 + n) with false by (symmetry; apply Z.ltb_ge; lia).
  erewrite bind_done by (apply gmake_ok; unfold n; lia). cbv beta.
  erewrite bind_done; [|rewrite <- (app_nil_r (bi ++ bs ++ c)); apply (gsub_pieces r []); [done|lia]]. cbv beta.
  erewrite bind_done by (apply (gsub_pieces r [] bi); [done|by rewrite Hbi]). cbv beta.
  erewrite bind_done by (apply (gsub_pieces r bi bs c); [by rewrite Hbi|by rewrite Hbs]). cbv beta. rewrite Ei, Es. change (Z.land 0 255) with 0.
  destruct (breaker_ok dbg r) as (r1&E1&[_ O1 H1 S1 B1 M1 Q1 _ D1 _]). erewrite bind_done by exact E1. cbv beta.
  erewrite bind_done; [|rewrite app_assoc; rewrite <- (app_nil_r ((bi ++ bs) ++ c)), <- app_assoc; apply gsub_pieces; [rewrite length_app; lia|unfold n; lia]]. cbv beta.
  destruct (adopt_bytes bm ls (ss_heap r) _ c Hown) as (q&h2&h3&En&Ex&Hown3&Hq&Hct&Hs&Hm3); [unfold n in *; lia|].
  erewrite bind_done by (apply on_ss_heap_done, on_mem_ok; done). cbv beta. rewrite H1.
  erewrite bind_done by (apply on_ss_heap_done; exact En). cbv beta. erewrite bind_done by (apply on_ss_heap_done; exact Ex). cbv beta.
  erewrite bind_done by done. cbv beta. match goal with |- context [(getStream id 0 ≫= _) ?x] => set (r2 := x) end.
  erewrite bind_done by (apply (getStream_here _ _ r2 m k); [change (ss_streams r2) with (ss_streams r1); congruence|done]). cbv beta iota.
  destruct (fill_ok k (Wrapper (Some q) 0) r2 tk) as (r3&t3&E3&O3&Hg&H3&T3&B3&Q3&_&S3&D3); [change (ss_objs r2) with (ss_objs r1); congruence|done|].
  exists r3, q. split; [by erewrite bind_done by exact E3|]. change (ss_heap r2) with h3 in H3. constructor; rewrite ?H3; try done.
  - rewrite B3. change (ss_bufferManager r2) with (ss_bufferManager r1). congruence.
  - exists t3. rewrite O3, lookup_insert_eq. done.
  - exists (filled (fresh_key (h_mem (ss_heap r))) c). split_and!; try done. apply fresh_key_None.
  - rewrite S3. cbn. rewrite S1. unfold set_stat. by rewrite decide_False.
  - rewrite T3, Q3, D3. cbn. done.
  - intros a [x Hx]. rewrite Hm3, lookup_insert_ne; [done|]. intros <-. by rewrite fresh_key_None in Hx.
Qed.

(** The next look at the pending data appends the bytes. *)
Lemma move_fallback bm ls r r1 k id tk q O ps pins c c' : listens bm ls r k id tk O ps pins c' → waits bm ls r r1 k tk q O ps pins c →
  ∃ r2 t2, moveTo k r1 = Done (tt, r2) ∧ recv_rep bm ls r2 k O (ps ++ [q]) pins (c' ++ c) ∧
    ss_objs r2 !! k = Some t2 ∧ sm_pending t2 = [] ∧ sm_inFallback t2 = true ∧ h_mem (ss_heap r2) = h_mem (ss_heap r1) ∧
    ∀ a0, is_Some (h_mem (ss_heap r) !! a0) → own_array bm (ss_heap r) (ps ++ pins ++ O) a0 → own_array bm (ss_heap r2) ((ps ++ [q]) ++ pins ++ O) a0.
Proof.
  intros [[Hbm (t0&Ht0&Hrep) Hown] _ Htk _ Hpend] [Hbm1 (t1&Ht1&Hg) Hown1 (b&Hb&Hnx&Hct&Hfr) Hs Ha _ _]. rewrite Htk in Ht0. injection Ht0 as <-.
  assert (sm_pending t1 = [Wrapper (Some q) 0]) as Hp1 by (by rewrite (gt_pending _ _ _ Hg), Hpend).
  unfold moveTo, moveToWithoutLock. erewrite bind_done by (unfold get_obj; by rewrite Ht1). cbv beta. rewrite Hp1.
  erewrite bind_done by (by apply on_recvBuf_done). cbv beta. match goal with |- context [(shm_fuel ≫= _) ?x] => set (s0 := x) end.
  unfold shm_fuel. erewrite bind_done; last (erewrite bind_done by done; done). cbv beta.
  assert (ss_objs s0 !! k = Some t1) as Ht01 by (cbn; rewrite lookup_insert_eq; by destruct t1).
  destruct (append_received bm ls (lb_view r tk) (ss_heap r1) O ps pins c' q b c Hrep Hown1 Hs Hb Hnx Hct) as (st&Est&Hrst&Hown2&Hm2&Hq2&Hup).
  assert (lb_view s0 t1 = set_heap (ss_heap r1) (lb_view r tk)) as Ev by (unfold lb_view, set_heap; cbn; unfold set_stat; rewrite decide_True by done; by rewrite (gt_recv _ _ _ Hg), Ha).
  cbn [move_loop w_fallbackSlice]. erewrite bind_done; last first.
  { erewrite bind_done; [|erewrite bind_done by (apply (on_recvBuf_done k _ s0 t1 tt st); [exact Ht01|by rewrite Ev]); cbv beta; apply upd_obj_run; cbn; apply lookup_insert_eq]. done. }
  cbv beta. erewrite bind_done by (apply on_recvBuf_done; [cbn; apply lookup_insert_eq|done]). cbv beta. erewrite bind_done by done. cbv beta.
  erewrite upd_obj_run by (cbn; apply lookup_insert_eq). eexists _, _. split; [done|]. split_and!; [|cbn; apply lookup_insert_eq|done|done|exact Hm2|].
  2: { intros a0 [x Hx] Ha0. eapply (own_array_append bm (ss_heap r)); [exact Ha0|exact Hq2| |exact Hup]. intros Ea. congruence. }
  constructor; [by cbn| |exact Hown2]. eexists. split; [cbn; apply lookup_insert_eq|]. apply rep_held. destruct Hrst as [[] Hl Hw]. constructor; [constructor|..]; done.
Qed.

(** ** The event among the bytes of the connection *)

Lemma parse_fallback dbg v id c : 0 < v < 256 → 16 + Z.of_nat (length c) < 2 ^ 32 →
  parse (session_table dbg) (fallback_event v id streamOpened c) =
    VEvent (16 + Z.of_nat (length c)) (eh_act (act_fallback dbg) (header_bytes (u32 (16 + Z.of_nat (length c))) v typeFallbackData) (be_bytes 4 id ++ be_bytes 4 streamOpened ++ c)).
Proof.
  intros Hv Hlen. unfold parse, fallback_event. cbv zeta. set (n := Z.of_nat (length c)) in *. set (hd := header_bytes (u32 (16 + n)) v typeFallbackData).
  assert (length hd = 8%nat) as Hh by apply length_header_bytes. set (body := be_bytes 4 id ++ be_bytes 4 streamOpened ++ c).
  assert (Z.of_nat (length body) = 8 + n) as Hb by (unfold body; rewrite !length_app, !length_be_bytes; unfold n; lia).
  assert (take 8 (hd ++ body) = hd) as -> by (rewrite <- Hh; apply take_app_length).
  assert (drop 8 (hd ++ body) = body) as -> by (rewrite <- Hh; apply drop_app_length).
  rewrite length_app. replace (_ <? 8) with false by (symmetry; apply Z.ltb_ge; lia).
  pose proof (checkEventValid_bytes tt (u32 (16 + n)) v typeFallbackData []) as Ec. rewrite app_nil_r in Ec. fold hd in Ec. rewrite Ec.
  assert (u8 v = v) as -> by (unfold u8; apply Z.mod_small; lia). replace (v =? 0) with false by (symmetry; apply Z.eqb_neq; lia). cbn [Z.gtb].
  change (if u8 typeFallbackData >? maxEventType then Some ErrInvalidMsgType else None) with (@None error).
  assert (hd !! 7%nat = Some 3) as ->.
  { pose proof (header_fields tt (u32 (16 + n)) v typeFallbackData []) as (_&_&_&Et). rewrite app_nil_r in Et. fold hd in Et. unfold MsgType, gindex, of_option in Et.
    destruct (hd !! 7%nat) as [x|]; [|done]. injection Et as ->. done. }
  change (session_table dbg !! Z.to_nat 3) with (Some (Some (act_fallback dbg))). cbv iota.
  assert (eh_need (act_fallback dbg) hd = 8 + n) as Ene.
  { cbn [eh_need act_fallback]. unfold hd, header_bytes. rewrite take_app_le by (by rewrite length_be_bytes).
    rewrite take_ge by (by rewrite length_be_bytes). rewrite be_val_bytes. change (256 ^ Z.of_nat 4) with (2 ^ 32).
    unfold headerSize, u32. rewrite Z.mod_mod by done. rewrite Z.mod_small by (unfold n; lia). lia. }
  rewrite Ene. replace (_ <? _) with false by (symmetry; apply Z.ltb_ge; lia). rewrite take_ge by lia. f_equal. lia.
Qed.

Lemma feed_fallback dbg v id c bm ls r k tk O ps pins c' chunk chunks :
  listens bm ls r k id tk O ps pins c' → ss_shutdown r = false → 0 ≤ id < 2 ^ 32 → 0 < v < 256 → 16 + Z.of_nat (length c) < 2 ^ 32 →
  concat (chunk :: chunks) = fallback_event v id streamOpened c →
  ∃ r1 q, feed_all (protocolHandlers dbg) ss_shutdown exitErr (chunk :: chunks) [] r = Done ([], r1) ∧ waits bm ls r r1 k tk q O ps pins c.
Proof.
  intros Hli Hsd Hid Hv Hlen Hcat. destruct (handleFallbackData_ok dbg v id c bm ls r k tk O ps pins c' Hli Hid Hlen) as (r1&q&E&Hw). exists r1, q. split; [|done].
  pose proof (session_framed dbg) as HF. cbn [concat] in Hcat.
  assert (length (fallback_event v id streamOpened c) = (16 + length c)%nat) as Hl by (unfold fallback_event; rewrite !length_app, length_header_bytes, !length_be_bytes; lia).
  assert (events (session_table dbg) (fallback_event v id streamOpened c) r = Done ((16 + Z.of_nat (length c), None), r1)) as Ee.
  { rewrite (events_unfold _ _ _ HF), parse_fallback by done. erewrite bind_done; [|cbn [eh_act act_fallback]; by erewrite bind_done by exact E]. cbv beta iota.
    rewrite drop_ge by (rewrite Hl; lia). cbn [snd]. erewrite bind_done by done. cbv beta. cbn [fst snd]. by rewrite Z.add_0_r. }
  pose proof (events_result _ _ _ HF _ _ _ _ _ Ee) as (_&Hcl&_).
  pose proof (feed_chunks _ _ _ _ HF exitErr_closes chunks chunk [] r) as Hs. rewrite Hcat, (feed_events _ _ _ _ HF) in Hs by done. cbn [app] in Hs. rewrite Ee in Hs.
  rewrite drop_ge in Hs by (rewrite Hl; lia).
  destruct (feed_all _ _ _ _ _ _) as [[p1 s1]| |]; cbn in Hs; [|done..]. destruct Hs as [-> Hp]. rewrite Hp by auto. done.
Qed.

(** ** Both ends *)

(** From [Flush] over the socket to the read buffer of the peer: when the write buffer of
    an open stream holds the bytes [c] and some of them are in process memory, or the stream
    has fallen back before, [Flush] leaves one event with all of [c] to the send loop and
    returns what the loop reports, the slices are given back, the write buffer is empty and
    can be used again, the stream stays in fallback and, outside of debug mode, the session
    refuses new streams; a peer that has the stream, not closed, and reads this event in
    pieces of any size consumes it exactly, and after the next look at its pending data has
    [c] behind the bytes that it had and is in fallback too. *)
Theorem fallback_reaches_peer conn_write dbg select_send select_result select_retry e bm ls s p t q0 ps pins O c :
  loop_takes select_send select_result e → 0 < ss_version s ≤ maxSupportProtoVersion → over_socket bm ls s p t q0 ps pins O c →
  ∃ s' t' body, Flush conn_write dbg select_send select_result select_retry p false s = Done (e, s') ∧
    ss_sendCh s' = ss_sendCh s ++ [SendReady None (Some body)] ∧
    ss_objs s' !! p = Some t' ∧ lb_rep bm (send_view s' t') O [] pins [] ∧ sm_state t' = streamOpened ∧ sm_inFallback t' = true ∧
    (dbg = false → ss_shutdown s' = false → OpenStream s' = Done ((None, Some ErrSessionUnhealthy), s')) ∧
    ∀ bm' ls' r k tk O' ps' pins' c' dbg' chunk chunks,
      listens bm' ls' r k (sm_id t) tk O' ps' pins' c' → ss_shutdown r = false → concat (chunk :: chunks) = body →
      ∃ r1 r2 t2 q, feed_all (protocolHandlers dbg') ss_shutdown exitErr (chunk :: chunks) [] r = Done ([], r1) ∧
        moveTo k r1 = Done (tt, r2) ∧ recv_rep bm' ls' r2 k O' (ps' ++ [q]) pins' (c' ++ c) ∧
        ss_objs r2 !! k = Some t2 ∧ sm_pending t2 = [] ∧ sm_inFallback t2 = true.
Proof.
  intros Hsel Hv Hov. pose proof Hov as [Ht Hop Hid _ _ _ Hlen _].
  destruct (Flush_over conn_write dbg _ _ select_retry e _ _ _ _ _ _ _ _ _ _ Hsel Hov) as (s'&E&[Hch Hhe _ _ (t'&Ht'&Hr'&_&Hst&Hfb&_)]).
  cbn in Hst, Hfb. exists s', t', (fallback_event (ss_version s) (sm_id t) streamOpened c). split_and!; try done; [congruence| |].
  - intros Hd Hsd. unfold OpenStream. unfold IsClosed, IsHealthy. erewrite bind_done by done. cbv beta. rewrite Hsd.
    erewrite bind_done by (by erewrite bind_done by done). cbv beta. by rewrite Hhe.
  - intros bm' ls' r k tk O' ps' pins' c' dbg' chunk chunks Hli Hsd Hcat.
    destruct (feed_fallback dbg' (ss_version s) (sm_id t) c bm' ls' r k tk O' ps' pins' c' chunk chunks Hli Hsd Hid) as (r1&q&Ef&Hw); [unfold maxSupportProtoVersion in Hv; lia|done|done|].
    destruct (move_fallback _ _ _ _ _ _ _ _ _ _ _ _ _ Hli Hw) as (r2&t2&Em&Hrr&Ht2&Hp2&Hf2&_). exists r1, r2, t2, q. done.
Qed.

(** ** A message that does not fit into the shared memory *)

Definition big : list Z := replicate 60 7.
Definition big_written : lbst := match WriteBytes demo_bm big e2e_start with Done (_, st) => st | _ => e2e_start end.
Definition big_sender : session := e2e_session (st_heap big_written) (st_buf big_written) demo_bm.
Definition big_peer : session := e2e_session (Heap demo_bm_mem ∅ []) newEmptyLinkedBuffer demo_bm.
Definition take_send : M session sel := mret SelReady.
Definition take_result : M session (sel * option error) := mret (SelReady, None).

(** Nothing of the shared memory is in use. *)
Lemma demo_bm_fresh : bm_inv demo_bm (Heap demo_bm_mem ∅ []) [].
Proof.
  destruct (createBufferManager_ok demo_shm_mem demo_shm 0 demo_pairs "a" demo_room) as (m&E&Hf&_&Hroom).
  assert (demo_bm_mem = m) as <- by (unfold demo_bm_mem; rewrite E; reflexivity).
  apply bm_inv_created; [exact Hroom|exact Hf|apply (bool_decide_unpack _); vm_compute; exact I].
Qed.

Lemma e2e_mem_fresh : bm_inv demo_bm (Heap e2e_mem ∅ []) [].
Proof.
  destruct demo_bm_fresh as [ls Hown]. exists ls. apply (bm_foreign_mem demo_bm ls (Heap demo_bm_mem ∅ []) [] 9 e2e_mem Hown); [discriminate|set_solver|].
  intros k Hk. apply lookup_insert_ne. congruence.
Qed.

(** Sixty bytes, of which forty-eight go into slots; the peer reads the event in two pieces. *)
Lemma big_message_arrives :
  ∃ s' t' body r1 r2 ls q, Flush e2e_conn false take_send take_result (λ _, mret RetryClosed) 0 false big_sender = Done (None, s') ∧
    ss_objs s' !! 0%nat = Some t' ∧ sm_inFallback t' = true ∧ length body = 76%nat ∧
    feed_all (protocolHandlers false) ss_shutdown exitErr [take 11 body; drop 11 body] [] big_peer = Done ([], r1) ∧
    moveTo 0 r1 = Done (tt, r2) ∧ recv_rep demo_bm ls r2 0 [] [q] [] big.
Proof.
  destruct (WriteBytes_ok demo_bm e2e_start [] [] [] [] big) as (st&ps&E&Hrep); [apply lb_rep_empty; exact e2e_mem_fresh|reflexivity|].
  assert (big_written = st) as <- by (unfold big_written; rewrite E; reflexivity). clear E.
  pose proof Hrep as [[_ _ _ Hct] _ _]. destruct ps as [|p ps]; [discriminate Hct|].
  destruct (fallback_reaches_peer e2e_conn false take_send take_result (λ _, mret RetryClosed) None demo_bm [] big_sender 0
              (e2e_stream (st_buf big_written)) p ps [] [] big) as (s'&t'&body&E&Hch&Ht'&_&_&Hf&_&Hpeer).
  - split; intros; reflexivity.
  - vm_compute. split; [reflexivity|discriminate].
  - constructor.
    + reflexivity.
    + reflexivity.
    + vm_compute. split; [discriminate|reflexivity].
    + reflexivity.
    + assert (send_view big_sender (e2e_stream (st_buf big_written)) = big_written) as -> by (vm_compute; reflexivity). exact Hrep.
    + discriminate.
    + vm_compute. reflexivity.
    + left. vm_compute. reflexivity.
  - destruct demo_bm_fresh as [ls Hown].
    assert (length body = 76%nat) as Hlen.
    { assert (∃ s, Flush e2e_conn false take_send take_result (λ _, mret RetryClosed) 0 false big_sender = Done (None, s) ∧
        match ss_sendCh s with [SendReady None (Some b)] => length b = 76%nat | _ => False end) as (s1&E1&H1) by (eexists; split; [vm_compute; reflexivity|vm_compute; reflexivity]).
      rewrite E in E1. injection E1 as <-. rewrite Hch in H1. exact H1. }
    destruct (Hpeer demo_bm ls big_peer 0%nat (e2e_stream newEmptyLinkedBuffer) [] [] [] [] false (take 11 body) [drop 11 body]) as (r1&r2&t2&q&E1&E2&Hrr&_).
    + constructor; [|exists {[ 5 := 0%nat ]}; split; reflexivity|reflexivity|discriminate|reflexivity].
      constructor; [reflexivity| |exact Hown]. exists (e2e_stream newEmptyLinkedBuffer). split; [reflexivity|]. apply rep_held, lb_rep_empty. exists ls. exact Hown.
    + reflexivity.
    + cbn [concat]. rewrite app_nil_r. apply take_drop.
    + exists s', t', body, r1, r2, ls, q. exact (conj E (conj Ht' (conj Hf (conj Hlen (conj E1 (conj E2 Hrr)))))).
Defined.

(** ** One message overtakes another

    [Flush] keeps a stream on the socket once it was there, "to avoid unordering".  The way
    from the queue to the socket is not protected: [wakeUpPeer] marks the queue first and
    writes the polling event later, and in between a [Flush] of another stream finds the
    queue marked and sends no event of its own. *)

(** What [wakeUpPeer] does behind the compare-and-swap. *)
Definition wake_rest (conn_write : list Z → M session (option error)) : M session (option error) :=
  _ ← count sendPollingEventCount 1;
  v ← sess ss_version;
  table ← pollingEventWithVersion;
  ev ← of_option (table !! Z.to_nat v);
  _ ← write_or_queue conn_write ev;
  mret None.

Lemma wakeUpPeer_cut conn_write s :
  wakeUpPeer conn_write s = (q ← sendQueue; idle ← on_ss_heap (on_mem (markWorking q)); if negb idle then mret None else wake_rest conn_write) s.
Proof. done. Qed.

(** [Flush] of a stream with bytes in the shared memory up to that point, and behind it. *)
Definition flush_marks (p : nat) : M session bool :=
  bm ← sess ss_bufferManager;
  len ← on_sendBuf p Len;
  _ ← count outFlowBytes (u64 len);
  state ← getStreamState p;
  _ ← on_sendBuf p (lb_done bm);
  _ ← on_sendBuf p isFromShareMemory;
  _ ← put_element p state;
  q ← sendQueue;
  on_ss_heap (on_mem (markWorking q)).
Definition flush_wakes (conn_write : list Z → M session (option error)) (p : nat) : M session (option error) :=
  r ← wake_rest conn_write; _ ← on_sendBuf p clean; mret r.

(** A connection that takes these bytes and no others. *)
Definition expects (d : list Z) : list Z → M session (option error) := λ data, if bool_decide (data = d) then mret None else panic.

Definition two_streams (h : heap) (bm : bufferManager) : session :=
  let t id := Stream id streamOpened bound_buffer bound_buffer [] false false 0 0 false None 0 0 0 None in
  Session h {[ 0%nat := t 5; 1%nat := t 7 ]} (Some {[ 5 := 0%nat; 7 := 1%nat ]}) 7 true 3 false None false false false false [] []
    bm (Some e2e_qm) (λ _, 0) 0 false None 0 [].
Definition race0 : session :=
  match on_sendBuf 0 (WriteBytes demo_bm [1]) (two_streams (Heap e2e_mem ∅ []) demo_bm) with Done (_, s) => s | _ => two_streams (Heap ∅ ∅ []) demo_bm end.
Definition polling_event : list Z := [0; 0; 0; 8; 119; 88; 3; 1].
Definition stream_write := copyWriteAndFlush (expects polling_event) false take_send take_result (λ _, mret RetryClosed).

(** The unread bytes of a stream. *)
Definition unread_bytes (p : nat) : M session (list Z) := views ← on_recvBuf p underlyingData; on_ss_heap (gather views).

(** The states of the race. *)
Definition state_of {A} (o : outcome (A * session)) : session := match o with Done (_, s) => s | _ => two_streams (Heap ∅ ∅ []) demo_bm end.
Definition race1 : session := state_of (flush_marks 0 race0).
Definition race2 : session := state_of (stream_write 1 [2; 2; 2] race1).
Definition race3 : session := state_of (stream_write 1 big race2).
Definition overtaking : list Z := fallback_event 3 7 streamOpened big.
Definition race4 : session := state_of (send_round (expects overtaking) race3).
Definition race5 : session := state_of (flush_wakes (expects polling_event) 0 race4).
Definition race_peer0 : session := two_streams (Heap (h_mem (ss_heap race5)) ∅ []) peer_bm.
Definition race_peer1 : session := state_of (feed_all (protocolHandlers false) ss_shutdown exitErr [overtaking; polling_event] [] race_peer0).
Definition race_peer2 : session := state_of (moveTo 1 race_peer1).

(** Without an interruption the two parts are [Flush]. *)
Lemma flush_parts : Flush (expects polling_event) false take_send take_result (λ _, mret RetryClosed) 0 false race0 =
  (idle ← flush_marks 0; if (idle : bool) then flush_wakes (expects polling_event) 0 else mret None) race0.
Proof. vm_compute. reflexivity. Qed.

(** Stream 7 writes [2; 2; 2] and then sixty bytes [7], both without an error, while the
    [Flush] of stream 5 is between the mark and the polling event; the event with the sixty
    bytes is on the socket before the polling event; the peer reads the sixty bytes first. *)
Theorem fallback_overtakes :
  flush_marks 0 race0 = Done (true, race1) ∧
  stream_write 1 [2; 2; 2] race1 = Done ((3, None), race2) ∧ ss_sendCh race2 = [] ∧
  stream_write 1 big race2 = Done ((60, None), race3) ∧ ss_sendCh race3 = [SendReady None (Some overtaking)] ∧
  send_round (expects overtaking) race3 = Done (Some None, race4) ∧
  flush_wakes (expects polling_event) 0 race4 = Done (None, race5) ∧
  feed_all (protocolHandlers false) ss_shutdown exitErr [overtaking; polling_event] [] race_peer0 = Done ([], race_peer1) ∧
  moveTo 1 race_peer1 = Done (tt, race_peer2) ∧
  ∃ r, unread_bytes 1 race_peer2 = Done (big ++ [2; 2; 2], r).
Proof. split_and!; [vm_compute; reflexivity..|]. eexists. vm_compute. reflexivity. Qed.
