(* ===== verification/WritePath.v ===== *)
(** * From [Write] to the peer

    What [WriteBytes] leaves in an empty write buffer can be published: when the slices
    are all in shared memory, each of them has bytes, none is linked, and the last one is
    the one written to.  So a whole [copyWriteAndFlush] is followed to the read buffer of
    the peer, over the queue or over the socket. *)

From Stdlib Require Import ZArith Lia.
From stdpp Require Import prelude list gmap strings.
From S2P Require Import Prelude GoMem Queue BufferSlice BufferList BufferManager Allocator ShmAllocator LinkedBuffer LinkedBufferProofs LinkedBufferPeek LinkedBufferFifo LinkedBufferRead Protocol Events Session SessionProofs Transfer EndToEnd Fallback.

(** ** [append] does not touch headers *)

Lemma flag_data_apart bm ls h L q w b c hd : bm_own bm ls h L → q ∈ L → w ∈ L → h_slices h !! q = Some b → h_slices h !! w = Some c →
  bs_isFromShm b = true → bs_header b = Some hd → disjoint_win (data_win c).1 (data_win c).2 (padd (slice_ptr hd) bufferFlagOffset) 1.
Proof.
  intros [] Hq Hw Hb Hc Hshm Hhd. destruct (bw_objs q b Hq Hb) as [(i&x&s&Hi&Hs&_&[(hd'&Hhd'&Ep&_) _ _ _ _ _ _])|(_&?&_)]; [|congruence].
  rewrite Hhd in Hhd'. injection Hhd' as <-. rewrite Ep. destruct (mgr_geom _ _ _ _ bw_rep Hi) as [Hg _].
  destruct (bw_objs w c Hw Hc) as [(j&y&u&Hj&Hu&_&Ho)|(_&_&Ha)].
  - apply disjoint_win_sym. eapply (win_in_disj (_, 1) (slot_win (ls_geom x) s)); [unfold win_in, slot_win; cbn; consts; lia|].
    eapply header_data_apart; [exact bw_rep| |exact Hj|exact Hu|exact Ho]. exists (ls_geom x). split; [|right; by exists s].
    apply list_elem_of_fmap. exists x. split; [done|]. by eapply list_elem_of_lookup_2.
  - left. destruct (Forall_lookup_1 _ _ _ _ bw_room Hi) as [Ea _]. cbn. by rewrite Ea.
Qed.

Lemma append_exact bm h L w b data : bm_inv bm h L → w ∈ L → h_slices h !! w = Some b →
  let n := Z.min (slice_remain b) (Z.of_nat (length data)) in
  ∃ m', slice_append w data h = Done (n, upd_slice (set_mem m' h) w (with_indices b (bs_readIndex b) (bs_writeIndex b + n))) ∧
    (bs_isFromShm b = true → ∀ k, k ≠ s_arr (bm_mem bm) → m' !! k = h_mem h !! k) ∧
    ∀ us, (∀ q, q ∈ us → q ∈ L) → unlinked h us → unlinked (upd_slice (set_mem m' h) w (with_indices b (bs_readIndex b) (bs_writeIndex b + n))) us.
Proof.
  intros [ls Hb] Hw Hbw n. destruct (obj_content_some h L w b (bw_own _ _ _ _ Hb) Hw Hbw) as (Hl&Hlen&Hwf).
  destruct (slice_append_spec h w b data _ Hbw Hwf Hl) as (m'&E&_&_&Hc). fold n in E, Hc. exists m'. split_and!; [exact E| |].
  { intros Hshm k Hk. destruct (bw_objs _ _ _ _ Hb w b Hw Hbw) as [(i&x&u&Hi&_&_&Ho)|(_&?&_)]; [|congruence].
    destruct (Forall_lookup_1 _ _ _ _ (bw_room _ _ _ _ Hb) Hi) as [Ea _]. eapply changes_other_array; [exact Hc| |by rewrite <- Ea in Hk].
    apply Forall_singleton. cbn. pose proof (f_equal p_arr (so_data _ _ _ Ho)) as Ed. exact Ed. }
  intros us Hus Hu. assert (∀ q c, q ∈ us → h_slices h !! q = Some c → bs_isFromShm c = true →
    bs_start c = 0 ∧ ∃ hd f, bs_header c = Some hd ∧ peek_u8 m' (padd (slice_ptr hd) bufferFlagOffset) = Some f ∧ flag_next f = false) as Hk.
  { intros q c Hq Hcq Hshm. destruct (Hu q c Hq Hcq Hshm) as (?&hd&f&Hhd&Hf&?). split; [done|]. exists hd, f. split_and!; [done| |done].
    eapply changes_peek_u8; [exact Hc| |exact Hf]. apply Forall_singleton.
    eapply (win_in_disj _ (data_win b)); [|by eapply (flag_data_apart bm ls h L q w); eauto].
    pose proof Hwf as []. unfold win_in, data_win, n, slice_remain. cbn. split_and!; [done|lia|lia]. }
  intros q c Hq Hcq Hshm. cbn in Hcq. destruct (decide (w = q)) as [<-|Hne].
  - rewrite lookup_insert_eq in Hcq. injection Hcq as <-. exact (Hk w b Hq Hbw Hshm).
  - rewrite lookup_insert_ne in Hcq by done. exact (Hk q c Hq Hcq Hshm).
Qed.

(** ** The loop of [WriteBytes] over slices that are just enough *)

Lemma caps_of_cons h q b qs : h_slices h !! q = Some b → caps_of h (q :: qs) = bs_cap b + caps_of h qs.
Proof. intros Hq. unfold caps_of. cbn. by rewrite Hq. Qed.
Lemma caps_of_same h h' qs : (∀ q, q ∈ qs → h_slices h' !! q = h_slices h !! q) → caps_of h' qs = caps_of h qs.
Proof.
  unfold caps_of. induction qs as [|q qs IH]; intros Hs; cbn; [done|]. rewrite Hs by set_solver. f_equal. apply IH. set_solver.
Qed.
Lemma blanks_caps h qs : (∀ q, q ∈ qs → blank h q) → 0 ≤ caps_of h qs.
Proof. intros Hb. apply caps_of_nonneg. intros q Hq. destruct (Hb q Hq) as (b&?&_&_&?). eauto with lia. Qed.

(** An object of which bytes were written from the start. *)
Definition filled (h h' : heap) (q : nat) : Prop :=
  ∃ b k, h_slices h !! q = Some b ∧ h_slices h' !! q = Some (with_indices b 0 k) ∧ 0 < k.

Record filling (bm : bufferManager) (s s' : lbst) (O pre qs pins : list nat) (c : list Z) : Prop := {
  fi_core : lb_core bm s' O (pre ++ qs) pins c;
  fi_buf : st_buf s' = set_write (last qs) (st_buf s);
  fi_err : st_allocErrors s' = st_allocErrors s;
  fi_filled : ∀ q, q ∈ qs → filled (st_heap s) (st_heap s') q;
  fi_other : ∀ q, q ∉ qs → h_slices (st_heap s') !! q = h_slices (st_heap s) !! q;
  fi_mem : (∀ q b, q ∈ qs → h_slices (st_heap s) !! q = Some b → bs_isFromShm b = true) →
    ∀ k, k ≠ s_arr (bm_mem bm) → h_mem (st_heap s') !! k = h_mem (st_heap s) !! k;
  fi_unlinked : unlinked (st_heap s) (pre ++ qs) → unlinked (st_heap s') (pre ++ qs)
}.

(** One [append] to a blank slice. *)
Lemma fill_one bm s O pre w post pins c data b :
  lb_core bm s O (pre ++ w :: post) pins c → (∀ q, q ∈ w :: post → blank (st_heap s) q) → h_slices (st_heap s) !! w = Some b →
  let k := Z.min (bs_cap b) (Z.of_nat (length data)) in
  ∃ s', on_heap (slice_append w data) s = Done (k, s') ∧ st_buf s' = st_buf s ∧ st_allocErrors s' = st_allocErrors s ∧
    lb_core bm s' O (pre ++ w :: post) pins (c ++ take (Z.to_nat k) data) ∧
    h_slices (st_heap s') = <[w := with_indices b 0 k]> (h_slices (st_heap s)) ∧
    (bs_isFromShm b = true → ∀ k, k ≠ s_arr (bm_mem bm) → h_mem (st_heap s') !! k = h_mem (st_heap s) !! k) ∧
    (unlinked (st_heap s) (pre ++ w :: post) → unlinked (st_heap s') (pre ++ w :: post)).
Proof.
  intros Hr Hbl Hb k. destruct (Hbl w ltac:(set_solver)) as (b'&Hb'&Hri&Hwi&_). rewrite Hb in Hb'. injection Hb' as <-.
  destruct (append_ok bm s O pre w post pins c data Hr) as (b'&n&s'&Hb'&En&_&E&Ebuf&Hr'&_&_); [set_solver|]. rewrite Hb in Hb'. injection Hb' as <-.
  unfold slice_remain in En. rewrite Hwi, Z.sub_0_r in En. fold k in En. subst n.
  destruct (append_exact bm (st_heap s) ((pre ++ w :: post) ++ pins ++ O) w b data (lr_own _ _ _ _ _ _ Hr) ltac:(set_solver) Hb) as (m'&Ex&Hm&Hun).
  unfold slice_remain in Ex, Hun. rewrite Hwi, Hri, Z.sub_0_r in Ex, Hun. fold k in Ex, Hun. rewrite Z.add_0_l in Ex, Hun.
  rewrite (on_heap_ok _ _ _ _ Ex) in E. injection E as <-. eexists. split; [by apply on_heap_ok|]. split_and!; try done.
  intros Hu. apply Hun; [set_solver|done].
Qed.

Lemma write_fill bm data : ∀ post fuel s O pre w pins c n,
  lb_core bm s O (pre ++ w :: post) pins c → (∀ q, q ∈ w :: post → blank (st_heap s) q) → sl_write (lb_sliceList (st_buf s)) = Some w →
  0 ≤ n < Z.of_nat (length data) → Z.of_nat (length data) - n ≤ caps_of (st_heap s) (w :: post) →
  tight (st_heap s) (Z.of_nat (length data) - n) (w :: post) → (length post < fuel)%nat →
  ∃ s', write_loop bm fuel data n s = Done (Z.of_nat (length data), s') ∧
    filling bm s s' O pre (w :: post) pins (c ++ drop (Z.to_nat n) data).
Proof.
  induction post as [|w' post IH]; intros [|fuel] s O pre w pins c n Hr Hbl Hw Hn Hcap Hti Hf; [lia| |lia|]; cbn [length] in Hf.
  - destruct (Hbl w ltac:(set_solver)) as (b&Hb&_&_&Hpos).
    destruct (fill_one bm s O pre w [] pins c (drop (Z.to_nat n) data) b Hr Hbl Hb) as (s1&E1&Eb1&Ee1&Hr1&Hs1&Hm1&Hu1).
    rewrite (caps_of_cons _ _ b) in Hcap by done. unfold caps_of in Hcap. cbn in Hcap. rewrite length_drop in E1, Hr1, Hs1.
    replace (Z.min (bs_cap b) _) with (Z.of_nat (length data) - n) in E1, Hr1, Hs1 by lia.
    exists s1. split.
    + cbn [write_loop]. erewrite bind_done by (unfold writeSlice, buf, reads; rewrite Hw; done). cbv beta. erewrite bind_done by done. cbv beta.
      erewrite bind_done by exact E1. cbv beta zeta. replace (n + (Z.of_nat (length data) - n)) with (Z.of_nat (length data)) by lia. by rewrite Z.ltb_irrefl.
    + rewrite take_ge in Hr1 by (rewrite length_drop; lia). constructor; try done.
      * rewrite Eb1. cbn [last]. rewrite <- Hw. by destruct (st_buf s) as [[] ? ? ? ? ? ?].
      * intros q ->%list_elem_of_singleton. exists b, (Z.of_nat (length data) - n). rewrite Hs1, lookup_insert_eq. split_and!; [done|done|lia].
      * intros q Hq. rewrite Hs1, lookup_insert_ne; [done|]. set_solver.
      * intros Hsh. apply Hm1, (Hsh w b); [set_solver|done].
  - destruct (Hbl w ltac:(set_solver)) as (b&Hb&_&_&Hpos).
    destruct (fill_one bm s O pre w (w' :: post) pins c (drop (Z.to_nat n) data) b Hr Hbl Hb) as (s1&E1&Eb1&Ee1&Hr1&Hs1&Hm1&Hu1).
    assert (bs_cap b + caps_of (st_heap s) (w' :: post) = caps_of (st_heap s) (w :: w' :: post)) as Ecap by (by rewrite (caps_of_cons _ w b)).
    assert (∀ qs' q, w' :: post = qs' ++ [q] → bs_cap b + caps_of (st_heap s) qs' < Z.of_nat (length data) - n) as Hti'.
    { intros qs' q Eq. rewrite <- (caps_of_cons _ w b) by done. apply (Hti (w :: qs') q). by rewrite Eq. }
    assert (bs_cap b < Z.of_nat (length data) - n) as Hlt.
    { destruct (exists_last (l := w' :: post)) as (qs'&q&Eq); [done|]. specialize (Hti' qs' q Eq).
      assert (0 ≤ caps_of (st_heap s) qs') by (apply blanks_caps; intros r Hr'; apply Hbl; rewrite Eq; set_solver). lia. }
    rewrite length_drop in E1, Hr1, Hs1. replace (Z.min (bs_cap b) _) with (bs_cap b) in E1, Hr1, Hs1 by lia.
    pose proof (rep_nodup _ _ _ _ _ _ Hr) as Hnd.
    assert (w ∉ w' :: post) as Hnw by (apply NoDup_app in Hnd as (Hnd&_&_); apply NoDup_app in Hnd as (_&_&[? _]%NoDup_cons); done).
    assert (∀ q, q ∈ w' :: post → h_slices (st_heap s1) !! q = h_slices (st_heap s) !! q) as Hsame.
    { intros q Hq. rewrite Hs1, lookup_insert_ne; [done|]. by intros ->. }
    set (s2 := LbSt (st_heap s1) (set_write (Some w') (st_buf s1)) (st_allocErrors s1)).
    destruct (IH fuel s2 O (pre ++ [w]) w' pins (c ++ take (Z.to_nat (bs_cap b)) (drop (Z.to_nat n) data)) (n + bs_cap b)) as (s'&E'&[Hc Hbu Her Hfi Hot Hme Hun]).
    + rewrite <- app_assoc. by apply core_write.
    + intros q Hq. unfold blank. cbn. rewrite Hsame by done. apply Hbl. set_solver.
    + done.
    + lia.
    + change (st_heap s2) with (st_heap s1). rewrite (caps_of_same (st_heap s)) by done. lia.
    + intros qs' q Eq. change (st_heap s2) with (st_heap s1). rewrite (caps_of_same (st_heap s)); [specialize (Hti' qs' q Eq); lia|]. intros r Hr'. apply Hsame. rewrite Eq. set_solver.
    + lia.
    + exists s'. split.
      * cbn [write_loop]. erewrite bind_done by (unfold writeSlice, buf, reads; rewrite Hw; done). cbv beta. erewrite bind_done by done. cbv beta.
        erewrite bind_done by exact E1. cbv beta zeta. bdecide. erewrite bind_done by (by eapply core_next). cbv beta. cbn [head].
        erewrite bind_done by done. cbv beta. erewrite bind_done by (by eapply core_next). cbv beta. erewrite bind_done by done. cbv beta. exact E'.
      * rewrite <- app_assoc in Hc. cbn [app] in Hc. constructor; try done.
        -- replace (c ++ drop (Z.to_nat n) data) with ((c ++ take (Z.to_nat (bs_cap b)) (drop (Z.to_nat n) data)) ++ drop (Z.to_nat (n + bs_cap b)) data); [done|].
           rewrite <- app_assoc. f_equal. rewrite Z2Nat.inj_add by lia. rewrite <- drop_drop. apply take_drop.
        -- rewrite Hbu. cbn. rewrite Eb1. done.
        -- rewrite Her. done.
        -- intros q [->|Hq]%elem_of_cons.
           ++ exists b, (bs_cap b). rewrite Hot by done. cbn. rewrite Hs1, lookup_insert_eq. done.
           ++ destruct (Hfi q Hq) as (x&k&Hx&Hx'&?). exists x, k. cbn in Hx. rewrite Hsame in Hx by done. done.
        -- intros q Hq. rewrite Hot by set_solver. cbn. rewrite Hs1, lookup_insert_ne; [done|]. set_solver.
        -- intros Hsh k Hk. rewrite Hme; [|intros q x Hq Hx; cbn in Hx; rewrite Hsame in Hx by done; apply (Hsh q x); [set_solver|done]|done].
           cbn. apply Hm1; [|done]. apply (Hsh w b); [set_solver|done].
        -- intros Hu. rewrite <- app_assoc in Hun. by apply Hun, Hu1.
Qed.

(** ** Allocation that stays in shared memory *)

(** A buffer that left the shared memory does not come back while it is written to. *)
Definition stays_out (s s' : lbst) : Prop := lb_isFromShm (st_buf s) = false → lb_isFromShm (st_buf s') = false.
#[local] Instance stays_out_preorder : PreOrder stays_out.
Proof. split; [intros s Hs; exact Hs|]. intros s1 s2 s3 H1 H2 Hs. auto. Qed.

Lemma out_on_heap {A} (m : M heap A) : keeps stays_out (on_heap m).
Proof. apply keeps_zoom. intros s h Hs. exact Hs. Qed.
Lemma out_upd f : (∀ b, lb_isFromShm b = false → lb_isFromShm (f b) = false) → keeps stays_out (upd_buf f).
Proof. intros Hf. apply keeps_modify. intros s Hs. by apply Hf. Qed.

Ltac out := intros; repeat (apply keeps_bind; [apply _| |intros ?]);
  try first [apply out_on_heap | apply out_upd; by intros | apply keeps_reads; apply _ | apply keeps_ret; apply _ | apply keeps_of_option; apply _ | apply keeps_fuel | apply keeps_panic].

Lemma pushBack_out p : keeps stays_out (pushBack p).
Proof. unfold pushBack. out. Qed.
Lemma alloc_out bm size : keeps stays_out (alloc (A:=bufferManager) bm size).
Proof.
  unfold alloc. apply keeps_bind; [apply _|apply out_on_heap|]. intros [e|p]; [|apply pushBack_out].
  do 3 (apply keeps_bind; [apply _|out|intros ?]). cbv zeta. case_match; [|out].
  do 2 (apply keeps_bind; [apply _|out|intros ?]). apply keeps_bind; [apply _|apply pushBack_out|intros ?].
  do 2 (apply keeps_bind; [apply _|out|intros ?]). case_match; [|out]. apply keeps_modify. intros s Hs. exact Hs.
Qed.
Lemma write_loop_out bm fuel : ∀ data n, keeps stays_out (write_loop (A:=bufferManager) bm fuel data n).
Proof.
  induction fuel as [|fuel IH]; intros data n; cbn [write_loop]; [out|]. do 3 (apply keeps_bind; [apply _|out|intros ?]). case_match; [|out].
  apply keeps_bind; [apply _|out|intros nx]. apply keeps_bind; [apply _|case_match; [out|apply alloc_out]|intros _]. out. apply IH.
Qed.

(** Blank slices in shared memory that are just enough for [size] bytes. *)
Record just_enough (h : heap) (size : Z) (qs : list nat) : Prop := {
  je_some : qs ≠ [];
  je_blank : ∀ q, q ∈ qs → blank h q;
  je_shm : ∀ q b, q ∈ qs → h_slices h !! q = Some b → bs_isFromShm b = true;
  je_caps : size ≤ caps_of h qs;
  je_tight : tight h size qs;
  je_unlinked : unlinked h qs
}.

Lemma pushBack_inv p s s' us : pushBack p s = Done (tt, s') → h_mem (st_heap s') = h_mem (st_heap s) ∧ (unlinked (st_heap s) us → unlinked (st_heap s') us) ∧
  (sl_len (lb_sliceList (st_buf s)) = 0 → h_slices (st_heap s') = h_slices (st_heap s)).
Proof.
  unfold pushBack. intros (l&s1&[= <- <-]&E)%bind_done_inv. apply bind_done_inv in E as (l'&s2&E2&E). injection E as <-.
  unfold on_heap, zoom in E2. destruct (sl_pushBack _ _ _) as [[x h']| |] eqn:Ep; [|done|done]. injection E2 as _ <-. cbn.
  destruct (pushBack_unlinked _ _ _ _ _ us Ep). split_and!; [done|done|]. intros Hz. unfold sl_pushBack in Ep. rewrite Hz in Ep. by injection Ep as _ <-.
Qed.

(** The branch of [alloc] that takes memory of the process. *)
Lemma fallback_out {S'} (m : M lbst S') p s s' :
  (_ ← m; _ ← pushBack p; _ ← upd_buf (set_isFromShm false); hs ← buf lb_hasStream;
   if (hs : bool) then modify_state (λ s, LbSt (st_heap s) (st_buf s) (u64 (st_allocErrors s + 1))) else mret tt) s = Done (tt, s') →
  lb_isFromShm (st_buf s') = false.
Proof.
  intros (?&s1&_&E)%bind_done_inv. apply bind_done_inv in E as (?&s2&_&E). apply bind_done_inv in E as (?&s3&E3&E).
  apply bind_done_inv in E as (hs&s4&E4&E). injection E3 as _ <-. injection E4 as <- <-. cbn in E. by destruct (lb_hasStream _); injection E as <-.
Qed.

Lemma alloc_empty bm s O pins size s' :
  lb_core bm s O [] pins [] → 0 < size < 2 ^ 32 → alloc bm size s = Done (tt, s') → lb_isFromShm (st_buf s') = true →
  ∃ qs, lb_core bm s' O qs pins [] ∧ just_enough (st_heap s') size qs ∧
    (∃ l, st_buf s' = set_sliceList l (st_buf s)) ∧ (∀ k, k ≠ s_arr (bm_mem bm) → h_mem (st_heap s') !! k = h_mem (st_heap s) !! k) ∧
    (∀ q, q ∈ pins ++ O → h_slices (st_heap s') !! q = h_slices (st_heap s) !! q).
Proof.
  intros Hr Hsz E Hshm. pose proof (lr_own _ _ _ _ _ _ Hr) as HI. cbn [app] in HI. unfold alloc in E.
  destruct (bm_alloc bm (st_heap s) (pins ++ O) size HI) as [(p&b&h'&Ea&HI'&Hb&(Hri&Hwi&Hcap&Hnx)&Hsize&Hbs&Hsame&Htk)|(h1&Ea&HI1&Hsame&Htk)].
  - erewrite bind_done in E by (apply on_heap_ok; exact Ea). cbv beta iota in E.
    destruct (pushBack_ok bm s h' O [] pins [] p b Hr HI' Hsame Hb Hri Hwi Hcap Hnx) as (s1&E1&Hr1&Hb1&Hbl&_&_&Hl&_). destruct Htk as [Hm Htk].
    rewrite E1 in E. injection E as <-. exists [p].
    destruct (pushBack_inv _ _ _ [p] E1) as (Em1&Hu1&Hs1). pose proof (sr_len _ _ _ _ (lr_list _ _ _ _ _ _ Hr)) as H0. cbn in H0.
    split_and!; [exact Hr1| |done|intros k Hk; rewrite Em1; by apply Hm|intros q Hq; rewrite Hs1 by done; apply Hsame, Hq]. constructor; [done|done|..].
    + intros q c ->%list_elem_of_singleton Hc. congruence.
    + rewrite (caps_of_cons _ _ b) by done. unfold caps_of. cbn. lia.
    + intros qs' q Eq. destruct qs' as [|? [|??]]; [|done|done]. unfold caps_of. cbn. lia.
    + apply Hu1. eapply unlinked_sub; [|apply (Htk []); [set_solver|by intros ? ? ?%not_elem_of_nil]]. set_solver.
  - erewrite bind_done in E by (apply on_heap_ok; exact Ea). cbv beta iota in E.
    pose proof (rep_same bm s h1 O [] pins [] Hr HI1 Hsame) as Hr1.
    destruct (bm_allocs bm h1 (pins ++ O) (lb_sliceList (st_buf s)) [] size HI1 (lr_list _ _ _ _ _ _ Hr1)) as (l2&h2&qs&E2&HI2&G&Htk2&Hti); [set_solver|].
    destruct (rep_grown bm (set_heap h1 s) h2 l2 O [] pins [] qs Hr1 HI2 G) as (Hr2&Hbl2&_).
    erewrite bind_done in E by done. cbv beta in E. erewrite bind_done in E by (apply on_heap_ok; exact E2). cbv beta in E.
    erewrite bind_done in E by done. cbv beta in E. cbn [fst snd] in E. destruct (size - caps_of h2 qs >? 0) eqn:Erem; breflect.
    { apply bind_done_inv in E as (d&s3&_&E). exfalso. apply bind_done_inv in E as (p&s4&_&E).
      pose proof (fallback_out (mret tt) p s4 s' E). congruence. }
    injection E as <-. exists qs. split_and!; [exact Hr2| |by eexists|intros k Hk; cbn; rewrite (tk_mem _ _ _ _ _ Htk2) by done; by apply (tk_mem _ _ _ _ _ Htk)|].
    2: { intros q Hq. cbn. rewrite (proj1 (gr_same _ _ _ _ _ _ _ G q Hq (not_elem_of_nil q))). apply Hsame, Hq. }
    constructor; cbn; try done.
    + apply (caps_of_empty h2). lia.
    + intros q b Hq Hb. destruct (gr_new _ _ _ _ _ _ _ G q Hq) as (x&n&Hx&_&Hs). rewrite Hx in Hb. by injection Hb as <-.
    + lia.
    + eapply unlinked_sub; [|apply (tk_unlinked _ _ _ _ _ Htk2 []); [set_solver|by intros ? ? ?%not_elem_of_nil]]. set_solver.
Qed.

(** ** [WriteBytes] into an empty buffer *)

Lemma blanks_count h qs : (∀ q, q ∈ qs → blank h q) → Z.of_nat (length qs) ≤ caps_of h qs.
Proof.
  induction qs as [|q qs IH]; intros Hb; [done|]. destruct (Hb q ltac:(set_solver)) as (b&Hq&_&_&?).
  rewrite (caps_of_cons _ _ b) by done. cbn [length]. specialize (IH ltac:(set_solver)). lia.
Qed.

(** No more slices than bytes, so that the loop has rounds enough. *)
Lemma enough_count h size qs : just_enough h size qs → Z.of_nat (length qs) ≤ size.
Proof.
  intros []. destruct (exists_last je_some0) as (qs'&q&->). specialize (je_tight0 qs' q eq_refl).
  assert (Z.of_nat (length qs') ≤ caps_of h qs') by (apply blanks_count; set_solver). rewrite length_app. cbn. lia.
Qed.

(** The slices of the buffer can be published. *)
Record publishable (bm : bufferManager) (st : lbst) (q0 : nat) (ps pins O : list nat) (c : list Z) : Prop := {
  pu_rep : lb_rep bm st O (q0 :: ps) pins c;
  pu_written : ∀ q, q ∈ q0 :: ps → ∃ b, written (st_heap st) q b;
  pu_write : sl_write (lb_sliceList (st_buf st)) = last (q0 :: ps)
}.

Lemma filled_written h h' q size qs : just_enough h size qs → q ∈ qs → filled h h' q → unlinked h' qs → ∃ b, written h' q b.
Proof.
  intros [] Hq (b&k&Hb&Hb'&Hk) Hun. destruct (je_blank0 q Hq) as (b0&Hb0&Hri&_). rewrite Hb in Hb0. injection Hb0 as <-.
  pose proof (je_shm0 q b Hq Hb) as Hs. destruct (Hun q _ Hq Hb' Hs) as [H0 Hfl]. eexists. constructor; [exact Hb'|exact Hs|exact H0|done|done|exact Hfl].
Qed.

Theorem write_publishable bm s O pins data n st : lb_rep bm s O [] pins [] → 0 < Z.of_nat (length data) < 2 ^ 32 →
  WriteBytes bm data s = Done (n, st) → lb_isFromShm (st_buf st) = true →
  n = Z.of_nat (length data) ∧ (∃ q0 ps, publishable bm st q0 ps pins O data) ∧
  (∀ k, k ≠ s_arr (bm_mem bm) → h_mem (st_heap st) !! k = h_mem (st_heap s) !! k) ∧
  (∀ q, q ∈ pins ++ O → h_slices (st_heap st) !! q = h_slices (st_heap s) !! q).
Proof.
  intros [Hr Hl Hw] Hlen E Hshm. unfold write_at_end in Hw.
  destruct (sl_write (lb_sliceList (st_buf s))) as [w|] eqn:Ew; [destruct Hw as ([]&?&?&_); done|].
  unfold WriteBytes in E. replace (_ =? 0) with false in E by (symmetry; apply Z.eqb_neq; lia).
  erewrite bind_done in E by (unfold writeSlice, buf, reads; rewrite Ew; done). cbv beta iota in E.
  apply bind_done_inv in E as (?&s2&E0&E). apply bind_done_inv in E0 as ([]&s1&E1&E0). apply bind_done_inv in E0 as (f&s1'&[= <- <-]&E0). injection E0 as _ <-.
  apply bind_done_inv in E as (k&s3&E3&E). apply bind_done_inv in E as (?&s4&[= _ <-]&[= <- <-]).
  assert (lb_isFromShm (st_buf s1) = true) as Hs1.
  { destruct (lb_isFromShm (st_buf s1)) eqn:Ef; [done|]. pose proof (write_loop_out _ _ _ _ _ _ _ E3 Ef) as Ho. cbn in Hshm. congruence. }
  rewrite u32_small in E1 by lia. destruct (alloc_empty _ _ _ _ _ _ Hr Hlen E1 Hs1) as (qs&Hr1&Hje&(l&Hb1)&Hm1&Hs1').
  pose proof (enough_count _ _ _ Hje) as Hct. pose proof Hje as [Hne Hbl _ Hcap Hti Hun]. destruct qs as [|w post]; [done|].
  pose proof (sr_front _ _ _ _ (lr_list _ _ _ _ _ _ Hr1)) as Hf. cbn in Hf. rewrite Hf in E3.
  destruct (write_fill bm data post (write_fuel data) (LbSt (st_heap s1) (set_write (Some w) (st_buf s1)) (st_allocErrors s1)) O [] w pins [] 0) as (s3'&E3'&[Hc Hbu _ Hfi Hot Hm3 Hu]);
    [by apply core_write|done|done|lia|by rewrite Z.sub_0_r|by rewrite Z.sub_0_r|unfold write_fuel; cbn [length] in Hct; lia|].
  rewrite E3' in E3. injection E3 as <- <-. cbn [app] in *.
  split_and!; [done| |intros k Hk; cbn; rewrite Hm3 by (done || apply (je_shm _ _ _ Hje)); by apply Hm1|].
  2: { intros q Hq. cbn. rewrite Hot; [by apply Hs1'|]. intros Hq'. pose proof (rep_nodup _ _ _ _ _ _ Hr1) as (_&Hd&_)%NoDup_app. by apply (Hd q). }
  exists w, post. constructor.
  - constructor; [by apply rep_flags| |].
    + cbn. rewrite Hbu. cbn. rewrite Hb1. cbn. rewrite Hl. cbn. lia.
    + unfold write_at_end. cbn [st_buf lb_sliceList add_len]. rewrite Hbu. change (sl_write _) with (last (w :: post)).
      destruct (exists_last Hne) as (pre&q&Eq). rewrite Eq, last_snoc. exists pre, []. split; [done|]. by intros ? ?%not_elem_of_nil.
  - intros q Hq. cbn [st_heap]. eapply filled_written; [exact Hje|exact Hq|by apply Hfi|by apply Hu].
  - cbn [st_buf lb_sliceList add_len]. by rewrite Hbu.
Qed.

(** ** [copyWriteAndFlush] *)

(** An open stream with an empty write buffer. *)
Record writable (bm : bufferManager) (ls : list lstate) (s : session) (p : nat) (t : stream) (pins O : list nat) : Prop := {
  wb_obj : ss_objs s !! p = Some t;
  wb_open : sm_state t = streamOpened;
  wb_id : 0 ≤ sm_id t < 2 ^ 32;
  wb_bm : ss_bufferManager s = bm;
  wb_placed : placed bm ls;
  wb_own : bm_own bm ls (ss_heap s) (pins ++ O);
  wb_rep : lb_rep bm (send_view s t) O [] pins []
}.

Lemma placed_same bm ls ls' : bm_lists bm = lists_of ls → bm_lists bm = lists_of ls' → placed bm ls → placed bm ls'.
Proof.
  intros E E' (Hc&Hs&Hp). apply placed_lists; [done|done|done|]. rewrite E. apply Forall_forall. intros l (x&->&[i Hi]%list_elem_of_lookup)%list_elem_of_fmap.
  exact (Hp i x Hi).
Qed.

(** The state after [WriteBytes]. *)
Record wrote (bm : bufferManager) (s s1 : session) (t t1 : stream) (p : nat) (pins O : list nat) (c : list Z) : Prop := {
  wo_obj : ss_objs s1 !! p = Some t1;
  wo_stream : ∃ b, t1 = with_bufs (sm_recvBuf t) b t;
  wo_bm : ss_bufferManager s1 = bm;
  wo_qm : ss_queueManager s1 = ss_queueManager s;
  wo_version : ss_version s1 = ss_version s;
  wo_rep : ∃ q0 ps, lb_rep bm (send_view s1 t1) O (q0 :: ps) pins c;
  wo_shm : lb_isFromShm (sm_sendBuf t1) = true → (∃ q0 ps, publishable bm (send_view s1 t1) q0 ps pins O c) ∧
    (∀ k, k ≠ s_arr (bm_mem bm) → h_mem (ss_heap s1) !! k = h_mem (ss_heap s) !! k) ∧
    (∀ q, q ∈ pins ++ O → h_slices (ss_heap s1) !! q = h_slices (ss_heap s) !! q)
}.

Lemma write_ok bm ls s p t pins O data : writable bm ls s p t pins O → 0 < Z.of_nat (length data) < 2 ^ 32 →
  ∃ s1 t1, on_sendBuf p (WriteBytes bm data) s = Done (Z.of_nat (length data), s1) ∧ wrote bm s s1 t t1 p pins O data.
Proof.
  intros [] Hlen. destruct (WriteBytes_ok bm (send_view s t) O [] pins [] data wb_rep0) as (st&qs&E&Hr); [lia|]. cbn [app] in Hr.
  destruct (on_sendBuf_done p _ s t _ _ wb_obj0 E) as (s1&E1&H1&O1&B1&Q1&V1&A1). exists s1, (with_bufs (sm_recvBuf t) (st_buf st) t).
  split; [exact E1|].
  assert (send_view s1 (with_bufs (sm_recvBuf t) (st_buf st) t) = st) as Ev by (unfold send_view; rewrite H1, A1; by destruct st).
  constructor; rewrite ?Ev; try congruence.
  - by rewrite O1, lookup_insert_eq.
  - by eexists.
  - destruct qs as [|q0 ps]; [|by exists q0, ps]. destruct Hr as [[_ _ _ Hc] _ _]. cbn in Hc. rewrite <- Hc in Hlen. cbn in Hlen. lia.
  - cbn. intros Hshm. rewrite H1. destruct (write_publishable bm (send_view s t) O pins data _ st wb_rep0 Hlen E Hshm) as (_&?&?&?). done.
Qed.

Lemma wrote_sendable bm ls s s1 p t t1 pins O c : writable bm ls s p t pins O → wrote bm s s1 t t1 p pins O c → lb_isFromShm (sm_sendBuf t1) = true →
  ∃ ls1 q0 ps, sendable bm ls1 s1 p t1 q0 ps pins O c.
Proof.
  intros [] [] Hshm. destruct (wo_shm0 Hshm) as ((q0&ps&[Hr Hwr Hwp])&_). destruct wo_stream0 as [b ->].
  pose proof (lr_own _ _ _ _ _ _ (lp_core _ _ _ _ _ _ Hr)) as [ls1 Hown]. exists ls1, q0, ps. constructor; try done.
  eapply placed_same; [exact (bw_lists _ _ _ _ wb_own0)|exact (bw_lists _ _ _ _ Hown)|done].
Qed.

(** The room in the queue is still there. *)
Lemma wrote_room bm ls1 s s1 p t t1 q0 ps pins O c qm a0 h es w :
  wrote bm s s1 t t1 p pins O c → sendable bm ls1 s1 p t1 q0 ps pins O c → has_room bm s (pins ++ O) qm a0 h es w →
  has_room bm s1 ((q0 :: ps) ++ pins ++ O) qm a0 h es w.
Proof.
  intros [] [] []. destruct (wo_shm0 sd_shm) as (_&Hm&Hs). constructor; try done; [congruence| |].
  - intros q b [Hq|Hq]%elem_of_app Hb; [|rewrite Hs in Hb by done; by eapply hr_objs].
    destruct (sd_written q Hq) as (b'&[Hb' Hshm _ _ _ _]). rewrite Hb in Hb'. injection Hb' as <-.
    destruct (bw_objs _ _ _ _ sd_own q b ltac:(set_solver) Hb) as [(i&x&u&Hi&_&_&Ho)|(_&?&_)]; [|congruence].
    destruct (Forall_lookup_1 _ _ _ _ (bw_room _ _ _ _ sd_own) Hi) as [Ea _]. pose proof (f_equal p_arr (so_data _ _ _ Ho)) as Ed. cbn in Ed. congruence.
  - eapply queue_rep_shared; [exact hr_in| |exact hr_rep]. by apply Hm.
Qed.

(** The message went over the queue: the write buffer is empty, and any peer that shares
    the memory and has the stream open gets the bytes behind the ones it has. *)
Definition by_queue (bm : bufferManager) (s1 s' : session) (p : nat) (t : stream) (pins O : list nat) (c : list Z)
    (qm : queueManager) (a0 : nat) (h : Z) (es : list queueElement) : Prop :=
  ∃ ls q0 ps,
    (∃ t', ss_objs s' !! p = Some t' ∧ lb_rep bm (send_view s' t') O [] pins [] ∧ sm_state t' = streamOpened) ∧
    bm_own bm ls (ss_heap s') (pins ++ O) ∧
    ∀ bm' ls' r k tk m qm' O' ps' pins' c' hd bd,
      same_lists ls ls' → placed bm' ls' → recv_rep bm' ls' r k O' ps' pins' c' → a0 ≠ s_arr (bm_mem bm') →
      (∀ q b, q ∈ ps' ++ pins' ++ O' → h_slices (ss_heap r) !! q = Some b → s_arr (bs_data b) ≠ a0) →
      h_mem (ss_heap r) !! s_arr (bm_mem bm) = h_mem (ss_heap s') !! s_arr (bm_mem bm) → h_mem (ss_heap r) !! a0 = h_mem (ss_heap s') !! a0 →
      not_held (ss_heap s1) (ss_heap r) (q0 :: ps) (ps' ++ pins' ++ O') →
      ss_queueManager r = Some qm' → qm_recvQueue qm' = qm_sendQueue qm →
      ss_streams r = Some m → m !! sm_id t = Some k → ss_objs r !! k = Some tk → sm_state tk ≠ streamClosed → sm_pending tk = [] →
      Forall (deliverable m r) es → deliveries m k es = [] →
      ∃ r1 r2 t1 qs, handlePolling hd bd r = Done ((headerSize, false, None), r1) ∧
        queue_rep (h_mem (ss_heap r1)) (qm_sendQueue qm) (h + Z.of_nat (length es) + 1) (Fifo [] false) ∧
        ss_objs r1 !! k = Some t1 ∧ sm_recvNotify t1 = true ∧
        moveTo k r1 = Done (tt, r2) ∧ recv_rep bm' ls' r2 k O' (ps' ++ qs) pins' (c' ++ c).

(** It went over the socket: one event waits to be written, and a peer that is fed its
    bytes in any pieces gets the bytes behind the ones it has. *)
Definition by_socket (bm : bufferManager) (s1 s' : session) (p : nat) (t : stream) (pins O : list nat) (c : list Z) : Prop :=
  ∃ t' body, ss_sendCh s' = ss_sendCh s1 ++ [SendReady None (Some body)] ∧
    ss_objs s' !! p = Some t' ∧ lb_rep bm (send_view s' t') O [] pins [] ∧ sm_state t' = streamOpened ∧ sm_inFallback t' = true ∧
    ∀ bm' ls' r k tk O' ps' pins' c' dbg' chunk chunks,
      listens bm' ls' r k (sm_id t) tk O' ps' pins' c' → ss_shutdown r = false → concat (chunk :: chunks) = body →
      ∃ r1 r2 t2 q, feed_all (protocolHandlers dbg') ss_shutdown exitErr (chunk :: chunks) [] r = Done ([], r1) ∧
        moveTo k r1 = Done (tt, r2) ∧ recv_rep bm' ls' r2 k O' (ps' ++ [q]) pins' (c' ++ c) ∧
        ss_objs r2 !! k = Some t2 ∧ sm_pending t2 = [] ∧ sm_inFallback t2 = true.

Lemma queue_way conn_write dbg select_send select_result select_retry bm ls s s1 p t t1 pins O c qm a0 h es w :
  conn_takes conn_write → 0 ≤ ss_version s ≤ maxSupportProtoVersion → writable bm ls s p t pins O → wrote bm s s1 t t1 p pins O c →
  lb_isFromShm (sm_sendBuf t1) = true → sm_inFallback t = false → has_room bm s (pins ++ O) qm a0 h es w →
  ∃ s', Flush conn_write dbg select_send select_result select_retry p false s1 = Done (None, s') ∧ by_queue bm s1 s' p t pins O c qm a0 h es.
Proof.
  intros Hct Hv Hwb Hwo Hshm Hfb Hroom. pose proof Hwo as [Hobj [b Et] Hbm Hqm Hver _ _].
  assert (sm_id t1 = sm_id t ∧ sm_inFallback t1 = sm_inFallback t) as (Ei&Ef) by (by rewrite Et).
  destruct (wrote_sendable _ _ _ _ _ _ _ _ _ _ Hwb Hwo Hshm) as (ls1&q&qs&Hsd). pose proof (wrote_room _ _ _ _ _ _ _ _ _ _ _ _ _ _ _ _ _ Hwo Hsd Hroom) as Hroom1.
  destruct (flush_reaches_peer conn_write dbg select_send select_result select_retry bm ls1 s1 p t1 q qs pins O c qm a0 h es w) as (s'&E&A1&A2&_&A4);
    [done|by rewrite Hver|done|congruence|done|].
  exists s'. split; [done|]. exists ls1, q, qs. split_and!; [done|done|]. rewrite <- Ei. exact A4.
Qed.

Lemma wrote_over bm ls s s1 p t t1 pins O c : writable bm ls s p t pins O → wrote bm s s1 t t1 p pins O c →
  lb_isFromShm (sm_sendBuf t1) = false ∨ sm_inFallback t = true → 0 < Z.of_nat (length c) → 16 + Z.of_nat (length c) < 2 ^ 32 →
  ∃ ls' q ps', over_socket bm ls' s1 p t1 q ps' pins O c.
Proof.
  intros Hwb Hwo Hway H0 Hlen. pose proof Hwo as [Hobj [b Et] Hbm Hqm Hver (q0&ps&Hr) _].
  assert (sm_id t1 = sm_id t ∧ sm_inFallback t1 = sm_inFallback t ∧ sm_state t1 = sm_state t) as (Ei&Ef&Es) by (by rewrite Et).
  destruct (lb_isFromShm (sm_sendBuf t1)) eqn:Hshm.
  - destruct (wrote_sendable _ _ _ _ _ _ _ _ _ _ Hwb Hwo Hshm) as (ls1&q&qs&Hsd). exists ls1, q, qs. pose proof Hsd as [].
    constructor; try done; [by destruct c|]. right. split; [|done]. destruct Hway; [done|congruence].
  - exists ls, q0, ps. destruct Hwb. constructor; try done; try congruence; [by destruct c|by left].
Qed.

Lemma socket_way conn_write dbg select_send select_result select_retry e bm ls s s1 p t t1 pins O c :
  loop_takes select_send select_result e → 0 < ss_version s ≤ maxSupportProtoVersion → writable bm ls s p t pins O → wrote bm s s1 t t1 p pins O c →
  lb_isFromShm (sm_sendBuf t1) = false ∨ sm_inFallback t = true → 0 < Z.of_nat (length c) → 16 + Z.of_nat (length c) < 2 ^ 32 →
  ∃ s', Flush conn_write dbg select_send select_result select_retry p false s1 = Done (e, s') ∧ by_socket bm s1 s' p t pins O c.
Proof.
  intros Hlt Hv Hwb Hwo Hway H0 Hlen. pose proof Hwo as [Hobj [b Et] Hbm Hqm Hver (q0&ps&Hr) _].
  assert (sm_id t1 = sm_id t ∧ sm_inFallback t1 = sm_inFallback t ∧ sm_state t1 = sm_state t) as (Ei&Ef&Es) by (by rewrite Et).
  destruct (wrote_over _ _ _ _ _ _ _ _ _ _ Hwb Hwo Hway H0 Hlen) as (ls'&q&ps'&Hov).
  destruct (fallback_reaches_peer conn_write dbg select_send select_result select_retry e bm ls' s1 p t1 q ps' pins O c) as (s'&t'&body&E&B1&B2&B3&B4&B5&_&B7);
    [done|by rewrite Hver|done|].
  exists s'. split; [done|]. exists t', body. split_and!; try done. rewrite <- Ei. exact B7.
Qed.

(** A [Write] arrives, whatever the allocator can give: [copyWriteAndFlush] of an open
    stream writes all bytes and returns; when they fit into the shared memory and the stream
    has not fallen back before they go over the queue, otherwise all of them over the socket,
    and in both cases the read buffer of the peer has them behind what it had. *)
Theorem write_reaches_peer conn_write dbg select_send select_result select_retry e bm ls s p t pins O data qm a0 h es w :
  conn_takes conn_write → loop_takes select_send select_result e → 0 < ss_version s ≤ maxSupportProtoVersion →
  writable bm ls s p t pins O → has_room bm s (pins ++ O) qm a0 h es w →
  0 < Z.of_nat (length data) → 16 + Z.of_nat (length data) < 2 ^ 32 →
  ∃ s1 t1 s' err, on_sendBuf p (WriteBytes bm data) s = Done (Z.of_nat (length data), s1) ∧ ss_objs s1 !! p = Some t1 ∧
    copyWriteAndFlush conn_write dbg select_send select_result select_retry p data s = Done ((Z.of_nat (length data), err), s') ∧
    if lb_isFromShm (sm_sendBuf t1) && negb (sm_inFallback t) then err = None ∧ by_queue bm s1 s' p t pins O data qm a0 h es
    else err = e ∧ by_socket bm s1 s' p t pins O data.
Proof.
  intros Hct Hlt Hv Hwb Hroom H0 Hlen. destruct (write_ok bm ls s p t pins O data Hwb) as (s1&t1&E1&Hwo); [lia|].
  assert (∀ err s', Flush conn_write dbg select_send select_result select_retry p false s1 = Done (err, s') →
    copyWriteAndFlush conn_write dbg select_send select_result select_retry p data s = Done ((Z.of_nat (length data), err), s')) as Hcp.
  { intros err s' Ef. unfold copyWriteAndFlush. erewrite bind_done by done. cbv beta. rewrite (wb_bm _ _ _ _ _ _ _ Hwb).
    replace (_ =? 0) with false by (symmetry; apply Z.eqb_neq; lia). erewrite bind_done by exact E1. cbv beta. by erewrite bind_done by exact Ef. }
  destruct (lb_isFromShm (sm_sendBuf t1) && negb (sm_inFallback t)) eqn:Hway; pose proof Hway as Hif.
  - apply andb_true_iff in Hway as [Hshm Hfb%negb_true_iff]. assert (0 ≤ ss_version s ≤ maxSupportProtoVersion) as Hv0 by lia.
    destruct (queue_way conn_write dbg select_send select_result select_retry _ _ _ _ _ _ _ _ _ _ _ _ _ _ _ Hct Hv0 Hwb Hwo Hshm Hfb Hroom) as (s'&E&Hq).
    exists s1, t1, s', None. split_and!; [done|by destruct Hwo|by apply Hcp|rewrite Hif; exact (conj eq_refl Hq)].
  - apply andb_false_iff in Hway. rewrite negb_false_iff in Hway.
    destruct (socket_way conn_write dbg select_send select_result select_retry e _ _ _ _ _ _ _ _ _ _ Hlt Hv Hwb Hwo Hway H0 Hlen) as (s'&E&Hq).
    exists s1, t1, s', e. split_and!; [done|by destruct Hwo|by apply Hcp|rewrite Hif; exact (conj eq_refl Hq)].
Qed.

(** ** A message on concrete memories *)

Definition message : list Z := [1; 2; 3; 4; 5; 6; 7; 8; 9; 10].
Definition e2e_idle : session := e2e_session (Heap e2e_mem ∅ []) newEmptyLinkedBuffer demo_bm.
Definition e2e_write : outcome (Z * option error * session) :=
  copyWriteAndFlush e2e_conn false take_send take_result (λ _, mret RetryClosed) 0 message e2e_idle.
Definition e2e_sent : session := match e2e_write with Done (_, s) => s | _ => e2e_idle end.

Lemma e2e_writable : ∃ ls, writable demo_bm ls e2e_idle 0 (e2e_stream newEmptyLinkedBuffer) [] [].
Proof.
  destruct e2e_mem_fresh as [ls Hown]. exists ls. constructor; try done.
  - apply placed_lists; [apply Hown|done|done|vm_compute; repeat constructor; discriminate].
  - apply lb_rep_empty. by exists ls.
Qed.

Lemma e2e_has_room : has_room demo_bm e2e_idle [] e2e_qm 9 0 [] false.
Proof.
  assert (queue_in e2e_queue 9) as Hin by (unfold queue_in, queue_footprint; repeat (apply Forall_cons; split; [reflexivity|]); by apply Forall_nil).
  constructor; try reflexivity; try exact Hin; try discriminate; try (by intros ? ? ?%not_elem_of_nil).
  constructor; try reflexivity; try (cbn; lia).
  - by apply queue_of_layout.
  - split_and!; [vm_compute; discriminate..|]. eexists. split; [vm_compute; reflexivity|]. vm_compute. discriminate.
  - intros i e. cbn [f_items]. rewrite lookup_nil. discriminate.
Qed.

(** The peer of [e2e_idle] in the shared memory [m] after the message was sent. *)
Lemma e2e_peer_own ls m : bm_lists demo_bm = lists_of ls → placed demo_bm ls → mgr_rep m ls → NoDup ((λ x : lstate, g_cap (ls_geom x)) <$> ls) →
  in_mem m (Ptr 0 0) 0 → Forall (λ l, peek_u32 m (padd (bl_size l) 24) = Some 0) (bm_lists demo_bm) → bm_own peer_bm (mapped <$> ls) (ss_heap (e2e_peer m)) [].
Proof.
  intros Hl Hpl Hmgr Hnd Hin HF. eapply (bm_own_mapped demo_bm); [exact Hmgr|exact Hnd|exact Hpl|exact Hin|reflexivity| |].
  - rewrite lists_of_mapped, <- Hl. vm_compute. reflexivity.
  - apply Forall_forall. intros x Hx. rewrite Forall_forall in HF. apply (HF (list_of (ls_geom x))). rewrite Hl. apply list_elem_of_fmap. by exists x.
Qed.

Lemma write_reaches_peer_witness :
  ∃ r1 r2 ls qs, e2e_write = Done ((10, None), e2e_sent) ∧ handlePolling [] [] (e2e_peer (h_mem (ss_heap e2e_sent))) = Done ((headerSize, false, None), r1) ∧
    moveTo 0 r1 = Done (tt, r2) ∧ recv_rep peer_bm ls r2 0 [] qs [] message.
Proof.
  destruct e2e_writable as [ls0 Hwb].
  destruct (write_reaches_peer e2e_conn false take_send take_result (λ _, mret RetryClosed) None demo_bm ls0 e2e_idle 0 (e2e_stream newEmptyLinkedBuffer) [] [] message
              e2e_qm 9 0 [] false) as (s1&t1&s'&err&E1&Ht1&E&Hway).
  - intros data s. exists s. split; reflexivity.
  - split; intros; reflexivity.
  - vm_compute. split; [reflexivity|discriminate].
  - exact Hwb.
  - exact e2e_has_room.
  - vm_compute. reflexivity.
  - vm_compute. reflexivity.
  - assert (lb_isFromShm (sm_sendBuf t1) = true) as Hshm.
    { assert (match on_sendBuf 0 (WriteBytes demo_bm message) e2e_idle with
              | Done (_, s) => match ss_objs s !! 0%nat with Some t => lb_isFromShm (sm_sendBuf t) | None => false end | _ => false end = true) as H
        by (vm_compute; reflexivity). rewrite E1, Ht1 in H. exact H. }
    rewrite Hshm in Hway. destruct Hway as [-> (ls&q0&ps&_&Hown&Harr)].
    assert (e2e_sent = s') as <- by (unfold e2e_sent, e2e_write; rewrite E; reflexivity).
    assert (placed demo_bm ls) as Hpl by (eapply placed_same; [exact (bw_lists _ _ _ _ (wb_own _ _ _ _ _ _ _ Hwb))|exact (bw_lists _ _ _ _ Hown)|exact (wb_placed _ _ _ _ _ _ _ Hwb)]).
    assert (bm_own peer_bm (mapped <$> ls) (ss_heap (e2e_peer (h_mem (ss_heap e2e_sent)))) []) as Hpeer.
    { apply e2e_peer_own; [exact (bw_lists _ _ _ _ Hown)|exact Hpl|exact (bw_rep _ _ _ _ Hown)|exact (bw_caps _ _ _ _ Hown)| |vm_compute; repeat constructor].
      split; [done|]. split; [done|]. eexists. split; [vm_compute; reflexivity|]. vm_compute. discriminate. }
    enough (∃ r1 r2 ls qs, handlePolling [] [] (e2e_peer (h_mem (ss_heap e2e_sent))) = Done ((headerSize, false, None), r1) ∧
      moveTo 0 r1 = Done (tt, r2) ∧ recv_rep peer_bm ls r2 0 [] qs [] message) as (r1&r2&ls'&qs&H) by (exists r1, r2, ls', qs; exact (conj E H)).
    clear E Hown. revert Harr Hpeer. generalize (h_mem (ss_heap e2e_sent)) as m. intros m Harr Hpeer.
    destruct (Harr peer_bm (mapped <$> ls) (e2e_peer m) 0%nat (e2e_stream newEmptyLinkedBuffer) {[ 5 := 0%nat ]} e2e_qm [] [] [] [] [] [])
      as (r1&r2&t2&qs&E3&_&_&_&E4&Hrr).
    + apply same_lists_mapped.
    + apply placed_lists; [apply Hpeer|done|done|vm_compute; repeat constructor; discriminate].
    + constructor; [reflexivity| |exact Hpeer]. exists (e2e_stream newEmptyLinkedBuffer). split; [reflexivity|]. apply rep_held, lb_rep_empty. exists (mapped <$> ls). exact Hpeer.
    + discriminate.
    + intros ? ? H%elem_of_nil. destruct H.
    + reflexivity.
    + reflexivity.
    + intros ? ? ? ? _ _ H%elem_of_nil. destruct H.
    + reflexivity.
    + reflexivity.
    + reflexivity.
    + reflexivity.
    + reflexivity.
    + discriminate.
    + reflexivity.
    + constructor.
    + reflexivity.
    + exists r1, r2, (mapped <$> ls), qs. split_and!; [exact E3|exact E4|exact Hrr].
Defined.
