(* ===== verification/ReadPath.v ===== *)
(** * [Stream.Read]

    [Read] of a stream looks into its read buffer, waits with [readMore] when that is
    empty, and copies.  This file follows it from the slices that the event loop left for
    the stream (its pending data) to the bytes in the window of the caller. *)

From Stdlib Require Import ZArith Lia.
From stdpp Require Import prelude list gmap strings.
From S2P Require Import Prelude GoMem BufferSlice BufferList BufferManager Allocator ShmAllocator LinkedBuffer LinkedBufferProofs LinkedBufferRead Session SessionProofs Transfer EndToEnd Fallback.

(** ** What a look at the pending data leaves alone *)

Definition pin_kept (s s' : lbst) : Prop := lb_currentPinned (st_buf s') = lb_currentPinned (st_buf s).
#[global] Instance pin_kept_preorder : PreOrder pin_kept.
Proof. split; [done|]. unfold pin_kept. intros s1 s2 s3 -> ->. done. Qed.

Lemma pin_append p : keeps pin_kept (appendBufferSlice p).
Proof.
  unfold appendBufferSlice, pushBack. destruct p as [p|]; [|apply keeps_ret; apply _].
  repeat (apply keeps_bind; [apply _| |intros ?]); try (by apply keeps_zoom); try (by apply keeps_modify); try (apply keeps_reads; apply _).
  destruct (negb _); [by apply keeps_modify|apply keeps_ret; apply _].
Qed.
Lemma pin_buf {A} (f : linkedBuffer → A) : keeps pin_kept (buf f).
Proof. apply keeps_reads; apply _. Qed.

Record quiet (s s' : session) : Prop := {
  qt_streams : ss_streams s' = ss_streams s;
  qt_qm : ss_queueManager s' = ss_queueManager s;
  qt_bm : ss_bufferManager s' = ss_bufferManager s;
  qt_shutdown : ss_shutdown s' = ss_shutdown s;
  qt_objs : ∀ p t, ss_objs s !! p = Some t → ∃ t', ss_objs s' !! p = Some t' ∧ sm_id t' = sm_id t ∧ sm_state t' = sm_state t ∧
    lb_currentPinned (sm_recvBuf t') = lb_currentPinned (sm_recvBuf t)
}.
#[global] Instance quiet_preorder : PreOrder quiet.
Proof.
  split; [intros s; constructor; try done; intros p t Ht; by exists t|]. intros s1 s2 s3 [] []. constructor; try congruence.
  intros p t Ht. destruct (qt_objs0 p t Ht) as (t1&Ht1&?&?&?). destruct (qt_objs1 p t1 Ht1) as (t2&Ht2&?&?&?). exists t2. split_and!; congruence.
Qed.

Lemma quiet_obj s s' p t t' : ss_objs s !! p = Some t → sm_id t' = sm_id t → sm_state t' = sm_state t →
  lb_currentPinned (sm_recvBuf t') = lb_currentPinned (sm_recvBuf t) → ss_objs s' = <[p := t']> (ss_objs s) →
  ss_streams s' = ss_streams s → ss_queueManager s' = ss_queueManager s → ss_bufferManager s' = ss_bufferManager s → ss_shutdown s' = ss_shutdown s → quiet s s'.
Proof.
  intros Ht Hi Hs Hp Ho ? ? ? ?. constructor; try done. intros q x Hq. rewrite Ho. destruct (decide (p = q)) as [<-|Hne].
  - rewrite lookup_insert_eq. rewrite Ht in Hq. injection Hq as <-. by exists t'.
  - rewrite lookup_insert_ne by done. by exists x.
Qed.
Lemma quiet_same s s' : ss_objs s' = ss_objs s → ss_streams s' = ss_streams s → ss_queueManager s' = ss_queueManager s →
  ss_bufferManager s' = ss_bufferManager s → ss_shutdown s' = ss_shutdown s → quiet s s'.
Proof. intros E ? ? ? ?. constructor; try done. intros p t Ht. exists t. by rewrite E. Qed.

Lemma quiet_upd_obj p f : (∀ t, sm_id (f t) = sm_id t ∧ sm_state (f t) = sm_state t ∧ lb_currentPinned (sm_recvBuf (f t)) = lb_currentPinned (sm_recvBuf t)) →
  keeps quiet (upd_obj p f).
Proof.
  intros Hf s a s' (t&s1&E1&E2)%bind_done_inv. unfold get_obj in E1. destruct (ss_objs s !! p) as [t0|] eqn:Ht; [|done].
  injection E1 as <- <-. injection E2 as _ <-. destruct (Hf t0) as (?&?&?). by eapply quiet_obj.
Qed.

Lemma quiet_on_recvBuf {A} p (m : M lbst A) : keeps pin_kept m → keeps quiet (on_recvBuf p m).
Proof.
  intros Hm s a s'. unfold on_recvBuf, on_buf. intros (t&s1&E1&E)%bind_done_inv. unfold get_obj in E1. destruct (ss_objs s !! p) eqn:Ho; [|done]. injection E1 as -> <-.
  apply bind_done_inv in E as (s2&s3&[= <- <-]&E). destruct (m _) as [[x b]| |] eqn:Em; [|done..]. apply Hm in Em. apply bind_done_inv in E as (u&s4&[= <- <-]&E).
  apply bind_done_inv in E as (u2&s5&E5&[= <- <-]). erewrite upd_obj_run in E5 by (cbn; exact Ho). injection E5 as _ <-.
  eapply (quiet_obj _ _ p t (with_bufs (st_buf b) (sm_sendBuf t) t)); [exact Ho|..]; done.
Qed.

Create HintDb quiet.
#[local] Hint Resolve pin_append pin_buf : quiet.
Ltac quiet_step :=
  match goal with
  | |- keeps _ (_ ≫= _) => apply keeps_bind; [typeclasses eauto| |intros ?]
  | |- keeps _ (if ?b then _ else _) => destruct b
  | |- keeps _ (match ?x with _ => _ end) => destruct x
  | |- keeps _ (modify_state _) => apply keeps_modify; intros ?; by apply quiet_same
  | |- keeps _ (upd_obj _ _) => by apply quiet_upd_obj
  | |- keeps _ (on_recvBuf _ _) => apply quiet_on_recvBuf; by eauto 2 with quiet
  | |- keeps _ (on_ss_heap _) => apply keeps_heap; intros; by apply quiet_same
  end.
Ltac quiet_auto := repeat first [solve [eauto 2 with quiet] | solve [keeps_pure] | progress cbv beta zeta | quiet_step].

Lemma quiet_move_chain fuel : ∀ p o, keeps quiet (move_chain fuel p o).
Proof. induction fuel as [|fuel IH]; intros p o; cbn [move_chain]; unfold front; quiet_auto. Qed.
#[local] Hint Resolve quiet_move_chain : quiet.
Lemma quiet_move_loop fuel p unread : keeps quiet (move_loop fuel p unread).
Proof. induction unread as [|w unread IH]; cbn [move_loop]; quiet_auto. Qed.
#[local] Hint Resolve quiet_move_loop : quiet.

(** A look at the pending data changes the memory, the counters, the read buffer and the
    pending data of streams. *)
Lemma quiet_moveTo p : keeps quiet (moveTo p).
Proof. unfold moveTo, moveToWithoutLock, shm_fuel, count, Len. quiet_auto. Qed.

(** ** The copy *)

Lemma recv_len p s t : ss_objs s !! p = Some t → ∃ s0, on_recvBuf p Len s = Done (lb_len (sm_recvBuf t), s0) ∧ ss_heap s0 = ss_heap s ∧
  ss_objs s0 = ss_objs s ∧ ss_stats s0 allocShmErrorCount = ss_stats s allocShmErrorCount ∧ quiet s s0.
Proof.
  intros Ht. pose proof (on_recvBuf_done p Len s t (lb_len (sm_recvBuf t)) (lb_view s t) Ht eq_refl) as E.
  pose proof (quiet_on_recvBuf p Len (pin_buf lb_len) _ _ _ E) as Hq. eexists. split; [exact E|]. split_and!; [done| | |exact Hq].
  - cbn. apply insert_id. rewrite Ht. by destruct t.
  - cbn. unfold set_stat. by rewrite decide_True.
Qed.

(** The state [s'] behind a [Read] that copied [n] of the bytes [c] into [d]. *)
Record read_into (bm : bufferManager) (s s' : session) (p : nat) (d : gslice) (O pins ps' pins' : list nat) (c : list Z) (n : Z) : Prop := {
  rd_stream : ∃ t b, ss_objs s !! p = Some t ∧ ss_objs s' !! p = Some (with_bufs b (sm_sendBuf t) t) ∧
    was_read bm (lb_view s t) (lb_view s' (with_bufs b (sm_sendBuf t) t)) d O pins ps' pins' c n;
  rd_streams : ss_streams s' = ss_streams s;
  rd_qm : ss_queueManager s' = ss_queueManager s;
  rd_bm : ss_bufferManager s' = ss_bufferManager s;
  rd_shutdown : ss_shutdown s' = ss_shutdown s
}.

Lemma copy_out bm ls s p O ps pins c d : recv_rep bm ls s p O ps pins c → 0 < s_len d ≤ s_cap d →
  own_array bm (ss_heap s) (ps ++ pins ++ O) (s_arr d) → in_mem (h_mem (ss_heap s)) (slice_ptr d) (s_len d) →
  let n := Z.min (s_len d) (Z.of_nat (length c)) in
  ∃ s' ps' pins', on_recvBuf p (read_copy bm d) s = Done (n, s') ∧ read_into bm s s' p d O pins ps' pins' c n.
Proof.
  intros [Hbm (t&Ht&Hh) _] Hd Hown Hin n. destruct (read_copy_ok bm (lb_view s t) O ps pins c d Hh Hd Hown Hin) as (b&ps'&pins'&E&Hw).
  eexists _, ps', pins'. split; [by apply on_recvBuf_done|]. constructor; try done. exists t, (st_buf b). split; [done|]. split; [cbn; apply lookup_insert_eq|].
  match goal with |- was_read _ _ ?x _ _ _ _ _ _ _ => replace x with b end; [exact Hw|]. unfold lb_view. cbn. unfold set_stat. rewrite decide_True by done. by destruct b.
Qed.

(** [Read] with bytes in the read buffer copies the first of them, as many as there are and
    fit. *)
Theorem Read_ready select_read fuel bm ls s p O ps pins c d : recv_rep bm ls s p O ps pins c → c ≠ [] → 0 < s_len d ≤ s_cap d →
  own_array bm (ss_heap s) (ps ++ pins ++ O) (s_arr d) → in_mem (h_mem (ss_heap s)) (slice_ptr d) (s_len d) →
  let n := Z.min (s_len d) (Z.of_nat (length c)) in
  ∃ s0 s' ps' pins', Stream_Read select_read fuel p d s = Done ((n, None), s') ∧ recv_rep bm ls s0 p O ps pins c ∧ read_into bm s0 s' p d O pins ps' pins' c n ∧
    ss_heap s0 = ss_heap s ∧ ss_objs s0 = ss_objs s.
Proof.
  intros Hrr Hc Hd Hown Hin n. pose proof Hrr as [Hbm (t&Ht&Hh) _]. destruct (recv_len p s t Ht) as (s0&E0&Hh0&Ho0&_&[_ _ Hb0 _ _]).
  assert (recv_rep bm ls s0 p O ps pins c) as Hrr0 by (eapply (recv_rep_ext bm ls s); [done|done|by rewrite Ho0|done|done|done]).
  destruct (copy_out bm ls s0 p O ps pins c d Hrr0 Hd) as (s'&ps'&pins'&E&Hr); [by rewrite Hh0|by rewrite Hh0|].
  exists s0, s', ps', pins'. split; [|done]. unfold Stream_Read, copyRead. replace (s_len d <=? 0) with false by (symmetry; apply Z.leb_gt; lia).
  erewrite bind_done by exact E0. cbv beta. pose proof (lh_len _ _ _ _ _ _ Hh) as Hl. cbn in Hl. rewrite Hl.
  replace (Z.of_nat (length c) <? 1) with false by (symmetry; apply Z.ltb_ge; destruct c; [done|cbn; lia]). rewrite bind_mret.
  erewrite bind_done by done. cbv beta. rewrite (rr_bm _ _ _ _ _ _ _ _ Hrr0). by erewrite bind_done by exact E.
Qed.

(** [Read] of an empty read buffer looks at the pending data first; when that brings bytes
    it does not wait. *)
Theorem Read_moved select_read fuel bm ls s s0 s2 p O ps pins c d :
  on_recvBuf p Len s = Done (0, s0) → moveTo p s0 = Done (tt, s2) → recv_rep bm ls s2 p O ps pins c → c ≠ [] → 0 < s_len d ≤ s_cap d →
  own_array bm (ss_heap s2) (ps ++ pins ++ O) (s_arr d) → in_mem (h_mem (ss_heap s2)) (slice_ptr d) (s_len d) →
  let n := Z.min (s_len d) (Z.of_nat (length c)) in
  ∃ s3 s' ps' pins', Stream_Read select_read fuel p d s = Done ((n, None), s') ∧ read_into bm s3 s' p d O pins ps' pins' c n ∧
    ss_heap s3 = ss_heap s2 ∧ ss_objs s3 = ss_objs s2 ∧ quiet s2 s3.
Proof.
  intros E0 E2 Hrr Hc Hd Hown Hin n. pose proof Hrr as [Hbm (t&Ht&Hh) _]. destruct (recv_len p s2 t Ht) as (s3&E3&Hh3&Ho3&_&Hq).
  assert (recv_rep bm ls s3 p O ps pins c) as Hrr3 by (eapply (recv_rep_ext bm ls s2); [done|done|by rewrite Ho3|done|done|apply Hq]).
  destruct (copy_out bm ls s3 p O ps pins c d Hrr3 Hd) as (s'&ps'&pins'&E&Hr); [by rewrite Hh3|by rewrite Hh3|].
  exists s3, s', ps', pins'. split; [|done]. unfold Stream_Read, copyRead. replace (s_len d <=? 0) with false by (symmetry; apply Z.leb_gt; lia).
  erewrite bind_done by exact E0. cbv beta. change (0 <? 1) with true. cbv iota. pose proof (lh_len _ _ _ _ _ _ Hh) as Hl. cbn in Hl.
  erewrite bind_done; last first.
  { unfold Stream_readMore. erewrite bind_done by exact E2. cbv beta. erewrite bind_done by exact E3. cbv beta. rewrite Hl.
    by replace (Z.of_nat (length c) >=? 1) with true by (symmetry; apply Z.geb_le; destruct c; [done|cbn; lia]). }
  cbv beta iota. erewrite bind_done by done. cbv beta. rewrite (rr_bm _ _ _ _ _ _ _ _ Hrr3). by erewrite bind_done by exact E.
Qed.
