(* ===== verification/Channel.v ===== *)
(** * A channel between two processes

    Two processes with memories of their own share two arrays, the slots and a queue.  One
    writes to a stream with [Write], the other is woken and reads with [Read]; what one
    process writes to the shared arrays the other has in its memory.  Messages are followed
    one after the other from [Write] to [Read], over the queue and, from the first message
    that does not fit into the slots on, over the socket. *)

From Stdlib Require Import ZArith Lia.
From stdpp Require Import prelude list gmap strings.
From S2P Require Import Prelude GoMem Queue BufferSlice BufferList BufferManager Allocator ShmAllocator LinkedBuffer LinkedBufferProofs LinkedBufferPeek LinkedBufferFifo LinkedBufferRead Protocol Events Session SessionProofs SessionEvents Transfer EndToEnd Fallback WritePath ReadPath.

(** ** Two managers of one memory *)

(** The list of another process: only the counter is elsewhere. *)
Definition twin (l l' : bufferList) : Prop :=
  bl_size l' = bl_size l ∧ bl_bufferRegion l' = bl_bufferRegion l ∧ bl_offsetInShm l' = bl_offsetInShm l.
Record twins (bm bm' : bufferManager) : Prop := {
  tw_mem : bm_mem bm' = bm_mem bm;
  tw_lists : Forall2 twin (bm_lists bm) (bm_lists bm')
}.

Lemma twins_sym bm bm' : twins bm bm' → twins bm' bm.
Proof.
  intros [Hm Hl]. constructor; [done|]. apply Forall2_flip. eapply Forall2_impl; [exact Hl|]. by intros l l' (->&->&->).
Qed.

(** The lists as the process with the counters of [x] sees them. *)
Definition adopted (m : gmem) (x y : lstate) : lstate :=
  (Geom (g_base y.1) (g_off y.1) (g_co x.1) (g_cap y.1) (g_num y.1) (g_scap y.1),
   (default 0 (peek_u32 m (padd (g_base y.1) (g_co x.1))), ls_free y)).
Definition relist (m : gmem) (ls ls' : list lstate) : list lstate := zip_with (adopted m) ls ls'.

Lemma blist_adopted m x y : geom_ok x.1 → blist_rep m y.1 y.2.1 (ls_free y) → blist_rep m (adopted m x y).1 (adopted m x y).2.1 (ls_free y).
Proof.
  intros [_ _ _ _ _ Hco] []. constructor; try done; [by destruct br_geom; constructor| |].
  - destruct (in_mem_peek m (padd (g_base y.1) (g_co x.1)) 4) as (bs&Hbs&_).
    { destruct br_geom. eapply in_mem_sub; [exact br_mem|lia|lia|]. unfold g_bytes. consts. nia. }
    exists (le_val bs). cbn. unfold peek_u32. rewrite Hbs. cbn. done.
  - intros i s Hi. destruct (br_free i s Hi). by constructor.
Qed.

(** What one process knows about the lists in the memory holds in the other, which has
    objects of none of the slots. *)
Lemma bm_own_relist bm bm' ls ls' h h' h2 : twins bm bm' → bm_own bm ls h [] → bm_own bm' ls' h' [] → pool_ok h2 →
  h_mem h2 !! s_arr (bm_mem bm) = h_mem h' !! s_arr (bm_mem bm) →
  bm_own bm (relist (h_mem h2) ls ls') h2 [] ∧ same_lists (relist (h_mem h2) ls ls') ls' ∧ same_lists ls' (relist (h_mem h2) ls ls').
Proof.
  intros [Hmem Htw] Hown Hown' Hpool Hm. pose proof Hown as [Hl Hr _ _ _ _ _]. pose proof Hown' as [Hl' [Hr' Ha'] Hc' Hro' Hm' _ _].
  assert (length ls = length ls') as Hlen by (apply Forall2_length in Htw; rewrite Hl, Hl' in Htw; unfold lists_of in Htw; by rewrite !length_fmap in Htw).
  assert (∀ i z, relist (h_mem h2) ls ls' !! i = Some z → ∃ x y, ls !! i = Some x ∧ ls' !! i = Some y ∧ z = adopted (h_mem h2) x y) as Hz
    by (intros i z (x&y&->&?&?)%lookup_zip_with_Some; eauto).
  assert (∀ i x y, ls !! i = Some x → ls' !! i = Some y → twin (list_of x.1) (list_of y.1)) as Htwin.
  { intros i x y Hx Hy. rewrite Hl, Hl' in Htw. unfold lists_of in Htw. rewrite Forall2_fmap in Htw. exact (Forall2_lookup_lr _ _ _ _ _ _ Htw Hx Hy). }
  split_and!.
  - constructor.
    + rewrite Hl. unfold lists_of, relist. apply list_eq. intros i. rewrite !list_lookup_fmap, lookup_zip_with.
      destruct (ls !! i) as [x|] eqn:Hx; [|done]. destruct (lookup_lt_is_Some_2 ls' i) as [y Hy]; [rewrite <- Hlen; by eapply lookup_lt_Some|].
      rewrite Hy. cbn. f_equal. destruct (Htwin i x y Hx Hy) as (E1&E2&E3). cbn in E1, E2, E3. unfold list_of, adopted, g_region in *. cbn in *.
      injection E2 as _ _ E4 E5. unfold g_bytes, g_step in *. cbn in *. by rewrite E1, E3, E4, E5.
    + constructor.
      * apply Forall_lookup. intros i z Hi. destruct (Hz i z Hi) as (x&y&Hx&Hy&->). apply blist_adopted; [by destruct (mgr_geom _ _ _ _ Hr Hx)|].
        eapply blist_rep_local; [|by apply (Forall_lookup_1 _ _ _ _ Hr' Hy)]. destruct (Forall_lookup_1 _ _ _ _ Hro' Hy) as [E _]. unfold ls_geom in E. by rewrite E, Hmem.
      * intros i j z z' Hij Hi Hj. destruct (Hz i z Hi) as (x&y&Hx&Hy&->). destruct (Hz j z' Hj) as (x2&y2&Hx2&Hy2&->). exact (Ha' i j y y2 Hij Hy Hy2).
    + assert ((λ x : lstate, g_cap (ls_geom x)) <$> relist (h_mem h2) ls ls' = (λ x : lstate, g_cap (ls_geom x)) <$> ls') as ->; [|done].
      apply list_eq. intros i. unfold relist. rewrite !list_lookup_fmap, lookup_zip_with. destruct (ls' !! i) as [y|] eqn:Hy; [|by destruct (ls !! i)].
      destruct (lookup_lt_is_Some_2 ls i) as [x Hx]; [rewrite Hlen; by eapply lookup_lt_Some|]. by rewrite Hx.
    + apply Forall_lookup. intros i z Hi. destruct (Hz i z Hi) as (x&y&Hx&Hy&->). rewrite <- Hmem. exact (Forall_lookup_1 _ _ _ _ Hro' Hy).
    + destruct Hm' as (?&?&bs&Hbs&?). rewrite Hmem in *. split_and!; try done. exists bs. cbn in *. by rewrite Hm.
    + constructor; [done|constructor|by intros p ?%not_elem_of_nil|by intros p q b c ?%not_elem_of_nil].
    + by intros p b ?%not_elem_of_nil.
  - intros i z Hi. destruct (Hz i z Hi) as (x&y&Hx&Hy&->). by exists y.
  - intros i y Hy. destruct (lookup_lt_is_Some_2 ls i) as [x Hx]; [rewrite Hlen; by eapply lookup_lt_Some|].
    exists (adopted (h_mem h2) x y). split; [|done]. unfold relist. rewrite lookup_zip_with, Hx, Hy. done.
Qed.

(** An array all of whose windows are the same is the same. *)
Lemma peek_array (m m' : gmem) a : (∀ r n, p_arr r = a → peek m' r n = peek m r n) → m' !! a = m !! a.
Proof.
  intros Hp. assert (∀ n, peek m' (Ptr a 0) n = peek m (Ptr a 0) n) as H0 by (intros; by apply Hp).
  assert (∀ (m : gmem) l, m !! a = Some l → peek m (Ptr a 0) (Z.of_nat (length l)) = Some l ∧ peek m (Ptr a 0) (Z.of_nat (length l) + 1) = None) as Hw.
  { intros m0 l Hl. unfold peek. cbn. rewrite Hl. cbn. split.
    - rewrite read_at_ok by lia. by rewrite Nat2Z.id, drop_0, firstn_all.
    - destruct (read_at l 0 _) eqn:E; [|done]. apply read_at_Some in E as (_&_&?&_). lia. }
  destruct (m !! a) as [l|] eqn:El, (m' !! a) as [l'|] eqn:El'; [|..|done].
  - destruct (Hw m l El) as [H1 H2], (Hw m' l' El') as [H3 H4]. rewrite H0 in H3, H4. f_equal.
    assert (∀ n x, peek m (Ptr a 0) n = Some x → Z.of_nat (length x) = n ∧ n ≤ Z.of_nat (length l)) as Hn.
    { intros n x Hx. split; [by eapply peek_length|]. apply peek_in_mem in Hx as (?&?&bs&Hbs&?). cbn in *. rewrite El in Hbs. injection Hbs as <-. lia. }
    destruct (Hn _ _ H3) as [_ Hle]. assert (¬ Z.of_nat (length l') + 1 ≤ Z.of_nat (length l)) as Hgt.
    { intros Hlt. pose proof (in_mem_peek m (Ptr a 0) (Z.of_nat (length l') + 1)) as (x&Hx&_); [|congruence].
      split_and!; cbn; try lia. exists l. split; [done|lia]. }
    assert (length l' = length l) as Elen by lia. rewrite Elen in H3. congruence.
  - destruct (Hw m l El) as [H1 _]. rewrite <- H0 in H1. unfold peek in H1. cbn in H1. by rewrite El' in H1.
  - destruct (Hw m' l' El') as [H1 _]. rewrite H0 in H1. unfold peek in H1. cbn in H1. by rewrite El in H1.
Qed.

(** ** Memory that two processes share *)

Definition share_array (from : gmem) (a : nat) (to : gmem) : gmem := match from !! a with Some bs => <[a := bs]> to | None => to end.
Definition share (arrays : list nat) (from to : session) : session :=
  set_ss_heap (set_mem (foldr (share_array (h_mem (ss_heap from))) (h_mem (ss_heap to)) arrays) (ss_heap to)) to.

Lemma share_in arrays from to a : a ∈ arrays → is_Some (h_mem (ss_heap from) !! a) → h_mem (ss_heap (share arrays from to)) !! a = h_mem (ss_heap from) !! a.
Proof.
  cbn. intros Ha [bs Hbs]. induction arrays as [|b arrays IH]; [by apply not_elem_of_nil in Ha|]. cbn. unfold share_array at 1.
  destruct (decide (b = a)) as [->|Hne]; [by rewrite Hbs, lookup_insert_eq|]. apply elem_of_cons in Ha as [->|Ha]; [done|].
  destruct (h_mem (ss_heap from) !! b); [rewrite lookup_insert_ne by done|]; by apply IH.
Qed.
Lemma share_pool arrays from to : pool_ok (ss_heap to) → pool_ok (ss_heap (share arrays from to)).
Proof. intros []. by constructor. Qed.

(** ** The two ends *)

Lemma held_elsewhere (bm : bufferManager) h h' b x x' : lb_held bm (LbSt h b x) [] [] [] [] → al_inv bm h' [] → lb_held bm (LbSt h' b x') [] [] [] [].
Proof.
  intros [[_ [] (e&[]) _] Hl Hw] HI. constructor; [|done|by intros ?]. constructor; [done| |exists e|done]; constructor; try done; by intros i p ?.
Qed.
Lemma rep_elsewhere (bm : bufferManager) h h' b x x' : lb_rep bm (LbSt h b x) [] [] [] [] → al_inv bm h' [] → lb_rep bm (LbSt h' b x') [] [] [] [].
Proof.
  intros Hr HI. destruct (held_elsewhere bm h h' b x x' (rep_held _ _ _ _ _ _ Hr) HI) as [Hc Hl _]. constructor; [done|done|].
  destruct Hr as [_ _ Hw]. unfold write_at_end in *. cbn in *. destruct (sl_write _) as [w|]; [|by intros q ?%not_elem_of_nil]. by destruct Hw as ([]&?&?&_).
Qed.

Section channel.
(** The environment of the writer and of the reader. *)
Context (conn_write : list Z → M session (option error)) (dbg : bool) (select_send : M session sel) (select_result : M session (sel * option error)).
Context (select_retry : nat → M session retry) (select_read : nat → M session wakeup) (dbg' : bool) (fuel : nat).
(** The managers of both, the array of the queue, and the stream. *)
Context (bm bm' : bufferManager) (qm qm' : queueManager) (a0 : nat) (p k : nat) (id : Z).

Definition arrays : list nat := [s_arr (bm_mem bm); a0].

(** The way that the last [Write] took: [Flush] leaves the stream in fallback when it wrote
    to the socket. *)
Definition over_queue (s1 : session) : bool :=
  match ss_objs s1 !! p with Some t => negb (sm_inFallback t) | None => false end.

(** The peer handles the event: it looks into the queue, or gets the bytes that the send
    loop of the writer [s1] writes to the socket. *)
Definition notified (slots : bool) (s1 : session) : M session unit :=
  if slots then _ ← handlePolling [] []; mret tt
  else
    match last (ss_sendCh s1) with
    | Some (SendReady None (Some body)) => _ ← feed_all (protocolHandlers dbg') ss_shutdown exitErr [body] []; mret tt
    | _ => panic
    end.

(** A reader with a buffer of [n] bytes. *)
Definition receive (slots : bool) (s1 : session) (n : Z) : M session (list Z) :=
  d ← on_ss_heap (on_mem (make_bytes n));
  _ ← notified slots s1;
  x ← Stream_Read select_read fuel k d;
  on_ss_heap (on_mem (load_bytes (slice_ptr d) x.1)).

Definition exchange (data : list Z) (n : Z) (w : session * session) : outcome (list Z * (session * session)) :=
  match Stream_Write conn_write dbg select_send select_result select_retry p data w.1 with
  | Done (_, s1) =>
      match receive (over_queue s1) s1 n (share arrays s1 w.2) with
      | Done (bs, r1) => Done (bs, (share arrays r1 s1, r1))
      | Panic => Panic
      | NoFuel => NoFuel
      end
  | Panic => Panic
  | NoFuel => NoFuel
  end.

Fixpoint exchanges (msgs : list (list Z)) (n : Z) (w : session * session) : outcome (list (list Z) * (session * session)) :=
  match msgs with
  | [] => Done ([], w)
  | data :: msgs =>
      match exchange data n w with
      | Done (bs, w1) =>
          match exchanges msgs n w1 with
          | Done (bss, w2) => Done (bs :: bss, w2)
          | Panic => Panic
          | NoFuel => NoFuel
          end
      | Panic => Panic
      | NoFuel => NoFuel
      end
  end.

(** ** Between two messages *)

(** Nothing is in the write buffer, and as long as nothing went over the socket the queue
    is empty and its flag cleared. *)
Record idle_writer (ls : list lstate) (s : session) (h : Z) : Prop := {
  iw_stream : ∃ t, writable bm ls s p t [] [] ∧ sm_id t = id ∧ (sm_inFallback t = false → has_room bm s [] qm a0 h [] false);
  iw_version : 0 < ss_version s ≤ maxSupportProtoVersion
}.

(** Nothing is in the read buffer and nothing is pending. *)
Record idle_reader (ls : list lstate) (r : session) : Prop := {
  ir_stream : ∃ m t, ss_streams r = Some m ∧ m !! id = Some k ∧ ss_objs r !! k = Some t ∧ sm_state t ≠ streamClosed ∧ sm_pending t = [] ∧
    lb_held bm' (lb_view r t) [] [] [] [] ∧ lb_currentPinned (sm_recvBuf t) = false;
  ir_qm : ss_queueManager r = Some qm';
  ir_bm : ss_bufferManager r = bm';
  ir_shutdown : ss_shutdown r = false;
  ir_own : bm_own bm' ls (ss_heap r) [];
  ir_placed : placed bm' ls
}.

Definition linked (h : Z) (w : session * session) : Prop := ∃ ls ls', idle_writer ls w.1 h ∧ idle_reader ls' w.2.

Context (Htw : twins bm bm') (Hqm : qm_recvQueue qm' = qm_sendQueue qm).

(** The reader after the writer changed the memory. *)
Lemma reader_moved ls0 ls1 r h1 hs : idle_reader ls0 r → bm_own bm ls1 hs [] → pool_ok h1 → h_mem h1 !! s_arr (bm_mem bm) = h_mem hs !! s_arr (bm_mem bm) →
  ∃ ls2, idle_reader ls2 (set_ss_heap h1 r) ∧ same_lists ls1 ls2.
Proof.
  intros [(m&t&Hm&Hi&Ht&Hop&Hpe&Hh&Hpin) Hq Hb Hs Hown Hpl] Hown1 Hpool Hmem.
  destruct (bm_own_relist bm' bm ls0 ls1 (ss_heap r) hs h1) as (Hown2&_&Hsame); [by apply twins_sym|done|done|done|by rewrite (tw_mem _ _ Htw)|].
  eexists. split; [|exact Hsame]. constructor; try done.
  - exists m, t. split_and!; try done. eapply held_elsewhere; [exact Hh|]. by eexists.
  - eapply placed_same; [exact (bw_lists _ _ _ _ Hown)|exact (bw_lists _ _ _ _ Hown2)|done].
Qed.

(** A reader that has the message in its read buffer, or will have it after a look at the
    pending data, and takes all of it. *)
Record has_message (ls : list lstate) (r2 : session) (ps : list nat) (data : list Z) : Prop := {
  hm_rep : recv_rep bm' ls r2 k [] ps [] data;
  hm_stream : ∃ m t, ss_streams r2 = Some m ∧ m !! id = Some k ∧ ss_objs r2 !! k = Some t ∧ sm_state t ≠ streamClosed ∧ sm_pending t = [] ∧ lb_currentPinned (sm_recvBuf t) = false;
  hm_qm : ss_queueManager r2 = Some qm';
  hm_shutdown : ss_shutdown r2 = false;
  hm_placed : placed bm' ls
}.

Lemma read_all ls r r0 r2 ps d data :
  on_recvBuf k Len r = Done (0, r0) → moveTo k r0 = Done (tt, r2) → has_message ls r2 ps data → data ≠ [] →
  Z.of_nat (length data) < s_len d ≤ s_cap d → own_array bm' (ss_heap r2) (ps ++ []) (s_arr d) → in_mem (h_mem (ss_heap r2)) (slice_ptr d) (s_len d) →
  ∃ r3 ls3, Stream_Read select_read fuel k d r = Done ((Z.of_nat (length data), None), r3) ∧ idle_reader ls3 r3 ∧
    peek (h_mem (ss_heap r3)) (slice_ptr d) (Z.of_nat (length data)) = Some data ∧
    ∀ a, a ≠ s_arr (bm_mem bm') → a ≠ s_arr d → h_mem (ss_heap r3) !! a = h_mem (ss_heap r2) !! a.
Proof.
  intros E0 E2 [Hrr (m&t&Hm&Hi&Ht&Hop&Hpe&Hpin) Hq Hs Hpl] Hne Hd Hown Hin.
  destruct (Read_moved select_read fuel bm' ls r r0 r2 k [] ps [] data d E0 E2 Hrr Hne) as (s3&r3&ps'&pins'&E&Hrd&Hh3&Ho3&Hq3); [lia|done|done|].
  rewrite Z.min_r in E, Hrd by lia. destruct Hrd as [(t3&b&Ht3&Hr3&[Hby Hhe Hdr Hpi Hme]) Hstr Hqm3 Hbm3 Hsh3]. rewrite Ho3, Ht in Ht3. injection Ht3 as <-.
  rewrite Nat2Z.id, take_ge in Hby by lia. rewrite Nat2Z.id, drop_ge in Hhe by lia. rewrite Hdr in Hhe by lia. destruct (Hpi Hpin) as [-> Hpin3].
  pose proof (lr_own _ _ _ _ _ _ (lh_core _ _ _ _ _ _ Hhe)) as [ls3 Hown3]. cbn in Hown3.
  exists r3, ls3. split_and!; [exact E| |exact Hby|].
  - constructor; [|by rewrite Hqm3, (qt_qm _ _ Hq3)|by rewrite Hbm3, (qt_bm _ _ Hq3), (rr_bm _ _ _ _ _ _ _ _ Hrr)|by rewrite Hsh3, (qt_shutdown _ _ Hq3)|done|].
    + exists m, (with_bufs b (sm_sendBuf t) t). split_and!; try done. by rewrite Hstr, (qt_streams _ _ Hq3).
    + eapply placed_same; [exact (bw_lists _ _ _ _ (rr_own _ _ _ _ _ _ _ _ Hrr))|exact (bw_lists _ _ _ _ Hown3)|done].
  - intros a Ha Had. apply peek_array. intros x n Hx. rewrite Hme; [|cbn; by rewrite Hx|by rewrite Hx]. cbn. by rewrite Hh3.
Qed.

(** *** Over the queue *)

Lemma queue_receive ls r cs o t h d data :
  idle_reader ls r → chain (h_mem (ss_heap r)) ls cs → NoDup cs.*1 → first_off ls cs = Some o → concat cs.*2 = data → data ≠ [] →
  (∀ a, a ∈ cs.*1 → unheld ls (ss_heap r) [] a) → queue_in (qm_sendQueue qm) a0 → a0 ≠ s_arr (bm_mem bm') →
  queue_rep (h_mem (ss_heap r)) (qm_sendQueue qm) h (Fifo [element_of t o] true) → sm_id t = id → h + 1 < 2 ^ 63 →
  Z.of_nat (length data) < s_len d ≤ s_cap d → s_arr d ≠ s_arr (bm_mem bm') → s_arr d ≠ a0 → in_mem (h_mem (ss_heap r)) (slice_ptr d) (s_len d) →
  ∃ r1 r3 ls3, handlePolling [] [] r = Done ((headerSize, false, None), r1) ∧ Stream_Read select_read fuel k d r1 = Done ((Z.of_nat (length data), None), r3) ∧
    idle_reader ls3 r3 ∧ peek (h_mem (ss_heap r3)) (slice_ptr d) (Z.of_nat (length data)) = Some data ∧
    queue_rep (h_mem (ss_heap r3)) (qm_sendQueue qm) (h + 1) (Fifo [] false).
Proof.
  intros Hidle Hch Hnd Hfo Hcat Hne Hun Hin Ha0 Hqr Hid Hb Hd Hda Hd0 Hdin. pose proof Hidle as [(m&tk&Hm&Hi&Htk&Hop&Hpe&Hh&Hpin) Hq Hbm Hsh Hown Hpl].
  destruct (handlePolling_ok m (qm_sendQueue qm) a0 [element_of t o] r h true qm' [] [] Hm Hq Hqm Hin Hqr) as (r1&E1&P1&R1); [cbn; lia| |].
  { constructor; [|constructor]. split; [done|]. exists k, tk. cbn. by rewrite Hid. }
  destruct (po_objs _ _ _ _ _ P1 k tk Htk) as (t1&Ht1&Hg1&_).
  assert (deliveries m k [element_of t o] = [Wrapper None o]) as Edel by (unfold deliveries; rewrite filter_cons_True; [done|cbn; by rewrite Hid]).
  rewrite Edel in Hg1. destruct (recv_len k r1 t1 Ht1) as (r0&E0&Hh0&Ho0&_&Hq0).
  assert (lb_len (sm_recvBuf t1) = 0) as Hl by (rewrite (gt_recv _ _ _ Hg1); exact (lh_len _ _ _ _ _ _ Hh)). rewrite Hl in E0.
  assert (recv_rep bm' ls r k [] [] [] []) as Hrr by (constructor; [done|by exists tk|done]).
  pose proof (recv_rep_polled _ _ _ _ _ _ _ _ _ _ _ _ _ _ _ Hrr P1 Htk Ht1 Hg1 Ha0 (λ q b Hq _, False_ind _ (not_elem_of_nil q Hq))) as Hrr1.
  assert (recv_rep bm' ls r0 k [] [] [] []) as Hrr0 by (eapply (recv_rep_ext bm' ls r1); [done|done|by rewrite Ho0|done|done|apply Hq0]).
  assert (∀ a, a ≠ a0 → h_mem (ss_heap r0) !! a = h_mem (ss_heap r) !! a) as Hm0 by (intros a Ha; rewrite Hh0; by apply (po_mem _ _ _ _ _ P1)).
  destruct (chain_shared (h_mem (ss_heap r)) (h_mem (ss_heap r0)) (s_arr (bm_mem bm')) ls ls cs) as [Hch0 _]; [by intros i x ?; exists x| |by apply Hm0|done|].
  { intros i x Hix. destruct Hpl as (_&_&Hp). by rewrite (proj1 (Hp i x Hix)). }
  destruct (move_message bm' ls k [] [] cs r0 [] [] o t1) as (r2&qs&t2&E2&Hrr2&(Ht2&Hp2)&Hm2&Ho2); try done; [|by rewrite Ho0|by rewrite (gt_pending _ _ _ Hg1), Hpe|].
  { intros a Ha x Hx. split; [by apply (Hun a Ha x Hx)|by intros q b ?%not_elem_of_nil]. }
  cbn [app] in Hrr2, Ho2. rewrite Hcat in Hrr2. pose proof (quiet_moveTo k r0 tt r2 E2) as Hq2. assert (quiet r1 r2) as [Q1 Q2 Q3 Q4 Q5] by (by transitivity r0).
  destruct (Q5 k t1 Ht1) as (t2'&Ht2'&_&Es2&Ep2). rewrite Ht2 in Ht2'. injection Ht2' as <-.
  destruct (read_all ls r1 r0 r2 qs d data E0 E2) as (r3&ls3&E3&Hidle3&Hby&Hme3); [|done|done|apply Ho2|rewrite Hm2|].
  - constructor; [done| |by rewrite Q2, (po_qm _ _ _ _ _ P1)|by rewrite Q4, (po_shutdown _ _ _ _ _ P1)|done].
    exists m, t2. split_and!; try done; [by rewrite Q1, (po_streams _ _ _ _ _ P1)|by rewrite Es2, (gt_state _ _ _ Hg1)|by rewrite Ep2, (gt_recv _ _ _ Hg1)].
  - split; [exact Hda|]. by intros q b ?%not_elem_of_nil.
  - destruct Hdin as (?&?&bs&Hbs&?). split_and!; try done. exists bs. cbn in *. by rewrite Hm0.
  - exists r1, r3, ls3. split_and!; try done. eapply (queue_rep_shared (h_mem (ss_heap r1))); [exact Hin| |exact R1]. by rewrite Hme3, Hm2, Hh0.
Qed.

(** *** Over the socket *)

Lemma waits_len (bm0 : bufferManager) ls r r1 r0 tk q O ps pins c : waits bm0 ls r r1 k tk q O ps pins c → quiet r1 r0 → ss_heap r0 = ss_heap r1 → ss_objs r0 = ss_objs r1 →
  ss_stats r0 allocShmErrorCount = ss_stats r1 allocShmErrorCount → waits bm0 ls r r0 k tk q O ps pins c.
Proof.
  intros [? ? ? ? ? ? (?&?&?) ?] [] Hh Ho Hs. constructor; rewrite ?Hh, ?Ho, ?Hs; try done; [congruence|split_and!; congruence].
Qed.

Lemma socket_receive ls r v d data :
  idle_reader ls r → 0 ≤ id < 2 ^ 32 → 0 < v < 256 → data ≠ [] → 16 + Z.of_nat (length data) < 2 ^ 32 →
  Z.of_nat (length data) < s_len d ≤ s_cap d → s_arr d ≠ s_arr (bm_mem bm') → in_mem (h_mem (ss_heap r)) (slice_ptr d) (s_len d) →
  ∃ r1 r3 ls3, feed_all (protocolHandlers dbg') ss_shutdown exitErr [fallback_event v id streamOpened data] [] r = Done ([], r1) ∧
    Stream_Read select_read fuel k d r1 = Done ((Z.of_nat (length data), None), r3) ∧ idle_reader ls3 r3 ∧
    peek (h_mem (ss_heap r3)) (slice_ptr d) (Z.of_nat (length data)) = Some data.
Proof.
  intros Hidle Hid Hv Hne Hlen Hd Hda Hdin. pose proof Hidle as [(m&tk&Hm&Hi&Htk&Hop&Hpe&Hh&Hpin) Hq Hbm Hsh Hown Hpl].
  assert (recv_rep bm' ls r k [] [] [] []) as Hrr by (constructor; [done|by exists tk|done]).
  assert (listens bm' ls r k id tk [] [] [] []) as Hli by (constructor; try done; by exists m).
  destruct (feed_fallback dbg' v id data bm' ls r k tk [] [] [] [] (fallback_event v id streamOpened data) []) as (r1&q&E1&Hw1); try done; [cbn [concat]; by rewrite app_nil_r|].
  pose proof Hw1 as [_ (t1&Ht1&Hg1) _ _ _ _ _ _]. destruct (recv_len k r1 t1 Ht1) as (r0&E0&Hh0&Ho0&Ha0&Hq0).
  assert (lb_len (sm_recvBuf t1) = 0) as Hl by (rewrite (gt_recv _ _ _ Hg1); exact (lh_len _ _ _ _ _ _ Hh)). rewrite Hl in E0.
  pose proof (waits_len _ _ _ _ _ _ _ _ _ _ _ Hw1 Hq0 Hh0 Ho0 Ha0) as Hw0. pose proof Hw0 as [_ _ _ _ _ _ (Hf1&Hf2&Hf3) Hmem].
  destruct (move_fallback _ _ _ _ _ _ _ _ _ _ _ _ _ Hli Hw0) as (r2&t2&E2&Hrr2&Ht2&Hp2&_&Hm2&Hown2). cbn [app] in *.
  pose proof (quiet_moveTo k r0 tt r2 E2) as [Q1 Q2 Q3 Q4 Q5]. rewrite <- Ho0 in Ht1. destruct (Q5 k t1 Ht1) as (t2'&Ht2'&_&Es2&Ep2). rewrite Ht2 in Ht2'. injection Ht2' as <-.
  assert (is_Some (h_mem (ss_heap r) !! s_arr d)) as Hds by (destruct Hdin as (_&_&bs&Hbs&_); by exists bs).
  destruct (read_all ls r1 r0 r2 [q] d data E0 E2) as (r3&ls3&E3&Hidle3&Hby&_); [|done|done|apply Hown2; [done|]| |by exists r1, r3, ls3].
  - constructor; [done| |by rewrite Q2, Hf2|by rewrite Q4, Hf3|done].
    exists m, t2. split_and!; try done; [by rewrite Q1, Hf1|by rewrite Es2, (gt_state _ _ _ Hg1)|by rewrite Ep2, (gt_recv _ _ _ Hg1)].
  - split; [exact Hda|]. by intros x b ?%not_elem_of_nil.
  - destruct Hdin as (?&?&bs&Hbs&?). split_and!; try done. exists bs. cbn in *. by rewrite Hm2, Hmem.
Qed.

(** *** The writer *)

Context (e : option error) (Hct : conn_takes conn_write) (Hlt : loop_takes select_send select_result e).

(** The writer behind a [Write]: its buffer is empty again. *)
Record wrote_all (ls : list lstate) (s s' : session) (fb : bool) : Prop := {
  wl_stream : ∃ t, ss_objs s' !! p = Some t ∧ lb_rep bm (send_view s' t) [] [] [] [] ∧ sm_id t = id ∧ sm_state t = streamOpened ∧ sm_inFallback t = fb;
  wl_bm : ss_bufferManager s' = ss_bufferManager s;
  wl_version : ss_version s' = ss_version s;
  wl_own : bm_own bm ls (ss_heap s') []
}.

Lemma Write_flush s s1 s' data err : ss_bufferManager s = bm → 0 < Z.of_nat (length data) → on_sendBuf p (WriteBytes bm data) s = Done (Z.of_nat (length data), s1) →
  Flush conn_write dbg select_send select_result select_retry p false s1 = Done (err, s') →
  Stream_Write conn_write dbg select_send select_result select_retry p data s = Done ((Z.of_nat (length data), err), s').
Proof.
  intros Hbm Hl E1 E2. unfold Stream_Write, copyWriteAndFlush. erewrite bind_done by done. cbv beta. rewrite Hbm.
  replace (_ =? 0) with false by (symmetry; apply Z.eqb_neq; lia). erewrite bind_done by exact E1. cbv beta. by erewrite bind_done by exact E2.
Qed.

(** A message takes the queue when all of it is in slots and none went over the socket before. *)
Definition by_slots (data : list Z) (s : session) : bool :=
  match on_sendBuf p (WriteBytes (ss_bufferManager s) data) s with
  | Done (_, s1) => match ss_objs s1 !! p with Some t => lb_isFromShm (sm_sendBuf t) && negb (sm_inFallback t) | None => false end
  | _ => false
  end.

Lemma write_slots ls s h data : idle_writer ls s h → by_slots data s = true → 0 < Z.of_nat (length data) < 2 ^ 32 →
  ∃ s' ls1 t cs o, Stream_Write conn_write dbg select_send select_result select_retry p data s = Done ((Z.of_nat (length data), None), s') ∧
    wrote_all ls1 s s' false ∧ ss_queueManager s' = ss_queueManager s ∧ sm_id t = id ∧ chain (h_mem (ss_heap s')) ls1 cs ∧ concat cs.*2 = data ∧ NoDup cs.*1 ∧
    first_off ls1 cs = Some o ∧ (∀ a, a ∈ cs.*1 → ∃ x, is_place ls1 a x ∧ a.2 ∉ ls_free x) ∧
    queue_rep (h_mem (ss_heap s')) (qm_sendQueue qm) h (Fifo [element_of t o] true) ∧ has_room bm s [] qm a0 h [] false ∧ placed bm ls1.
Proof.
  intros [(t&Hwb&Hid&Hroom) Hv] Hby Hlen. destruct (write_ok bm ls s p t [] [] data Hwb Hlen) as (s1&t1&E1&Hwo). pose proof Hwo as [Ht1 [b Et1] Hb1 Hq1 Hv1 _ _].
  unfold by_slots in Hby. rewrite (wb_bm _ _ _ _ _ _ _ Hwb), E1, Ht1 in Hby. apply andb_true_iff in Hby as [Hshm Hfb%negb_true_iff].
  assert (sm_id t1 = sm_id t ∧ sm_inFallback t1 = sm_inFallback t ∧ sm_state t1 = sm_state t) as (Ei&Ef&Es) by (by rewrite Et1). rewrite Ef in Hfb. specialize (Hroom Hfb).
  destruct (wrote_sendable _ _ _ _ _ _ _ _ _ _ Hwb Hwo Hshm) as (ls1&q&qs&Hsd). pose proof (wrote_room _ _ _ _ _ _ _ _ _ _ _ _ _ _ _ _ _ Hwo Hsd Hroom) as Hroom1.
  destruct (Flush_ok conn_write dbg select_send select_result select_retry bm ls1 s1 p t1 q qs [] [] data qm a0 h [] false) as (s'&cs&o&E2&Hfl); [done|lia|done|congruence|done|].
  pose proof Hfl as [Hch Hcat Hnd Hfo _ Hpl Hqr Hown (t'&Ht'&Hr'&Hi'&Hs'&Hf') (Hbm'&Hqm'&Hv') _].
  pose proof (wb_bm _ _ _ _ _ _ _ Hwb) as Hb0. exists s', ls1, t1, cs, o. split_and!; try done; [|constructor; [|congruence|congruence|done]|congruence|congruence|apply Hsd].
  - eapply Write_flush; [by destruct Hwb|lia|exact E1|exact E2].
  - exists t'. split_and!; try done; [congruence|rewrite Hs', Es; by destruct Hwb|congruence].
Qed.

Lemma write_socket ls s h data : idle_writer ls s h → by_slots data s = false → 0 < Z.of_nat (length data) → 16 + Z.of_nat (length data) < 2 ^ 32 →
  ∃ s' ls1, Stream_Write conn_write dbg select_send select_result select_retry p data s = Done ((Z.of_nat (length data), e), s') ∧ wrote_all ls1 s s' true ∧
    last (ss_sendCh s') = Some (SendReady None (Some (fallback_event (ss_version s) id streamOpened data))).
Proof.
  intros [(t&Hwb&Hid&_) Hv] Hby H0 Hlen. destruct (write_ok bm ls s p t [] [] data Hwb) as (s1&t1&E1&Hwo); [lia|]. pose proof Hwo as [Ht1 [b Et1] Hb1 Hq1 Hv1 _ _].
  unfold by_slots in Hby. rewrite (wb_bm _ _ _ _ _ _ _ Hwb), E1, Ht1 in Hby. apply andb_false_iff in Hby. rewrite negb_false_iff in Hby.
  assert (sm_id t1 = sm_id t ∧ sm_inFallback t1 = sm_inFallback t ∧ sm_state t1 = sm_state t) as (Ei&Ef&Es) by (by rewrite Et1). rewrite Ef in Hby.
  destruct (wrote_over bm ls s s1 p t t1 [] [] data Hwb Hwo Hby H0 Hlen) as (ls'&q&ps&Hov).
  destruct (Flush_over conn_write dbg select_send select_result select_retry e _ _ _ _ _ _ _ _ _ _ Hlt Hov) as (s'&E2&[Hch _ Hb' Hv' (t'&Ht'&Hr'&Hi'&Hs'&Hf'&_)]).
  pose proof (lr_own _ _ _ _ _ _ (lp_core _ _ _ _ _ _ Hr')) as [ls1 Hown]. pose proof (wb_bm _ _ _ _ _ _ _ Hwb) as Hb0. exists s', ls1. split_and!.
  - eapply Write_flush; [by destruct Hwb|lia|exact E1|exact E2].
  - constructor; [|congruence|congruence|done]. exists t'. cbn in *. split_and!; try done; [congruence|rewrite Hs', Es; by destruct Hwb].
  - rewrite Hch, last_snoc, Hv1, Ei, Hid. done.
Qed.

Lemma queue_array m q h f a : queue_in q a → queue_rep m q h f → is_Some (m !! a).
Proof.
  intros Hq [_ Hb _ _ _ _ _ _]. destruct Hb as (_&_&bs&Hbs&_). exists bs. unfold queue_in, queue_footprint in Hq.
  repeat match goal with H : Forall _ (_ :: _) |- _ => inversion_clear H end. cbn in *. congruence.
Qed.

(** The writer has the memory of the reader again. *)
Lemma writer_back ls0 ls1 ls3 s s' r3 h h' fb : idle_writer ls0 s h → wrote_all ls1 s s' fb → idle_reader ls3 r3 →
  (fb = false → ss_queueManager s' = ss_queueManager s ∧ has_room bm s [] qm a0 h [] false ∧
     queue_rep (h_mem (ss_heap r3)) (qm_sendQueue qm) h' (Fifo [] false) ∧ h' + 1 < 2 ^ 63) →
  ∃ ls4, idle_writer ls4 (share arrays r3 s') h'.
Proof.
  intros [(t0&Hwb&Hid0&_) Hv] [(t&Ht&Hr&Hid&Hop&Hfb) Hb Hver Hown] Hir Hq. pose proof (ir_own _ _ Hir) as Hown3. pose proof (bw_mem _ _ _ _ Hown3) as (_&_&bs&Hbs&_). cbn in Hbs.
  assert (s_arr (bm_mem bm') = s_arr (bm_mem bm)) as Ea by (by rewrite (tw_mem _ _ Htw)). rewrite Ea in Hbs.
  destruct (bm_own_relist bm bm' ls1 ls3 (ss_heap s') (ss_heap r3) (ss_heap (share arrays r3 s')) Htw Hown Hown3) as (Hown4&_&_).
  { apply share_pool. exact (ow_pool _ _ (bw_own _ _ _ _ Hown)). }
  { apply share_in; [unfold arrays; set_solver|by exists bs]. }
  exists (relist (h_mem (ss_heap (share arrays r3 s'))) ls1 ls3). constructor; [|cbn; by rewrite Hver]. exists t. split_and!; [|done|].
  - pose proof Hwb as []. constructor; try done; [by rewrite Hid, <- Hid0|cbn; congruence| |].
    + eapply placed_same; [exact (bw_lists _ _ _ _ wb_own)|exact (bw_lists _ _ _ _ Hown4)|done].
    + eapply rep_elsewhere; [exact Hr|]. by eexists.
  - rewrite Hfb. intros Hf. destruct (Hq Hf) as (Eq&[]&Hqr&Hbd). constructor; try done; [cbn; congruence|by intros q b ?%not_elem_of_nil|..|cbn; lia].
    eapply queue_rep_shared; [exact hr_in| |exact Hqr]. apply share_in; [unfold arrays; set_solver|by eapply queue_array].
Qed.

(** The buffer of the caller. *)
Lemma receive_ok slots s1 n r r1 r3 data d h1 : 0 ≤ n → d = GSlice (fresh_key (h_mem (ss_heap r))) 0 n n →
  h1 = set_mem (<[fresh_key (h_mem (ss_heap r)) := replicate (Z.to_nat n) 0]> (h_mem (ss_heap r))) (ss_heap r) →
  notified slots s1 (set_ss_heap h1 r) = Done (tt, r1) → Stream_Read select_read fuel k d r1 = Done ((Z.of_nat (length data), None), r3) →
  peek (h_mem (ss_heap r3)) (slice_ptr d) (Z.of_nat (length data)) = Some data → receive slots s1 n r = Done (data, r3).
Proof.
  intros Hn -> -> E1 E2 Hp. unfold receive. erewrite bind_done; last first.
  { apply on_queue_done. unfold make_bytes. by replace (n <? 0) with false by (symmetry; apply Z.ltb_ge; lia). }
  cbv beta. erewrite bind_done by exact E1. cbv beta. erewrite bind_done by exact E2. cbv beta. cbn [fst]. apply on_ss_mem_done. unfold load_bytes. by rewrite Hp.
Qed.

(** The reader with the memory of the writer [s'] and a new buffer [d] of [n] bytes. *)
Record reader_ready (ls1 : list lstate) (s' r r1 : session) (n : Z) (d : gslice) (h1 : heap) : Prop := {
  rr_heap : h1 = set_mem (<[s_arr d := replicate (Z.to_nat n) 0]> (h_mem (ss_heap (share arrays s' r)))) (ss_heap (share arrays s' r));
  rr_session : r1 = set_ss_heap h1 (share arrays s' r);
  rr_window : d = GSlice (fresh_key (h_mem (ss_heap (share arrays s' r)))) 0 n n;
  rr_new : ∀ b, b ∈ arrays → is_Some (h_mem (ss_heap s') !! b) → s_arr d ≠ b ∧ h_mem (ss_heap r1) !! b = h_mem (ss_heap s') !! b;
  rr_room : in_mem (h_mem (ss_heap r1)) (slice_ptr d) n;
  rr_idle : ∃ ls2, idle_reader ls2 r1 ∧ same_lists ls1 ls2
}.

Lemma ready_ok ls' ls1 s' r n : idle_reader ls' r → bm_own bm ls1 (ss_heap s') [] → 0 ≤ n → ∃ r1 d h1, reader_ready ls1 s' r r1 n d h1.
Proof.
  intros Hir Hown Hn. set (r0 := share arrays s' r). set (a := fresh_key (h_mem (ss_heap r0))).
  set (h1 := set_mem (<[a := replicate (Z.to_nat n) 0]> (h_mem (ss_heap r0))) (ss_heap r0)). exists (set_ss_heap h1 r0), (GSlice a 0 n n), h1.
  pose proof (bw_mem _ _ _ _ Hown) as (_&_&bs&Hbs&_). cbn in Hbs. pose proof (fresh_key_None (h_mem (ss_heap r0))) as Hfr. fold a in Hfr.
  assert (∀ b, b ∈ arrays → is_Some (h_mem (ss_heap s') !! b) → a ≠ b ∧ h_mem h1 !! b = h_mem (ss_heap s') !! b) as Hnew.
  { intros b Hb Hx. pose proof (share_in arrays s' r b Hb Hx) as E. fold r0 in E. assert (a ≠ b) as Hab by (intros <-; rewrite <- E, Hfr in Hx; by destruct Hx).
    split; [done|]. cbn [h_mem h1 set_mem]. by rewrite lookup_insert_ne. }
  constructor; try done.
  - split_and!; cbn; try lia. eexists. rewrite lookup_insert_eq. split; [done|]. rewrite length_replicate. lia.
  - destruct (reader_moved ls' ls1 r h1 (ss_heap s') Hir Hown) as (ls2&Hi2&Hs2); [pose proof (ow_pool _ _ (bw_own _ _ _ _ (ir_own _ _ Hir))) as []; by constructor| |by exists ls2].
    apply Hnew; [unfold arrays; set_solver|by exists bs].
Qed.

Lemma wrote_way ls s s' fb : wrote_all ls s s' fb → over_queue s' = negb fb.
Proof. intros [(t&Ht&_&_&_&Hf) _ _ _]. unfold over_queue. by rewrite Ht, Hf. Qed.

Lemma exchange_slots ls ls' s r h data n : idle_writer ls s h → idle_reader ls' r → by_slots data s = true →
  0 < Z.of_nat (length data) < 2 ^ 32 → Z.of_nat (length data) < n → h + 2 < 2 ^ 63 → ∃ w', exchange data n (s, r) = Done (data, w') ∧ linked (h + 1) w'.
Proof.
  intros Hiw Hir Hby Hlen Hn Hh. assert (data ≠ []) as Hne by (intros ->; cbn in *; lia).
  destruct (write_slots ls s h data Hiw Hby Hlen) as (s'&ls1&t&cs&o&Ew&Hwa&Eq&Hid&Hch&Hcat&Hnd&Hfo&Hpl&Hqr&Hroom&Hplaced). pose proof Hroom as [_ Hqin Hap _ _ _ _].
  assert (s_arr (bm_mem bm') = s_arr (bm_mem bm)) as Ea by (by rewrite (tw_mem _ _ Htw)). pose proof (bw_mem _ _ _ _ (wl_own _ _ _ _ Hwa)) as (_&_&bs&Hbs&_).
  destruct (ready_ok ls' ls1 s' r n Hir (wl_own _ _ _ _ Hwa)) as (r1&d&h1&[Eh Er Ed Hnew Hin (ls2&Hi2&Hs2)]); [lia|].
  destruct (Hnew (s_arr (bm_mem bm))) as [Han Em]; [unfold arrays; set_solver|by exists bs|].
  destruct (Hnew a0) as [Han0 Em0]; [unfold arrays; set_solver|by eapply queue_array|]. assert (s_len d = n ∧ s_cap d = n) as [Hdl Hdc] by (by rewrite Ed).
  destruct (chain_shared (h_mem (ss_heap s')) (h_mem (ss_heap r1)) (s_arr (bm_mem bm)) ls1 ls2 cs Hs2) as [Hch2 Hfo2]; [|by rewrite Em|done|].
  { intros i x Hi. destruct Hplaced as (_&_&Hp). by rewrite (proj1 (Hp i x Hi)). }
  destruct (queue_receive ls2 r1 cs o t h d data Hi2) as (r2&r3&ls3&E1&E2&Hi3&Hby3&Hqr3); try done; [by rewrite Hfo2| |congruence|by eapply queue_rep_shared|lia|lia|congruence|by rewrite Hdl|].
  { intros b Hb x Hx. destruct (Hpl b Hb) as (y&Hy&Hfree). destruct (same_place _ _ _ _ Hs2 Hy) as (x'&Hx'&_&_&_&Ef).
    pose proof (proj1 Hx') as E. rewrite (proj1 Hx) in E. injection E as ->. split; [by rewrite Ef|by intros q c ?%not_elem_of_nil]. }
  destruct (writer_back ls ls1 ls3 s s' r3 h (h + 1) false Hiw Hwa Hi3) as [ls4 Hiw4]; [intros _; split_and!; [done|done|done|lia]|].
  exists (share arrays r3 s', r3). split; [|by exists ls4, ls3]. unfold exchange. cbn [fst snd]. rewrite Ew, (wrote_way _ _ _ _ Hwa). cbn [negb].
  rewrite (receive_ok true s' n (share arrays s' r) r2 r3 data d h1); try done; [lia|by rewrite Eh, Ed|]. unfold notified. rewrite <- Er. by erewrite bind_done by exact E1.
Qed.

Lemma exchange_socket ls ls' s r h data n : idle_writer ls s h → idle_reader ls' r → by_slots data s = false →
  0 < Z.of_nat (length data) → 16 + Z.of_nat (length data) < 2 ^ 32 → Z.of_nat (length data) < n → ∃ w', exchange data n (s, r) = Done (data, w') ∧ linked h w'.
Proof.
  intros Hiw Hir Hby H0 Hlen Hn. assert (data ≠ []) as Hne by (intros ->; cbn in *; lia). destruct (write_socket ls s h data Hiw Hby H0 Hlen) as (s'&ls1&Ew&Hwa&Hlast).
  assert (s_arr (bm_mem bm') = s_arr (bm_mem bm)) as Ea by (by rewrite (tw_mem _ _ Htw)). pose proof (bw_mem _ _ _ _ (wl_own _ _ _ _ Hwa)) as (_&_&bs&Hbs&_).
  destruct (ready_ok ls' ls1 s' r n Hir (wl_own _ _ _ _ Hwa)) as (r1&d&h1&[Eh Er Ed Hnew Hin (ls2&Hi2&_)]); [lia|].
  destruct (Hnew (s_arr (bm_mem bm))) as [Han _]; [unfold arrays; set_solver|by exists bs|]. assert (s_len d = n ∧ s_cap d = n) as [Hdl Hdc] by (by rewrite Ed).
  pose proof Hiw as [(t&Hwb&Hid&_) Hv]. pose proof (wb_id _ _ _ _ _ _ _ Hwb) as Hidr. rewrite Hid in Hidr.
  destruct (socket_receive ls2 r1 (ss_version s) d data Hi2) as (r2&r3&ls3&E1&E2&Hi3&Hby3); try done; [unfold maxSupportProtoVersion in Hv; lia|lia|congruence|by rewrite Hdl|].
  destruct (writer_back ls ls1 ls3 s s' r3 h h true Hiw Hwa Hi3) as [ls4 Hiw4]; [done|].
  exists (share arrays r3 s', r3). split; [|by exists ls4, ls3]. unfold exchange. cbn [fst snd]. rewrite Ew, (wrote_way _ _ _ _ Hwa). cbn [negb].
  rewrite (receive_ok false s' n (share arrays s' r) r2 r3 data d h1); try done; [lia|by rewrite Eh, Ed|]. unfold notified. rewrite Hlast, <- Er. by erewrite bind_done by exact E1.
Qed.

(** [C3] Messages in a row, from [Write] to [Read]: between two idle ends whose managers work
    on one memory, each [Write] and the [Read] behind it return, the reader gets exactly the
    messages, in their order, whatever of them fits into the slots, and both ends are idle
    again afterwards. *)
Theorem channel_delivers msgs n h w : linked h w → h + Z.of_nat (length msgs) + 1 < 2 ^ 63 →
  Forall (λ data : list Z, 0 < Z.of_nat (length data) < n ∧ 16 + Z.of_nat (length data) < 2 ^ 32) msgs →
  ∃ w' h', exchanges msgs n w = Done (msgs, w') ∧ linked h' w' ∧ h ≤ h' ≤ h + Z.of_nat (length msgs).
Proof.
  intros Hw Hh Hm. revert h w Hw Hh. induction Hm as [|data msgs [Hd Hl] _ IH]; intros h [s r] (ls&ls'&Hiw&Hir) Hh; cbn [exchanges length] in *.
  - exists (s, r), h. split_and!; [done|by exists ls, ls'|lia|lia].
  - assert (∃ w1 h1, exchange data n (s, r) = Done (data, w1) ∧ linked h1 w1 ∧ h ≤ h1 ≤ h + 1) as (w1&h1&E1&Hw1&Hh1).
    { destruct (by_slots data s) eqn:Hby.
      - destruct (exchange_slots ls ls' s r h data n) as (w1&?&?); [done|done|done|lia|lia|lia|]. exists w1, (h + 1). split_and!; [done|done|lia|lia].
      - destruct (exchange_socket ls ls' s r h data n) as (w1&?&?); [done|done|done|lia|lia|lia|]. exists w1, h. split_and!; [done|done|lia|lia]. }
    destruct (IH h1 w1 Hw1) as (w2&h2&E2&Hw2&Hh2); [lia|]. exists w2, h2. rewrite E1, E2. split_and!; [done|done|lia|lia].
Qed.

End channel.

(** ** Three messages on concrete memories *)

Definition e2e_msgs : list (list Z) := [message; big; [1; 2; 3]].
Definition e2e_world : session * session := (e2e_idle, e2e_peer e2e_mem).
Definition e2e_exchanges := exchanges e2e_conn false take_send take_result (λ _, mret RetryClosed) (λ _, mret WakeTimeout) false 0 demo_bm 9 0 0 e2e_msgs 100.

Lemma e2e_twins : twins demo_bm peer_bm.
Proof. constructor; [reflexivity|]. vm_compute. repeat constructor. Qed.

Lemma e2e_linked : linked demo_bm peer_bm e2e_qm e2e_qm 9 0 0 5 0 e2e_world.
Proof.
  destruct e2e_writable as [ls Hwb]. pose proof (wb_own _ _ _ _ _ _ _ Hwb) as Hown.
  assert (bm_own peer_bm (mapped <$> ls) (ss_heap (e2e_peer e2e_mem)) []) as Hpeer.
  { apply e2e_peer_own; [exact (bw_lists _ _ _ _ Hown)|exact (wb_placed _ _ _ _ _ _ _ Hwb)|exact (bw_rep _ _ _ _ Hown)|exact (bw_caps _ _ _ _ Hown)| |vm_compute; repeat constructor].
    split; [done|]. split; [done|]. eexists. split; [vm_compute; reflexivity|]. vm_compute. discriminate. }
  exists ls, (mapped <$> ls). split.
  - constructor; [|vm_compute; split; [reflexivity|discriminate]]. exists (e2e_stream newEmptyLinkedBuffer). split; [exact Hwb|]. split; [reflexivity|]. intros _. exact e2e_has_room.
  - constructor; try reflexivity; [|exact Hpeer|apply placed_lists; [apply Hpeer|done|done|vm_compute; repeat constructor; discriminate]].
    exists {[ 5 := 0%nat ]}, (e2e_stream newEmptyLinkedBuffer). split_and!; try reflexivity; [discriminate|]. apply rep_held, lb_rep_empty. by exists (mapped <$> ls).
Qed.

Lemma channel_delivers_witness : ∃ w', e2e_exchanges e2e_world = Done (e2e_msgs, w') ∧ by_slots 0 message e2e_idle = true ∧ by_slots 0 big e2e_idle = false.
Proof.
  destruct (channel_delivers e2e_conn false take_send take_result (λ _, mret RetryClosed) (λ _, mret WakeTimeout) false 0 demo_bm peer_bm e2e_qm e2e_qm 9 0 0 5
              e2e_twins eq_refl None (λ data s, ex_intro _ s (conj eq_refl (reflexivity s))) (conj (λ s, eq_refl) (λ s, eq_refl)) e2e_msgs 100 0 e2e_world e2e_linked)
    as (w'&h'&E&_); [vm_compute; reflexivity|repeat constructor; vm_compute; (reflexivity || discriminate)|].
  exists w'. split; [exact E|]. split; vm_compute; reflexivity.
Defined.
