(* ===== verification/Debug.v ===== *)
(** * Looking at a memory from outside ([debug.go])

    [DebugBufferListDetail] and [DebugQueueDetail] map a copy of a shared memory and
    print what they find: the free slots of each list, whether slots are missing, the
    slots that are in use, and the state of the queues.  A line of output is a value of
    [dline]. *)

From Stdlib Require Import ZArith Lia.
From stdpp Require Import prelude list gmap strings.
From S2P Require Import Prelude GoMem Queue BufferSlice BufferList BufferManager.

Inductive dline :=
  | DTailError (expectedTail offset freeSlices : Z)
  | DNextError (offset length : Z)
  | DList (i : nat) (cap size realSize perSliceCap head tail : Z)
  | DSummary (leak : bool) (free expect : Z)
  | DCheckInUsed
  | DSlot (offset next len flag : Z) (inused : bool) (data : list Z)
  | DQueue (name : string) (cap head tail size flag : Z).

(** ** Counting free slots *)

Fixpoint free_loop (fuel : nat) (l : bufferList) (offset freeSlices : Z) : M gmem (Z * list dline) :=
  match fuel with
  | O => out_of_fuel
  | S fuel =>
      let freeSlices := freeSlices + 1 in
      bh ← subslice_from (bl_bufferRegion l) offset;
      hasNext ← header_hasNext bh;
      warn ← (if negb hasNext then
                t ← load_u32 (bl_tail l);
                if negb (offset =? t) then t ← load_u32 (bl_tail l); mret [DTailError t offset freeSlices] else mret []
              else mret []);
      if negb hasNext then mret (freeSlices, warn)
      else
        offset ← header_nextBufferOffset bh;
        if offset >=? u32 (s_len (bl_bufferRegion l)) then
          mret (freeSlices, warn ++ [DNextError offset (s_len (bl_bufferRegion l))])
        else
          r ← free_loop fuel l offset freeSlices;
          mret (r.1, warn ++ r.2)
  end.

(** A list has no more slots than bytes. *)
Definition computeFreeSliceNum (l : bufferList) : M gmem (Z * list dline) :=
  offset ← load_u32 (bl_head l);
  free_loop (Z.to_nat (s_len (bl_bufferRegion l))) l offset 0.

(** ** The report *)

(** One slot of [printLeakShareMemory]. *)
Definition print_slot (data : gslice) (offset offsetInShm headerSize : Z) : M gmem (list dline) :=
  bh ← subslice_from data offset;
  p ← index_ptr data (offset + bufferSizeOffset);
  size ← load_u32 p;
  q ← index_ptr data (offset + bufferFlagOffset);
  flag ← load_u8 q;
  hasNext ← header_hasNext bh;
  inUsed ← header_isInUsed bh;
  if negb hasNext || inUsed then
    next ← header_nextBufferOffset bh;
    sl ← subslice data (offset + headerSize) (offset + headerSize + size);
    m ← get_state;
    bs ← of_option (slice_bytes m sl);
    mret [DSlot (offset + offsetInShm) next size flag inUsed bs]
  else mret [].

Fixpoint print_slots (fuel : nat) (data : gslice) (capPerBuffer : ptr) (offset offsetInShm headerSize : Z) : M gmem (Z * list dline) :=
  if offset <? s_len data then
    match fuel with
    | O => out_of_fuel
    | S fuel =>
        out ← print_slot data offset offsetInShm headerSize;
        cp ← load_u32 capPerBuffer;
        r ← print_slots fuel data capPerBuffer (offset + (cp + headerSize)) offsetInShm headerSize;
        mret (r.1, out ++ r.2)
    end
  else mret (offset, []).

Fixpoint print_lists (ls : list bufferList) (offsetInShm headerSize : Z) : M gmem (list dline) :=
  match ls with
  | [] => mret []
  | l :: ls =>
      let offsetInShm := offsetInShm + bufferListHeaderSize in
      let data := bl_bufferRegion l in
      r ← print_slots (Z.to_nat (s_len data)) data (bl_capPerBuffer l) 0 offsetInShm headerSize;
      out ← print_lists ls (offsetInShm + r.1) headerSize;
      mret (r.2 ++ out)
  end.

Definition printLeakShareMemory (bm : bufferManager) (bufferMgrHeaderSize headerSize : Z) : M gmem (list dline) :=
  print_lists (bm_lists bm) bufferMgrHeaderSize headerSize.

Fixpoint detail_loop (ls : list bufferList) (i : nat) (expectAllSliceNum : Z) : M gmem (Z * list dline) :=
  match ls with
  | [] => mret (expectAllSliceNum, [])
  | l :: ls =>
      cap ← load_u32 (bl_cap l);
      size ← load_i32 (bl_size l);
      n ← computeFreeSliceNum l;
      cp ← load_u32 (bl_capPerBuffer l);
      hd ← load_u32 (bl_head l);
      tl ← load_u32 (bl_tail l);
      c ← load_u32 (bl_cap l);
      r ← detail_loop ls (S i) (u32 (expectAllSliceNum + c));
      mret (r.1, n.2 ++ [DList i cap size n.1 cp hd tl] ++ r.2)
  end.

(** Run an operation of the manager on a memory without slice objects. *)
Definition of_heap {A} (a : M heap A) : M gmem A := λ m,
  match a (Heap m ∅ []) with Done (x, h) => Done (x, h_mem h) | Panic => Panic | NoFuel => NoFuel end.

(** The lists and the summary of [debugBufferListDetail]. *)
Definition detail_summary (bm : bufferManager) : M gmem (bool * list dline) :=
  r ← detail_loop (bm_lists bm) 0 0;
  free ← of_heap (sliceSize bm);
  let freeSliceNum := u32 free in
  let leak := negb (freeSliceNum =? r.1) in
  mret (leak, r.2 ++ [DSummary leak freeSliceNum r.1]).

(** [file] is the copy of the memory, if the file could be read; a memory that cannot be
    mapped gives a nil manager, whose lists cannot be looked at. *)
Definition debugBufferListDetail (path : string) (file : option gslice) (bufferMgrHeaderSize headerSize : Z) : M gmem (list dline) :=
  match file with
  | None => mret []
  | Some mem =>
      r ← mappingBufferManager path mem 0;
      match r with
      | inl _ => panic
      | inr bm =>
          s ← detail_summary bm;
          out ← printLeakShareMemory bm bufferMgrHeaderSize headerSize;
          mret ((s : bool * list dline).2 ++ (if (s : bool * list dline).1 then [DCheckInUsed] else []) ++ out)
      end
  end.

Definition DebugBufferListDetail (path : string) (file : option gslice) : M gmem (list dline) := debugBufferListDetail path file 8 20.

Definition print_queue (name : string) (q : queue) : M gmem dline :=
  hd ← load_i64 (q_head q); tl ← load_i64 (q_tail q); n ← queue_size q; f ← load_u32 (q_workingFlag q);
  mret (DQueue name (q_cap q) hd tl n f).

Definition DebugQueueDetail (isArmArch : bool) (file : option gslice) : M gmem (list dline) :=
  match file with
  | None => mret []
  | Some mem =>
      d1 ← subslice_from mem (s_len mem / 2);
      sendQueue ← mappingQueueFromBytes isArmArch d1;
      d2 ← subslice mem 0 (s_len mem / 2);
      recvQueue ← mappingQueueFromBytes isArmArch d2;
      l1 ← print_queue "sendQueue" sendQueue;
      l2 ← print_queue "recvQueue" recvQueue;
      mret [l1; l2]
  end.

(** ** The report is right *)

Lemma free_loop_ok m g k fl : blist_rep m g k fl → ∀ fuel i s, fl !! i = Some s → (length fl - i ≤ fuel)%nat →
  free_loop fuel (list_of g) s (Z.of_nat i) m = Done ((Z.of_nat (length fl), []), m).
Proof.
  intros Hr. pose proof Hr as []. pose proof br_geom as []. induction fuel as [|fuel IH]; intros i s Hi Hf.
  { apply lookup_lt_Some in Hi. lia. }
  destruct (br_free i s Hi) as [_ _ (f&Hfl&Hn) Hnext]. rewrite Forall_forall in br_slots.
  destruct (br_slots s) as (Hs0&Hs1&Hs2); [by eapply list_elem_of_lookup_2|].
  set (bh := GSlice (p_arr (g_base g)) (p_off (g_base g) + bufferListHeaderSize + s) (g_bytes g - s) (g_scap g - s)).
  assert (slice_ptr bh = slot_ptr g s) as Hp by (unfold slice_ptr, slot_ptr, padd, bh; cbn; f_equal; lia).
  assert (bufferHeaderSize ≤ s_len bh) as Hl by (cbn; consts; lia).
  cbn [free_loop]. erewrite bind_done by (apply subslice_ok; cbn; consts; lia). cbv beta zeta. change (GSlice _ _ _ _) with bh.
  erewrite bind_done by (apply header_hasNext_ok; [done|rewrite Hp; exact Hfl]). cbv beta. rewrite Hn.
  destruct (fl !! (i + 1)%nat) as [t|] eqn:Et; cbn [negb].
  - erewrite bind_done by done. cbv beta. erewrite bind_done by (apply header_next_ok; [done|rewrite Hp; by apply Hnext]). cbv beta.
    destruct (br_slots t) as (Ht0&Ht1&_); [by eapply list_elem_of_lookup_2|]. cbn [list_of bl_bufferRegion g_region s_len].
    unfold u32. rewrite Z.mod_small by (consts; lia). rewrite Z.geb_leb. consts. bdecide.
    replace (Z.of_nat i + 1) with (Z.of_nat (i + 1)) by lia. by erewrite bind_done by (apply IH; [done|lia]).
  - destruct br_tail as (l&Hlast&Htl). rewrite last_lookup in Hlast. apply lookup_lt_Some in Hi as Hlt. apply lookup_ge_None in Et.
    replace (pred (length fl)) with i in Hlast by lia. rewrite Hi in Hlast. injection Hlast as <-.
    erewrite bind_done by (erewrite bind_done by (apply load_u32_ok; exact Htl); cbv beta; by rewrite Z.eqb_refl).
    cbv beta. unfold mret, M_ret. do 3 f_equal. lia.
Qed.

Lemma computeFreeSliceNum_ok m g k fl : blist_rep m g k fl → computeFreeSliceNum (list_of g) m = Done ((Z.of_nat (length fl), []), m).
Proof.
  intros Hr. pose proof Hr as []. destruct br_head as (s&Hs&Hp). unfold computeFreeSliceNum.
  erewrite bind_done by (apply load_u32_ok; exact Hp). cbv beta. rewrite head_lookup in Hs. apply (free_loop_ok m g k fl Hr _ 0%nat s Hs).
  pose proof (slots_length g fl br_geom br_slots br_nodup). pose proof br_geom as []. cbn. unfold g_bytes. consts. nia.
Qed.

(** ** The summary *)

(** The slots of some lists, and the free ones. *)
Fixpoint nums (ls : list lstate) : Z := match ls with [] => 0 | x :: ls => g_num (ls_geom x) + nums ls end.
Fixpoint frees (ls : list lstate) : Z := match ls with [] => 0 | x :: ls => Z.of_nat (length (ls_free x)) + frees ls end.

Lemma mgr_rep_tail m x ls : mgr_rep m (x :: ls) → blist_rep m (ls_geom x) x.2.1 (ls_free x) ∧ mgr_rep m ls.
Proof.
  intros [Hl Ha]. apply Forall_cons in Hl as [Hx Hl]. split; [done|]. constructor; [done|]. intros i j y z Hij Hi Hj.
  by apply (Ha (S i) (S j) y z); [congruence|..].
Qed.

Lemma frees_nums m ls : mgr_rep m ls → 0 ≤ frees ls ≤ nums ls ∧ (frees ls = nums ls ↔ Forall (λ x, Z.of_nat (length (ls_free x)) = g_num (ls_geom x)) ls).
Proof.
  induction ls as [|x ls IH]; intros Hr; [cbn; split; [lia|by split]|]. apply mgr_rep_tail in Hr as [[] Hr]. destruct (IH Hr) as [IH1 IH2]. cbn.
  pose proof (slots_length _ _ br_geom br_slots br_nodup). rewrite Forall_cons, <- IH2. split; [lia|]. split; [|lia]. intros. lia.
Qed.

Lemma load_size m g k fl : blist_rep m g k fl → load_i32 (g_base g) m = Done (Z.of_nat (length fl), m).
Proof.
  intros []. rewrite (load_i32_ok _ _ _ br_size). pose proof (slots_length _ _ br_geom br_slots br_nodup). pose proof (geom_num_small _ br_geom).
  by rewrite i32_small by lia.
Qed.

Lemma size_loop_ok h ls : mgr_rep (h_mem h) ls → ∀ n, size_loop (lists_of ls) n h = Done (n + frees ls, h).
Proof.
  induction ls as [|x ls IH]; intros Hr n; [cbn; by rewrite Z.add_0_r|]. apply mgr_rep_tail in Hr as [Hx Hr].
  change (lists_of (x :: ls)) with (list_of (ls_geom x) :: lists_of ls). cbn [size_loop frees].
  erewrite bind_done by (apply on_mem_ok, (load_size _ _ _ _ Hx)). cbv beta. rewrite set_mem_id, IH by done. do 2 f_equal. lia.
Qed.

(** What the report says of a list. *)
Definition list_line (i : nat) (x : lstate) : dline :=
  DList i (g_num (ls_geom x)) (Z.of_nat (length (ls_free x))) (Z.of_nat (length (ls_free x))) (g_cap (ls_geom x))
    (default 0 (head (ls_free x))) (default 0 (last (ls_free x))).
Fixpoint list_lines (i : nat) (ls : list lstate) : list dline := match ls with [] => [] | x :: ls => list_line i x :: list_lines (S i) ls end.

Lemma detail_loop_ok m ls : mgr_rep m ls → ∀ i n, 0 ≤ n → n + nums ls < 2 ^ 32 →
  detail_loop (lists_of ls) i n m = Done ((n + nums ls, list_lines i ls), m).
Proof.
  induction ls as [|x ls IH]; intros Hr i n Hn Hs; [cbn; by rewrite Z.add_0_r|]. apply mgr_rep_tail in Hr as [Hx Hr].
  destruct (frees_nums m ls Hr) as [Hnums _]. pose proof (computeFreeSliceNum_ok m _ _ _ Hx) as Hc. pose proof (load_size m _ _ _ Hx) as Hz.
  pose proof Hx as []. destruct br_head as (s&Hhd&Hp), br_tail as (t&Htl&Hq). pose proof br_geom as [].
  change (lists_of (x :: ls)) with (list_of (ls_geom x) :: lists_of ls). cbn [detail_loop nums list_lines] in *.
  erewrite bind_done by (apply load_u32_ok; exact br_num). cbv beta. erewrite bind_done by exact Hz. cbv beta.
  erewrite bind_done by exact Hc. cbv beta. erewrite bind_done by (apply load_u32_ok; exact br_cap). cbv beta.
  erewrite bind_done by (apply load_u32_ok; exact Hp). cbv beta. erewrite bind_done by (apply load_u32_ok; exact Hq). cbv beta.
  erewrite bind_done by (apply load_u32_ok; exact br_num). cbv beta. unfold u32 at 1. rewrite Z.mod_small by lia.
  erewrite bind_done by (apply IH; [done|lia|lia]). cbv beta. unfold mret, M_ret, list_line. rewrite Hhd, Htl. cbn. do 3 f_equal. lia.
Qed.

Lemma detail_summary_ok m bm ls :
  bm_lists bm = lists_of ls → mgr_rep m ls → nums ls < 2 ^ 32 →
  let leak := negb (frees ls =? nums ls) in
  detail_summary bm m = Done ((leak, list_lines 0 ls ++ [DSummary leak (frees ls) (nums ls)]), m).
Proof.
  intros Hl Hr Hn leak. destruct (frees_nums m ls Hr) as [Hb _].
  unfold detail_summary. rewrite Hl. erewrite bind_done by (apply (detail_loop_ok m ls Hr); lia). cbv beta.
  erewrite bind_done; last first.
  { unfold of_heap, sliceSize. rewrite Hl, (size_loop_ok (Heap m ∅ []) ls Hr 0). done. }
  cbv beta. cbn [fst snd]. rewrite !Z.add_0_l. unfold u32. rewrite Z.mod_small by lia. done.
Qed.

(** ** The slots *)

Definition flag_used (f : Z) : bool := Z.land f sliceInUsedFlag >? 0.

(** The fields of the header of a slot. *)
Definition slot_size (m : gmem) (g : geom) (s : Z) : Z := default 0 (peek_u32 m (padd (slot_ptr g s) bufferSizeOffset)).
Definition slot_flag (m : gmem) (g : geom) (s : Z) : Z := default 0 (peek_u8 m (padd (slot_ptr g s) bufferFlagOffset)).
Definition slot_next (m : gmem) (g : geom) (s : Z) : Z := default 0 (peek_u32 m (padd (slot_ptr g s) nextBufferOffset)).
Definition slot_payload (m : gmem) (g : geom) (s : Z) : list Z :=
  default [] (peek m (padd (slot_ptr g s) bufferHeaderSize) (slot_size m g s)).

(** What the report says of a slot, the region of whose list starts at [off]: a line if it
    is in use or has no successor. *)
Definition slot_lines (m : gmem) (g : geom) (off s : Z) : list dline :=
  if negb (flag_next (slot_flag m g s)) || flag_used (slot_flag m g s)
  then [DSlot (s + off) (slot_next m g s) (slot_size m g s) (slot_flag m g s) (flag_used (slot_flag m g s)) (slot_payload m g s)]
  else [].
Fixpoint leak_lines (m : gmem) (off : Z) (ls : list lstate) : list dline :=
  match ls with
  | [] => []
  | x :: ls => concat (slot_lines m (ls_geom x) (off + bufferListHeaderSize) <$> all_slots (ls_geom x)) ++
      leak_lines m (off + bufferListHeaderSize + g_bytes (ls_geom x)) ls
  end.

(** No slot claims more bytes than it has. *)
Definition sizes_ok (m : gmem) (g : geom) : Prop := ∀ s, is_slot g s → 0 ≤ slot_size m g s ≤ g_cap g.

Lemma peek_u32_in m p : in_mem m p 4 → peek_u32 m p = Some (default 0 (peek_u32 m p)).
Proof. intros (l&E&_)%in_mem_peek. unfold peek_u32. by rewrite E. Qed.
Lemma peek_u8_in m p : in_mem m p 1 → peek_u8 m p = Some (default 0 (peek_u8 m p)).
Proof. intros (l&E&_)%in_mem_peek. unfold peek_u8. by rewrite E. Qed.

Lemma print_slot_ok m g k fl off s : blist_rep m g k fl → sizes_ok m g → is_slot g s →
  print_slot (g_region g) s off bufferHeaderSize m = Done (slot_lines m g off s, m).
Proof.
  intros [] Hz Hs. destruct (Hz s Hs) as [Hz0 Hz1]. pose proof Hs as (Hs0&Hs1&_). pose proof br_geom as []. unfold g_step in Hs1.
  assert (∀ d n, 0 ≤ d → 0 ≤ n → d + n ≤ g_cap g + bufferHeaderSize → in_mem m (padd (slot_ptr g s) d) n) as Hin.
  { intros d n Hd Hn Hdn. replace (padd (slot_ptr g s) d) with (padd (g_base g) (bufferListHeaderSize + s + d)) by (unfold slot_ptr, padd; cbn; f_equal; lia).
    eapply in_mem_sub; [exact br_mem|..]; consts; lia. }
  set (bh := GSlice (p_arr (g_base g)) (p_off (g_base g) + bufferListHeaderSize + s) (g_bytes g - s) (g_scap g - s)).
  assert (slice_ptr bh = slot_ptr g s) as Hp by (unfold slice_ptr, slot_ptr, padd, bh; cbn; f_equal; lia).
  assert (bufferHeaderSize ≤ s_len bh) as Hl by (cbn; consts; lia).
  assert (∀ d, Ptr (s_arr (g_region g)) (s_off (g_region g) + (s + d)) = padd (slot_ptr g s) d) as Hptr by (intros d; unfold slot_ptr, padd; cbn; f_equal; lia).
  unfold print_slot. erewrite bind_done by (apply subslice_ok; cbn; consts; lia). cbv beta. change (GSlice _ _ _ _) with bh.
  erewrite bind_done by (apply index_ptr_ok; cbn; consts; lia). cbv beta. rewrite Hptr.
  erewrite bind_done by (apply load_u32_ok, peek_u32_in, Hin; consts; lia). cbv beta. fold (slot_size m g s).
  erewrite bind_done by (apply index_ptr_ok; cbn; consts; lia). cbv beta. rewrite Hptr.
  assert (peek_u8 m (padd (slot_ptr g s) bufferFlagOffset) = Some (slot_flag m g s)) as Hf by (apply peek_u8_in, Hin; consts; lia).
  erewrite bind_done by (apply load_u8_ok; exact Hf). cbv beta.
  erewrite bind_done by (apply header_hasNext_ok; [done|rewrite Hp; exact Hf]). cbv beta.
  erewrite bind_done; last first.
  { unfold header_isInUsed. erewrite bind_done by (apply index_ptr_ok; consts; lia). cbv beta.
    change (Ptr (s_arr bh) (s_off bh + bufferFlagOffset)) with (padd (slice_ptr bh) bufferFlagOffset). rewrite Hp.
    by erewrite bind_done by (apply load_u8_ok; exact Hf). }
  cbv beta. fold (flag_used (slot_flag m g s)). unfold slot_lines. destruct (negb _ || _); [|done].
  erewrite bind_done by (apply header_next_ok; [done|rewrite Hp; apply peek_u32_in, Hin; consts; lia]). cbv beta. fold (slot_next m g s).
  erewrite bind_done by (apply subslice_ok; cbn; consts; lia). cbv beta. erewrite bind_done by done. cbv beta.
  destruct (in_mem_peek m (padd (slot_ptr g s) bufferHeaderSize) (slot_size m g s)) as (bs&Ebs&_); [apply Hin; consts; lia|].
  unfold slot_payload. rewrite Ebs. unfold slice_bytes.
  replace (slice_ptr _) with (padd (slot_ptr g s) bufferHeaderSize) by (unfold slice_ptr, slot_ptr, padd; cbn; f_equal; lia).
  cbn [s_len]. replace (s + bufferHeaderSize + slot_size m g s - (s + bufferHeaderSize)) with (slot_size m g s) by lia. rewrite Ebs. done.
Qed.

Lemma print_slots_ok m g k fl off : blist_rep m g k fl → sizes_ok m g → ∀ n fuel j, Z.of_nat j + Z.of_nat n = g_num g → (n ≤ fuel)%nat →
  print_slots fuel (g_region g) (padd (g_base g) 16) (Z.of_nat j * g_step g) off bufferHeaderSize m
    = Done ((g_bytes g, concat (slot_lines m g off <$> slots_from g (Z.of_nat j) n)), m).
Proof.
  intros Hr Hz. pose proof Hr as []. pose proof br_geom as []. assert (0 < g_step g) as Hst by (unfold g_step; consts; lia).
  induction n as [|n IH]; intros fuel j Hj Hf.
  - assert (Z.of_nat j * g_step g = g_bytes g) as -> by (unfold g_bytes; f_equal; lia).
    destruct fuel; cbn [print_slots g_region s_len]; by rewrite Z.ltb_irrefl.
  - destruct fuel as [|fuel]; [lia|]. cbn [print_slots g_region s_len].
    replace (Z.of_nat j * g_step g <? g_bytes g) with true by (symmetry; apply Z.ltb_lt; unfold g_bytes; nia).
    assert (is_slot g (Z.of_nat j * g_step g)) as Hs.
    { unfold is_slot, g_bytes. split; [nia|]. split; [nia|]. apply Z.mod_mul. lia. }
    fold (g_region g). erewrite bind_done by (by eapply print_slot_ok). cbv beta.
    erewrite bind_done by (apply load_u32_ok; exact br_cap). cbv beta. fold (g_step g).
    replace (Z.of_nat j * g_step g + g_step g) with (Z.of_nat (S j) * g_step g) by lia.
    erewrite bind_done by (apply IH; lia). cbv beta. unfold slots_from. rewrite (seqZ_cons (Z.of_nat j)) by lia.
    replace (Z.succ (Z.of_nat j)) with (Z.of_nat (S j)) by lia. replace (Z.pred (Z.of_nat (S n))) with (Z.of_nat n) by lia. done.
Qed.

Lemma print_lists_ok m ls : mgr_rep m ls → Forall (λ x, sizes_ok m (ls_geom x)) ls → ∀ off,
  print_lists (lists_of ls) off bufferHeaderSize m = Done (leak_lines m off ls, m).
Proof.
  induction ls as [|x ls IH]; intros Hr Hz off; [done|]. apply mgr_rep_tail in Hr as [Hx Hr]. apply Forall_cons in Hz as [Hzx Hz].
  pose proof (br_geom _ _ _ _ Hx) as [].
  change (lists_of (x :: ls)) with (list_of (ls_geom x) :: lists_of ls). cbn [print_lists leak_lines list_of bl_bufferRegion bl_capPerBuffer].
  erewrite bind_done; last first.
  { apply (print_slots_ok m _ _ _ (off + bufferListHeaderSize) Hx Hzx (Z.to_nat (g_num (ls_geom x))) _ 0); [lia|].
    cbn. unfold g_bytes, g_step. consts. nia. }
  cbv beta. cbn [fst snd]. by erewrite bind_done by (by apply IH).
Qed.

(** ** The peer's view of a list

    A reader that maps the memory takes the word at offset 24 of the header of a list for
    the counter; the lists are the same otherwise. *)

Definition peer_geom (g : geom) : geom := Geom (g_base g) (g_off g) 24 (g_cap g) (g_num g) (g_scap g).
Definition peer_view (m : gmem) (x : lstate) : lstate :=
  (peer_geom x.1, (default 0 (peek_u32 m (padd (g_base x.1) 24)), x.2.2)).

Lemma peer_blist m g k fl : blist_rep m g k fl →
  blist_rep m (peer_geom g) (default 0 (peek_u32 m (padd (g_base g) 24))) fl.
Proof.
  intros []. pose proof br_geom as []. assert (0 < g_bytes g) by (unfold g_bytes, g_step; consts; nia).
  split; try done.
  - split; try done. by right.
  - eexists. split; [|done]. apply peek_u32_in. eapply in_mem_sub; [exact br_mem|..]; consts; lia.
  - intros i s Hi. by destruct (br_free i s Hi).
Qed.

Lemma peer_mgr m ls : mgr_rep m ls → mgr_rep m (peer_view m <$> ls).
Proof.
  intros [Hl Ha]. split.
  - apply Forall_fmap. eapply Forall_impl; [exact Hl|]. intros x Hx. by apply (peer_blist _ _ _ _ Hx).
  - intros i j x y Hij Hi Hj. apply list_lookup_fmap_Some in Hi as (x0&->&Hi), Hj as (y0&->&Hj). exact (Ha i j x0 y0 Hij Hi Hj).
Qed.

Lemma peer_report m ls :
  nums (peer_view m <$> ls) = nums ls ∧ frees (peer_view m <$> ls) = frees ls ∧
  (∀ i, list_lines i (peer_view m <$> ls) = list_lines i ls) ∧
  ∀ off, leak_lines m off (peer_view m <$> ls) = leak_lines m off ls.
Proof.
  induction ls as [|x ls (IHn&IHf&IHl&IHk)]; [done|]. split_and!; [cbn; by rewrite IHn|cbn; by rewrite IHf|intros i|intros off].
  - cbn. by rewrite IHl.
  - rewrite fmap_cons. cbn [leak_lines]. by rewrite IHk.
Qed.

Lemma peer_layout m mem R U pairs ls : ls_geom <$> ls = layout mem 20 R U pairs →
  lists_of (peer_view m <$> ls) = list_of <$> layout mem 24 R U pairs.
Proof.
  revert U ls. induction pairs as [|sp pairs IH]; intros U [|x ls] E; try done. injection E as Ex E.
  cbn. f_equal; [by rewrite (Ex : x.1 = _)|]. by apply IH.
Qed.

Lemma layout_nums mem R U pairs ls : Forall (pair_ok R) pairs → ls_geom <$> ls = layout mem 20 R U pairs →
  nums ls ≤ layout_end R U pairs - U.
Proof.
  revert U ls. induction pairs as [|sp pairs IH]; intros U [|x ls] Hp E; try done; cbn; [lia|].
  apply Forall_cons in Hp as [Hsp Hp]. injection E as Ex E. specialize (IH _ _ Hp E). rewrite Ex. cbn.
  pose proof (po_num _ _ Hsp). pose proof (po_size _ _ Hsp). unfold pair_bytes in *. consts. nia.
Qed.

(** [C34] The report on a memory that [createBufferManager] laid out for [pairs], in any
    state of use in which the free lists are well formed and no slot claims more bytes than
    it has: [DebugBufferListDetail] returns without touching it.  For every list it prints
    the number of free slots found by following the links, which is the size in the header
    of the list, and no complaint about the links; the summary tells of a leak when and only
    when a slot of some list is not free; and then come, in the order of their addresses,
    exactly the slots that are in use or have no successor, each with its offset, its header
    and its payload. *)
Theorem debug_report_exact m mem path pairs ls :
  mgr_room m mem 0 pairs → mgr_header m mem 0 pairs → mgr_rep m ls → ls_geom <$> ls = mgr_layout mem 20 0 pairs →
  Forall (λ x, sizes_ok m (ls_geom x)) ls →
  ∃ leak, DebugBufferListDetail path (Some mem) m = Done (list_lines 0 ls ++ [DSummary leak (frees ls) (nums ls)] ++
      (if leak then [DCheckInUsed] else []) ++ leak_lines m bufferManagerHeaderSize ls, m) ∧
    (leak = false ↔ Forall (λ x, Z.of_nat (length (ls_free x)) = g_num (ls_geom x)) ls).
Proof.
  intros Hroom Hh Hr Hg Hz. destruct (frees_nums m ls Hr) as [_ Hiff]. exists (negb (frees ls =? nums ls)).
  split; [|rewrite negb_false_iff, Z.eqb_eq; exact Hiff].
  pose proof (peer_layout m _ _ _ _ _ Hg) as Hl. apply peer_mgr in Hr as Hr'. destruct (peer_report m ls) as (En&Ef&El&Ek).
  pose proof (mgr_end_fits _ _ _ _ Hroom) as Hfit. pose proof (layout_nums _ _ _ _ _ (mr_pairs _ _ _ _ Hroom) Hg) as Hn.
  pose proof (mr_len _ _ _ _ Hroom). unfold mgr_end in Hfit.
  unfold DebugBufferListDetail, debugBufferListDetail. erewrite bind_done; last first.
  { apply (mappingBufferManager_ok m mem 0 pairs path Hroom Hh). rewrite <- Hg. apply Forall_fmap. eapply Forall_impl; [apply Hr|]. intros x Hx. by exists x.2.1, x.2.2. }
  cbv beta iota. erewrite bind_done; last first.
  { apply (detail_summary_ok m (manager_of mem 24 0 pairs path) _ (eq_sym Hl) Hr'). rewrite En. unfold bufferManagerHeaderSize in *. consts. lia. }
  cbv beta. unfold printLeakShareMemory. change (bm_lists _) with (list_of <$> layout mem 24 (region_cap mem 0 pairs) (0 + bufferManagerHeaderSize) pairs).
  rewrite <- Hl. erewrite bind_done; last first.
  { apply (print_lists_ok m _ Hr'). apply Forall_fmap. exact Hz. }
  cbv beta. cbn [fst snd]. rewrite En, Ef, El, Ek. by rewrite <- app_assoc.
Qed.

(** A new memory: nothing is in use, the last slot of each list has no successor. *)
Lemma debug_report_exact_witness :
  ∃ m, createBufferManager demo_pairs "a" demo_shm 0 demo_shm_mem = Done (inr (manager_of demo_shm 20 0 demo_pairs "a"), m) ∧
    DebugBufferListDetail "a" (Some demo_shm) m
      = Done ([DList 0 6 6 6 4 0 120; DList 1 5 5 5 8 0 112; DSummary false 11 11;
               DSlot 164 0 0 0 false []; DSlot 336 0 0 0 false []], m).
Proof.
  destruct (createBufferManager_ok demo_shm_mem demo_shm 0 demo_pairs "a" demo_room) as (m&E&Hf&Hh&Hroom). exists m. split; [exact E|].
  assert (m = match createBufferManager demo_pairs "a" demo_shm 0 demo_shm_mem with Done (_, m) => m | _ => ∅ end) as Em by by rewrite E.
  destruct (debug_report_exact m demo_shm "a" demo_pairs (fresh_lists (mgr_layout demo_shm 20 0 demo_pairs)) Hroom Hh) as (leak&Er&Hleak).
  - apply fresh_mgr_rep; [apply demo_room|exact Hf].
  - unfold fresh_lists. rewrite <- list_fmap_compose. apply list_fmap_id.
  - apply Forall_fmap. eapply Forall_impl; [exact Hf|]. intros g Hr s Hs. change (ls_geom (g, (0, all_slots g))) with g in *.
    pose proof (br_geom _ _ _ _ Hr) as Hg. destruct (slot_all g Hg s Hs) as (j&Hj&->).
    assert (all_slots g !! Z.to_nat j = Some (j * g_step g)) as Hin by (apply all_slots_lookup; [exact Hg|]; rewrite Z2Nat.id; lia).
    destruct (br_free _ _ _ _ Hr _ _ Hin) as [Hsz _ _ _]. unfold slot_size. rewrite Hsz. cbn. destruct Hg. lia.
  - destruct leak; [|rewrite Er, Em; vm_compute; reflexivity]. assert (true = false) as Hno; [|discriminate Hno]. apply Hleak. repeat constructor.
Defined.
