(* ===== verification/Logger.v ===== *)
(** * The logger ([debug.go], first part; [protocolTrace])

    Levels, the variables of the environment that set them, and the lines that are
    written.  A line is recorded with its writer as the call of [fmt] that writes it;
    what [fmt] makes of a format and its arguments does not matter here.  The clock and
    the caller of a method are parameters. *)

From Stdlib Require Import ZArith Lia Ascii.
From stdpp Require Import prelude list strings pretty.
From S2P Require Import Prelude Protocol.

(** ** Levels *)

Definition levelTrace : Z := 0.
Definition levelDebug : Z := 1.
Definition levelInfo : Z := 2.
Definition levelWarn : Z := 3.
Definition levelError : Z := 4.
Definition levelNoPrint : Z := 5.

(** The escape sequence of a colour: 27, 91 and the rest. *)
Definition color (rest : string) : string := String (Ascii.ascii_of_nat 27) (String (Ascii.ascii_of_nat 91) rest).
Definition colors : list string := color <$> ["95m"; "92m"; "94m"; "93m"; "91m"].
Definition reset_color : string := color "0m".
Definition levelName : list string := ["Trace"; "Debug"; "Info"; "Warn"; "Error"].

(** ** Numbers of the environment: [strconv.Atoi] *)

Definition digit (c : Ascii.ascii) : option Z :=
  let n := Z.of_nat (Ascii.nat_of_ascii c) in if (48 <=? n) && (n <=? 57) then Some (n - 48) else None.
Fixpoint digits (l : list Ascii.ascii) (acc : Z) : option Z :=
  match l with [] => Some acc | c :: l => d ← digit c; digits l (10 * acc + d) end.
Definition atoi (s : string) : option Z :=
  let '(neg, l) := match String.list_ascii_of_string s with
                   | c :: l => if Ascii.eqb c "-"%char then (true, l) else if Ascii.eqb c "+"%char then (false, l) else (false, c :: l)
                   | [] => (false, [])
                   end in
  match l with
  | [] => None
  | _ => n ← digits l 0; let n := if (neg : bool) then - n else n in
         if (- 2 ^ 63 <=? n) && (n <? 2 ^ 63) then Some n else None
  end.

(** ** State *)

Inductive writer := Stdout | Writer (w : nat).
#[global] Instance writer_eq_dec : EqDecision writer.
Proof. solve_decision. Defined.

Section logger.
Context {V : Type}.

(** [Fprintf] of a format and arguments; [Fprintln] of the prefix, a value and the end. *)
Inductive printed := Fprintf (format : string) (args : list V) | Fprintln (prefix : string) (v : V) (reset : string).

Record logging := Logging { level : Z; debugMode : bool; lines : list (writer * printed) }.

Record logger := Logger { lg_name : string; lg_out : writer; lg_callDepth : Z }.

Definition internalLogger : logger := Logger "" Stdout 3.
Definition protocolLogger : logger := Logger "protocol trace" Stdout 4.

Definition newLogger (name : string) (out : option writer) : logger := Logger name (default Stdout out) 3.

(** [init] of the package, with the environment. *)
Definition log_init (getenv : string → string) : logging :=
  let level := levelWarn in
  let level := if negb (bool_decide (getenv "SHMIPC_LOG_LEVEL" = ""))
               then match atoi (getenv "SHMIPC_LOG_LEVEL") with
                    | Some n => if n <=? levelNoPrint then n else level
                    | None => level
                    end
               else level in
  Logging level (negb (bool_decide (getenv "SHMIPC_DEBUG_MODE" = ""))) [].

Definition SetLogLevel (l : Z) : M logging unit :=
  modify_state (λ s, if l <=? levelNoPrint then Logging l (debugMode s) (lines s) else s).

(** ** Lines *)

(** [filepath.Base] *)
Definition last_element (l : list Ascii.ascii) : list Ascii.ascii :=
  let drop_sep := fix go (l : list Ascii.ascii) := match l with c :: l' => if Ascii.eqb c "/"%char then go l' else l | [] => [] end in
  let upto_sep := fix go (l : list Ascii.ascii) := match l with c :: l' => if Ascii.eqb c "/"%char then [] else c :: go l' | [] => [] end in
  reverse (upto_sep (drop_sep (reverse l))).
Definition Base (path : string) : string :=
  if bool_decide (path = "") then "."
  else match last_element (String.list_ascii_of_string path) with
       | [] => "/"
       | l => String.string_of_list_ascii l
       end.

(** [runtime.Caller], and the text of [time.Now()] *)
Context (caller : Z → option (string * Z)) (now : string).

Definition location (l : logger) : string :=
  let '(file, line) := default ("???", 0) (caller (lg_callDepth l)) in
  Base file +:+ ":" +:+ pretty line.

Definition prefix (l : logger) (lvl : Z) : M logging string :=
  c ← of_option (colors !! Z.to_nat lvl);
  n ← of_option (levelName !! Z.to_nat lvl);
  mret (c +:+ n +:+ " " +:+ now +:+ " " +:+ location l +:+ " " +:+ lg_name l +:+ " ").

Definition write_line (w : writer) (p : printed) : M logging unit :=
  modify_state (λ s, Logging (level s) (debugMode s) (lines s ++ [(w, p)])).

(** The two shapes of the ten methods. *)
Definition logf (lvl : Z) (l : logger) (format : string) (a : list V) : M logging unit :=
  cur ← reads level;
  if cur >? lvl then mret tt
  else p ← prefix l lvl; write_line (lg_out l) (Fprintf (p +:+ format +:+ reset_color +:+ String (Ascii.ascii_of_nat 10) "") a).
Definition logv (lvl : Z) (l : logger) (v : V) : M logging unit :=
  cur ← reads level;
  if cur >? lvl then mret tt
  else p ← prefix l lvl; write_line (lg_out l) (Fprintln p v reset_color).

Definition log_errorf := logf levelError.
Definition log_error := logv levelError.
Definition log_warnf := logf levelWarn.
Definition log_warn := logv levelWarn.
Definition log_infof := logf levelInfo.
Definition log_info := logv levelInfo.
Definition log_debugf := logf levelDebug.
Definition log_debug := logv levelDebug.
Definition log_tracef := logf levelTrace.
Definition log_trace := logv levelTrace.

(** ** What is printed *)

(** A message of a level that has a name. *)
Definition message_level (k : Z) : Prop := levelTrace ≤ k ≤ levelError.

Lemma prefix_ok l k s : message_level k → ∃ p, prefix l k s = Done (p, s).
Proof.
  intros Hk. unfold message_level, levelTrace, levelError in Hk.
  assert (k = 0 ∨ k = 1 ∨ k = 2 ∨ k = 3 ∨ k = 4) as [->|[->|[->|[->| ->]]]] by lia; eexists; reflexivity.
Qed.

(** A call of one of the ten methods. *)
Inductive logged (k : Z) (l : logger) : M logging unit → Prop :=
| lg_f format a : logged k l (logf k l format a)
| lg_v v : logged k l (logv k l v).

(** Every method returns; it adds one line, to the writer of the logger, exactly when its
    level is not below the current one, and changes nothing else. *)
Theorem log_line_exact k l m s : message_level k → logged k l m →
  ∃ s', m s = Done (tt, s') ∧ level s' = level s ∧ debugMode s' = debugMode s ∧
    if level s <=? k then ∃ p, lines s' = lines s ++ [(lg_out l, p)] else s' = s.
Proof.
  intros Hk []; unfold logf, logv; (erewrite bind_done by done); cbv beta; rewrite Z.gtb_ltb; destruct (Z.leb_spec (level s) k);
    first [rewrite (proj2 (Z.ltb_ge _ _)) by lia | rewrite (proj2 (Z.ltb_lt _ _)) by lia].
  - destruct (prefix_ok l k s Hk) as [p Ep]. erewrite bind_done by exact Ep. eexists. split; [done|]. cbn. split_and!; [done|done|]. by eexists.
  - exists s. done.
  - destruct (prefix_ok l k s Hk) as [p Ep]. erewrite bind_done by exact Ep. eexists. split; [done|]. cbn. split_and!; [done|done|]. by eexists.
  - exists s. done.
Qed.

(** The level is never above [levelNoPrint]: not after [init], whatever the environment
    says, not after [SetLogLevel]; and a text that is no number leaves the default. *)
Lemma init_level getenv : level (log_init getenv) ≤ levelNoPrint ∧
  (atoi (getenv "SHMIPC_LOG_LEVEL") = None → level (log_init getenv) = levelWarn).
Proof.
  unfold log_init. cbn [level]. destruct (negb _); [|done]. destruct (atoi _) as [n|]; [|done].
  destruct (Z.leb_spec n levelNoPrint); [done|]. split; [done|]. intros [=].
Qed.

Lemma SetLogLevel_ok l s : ∃ s', SetLogLevel l s = Done (tt, s') ∧ lines s' = lines s ∧
  level s' = (if l <=? levelNoPrint then l else level s).
Proof. eexists. split; [done|]. by destruct (l <=? levelNoPrint). Qed.

(** The methods with the highest level are silent. *)
Lemma no_print k l m s : message_level k → logged k l m → level s = levelNoPrint → m s = Done (tt, s).
Proof.
  intros Hk Hm Hs. destruct (log_line_exact k l m s Hk Hm) as (s'&E&_&_&Hl). rewrite E. f_equal. f_equal.
  rewrite Hs, (proj2 (Z.leb_gt _ _)) in Hl; [done|]. unfold message_level, levelError, levelNoPrint in *. lia.
Qed.
End logger.

(** ** The trace of the protocol *)

Section trace.
Context (caller : Z → option (string * Z)) (now : string).

Definition protocolTraceMode (getenv : string → string) : bool := negb (bool_decide (getenv "SHMIPC_PROTOCOL_TRACE" = "")).

(** [string(body)] *)
Definition body_string (body : list Z) : string := String.string_of_list_ascii ((λ z, Ascii.ascii_of_nat (Z.to_nat z)) <$> body).

Definition protocolTrace (mode : bool) (h body : list Z) (send : bool) : M (@logging string) unit :=
  if negb mode then mret tt
  else if Z.of_nat (length h) <? headerSize then mret tt
  else
    hs ← header_String h;
    if send then log_warnf caller now protocolLogger "send, header:%s body:%s" [hs; body_string body]
    else log_warnf caller now protocolLogger "recv, header:%s body:%s" [hs; body_string body].

Lemma header_String_total (h : list Z) (s : @logging string) : (8 ≤ length h)%nat → ∃ x, header_String h s = Done (x, s).
Proof.
  intros Hl. unfold header_String, Length, Magic, Version, MsgType, gsub, gindex.
  destruct (lookup_lt_is_Some_2 h 6) as [v Ev]; [lia|]. destruct (lookup_lt_is_Some_2 h 7) as [t Et]; [lia|].
  rewrite !read_at_ok by lia. rewrite Ev, Et. eexists.
  do 2 (erewrite bind_done by (by erewrite bind_done by done); cbv beta). do 2 (erewrite bind_done by done; cbv beta). done.
Qed.

(** Tracing returns on every header and every body, also on a header that is too short; it
    writes at most one line and none when it is off. *)
Theorem trace_total mode h body send s :
  ∃ s', protocolTrace mode h body send s = Done (tt, s') ∧ level s' = level s ∧
    (mode = false → s' = s) ∧ ∃ ps, lines s' = lines s ++ ps ∧ (length ps ≤ 1)%nat.
Proof.
  assert (∃ s', Done (tt, s) = Done (tt, s') ∧ level s' = level s ∧ (mode = false → s' = s) ∧ ∃ ps, lines s' = lines s ++ ps ∧ (length ps ≤ 1)%nat) as Hno.
  { exists s. split_and!; try done. exists []. rewrite app_nil_r. split; [done|cbn; lia]. }
  unfold protocolTrace. destruct mode; cbn [negb]; [|exact Hno]. destruct (Z.ltb_spec (Z.of_nat (length h)) headerSize) as [|Hl]; [exact Hno|].
  destruct (header_String_total h s) as [x Ex]; [unfold headerSize in Hl; lia|]. erewrite bind_done by exact Ex. cbv beta.
  assert (∀ f a, ∃ s', log_warnf caller now protocolLogger f a s = Done (tt, s') ∧ level s' = level s ∧ (true = false → s' = s) ∧ ∃ ps, lines s' = lines s ++ ps ∧ (length ps ≤ 1)%nat) as Hw.
  { intros f a. destruct (log_line_exact caller now levelWarn protocolLogger (log_warnf caller now protocolLogger f a) s) as (s'&E&Hlv&_&Hp); [done|apply lg_f|].
    exists s'. split_and!; try done. destruct (level s <=? levelWarn); [destruct Hp as [p ->]; by exists [(lg_out protocolLogger, p)]|subst s'; exists []; rewrite app_nil_r; split; [done|cbn; lia]]. }
  destruct send; apply Hw.
Qed.
End trace.

Lemma log_line_exact_witness :
  let s := @Logging Z levelWarn false [] in
  let m := log_warnf (λ _, Some ("a/b/session.go", 12)) "now" internalLogger "%d" [7] in
  ∃ s', m s = Done (tt, s') ∧ length (lines s') = 1%nat ∧
    lines s' = [(Stdout, Fprintf (color "93mWarn now session.go:12  %d" +:+ reset_color +:+ String (Ascii.ascii_of_nat 10) "") [7])].
Proof.
  intros s m.
  destruct (log_line_exact (λ _, Some ("a/b/session.go", 12)) "now" levelWarn internalLogger m s) as (s'&E&_&_&Hl).
  - unfold message_level, levelTrace, levelWarn, levelError. lia.
  - apply lg_f.
  - exists s'. split; [exact E|]. split; [cbn in Hl; destruct Hl as [p ->]; reflexivity|]. vm_compute in E. injection E as <-. reflexivity.
Defined.

(** Texts that [Atoi] takes and does not take. *)
Example atoi_texts : atoi "5" = Some 5 ∧ atoi "-1" = Some (-1) ∧ atoi "+3" = Some 3 ∧ atoi "" = None ∧ atoi "-" = None ∧ atoi "1x" = None ∧
  atoi "9223372036854775808" = None.
Proof. vm_compute. done. Qed.
Example base_texts : Base "/root/a.go" = "a.go" ∧ Base "a/" = "a" ∧ Base "///" = "/" ∧ Base "" = "." ∧ Base "b" = "b".
Proof. vm_compute. done. Qed.
