(* ===== verification/Config.v ===== *)
(** * The configuration ([config.go], [session_manager.go], [util.go])

    The configuration of a session, its defaults and its validation, and the
    paths a client derives from it. *)

From Stdlib Require Import ZArith Lia.
From stdpp Require Import prelude list gmap strings pretty.
From S2P Require Import Prelude GoMem Queue BufferSlice BufferList BufferManager.

Definition defaultQueueCap : Z := 8192.
Definition defaultShareMemoryCap : Z := 32 * 1024 * 1024.
Definition second : Z := 1000000000.
Definition millisecond : Z := 1000000.
Definition sessionRebuildInterval : Z := second * 60.
Definition bufferPathSuffix : string := "_buffer".
Definition fileNameMaxLen : Z := 255.
Definition epochInfoMaxLen : Z := 7 + 20 + 1 + 20.
Definition queueInfoMaxLen : Z := 7 + 20.

#[global] Instance MemMapType_eq_dec : EqDecision MemMapType.
Proof. solve_decision. Defined.

(** The destination of the log is not modelled; of the monitor and of the listen
    callback only whether there is one. *)
Record Config := MkConfig {
  cf_ConnectionWriteTimeout : Z;
  cf_InitializeTimeout : Z;
  cf_QueueCap : Z;
  cf_QueuePath : string;
  cf_ShareMemoryBufferCap : Z;
  cf_ShareMemoryPathPrefix : string;
  cf_BufferSliceSizes : list SizePercentPair;
  cf_listenCallback : bool;
  cf_MemMapType : MemMapType;
  cf_Monitor : bool;
  cf_rebuildInterval : Z
}.

Definition DefaultConfig : Config :=
  MkConfig (10 * second) (1000 * millisecond) defaultQueueCap "/dev/shm/shmipc_queue" defaultShareMemoryCap "/dev/shm/shmipc"
    [SizePercent (8192 - bufferHeaderSize) 50; SizePercent (32 * 1024 - bufferHeaderSize) 30;
     SizePercent (128 * 1024 - bufferHeaderSize) 20]
    false MemMapTypeDevShmFile false sessionRebuildInterval.

(** The configuration of a session manager: where to connect to, and the number of
    sessions and of idle streams. *)
Record SessionManagerConfig := MkSmConfig {
  sc_Config : Config;
  sc_UnixPath : string;
  sc_Network : string;
  sc_Address : string;
  sc_SessionNum : Z;
  sc_MaxStreamNum : Z;
  sc_StreamMaxIdleTime : Z
}.

Definition DefaultSessionManagerConfig : SessionManagerConfig := MkSmConfig DefaultConfig "" "" "" 1 4096 (second * 30).

(** [runtime.GOOS] and [runtime.GOARCH] *)
Record platform := Platform { GOOS : string; GOARCH : string }.

Definition isArmArch (pf : platform) : bool :=
  bool_decide (GOARCH pf = "arm") || bool_decide (GOARCH pf = "arm64").

(** The loop over the sizes: the sum of the percentages, or an error. *)
Fixpoint verify_sizes (pf : platform) (cap : Z) (pairs : list SizePercentPair) (sum : Z) : error + Z :=
  match pairs with
  | [] => inr sum
  | sp :: pairs =>
      let sum := sum + sp_Percent sp in
      if sp_Size sp >? cap
      then inl (Errorf ("BufferSliceSizes's Size:" +:+ pretty (sp_Size sp) +:+
                        " couldn't greater than ShareMemoryBufferCap:" +:+ pretty cap))
      else if isArmArch pf && negb (sp_Size sp `mod` 4 =? 0)
      then inl (Errorf "the SizePercentPair.Size must be a multiple of 4")
      else verify_sizes pf cap pairs sum
  end.

Definition VerifyConfig (pf : platform) (config : Config) : option error :=
  if cf_ShareMemoryBufferCap config <? Z.shiftl 1 20
  then Some (Errorf ("share memory size is too small:" +:+ pretty (cf_ShareMemoryBufferCap config) +:+
                     ", must greater than " +:+ pretty (Z.shiftl 1 20)))
  else if (length (cf_BufferSliceSizes config) =? 0)%nat then Some (Errorf "BufferSliceSizes could not be nil")
  else
    match verify_sizes pf (cf_ShareMemoryBufferCap config) (cf_BufferSliceSizes config) 0 with
    | inl e => Some e
    | inr sum =>
        if negb (sum =? 100) then Some (Errorf "the sum of BufferSliceSizes's Percent should be 100")
        else if isArmArch pf && negb (cf_QueueCap config `mod` 8 =? 0)
        then Some (Errorf "the QueueCap must be a multiple of 8")
        else if bool_decide (cf_ShareMemoryPathPrefix config = "") || bool_decide (cf_QueuePath config = "")
        then Some (Errorf "buffer path or queue path could not be nil")
        else if negb (bool_decide (GOOS pf = "linux")) then Some ErrOSNonSupported
        else if negb (bool_decide (GOARCH pf = "amd64")) && negb (bool_decide (GOARCH pf = "arm64"))
        then Some ErrArchNonSupported
        else None
    end.

(** ** The paths of a client *)

Definition with_paths (prefix queue : string) (c : Config) : Config :=
  MkConfig (cf_ConnectionWriteTimeout c) (cf_InitializeTimeout c) (cf_QueueCap c) queue (cf_ShareMemoryBufferCap c) prefix
    (cf_BufferSliceSizes c) (cf_listenCallback c) (cf_MemMapType c) (cf_Monitor c) (cf_rebuildInterval c).

(** The part of [newClientSession] between the dial and [newSession]: the copy of
    the configuration with the paths of this process, epoch and session. *)
Definition clientConfig (pid sessionID epochID randID : Z) (config : Config) : error + Config :=
  let prefix := cf_ShareMemoryPathPrefix config +:+ "_" +:+ pretty pid in
  if bool_decide (cf_MemMapType config = MemMapTypeDevShmFile) &&
     (Z.of_nat (String.length prefix) + epochInfoMaxLen + queueInfoMaxLen >? fileNameMaxLen)
  then inl ErrFileNameTooLong
  else
    let prefix := if epochID >? 0 then prefix +:+ "_epoch_" +:+ pretty epochID +:+ "_" +:+ pretty randID else prefix in
    let queue := if negb (bool_decide (prefix = "")) then prefix +:+ "_queue_" +:+ pretty sessionID else cf_QueuePath config in
    inr (with_paths prefix queue config).

(** ** Validation *)

Lemma verify_sizes_spec pf cap pairs : ∀ sum t,
  verify_sizes pf cap pairs sum = inr t ↔
  t = sum + sum_percent pairs ∧ Forall (λ sp, sp_Size sp ≤ cap ∧ (isArmArch pf = true → sp_Size sp `mod` 4 = 0)) pairs.
Proof.
  induction pairs as [|sp pairs IH]; intros sum t; cbn [verify_sizes sum_percent foldr].
  - split; [intros [= <-]; split; [lia|constructor]|]. intros [-> _]. f_equal. lia.
  - fold (sum_percent pairs). rewrite Forall_cons. destruct (sp_Size sp >? cap) eqn:E1; breflect; [split; [done|lia]|].
    destruct (isArmArch pf) eqn:Ea; cbn [andb]; [destruct (sp_Size sp `mod` 4 =? 0) eqn:E2; cbn [negb]; breflect|].
    + rewrite IH. split; intros [-> Hf]; split; try lia; [by split|by destruct Hf].
    + split; [done|]. intros [_ [[_ H] _]]. by specialize (H eq_refl).
    + rewrite IH. split; intros [-> Hf]; split; try lia; [by split|by destruct Hf].
Qed.

(** [VerifyConfig] accepts the configurations with at least 1 MB of shared memory (its
    message says more than 1 MB), at least one slice size, no slice larger than the memory,
    percentages that add up to 100, both paths, on linux with amd64 or arm64; and on ARM
    only sizes that are multiples of 4 and a queue capacity that is a multiple of 8. *)
Lemma VerifyConfig_spec pf c :
  VerifyConfig pf c = None ↔
  2 ^ 20 ≤ cf_ShareMemoryBufferCap c ∧ cf_BufferSliceSizes c ≠ [] ∧
  Forall (λ sp, sp_Size sp ≤ cf_ShareMemoryBufferCap c ∧ (isArmArch pf = true → sp_Size sp `mod` 4 = 0)) (cf_BufferSliceSizes c) ∧
  sum_percent (cf_BufferSliceSizes c) = 100 ∧
  (isArmArch pf = true → cf_QueueCap c `mod` 8 = 0) ∧
  cf_ShareMemoryPathPrefix c ≠ "" ∧ cf_QueuePath c ≠ "" ∧
  GOOS pf = "linux" ∧ (GOARCH pf = "amd64" ∨ GOARCH pf = "arm64").
Proof.
  unfold VerifyConfig. change (Z.shiftl 1 20) with (2 ^ 20).
  destruct (cf_ShareMemoryBufferCap c <? 2 ^ 20) eqn:E1; breflect; [split; [done|lia]|].
  destruct (length (cf_BufferSliceSizes c) =? 0)%nat eqn:E2; breflect.
  { split; [done|]. intros (_&Hn&_). by destruct (cf_BufferSliceSizes c). }
  assert (cf_BufferSliceSizes c ≠ []) as Hne by (by intros Hx; rewrite Hx in E2).
  destruct (verify_sizes _ _ _ 0) as [e|sum] eqn:Es.
  { split; [done|]. intros (_&_&Hf&_). exfalso.
    pose proof (proj2 (verify_sizes_spec pf (cf_ShareMemoryBufferCap c) (cf_BufferSliceSizes c) 0 (0 + sum_percent (cf_BufferSliceSizes c)))) as H.
    rewrite Es in H. by specialize (H (conj eq_refl Hf)). }
  apply verify_sizes_spec in Es as [-> Hf]. rewrite Z.add_0_l.
  destruct (sum_percent (cf_BufferSliceSizes c) =? 100) eqn:E3; cbn [negb]; breflect; [|split; [done|tauto]].
  destruct (isArmArch pf && negb (cf_QueueCap c `mod` 8 =? 0)) eqn:E4.
  { apply andb_prop in E4 as [Ha Hq]. breflect. split; [done|]. intros (_&_&_&_&H&_). by specialize (H Ha). }
  assert (isArmArch pf = true → cf_QueueCap c `mod` 8 = 0) as Hq.
  { intros Ha. rewrite Ha in E4. cbn in E4. breflect. done. }
  repeat case_bool_decide; cbn; split; try done; try tauto.
Qed.

(** ** A verified configuration can be served *)

(** A size and its percentage are 32-bit words, and the size leaves room for a header. *)
Record pair_typed (sp : SizePercentPair) : Prop := {
  pt_size : 0 ≤ sp_Size sp;
  pt_size32 : sp_Size sp + bufferHeaderSize < 2 ^ 32;
  pt_percent : 0 ≤ sp_Percent sp
}.

(** The size gets at least one slot of the region. *)
Definition gets_slot (R : Z) (sp : SizePercentPair) : Prop := 0 < sp_Size sp ∧ 0 < pair_num R sp.
#[global] Instance gets_slot_dec R sp : Decision (gets_slot R sp).
Proof. unfold gets_slot. apply _. Defined.

Lemma gets_slot_ok R sp : pair_typed sp → gets_slot R sp → pair_ok R sp.
Proof. intros [] []. by constructor. Qed.

Lemma sum_percent_typed pairs : Forall pair_typed pairs → 0 ≤ sum_percent pairs.
Proof. unfold sum_percent. induction 1 as [|sp pairs [] _ IH]; cbn; lia. Qed.

(** The first size that gets no slot ends the loop with an error. *)
Lemma create_lists_rejects pairs : ∀ m mem R sum U,
  0 ≤ R < 2 ^ 32 → 0 ≤ U → 0 ≤ sum → sum + sum_percent pairs ≤ 100 → Forall pair_typed pairs → ¬ Forall (gets_slot R) pairs →
  U + bufferListHeaderSize * Z.of_nat (length pairs) + (R * sum_percent pairs) `div` 100 ≤ s_len mem →
  s_len mem < 2 ^ 32 → s_len mem ≤ s_cap mem → in_mem m (slice_ptr mem) (s_len mem) →
  ∃ e m', create_lists pairs mem R sum U m = Done (inl e, m').
Proof.
  induction pairs as [|sp pairs IH]; intros m mem R sum U HR HU Hsum Hs Ht Hno Hend Hlen Hcap Hin; [by destruct Hno|].
  apply Forall_cons in Ht as [Hsp Ht]. pose proof (sum_percent_typed pairs Ht). pose proof Hsp as [].
  cbn [sum_percent foldr] in Hs, Hend. fold (sum_percent pairs) in Hs, Hend. cbn [length] in Hend. rewrite Nat2Z.inj_succ in Hend.
  pose proof (pair_num_u R sp HR ltac:(lia) ltac:(lia) ltac:(done)) as Hnum.
  cbn [create_lists]. rewrite (u32_small (sum + _)) by lia. bdecide. rewrite (u32_small (sp_Size sp + _)) in * by (consts; lia).
  replace (sp_Size sp + bufferHeaderSize =? 0) with false by (symmetry; apply Z.eqb_neq; consts; lia). cbv iota. rewrite Hnum.
  assert (0 ≤ pair_num R sp) as Hpos by (unfold pair_num; consts; apply Z.div_pos; [apply Z.div_pos; nia|lia]).
  destruct (decide (gets_slot R sp)) as [Hg|Hg]; last first.
  { unfold createFreeBufferList. replace ((pair_num R sp =? 0) || (sp_Size sp =? 0)) with true; [by repeat eexists|].
    symmetry. apply orb_true_iff. rewrite !Z.eqb_eq. unfold gets_slot in Hg. lia. }
  apply (gets_slot_ok _ _ Hsp) in Hg as Hok. pose proof (pair_bytes_bound R sp Hok) as Hb. pose proof (pair_bytes_pos R sp Hok).
  assert ((R * sp_Percent sp) `div` 100 + (R * sum_percent pairs) `div` 100 ≤ (R * (sp_Percent sp + sum_percent pairs)) `div` 100) as Hadd.
  { rewrite Z.mul_add_distr_l. apply Z.div_le_lower_bound; [lia|].
    pose proof (Z.mul_div_le (R * sp_Percent sp) 100). pose proof (Z.mul_div_le (R * sum_percent pairs) 100). lia. }
  assert (0 ≤ (R * sum_percent pairs) `div` 100) by (apply Z.div_pos; nia).
  assert (list_room m mem U (sp_Size sp) (pair_num R sp)) as Hroom.
  { destruct Hok. constructor; try done. unfold pair_bytes in *. consts. lia. }
  destruct (createFreeBufferList_ok m mem U _ _ Hroom) as (m1&E1&_&C1). mrun E1.
  rewrite countBufferListMemSize_ok by (unfold pair_bytes in *; consts; lia).
  change (bufferListHeaderSize + pair_num R sp * (sp_Size sp + bufferHeaderSize)) with (pair_bytes R sp).
  rewrite (u32_small (U + _)) by (consts; lia).
  destruct (IH m1 mem R (sum + sp_Percent sp) (U + pair_bytes R sp)) as (e&m2&E2); try done; try (consts; lia).
  { intros Hall. apply Hno. by constructor. }
  { by apply C1. }
  exists e, m2. by mrun E2.
Qed.

(** [C37] What becomes of a verified configuration, for any mapping of the configured
    capacity whose headers of the lists fit into it, when the capacity is at most 4 GiB less
    21 bytes and there are fewer than 65536 sizes.  [VerifyConfig] does not look at the slots
    a size gets: if every size is positive and its share of the memory holds at least one
    slot, [createBufferManager] succeeds with every slot free, and the peer maps the same
    lists; if not, [createBufferManager] returns an error.  It does not panic. *)
Theorem verified_config_served pf c m mem pathC pathS :
  let pairs := cf_BufferSliceSizes c in let R := region_cap mem 0 pairs in
  VerifyConfig pf c = None → Forall (λ sp, 0 ≤ sp_Size sp ∧ 0 ≤ sp_Percent sp) pairs → Z.of_nat (length pairs) < 2 ^ 16 → 0 ≤ R →
  s_len mem = cf_ShareMemoryBufferCap c → cf_ShareMemoryBufferCap c + bufferHeaderSize < 2 ^ 32 → s_len mem ≤ s_cap mem →
  in_mem m (slice_ptr mem) (s_len mem) →
  if decide (Forall (gets_slot R) pairs)
  then ∃ m', createBufferManager pairs pathC mem 0 m = Done (inr (manager_of mem 20 0 pairs pathC), m') ∧
         lists_fresh m' (mgr_layout mem 20 0 pairs) ∧
         mappingBufferManager pathS mem 0 m' = Done (inr (manager_of mem 24 0 pairs pathS), m')
  else ∃ e m', createBufferManager pairs pathC mem 0 m = Done (inl e, m').
Proof.
  intros pairs R (_&Hne&Hsz&Hsum&_)%VerifyConfig_spec Hnn Hnum HR Hlen H32 Hcap Hin. fold pairs in Hne, Hsz, Hsum.
  assert (0 < Z.of_nat (length pairs)) by (destruct pairs; [done|cbn; lia]).
  assert (Forall pair_typed pairs) as Ht.
  { rewrite Forall_forall in Hnn, Hsz |- *. intros sp Hsp. destruct (Hnn sp Hsp), (Hsz sp Hsp). constructor; lia. }
  assert (R < 2 ^ 32) by (unfold R, region_cap, bufferManagerHeaderSize; consts; lia).
  case_decide as Hg.
  - assert (mgr_room m mem 0 pairs) as Hr.
    { constructor; try done; try lia; [|consts; lia]. rewrite Forall_forall in Ht, Hg |- *. intros sp Hsp. apply gets_slot_ok; auto. }
    destruct (createBufferManager_ok m mem 0 pairs pathC Hr) as (m'&E&Hf&Hh&Hr').
    exists m'. split_and!; [done|done|]. apply mappingBufferManager_ok; [done|done|].
    eapply Forall_impl; [exact Hf|]. intros g Hgm. by exists 0, (all_slots g).
  - destruct (store_u16_ok m (padd (slice_ptr mem) 0) (Z.of_nat (length pairs))) as (m1&E1&_&C1).
    { eapply in_mem_sub; [exact Hin|unfold R, region_cap, bufferManagerHeaderSize in *; consts; lia..]. }
    destruct (create_lists_rejects pairs m1 mem R 0 bufferManagerHeaderSize) as (e&m2&E2); try done; try (consts; lia).
    { rewrite Hsum, Z.div_mul by lia. unfold R, region_cap. lia. }
    { by apply C1. }
    assert (8 < s_len mem) by (unfold R, region_cap, bufferManagerHeaderSize in HR; consts; lia).
    exists e, m2. unfold createBufferManager. unfold R, region_cap, bufferManagerHeaderSize in *. bdecide.
    mby ltac:(apply index_ptr_ok; lia). mrun E1.
    rewrite (u64_small (_ - 8)) by lia. change (u32 (8 + 0)) with 8. by mrun E2.
Qed.

(** The default configuration is served; with one more size that gets no share of the
    memory it is verified all the same, and there is no manager. *)
Definition no_share : Config :=
  let d := DefaultConfig in
  MkConfig (cf_ConnectionWriteTimeout d) (cf_InitializeTimeout d) (cf_QueueCap d) (cf_QueuePath d) (cf_ShareMemoryBufferCap d)
    (cf_ShareMemoryPathPrefix d) (cf_BufferSliceSizes d ++ [SizePercent (256 * 1024 - bufferHeaderSize) 0])
    (cf_listenCallback d) (cf_MemMapType d) (cf_Monitor d) (cf_rebuildInterval d).

Lemma verified_config_served_witness :
  let pf := Platform "linux" "arm64" in
  let mem := GSlice 0 0 defaultShareMemoryCap defaultShareMemoryCap in
  let m : gmem := {[ 0%nat := replicate (Z.to_nat defaultShareMemoryCap) 0 ]} in
  VerifyConfig pf DefaultConfig = None ∧ VerifyConfig pf no_share = None ∧
  (∃ m', createBufferManager (cf_BufferSliceSizes DefaultConfig) "a" mem 0 m
          = Done (inr (manager_of mem 20 0 (cf_BufferSliceSizes DefaultConfig) "a"), m') ∧
        mappingBufferManager "b" mem 0 m' = Done (inr (manager_of mem 24 0 (cf_BufferSliceSizes DefaultConfig) "b"), m')) ∧
  ∃ e m', createBufferManager (cf_BufferSliceSizes no_share) "a" mem 0 m = Done (inl e, m').
Proof.
  intros pf mem m. split; [reflexivity|]. split; [reflexivity|].
  assert (in_mem m (slice_ptr mem) (s_len mem)) as Hin.
  { split; [discriminate|]. split; [discriminate|]. exists (replicate (Z.to_nat defaultShareMemoryCap) 0).
    split; [apply lookup_singleton_eq|]. rewrite length_replicate, Z2Nat.id by discriminate. reflexivity. }
  split.
  - pose proof (verified_config_served pf DefaultConfig m mem "a" "b" eq_refl ltac:(repeat constructor; discriminate) eq_refl
      ltac:(discriminate) eq_refl eq_refl ltac:(discriminate) Hin) as H. cbv zeta in H.
    destruct (decide _) as [_|Hno] in H; [destruct H as (m'&E1&_&E2); exists m'; split; [exact E1|exact E2]|].
    exfalso. apply Hno. repeat constructor; vm_compute; reflexivity.
  - pose proof (verified_config_served pf no_share m mem "a" "b" eq_refl ltac:(repeat constructor; discriminate) eq_refl
      ltac:(discriminate) eq_refl eq_refl ltac:(discriminate) Hin) as H. cbv zeta in H.
    destruct (decide _) as [Hall|_] in H; [|exact H].
    exfalso. do 3 apply Forall_inv_tail in Hall. destruct (Forall_inv Hall) as [_ Hz]. vm_compute in Hz. discriminate Hz.
Defined.

(** ** Paths *)

Lemma pretty_go_length k : ∀ x s, (x < 10 ^ N.of_nat k)%N → (String.length (pretty_N_go x s) ≤ k + String.length s)%nat.
Proof.
  induction k as [|k IH]; intros x s Hx.
  - assert (x = 0)%N as -> by (cbn in Hx; lia). rewrite pretty_N_go_0. lia.
  - destruct (decide (x = 0)%N) as [->|Hne]; [rewrite pretty_N_go_0; lia|].
    rewrite pretty_N_go_step by lia. etransitivity; [apply IH|cbn; lia].
    apply N.Div0.div_lt_upper_bound. rewrite Nat2N.inj_succ, N.pow_succ_r' in Hx. lia.
Qed.

Lemma pretty_length k x : (0 < k)%nat → 0 ≤ x < 10 ^ Z.of_nat k → (String.length (pretty x) ≤ k)%nat.
Proof.
  intros Hk Hx. destruct x as [|x|x]; [cbn; lia| |lia]. change (pretty (Z.pos x)) with (pretty (N.pos x)).
  unfold pretty, pretty_N. case_decide; [done|]. etransitivity; [apply (pretty_go_length k)|cbn; lia].
  apply N2Z.inj_lt. rewrite N2Z.inj_pow, nat_N_Z. cbn [Z.of_N]. lia.
Qed.

Lemma length_sapp a b : String.length (a +:+ b) = (String.length a + String.length b)%nat.
Proof. induction a as [|c a IH]; [done|]. exact (f_equal S IH). Qed.

(** [C39] The check of [newClientSession] is enough: when it accepts the prefix of
    a client over files, the paths of the queue and of the buffer fit into the
    255 bytes of a file name, for every epoch and random id of 64 bits and
    every non-negative session id. *)
Theorem client_paths_bounded pid sessionID epochID randID c c' :
  cf_MemMapType c = MemMapTypeDevShmFile → 0 ≤ sessionID < 2 ^ 63 → 0 ≤ epochID < 2 ^ 64 → 0 ≤ randID < 2 ^ 64 →
  clientConfig pid sessionID epochID randID c = inr c' →
  Z.of_nat (String.length (cf_QueuePath c')) ≤ fileNameMaxLen ∧
  Z.of_nat (String.length (cf_ShareMemoryPathPrefix c' +:+ bufferPathSuffix)) ≤ fileNameMaxLen.
Proof.
  intros Hd Hs He Hr. unfold clientConfig. rewrite Hd, bool_decide_eq_true_2 by done. cbn [andb].
  set (prefix := cf_ShareMemoryPathPrefix c +:+ "_" +:+ pretty pid).
  destruct (_ >? fileNameMaxLen) eqn:El; [done|]. breflect.
  unfold epochInfoMaxLen, queueInfoMaxLen, fileNameMaxLen in *.
  pose proof (pretty_length 20 sessionID ltac:(lia) ltac:(lia)). pose proof (pretty_length 20 epochID ltac:(lia) ltac:(lia)).
  pose proof (pretty_length 20 randID ltac:(lia) ltac:(lia)).
  assert (prefix ≠ "") as Hp by (unfold prefix; intros Hp%(f_equal String.length); rewrite !length_sapp in Hp; cbn in Hp; lia).
  intros [= <-]. destruct (epochID >? 0); cbn [with_paths cf_QueuePath cf_ShareMemoryPathPrefix];
    [|rewrite (bool_decide_eq_false_2 (prefix = "")) by done; rewrite !length_sapp; cbn [String.length bufferPathSuffix negb];
      rewrite ?length_sapp; cbn; lia].
  rewrite bool_decide_eq_false_2; [cbn [negb]; rewrite !length_sapp; cbn; lia|].
  intros Hq%(f_equal String.length). rewrite !length_sapp in Hq. cbn in Hq. lia.
Qed.

Lemma client_paths_bounded_witness :
  ∃ c', clientConfig 4711 3 17 18446744073709551615 DefaultConfig = inr c' ∧
    cf_QueuePath c' = "/dev/shm/shmipc_4711_epoch_17_18446744073709551615_queue_3" ∧
    Z.of_nat (String.length (cf_QueuePath c')) ≤ fileNameMaxLen.
Proof.
  destruct (clientConfig 4711 3 17 18446744073709551615 DefaultConfig) as [e|c'] eqn:E.
  { vm_compute in E. discriminate E. }
  exists c'. split; [reflexivity|]. split.
  - vm_compute in E. injection E as <-. reflexivity.
  - apply (client_paths_bounded 4711 3 17 18446744073709551615 DefaultConfig c'); [reflexivity|lia|lia|lia|exact E].
Defined.
