(* ===== verification/NewSession.v ===== *)
(** * The construction of a session ([session.go], [session_manager.go])

    [newSession] puts the parts together: it verifies the configuration, creates
    the shared memory of a client, runs the handshake and registers the
    connection; when the handshake fails it gives the shared memory back. *)

From Stdlib Require Import ZArith Lia.
From stdpp Require Import prelude list gmap strings pretty.
From S2P Require Import Handshake.
From S2P Require Import Prelude GoMem Queue BufferSlice BufferList BufferManager Allocator ShmAllocator LinkedBuffer Protocol Config Events Session.

(** The bytes of a path. *)
Fixpoint text_bytes (s : string) : list Z :=
  match s with
  | EmptyString => []
  | String c s => Z.of_N (Ascii.N_of_ascii c) :: text_bytes s
  end.

Section new_session.
(** The rest of the world: sockets, files, the epoll instance. *)
Context {W : Type}.

(** A process: its memory, its table of buffer managers, the world. *)
Record proc := Proc { pr_heap : heap; pr_bms : gmap string bufferManager; pr_world : W }.

Definition on_gbms {A} (m : M gbms A) : M proc A :=
  zoom (λ p, GBms (h_mem (pr_heap p)) (pr_bms p)) (λ g p, Proc (set_mem (gb_mem g) (pr_heap p)) (gb_bms g) (pr_world p)) m.
Definition on_pmem {A} (m : M gmem A) : M proc A :=
  zoom (λ p, h_mem (pr_heap p)) (λ g p, Proc (set_mem g (pr_heap p)) (pr_bms p) (pr_world p)) m.
Definition on_pworld {A} (m : M W A) : M proc A :=
  zoom pr_world (λ w p, Proc (pr_heap p) (pr_bms p) w) m.

Context (pf : platform) (os : os_ops) (idle : M gmem unit) (errno_text : Z → string).
Definition isLinux : bool := bool_decide (GOOS pf = "linux").

(** The connection: its network, [File()], and the system calls on it. *)
Context (conn_network : string) (conn_File : M W (error + Z)) (conn_Close : M W unit).
Context (sys_read : Z → M W (Z + list Z)) (sys_write : list Z → M W (Z + Z)).
Context (sendFd : Z → Z → M W (option error)) (recvmsg : Z → M W (list Z * Z * option error)).
Context (CmsgSpace : Z → Z) (ParseSocketControlMessage : list Z → error + list (list Z))
        (ParseUnixRights : list Z → error + list Z).
(** Whether the result of the handshake comes before its timeout; [setCallback]. *)
Context (init_in_time : M W bool) (setCallback : Z → M W (option error)).

Notation hsession := (@Handshake.session queueManager bufferManager).

(** ** Shared memory of a client *)

Definition set_managers (bm : bufferManager) (qm : queueManager) (s : hsession) : hsession :=
  Handshake.HsSession (Handshake.hs_isClient s) (Handshake.hs_memMapType s) (Handshake.hs_version s)
    (text_bytes (qm_path qm)) (text_bytes (bm_path bm)) (qm_memFd qm) (bm_memFd bm) (Some qm) (Some bm)
    (Handshake.hs_handshakeDone s).

Definition initMemManager (config : Config) (s : hsession) : M proc (option error * hsession) :=
  if negb (Handshake.hs_isClient s) then mret (None, s)
  else
    let bufferPath := cf_ShareMemoryPathPrefix config +:+ bufferPathSuffix in
    match cf_MemMapType config with
    | MemMapTypeDevShmFile =>
        r ← on_gbms (getGlobalBufferManager os isLinux bufferPath (cf_ShareMemoryBufferCap config) true (cf_BufferSliceSizes config));
        match r with
        | inl e =>
            _ ← on_pmem (os_remove os bufferPath);
            mret (Some (Errorf ("create share memory buffer manager failed ,error=" +:+ Handshake.error_text errno_text e)), s)
        | inr bm =>
            r ← on_pmem (createQueueManager os (isArmArch pf) isLinux (cf_QueuePath config) (cf_QueueCap config));
            match r with
            | inl e =>
                _ ← on_pmem (os_remove os (cf_QueuePath config));
                mret (Some (Errorf ("create share memory queue manager failed ,error=" +:+ Handshake.error_text errno_text e)), s)
            | inr qm => mret (None, set_managers bm qm s)
            end
        end
    | MemMapTypeMemFd =>
        r ← on_gbms (getGlobalBufferManagerWithMemFd os bufferPath 0 (cf_ShareMemoryBufferCap config) true (cf_BufferSliceSizes config));
        match r with
        | inl e =>
            mret (Some (Errorf ("create share memory buffer manager failed ,error=" +:+ Handshake.error_text errno_text e)), s)
        | inr bm =>
            r ← on_pmem (createQueueManagerWithMemFd os (isArmArch pf) (cf_QueuePath config) (cf_QueueCap config));
            match r with
            | inl e =>
                mret (Some (Errorf ("create share memory queue manager failed ,error=" +:+ Handshake.error_text errno_text e)), s)
            | inr qm => mret (None, set_managers bm qm s)
            end
        end
    end.

(** ** The handshake with its timeout *)

(** The goroutine of the handshake (Handshake.v) over this process: a server maps
    the queue and the buffer of the peer. *)
Definition run_handshake (s : hsession) : M proc (option error * hsession) :=
  Handshake.initProtocol (λ n, on_pworld (sys_read n)) (λ data, on_pworld (sys_write data)) errno_text
    (λ path, on_pmem (mappingQueueManager os (isArmArch pf) (Handshake.bytes_text path)))
    (λ path, on_gbms (getGlobalBufferManager os isLinux (Handshake.bytes_text path) 0 false []))
    (λ path fd, on_pmem (mappingQueueManagerMemfd os (isArmArch pf) (Handshake.bytes_text path) fd))
    (λ path fd, on_gbms (getGlobalBufferManagerWithMemFd os (Handshake.bytes_text path) fd 0 false []))
    (λ a b, on_pworld (sendFd a b)) (λ n, on_pworld (recvmsg n)) CmsgSpace ParseSocketControlMessage ParseUnixRights s.

(** On a timeout the goroutine goes on, its result is dropped; here it runs to its
    end before the session is judged. *)
Definition initProtocol (config : Config) (s : hsession) : M proc (option error * hsession) :=
  r ← run_handshake s;
  in_time ← on_pworld init_in_time;
  if (in_time : bool) then mret r
  else mret (Some (Errorf ("protocolInitializer init timeout:" +:+ pretty (cf_InitializeTimeout config `div` millisecond)
                           +:+ " ms")), r.2).

(** ** The session *)

Definition memMapCode (t : MemMapType) : Z := match t with MemMapTypeDevShmFile => 0 | MemMapTypeMemFd => 1 end.

Definition fresh_hsession (config : Config) (isClient : bool) : hsession :=
  Handshake.HsSession isClient (memMapCode (cf_MemMapType config)) protoVersion [] [] 0 0 None None false.

(** The record of a running session. *)
Definition made_session (config : Config) (h : heap) (s : hsession) (bm : bufferManager) : session :=
  Session.Session h ∅ (Some ∅) (if Handshake.hs_isClient s then 1 else 2) (Handshake.hs_isClient s) (Handshake.hs_version s)
    false None false false false false [] [] bm (Handshake.hs_queueManager s) (λ _, 0) 0 (cf_listenCallback config) None 0 [].

Definition newSession (config : option Config) (isClient : bool) : M proc (error + session) :=
  let config := default DefaultConfig config in
  match VerifyConfig pf config with
  | Some e => mret (inl (Errorf ("VerifyConfig failed: " +:+ Handshake.error_text errno_text e)))
  | None =>
      if bool_decide (cf_MemMapType config = MemMapTypeMemFd) && negb (bool_decide (conn_network = "unix"))
      then mret (inl (Errorf "conn.Network must be unix when config.MemMapType is MemMapTypeMemFd"))
      else
        fd ← on_pworld conn_File;
        match fd with
        | inl e => mret (inl (Errorf ("could get fd from conn,reason=" +:+ Handshake.error_text errno_text e)))
        | inr fd =>
            r ← initMemManager config (fresh_hsession config isClient);
            match r with
            | (Some e, _) =>
                _ ← on_pworld conn_Close;
                mret (inl (Errorf ("create share memory buffer manager failed ,error=" +:+ Handshake.error_text errno_text e)))
            | (None, s) =>
                r ← initProtocol config s;
                match r with
                | (Some e, s) =>
                    _ ← match Handshake.hs_queueManager s with
                        | Some qm => on_pmem (queueManager_unmap os qm)
                        | None => mret tt
                        end;
                    _ ← match Handshake.hs_bufferManager s with
                        | Some bm => on_gbms (addGlobalBufferManagerRefCount os idle (bm_path bm) (-1))
                        | None => mret tt
                        end;
                    _ ← on_pworld conn_Close;
                    mret (inl e)
                | (None, s) =>
                    err ← on_pworld (setCallback fd);
                    _ ← on_pworld conn_Close;
                    match err with
                    | Some e => mret (inl e)
                    | None =>
                        p ← get_state;
                        (** [s.queueManager.path]: a nil manager panics *)
                        _ ← of_option (Handshake.hs_queueManager s);
                        bm ← of_option (Handshake.hs_bufferManager s);
                        mret (inr (made_session config (pr_heap p) s bm))
                    end
                end
            end
        end
  end.

Definition Server (conf : option Config) : M proc (error + session) := newSession conf false.

(** [net.DialTimeout] of a network, an address and a timeout; its error is returned
    as it is. *)
Context (DialTimeout : string → string → Z → M W (option error)).

Definition newClientSession (pid sessionID epochID randID : Z) (config : SessionManagerConfig) : M proc (error + session) :=
  let timeout := cf_ConnectionWriteTimeout (sc_Config config) in
  err ← on_pworld (if negb (bool_decide (sc_UnixPath config = "")) then DialTimeout "unix" (sc_UnixPath config) timeout
                   else DialTimeout (sc_Network config) (sc_Address config) timeout);
  match err with
  | Some e => mret (inl e)
  | None =>
      match clientConfig pid sessionID epochID randID (sc_Config config) with
      | inl e => mret (inl e)
      | inr conf => newSession (Some conf) true
      end
  end.
End new_session.

(** ** The table of buffer managers *)

Definition same_bms {W} (p p' : @proc W) : Prop := pr_bms p' = pr_bms p.
#[global] Instance same_bms_preorder {W} : PreOrder (@same_bms W).
Proof. split; [by intros p|]. unfold same_bms. intros p1 p2 p3 -> ->. done. Qed.

(** Each manager is under its path and is in use. *)
Definition table_ok (bms : gmap string bufferManager) : Prop :=
  ∀ k bm, bms !! k = Some bm → bm_path bm = k ∧ 1 ≤ bm_refCount bm < 2 ^ 31 - 1.

Ltac same_step :=
  match goal with
  | |- keeps _ (_ ≫= _) => apply keeps_bind; [typeclasses eauto| |intros ?]
  | |- keeps _ (if ?b then _ else _) => destruct b
  | |- keeps _ (match ?x with _ => _ end) => destruct x
  | |- keeps _ (mret _) => apply keeps_ret; typeclasses eauto
  | |- keeps _ panic => apply keeps_panic
  | |- keeps _ out_of_fuel => apply keeps_fuel
  | |- keeps _ (of_option _) => apply keeps_of_option; typeclasses eauto
  | |- keeps _ (gsub _ _ _) => apply keeps_of_option; typeclasses eauto
  | |- keeps _ (gput _ _ _) => apply keeps_of_option; typeclasses eauto
  | |- keeps _ (gindex _ _) => apply keeps_of_option; typeclasses eauto
  | |- keeps _ (gmake _) => unfold gmake
  | |- keeps _ (on_pworld _) => by apply keeps_zoom
  | |- keeps _ (on_pmem _) => by apply keeps_zoom
  | |- keeps _ (on_gmem _) => by apply keeps_zoom
  end.
Create HintDb same.
Ltac same_auto := repeat first [solve [eauto 2 with same] | progress cbv beta zeta | same_step].
Ltac returns_auto :=
  repeat first [ progress cbv beta zeta | apply returns_bind; intros ? | by apply returns_ret
               | match goal with
                 | |- returns _ (if ?b then _ else _) => destruct b
                 | |- returns _ (match ?x with _ => _ end) => destruct x
                 end ].

Section client.
Context {W : Type} (sys_read : Z → M W (Z + list Z)) (sys_write : list Z → M W (Z + Z)) (errno_text : Z → string).
Context (sendFd : Z → Z → M W (option error)).
Notation rd := (λ n, on_pworld (sys_read n)).
Notation wr := (λ d, on_pworld (sys_write d)).
Notation hsession := (@Handshake.session queueManager bufferManager).

Lemma same_read_loop fuel : ∀ data n, keeps (@same_bms W) (Handshake.read_full_loop rd errno_text fuel data n).
Proof. induction fuel as [|fuel IH]; intros data n; cbn [Handshake.read_full_loop]; same_auto. Qed.
Lemma same_write_loop fuel : ∀ data n, keeps (@same_bms W) (Handshake.write_full_loop wr fuel data n).
Proof. induction fuel as [|fuel IH]; intros data n; cbn [Handshake.write_full_loop]; same_auto. Qed.
Hint Resolve same_read_loop same_write_loop : same.
Lemma same_wait t : keeps (@same_bms W) (Handshake.waitEventHeader rd errno_text t).
Proof.
  unfold Handshake.waitEventHeader, Handshake.blockReadEventHeader, Handshake.blockReadFull, checkEventValid, Magic, Version, MsgType.
  same_auto.
Qed.
Hint Resolve same_wait : same.
Lemma same_new_header v t : keeps (@same_bms W) (new_header v t).
Proof. unfold new_header, header_encode. same_auto. Qed.
Lemma same_metadata q b v t : keeps (@same_bms W) (generateShmMetadata q b v t).
Proof. unfold generateShmMetadata, header_encode. same_auto. Qed.
Hint Resolve same_new_header same_metadata : same.

Lemma same_send_path (s : hsession) : keeps (@same_bms W) (Handshake.sendShareMemoryByFilePath wr s).
Proof. unfold Handshake.sendShareMemoryByFilePath, Handshake.blockWriteFull. same_auto. Qed.
Lemma same_send_fd (s : hsession) : keeps (@same_bms W) (Handshake.sendMemFdToPeer rd wr errno_text (λ a b, on_pworld (sendFd a b)) s).
Proof. unfold Handshake.sendMemFdToPeer, Handshake.blockWriteFull. same_auto. Qed.
Hint Resolve same_send_path same_send_fd : same.
Lemma same_clientInit (s : hsession) : keeps (@same_bms W) (Handshake.clientInit rd wr errno_text (λ a b, on_pworld (sendFd a b)) s).
Proof. unfold Handshake.clientInit. same_auto. Qed.
Lemma same_clientGet (s : hsession) : keeps (@same_bms W) (Handshake.clientGetProtocolInitializer rd wr errno_text s).
Proof. unfold Handshake.clientGetProtocolInitializer, Handshake.blockWriteFull, Version. same_auto. Qed.

Lemma clientInit_kept (s : hsession) :
  returns (λ r : option error * hsession, Handshake.hs_bufferManager r.2 = Handshake.hs_bufferManager s)
    (Handshake.clientInit (W:=@proc W) rd wr errno_text (λ a b, on_pworld (sendFd a b)) s).
Proof.
  unfold Handshake.clientInit. intros p r p' (x&p1&E1&E)%bind_done_inv.
  assert (Handshake.hs_bufferManager x.2 = Handshake.hs_bufferManager s) as Hx.
  { revert E1. unfold Handshake.sendShareMemoryByFilePath, Handshake.sendMemFdToPeer.
    apply (λ m, m : returns (λ r : option error * hsession, Handshake.hs_bufferManager r.2 = Handshake.hs_bufferManager s) _).
    returns_auto. }
  destruct x as [[e|] s1]; [by injection E as <- _|]. apply bind_done_inv in E as (y&p2&_&E). by injection E as <- _.
Qed.
End client.

(** *** References *)

Definition new_manager (path : string) (r : error + bufferManager) : Prop :=
  ∀ bm, r = inr bm → bm_path bm = path ∧ bm_refCount bm = 1.

Lemma created_manager pairs path mem o : returns (new_manager path) (createBufferManager pairs path mem o).
Proof. unfold createBufferManager. returns_auto; apply returns_ret; intros bm Hbm; by simplify_eq. Qed.
Lemma mapped_manager path mem o : returns (new_manager path) (mappingBufferManager path mem o).
Proof. unfold mappingBufferManager. returns_auto; apply returns_ret; intros bm Hbm; by simplify_eq. Qed.

(** The table after a reference was taken. *)
Definition referenced (path : string) (g : gbms) (r : error + bufferManager) (g' : gbms) : Prop :=
  match r with
  | inl _ => gb_bms g' = gb_bms g
  | inr bm => gb_bms g' = <[path := bm]> (gb_bms g) ∧ bm_path bm = path ∧
      match gb_bms g !! path with
      | Some b => bm = with_refCount b (bm_refCount b + 1)
      | None => bm_refCount bm = 1
      end
  end.

Lemma on_gmem_bms {A} (m : M gmem A) g a g' : on_gmem m g = Done (a, g') → gb_bms g' = gb_bms g.
Proof. revert g a g'. apply (keeps_zoom (λ g g', gb_bms g' = gb_bms g)). done. Qed.
Lemma on_gmem_inv {A} (m : M gmem A) g a g' :
  on_gmem m g = Done (a, g') → m (gb_mem g) = Done (a, gb_mem g') ∧ gb_bms g' = gb_bms g.
Proof. unfold on_gmem, zoom. destruct (m (gb_mem g)) as [[x t]| |]; [|done|done]. by intros [= <- <-]. Qed.

Definition same_gb (g g' : gbms) : Prop := gb_bms g' = gb_bms g.
#[global] Instance same_gb_preorder : PreOrder same_gb.
Proof. split; [by intros g|]. unfold same_gb. intros g1 g2 g3 -> ->. done. Qed.

(** A manager that was created or mapped is put into the table. *)
Lemma enter_manager (m : M gmem (error + bufferManager)) (fl : error → M gbms (error + bufferManager))
    (f : bufferManager → bufferManager) (k : bufferManager → M gbms (error + bufferManager)) path g a g' :
  returns (new_manager path) m →
  (∀ e, keeps same_gb (fl e) ∧ returns (λ a, is_Some (maybe inl a)) (fl e)) →
  (∀ bm, keeps same_gb (k bm) ∧ returns (λ a, a = inr (f bm)) (k bm)) →
  (∀ bm, bm_path (f bm) = bm_path bm ∧ bm_refCount (f bm) = bm_refCount bm) →
  gb_bms g !! path = None →
  (r ← on_gmem m; match r with inl e => fl e | inr bm => _ ← put_bm path (f bm); k bm end) g = Done (a, g') →
  referenced path g a g'.
Proof.
  intros Hn Hf Hk Hid Hl (r&g1&E1&E)%bind_done_inv. apply on_gmem_inv in E1 as [E1 Hb1]. destruct r as [e|bm].
  - destruct (Hf e) as [H1 H2]. destruct (H2 _ _ _ E) as [e' He']. destruct a; [|done]. cbn. rewrite <- Hb1. by eapply H1.
  - apply bind_done_inv in E as (?&g2&E2&E). injection E2 as _ <-. destruct (Hn _ _ _ E1 bm eq_refl) as [Hp Hr].
    destruct (Hk bm) as [H1 H2]. rewrite (H2 _ _ _ E). cbn. destruct (Hid bm) as [-> ->]. rewrite Hl, (H1 _ _ _ E). cbn.
    by rewrite Hb1.
Qed.

Lemma referenced_ext path g1 g r g' : gb_bms g1 = gb_bms g → referenced path g1 r g' → referenced path g r g'.
Proof. unfold referenced. by intros ->. Qed.

Lemma getGlobal_file os lin path cap create pairs g r g' : table_ok (gb_bms g) →
  getGlobalBufferManager os lin path cap create pairs g = Done (r, g') → referenced path g r g'.
Proof.
  intros Ht. unfold getGlobalBufferManager. intros (g0&g1&E0&E)%bind_done_inv. injection E0 as <- <-.
  destruct (gb_bms g !! path) as [bm|] eqn:Hl.
  - apply bind_done_inv in E as (?&g1&E1&E). injection E1 as _ <-. injection E as <- <-. cbn. rewrite Hl. cbn.
    destruct (Ht path bm Hl) as [Hp Hr]. rewrite i32_small by lia. done.
  - apply bind_done_inv in E as (?&g1&E1&E). apply on_gmem_bms in E1. apply bind_done_inv in E as (y&g2&E2&E).
    assert (gb_bms g2 = gb_bms g) as Hb.
    { rewrite <- E1. revert E2. apply (λ m, m : keeps same_gb _). same_auto. }
    destruct y as [e|[fd n]]; [by injection E as <- <-|].
    apply bind_done_inv in E as (y&g3&E3&E). apply on_gmem_bms in E3.
    destruct y as [e|mem].
    { apply bind_done_inv in E as (?&g4&E4&E). apply on_gmem_bms in E4. injection E as <- <-. cbn. congruence. }
    apply (referenced_ext path g3); [congruence|]. revert E. apply (enter_manager _ _ id).
    + destruct create; [apply created_manager|apply mapped_manager].
    + intros e. split; [same_auto|]. returns_auto; try (apply returns_ret; eauto).
    + intros bm. split; [same_auto|]. returns_auto.
    + done.
    + congruence.
Qed.

Lemma getGlobal_memfd os path fd cap create pairs g r g' : table_ok (gb_bms g) →
  getGlobalBufferManagerWithMemFd os path fd cap create pairs g = Done (r, g') → referenced path g r g'.
Proof.
  intros Ht. unfold getGlobalBufferManagerWithMemFd. intros (g0&g1&E0&E)%bind_done_inv. injection E0 as <- <-.
  destruct (gb_bms g !! path) as [bm|] eqn:Hl.
  - apply bind_done_inv in E as (?&g1&E1&E). injection E1 as _ <-. apply bind_done_inv in E as (?&g2&E2&E).
    injection E as <- <-. cbn. rewrite Hl. cbn. destruct (Ht path bm Hl) as [Hp Hr]. rewrite i32_small by lia.
    split; [|done]. destruct (_ && _); [apply on_gmem_bms in E2; rewrite E2; cbn|injection E2 as _ <-; cbn];
      by rewrite i32_small by lia.
  - apply bind_done_inv in E as (y&g2&E2&E).
    assert (gb_bms g2 = gb_bms g) as Hb.
    { revert E2. apply (λ m, m : keeps same_gb _). same_auto. }
    destruct y as [e|[fd' n]]; [by injection E as <- <-|].
    apply bind_done_inv in E as (y&g3&E3&E). apply on_gmem_bms in E3.
    destruct y as [e|mem]; [injection E as <- <-; cbn; congruence|].
    apply (referenced_ext path g3); [congruence|]. revert E. apply (enter_manager _ _ (λ bm, with_memFd bm fd')).
    + destruct create; [apply created_manager|apply mapped_manager].
    + intros e. split; [same_auto|]. returns_auto; try (apply returns_ret; eauto).
    + intros bm. split; [same_auto|]. by apply returns_ret.
    + done.
    + congruence.
Qed.

(** Giving the reference back restores the table. *)
Lemma reference_returned os idle path g bm g1 u g' : table_ok (gb_bms g) →
  referenced path g (inr bm) g1 → addGlobalBufferManagerRefCount os idle path (-1) g1 = Done (u, g') → gb_bms g' = gb_bms g.
Proof.
  intros Ht (Hb&Hp&Hr) E. unfold addGlobalBufferManagerRefCount in E. apply bind_done_inv in E as (?&?&E1&E).
  injection E1 as <- <-. rewrite Hb, lookup_insert_eq in E. apply bind_done_inv in E as (?&g2&E2&E). injection E2 as _ <-.
  change (i32 (-1)) with (-1) in E. destruct (gb_bms g !! path) as [b|] eqn:Hl.
  - destruct (Ht path b Hl) as [Hbp Hbr]. subst bm. cbn [bm_refCount with_refCount] in E. rewrite i32_small in E by lia.
    rewrite (proj2 (Z.leb_gt _ _)) in E by lia. injection E as _ <-. cbn. rewrite Hb, insert_insert_eq.
    apply insert_id. rewrite Hl. replace (bm_refCount b + 1 + -1) with (bm_refCount b) by lia. by destruct b.
  - rewrite Hr in E. change (i32 (1 + -1) <=? 0) with true in E. cbv iota in E. apply bind_done_inv in E as (?&g3&E3&E).
    apply on_gmem_bms in E3. injection E as _ <-. cbn. rewrite E3. cbn.
    by rewrite delete_insert_eq, Hb, delete_insert_eq, delete_id.
Qed.

Section table.
Context {W : Type} (pf : platform) (os : os_ops) (idle : M gmem unit) (errno_text : Z → string).
Context (conn_network : string) (conn_File : M W (error + Z)) (conn_Close : M W unit).
Context (sys_read : Z → M W (Z + list Z)) (sys_write : list Z → M W (Z + Z)).
Context (sendFd : Z → Z → M W (option error)) (recvmsg : Z → M W (list Z * Z * option error)).
Context (CmsgSpace : Z → Z) (ParseSocketControlMessage : list Z → error + list (list Z))
        (ParseUnixRights : list Z → error + list Z).
Context (init_in_time : M W bool) (setCallback : Z → M W (option error)).
Notation hsession := (@Handshake.session queueManager bufferManager).
Notation handshake := (run_handshake pf os errno_text sys_read sys_write sendFd recvmsg CmsgSpace ParseSocketControlMessage ParseUnixRights).
Notation initP := (initProtocol pf os errno_text sys_read sys_write sendFd recvmsg CmsgSpace ParseSocketControlMessage ParseUnixRights init_in_time).

(** The handshake of a client changes neither the table nor its managers. *)
Lemma client_handshake (s : hsession) p r p' :
  Handshake.hs_isClient s = true → handshake s p = Done (r, p') →
  pr_bms p' = pr_bms p ∧ Handshake.hs_bufferManager r.2 = Handshake.hs_bufferManager s.
Proof.
  intros Hc. unfold run_handshake, Handshake.initProtocol, Handshake.getProtocolInitializer. rewrite Hc.
  intros (i&p1&E1&E)%bind_done_inv. apply same_clientGet in E1. unfold same_bms in E1. rewrite <- E1.
  destruct i as [e|i]; [by injection E as <- <-|]. unfold Handshake.initializer_Init in E.
  destruct i as [fe|fe]; cbn [Handshake.set_version Handshake.hs_isClient] in E.
  - unfold Handshake.initV2 in E. cbn [Handshake.hs_isClient Handshake.set_version] in E. rewrite Hc in E. cbn [negb] in E.
    split; [by apply same_send_path in E|]. revert E. unfold Handshake.sendShareMemoryByFilePath.
    apply (λ m, m : returns (λ r : option error * hsession, Handshake.hs_bufferManager r.2 = Handshake.hs_bufferManager s) _).
    returns_auto.
  - rewrite Hc in E. split; [by apply same_clientInit in E|]. by apply clientInit_kept in E.
Qed.

Lemma client_initProtocol config (s : hsession) p r p' :
  Handshake.hs_isClient s = true → initP config s p = Done (r, p') →
  pr_bms p' = pr_bms p ∧ Handshake.hs_bufferManager r.2 = Handshake.hs_bufferManager s.
Proof.
  intros Hc (x&p1&E1&E)%bind_done_inv. destruct (client_handshake s p x p1 Hc E1) as [Hb Hx].
  apply bind_done_inv in E as (t&p2&E2&E).
  assert (pr_bms p2 = pr_bms p1) as Hb2 by (revert E2; by apply (keeps_zoom same_bms)).
  destruct t; injection E as <- <-; by rewrite Hb2.
Qed.

Notation new := (newSession pf os idle errno_text conn_network conn_File conn_Close sys_read sys_write sendFd recvmsg CmsgSpace
  ParseSocketControlMessage ParseUnixRights init_in_time setCallback).

Definition buffer_path (config : Config) : string := cf_ShareMemoryPathPrefix config +:+ bufferPathSuffix.

Lemma on_pmem_bms {A} (m : M gmem A) (p : @proc W) a p' : on_pmem m p = Done (a, p') → pr_bms p' = pr_bms p.
Proof. revert p a p'. by apply (keeps_zoom same_bms). Qed.
Lemma on_pworld_bms {A} (m : M W A) (p : @proc W) a p' : on_pworld m p = Done (a, p') → pr_bms p' = pr_bms p.
Proof. revert p a p'. by apply (keeps_zoom same_bms). Qed.
Lemma on_gbms_inv {A} (m : M gbms A) (p : @proc W) a p' : on_gbms m p = Done (a, p') →
  ∃ g', m (GBms (h_mem (pr_heap p)) (pr_bms p)) = Done (a, g') ∧ pr_bms p' = gb_bms g'.
Proof. unfold on_gbms, zoom. destruct (m _) as [[x g']| |]; [|done|done]. intros [= <- <-]. by exists g'. Qed.

(** A client holds one more reference when its memory is there. *)
Lemma initMemManager_client config (p : @proc W) s (p' : @proc W) :
  table_ok (pr_bms p) → initMemManager pf os errno_text config (fresh_hsession config true) p = Done ((None, s), p') →
  Handshake.hs_isClient s = true ∧
  ∃ bm, Handshake.hs_bufferManager s = Some bm ∧ bm_path bm = buffer_path config ∧
    referenced (buffer_path config) (GBms (h_mem (pr_heap p)) (pr_bms p)) (inr bm) (GBms ∅ (pr_bms p')).
Proof.
  intros Ht. unfold initMemManager. cbn [Handshake.hs_isClient fresh_hsession negb]. fold (buffer_path config).
  assert (∀ s0 bm qm g1 (p1 p2 : @proc W), Handshake.hs_isClient s0 = true → pr_bms p1 = gb_bms g1 → pr_bms p2 = pr_bms p1 →
    referenced (buffer_path config) (GBms (h_mem (pr_heap p)) (pr_bms p)) (inr bm) g1 → set_managers bm qm s0 = s → p2 = p' →
    Handshake.hs_isClient s = true ∧ ∃ bm, Handshake.hs_bufferManager s = Some bm ∧ bm_path bm = buffer_path config ∧
    referenced (buffer_path config) (GBms (h_mem (pr_heap p)) (pr_bms p)) (inr bm) (GBms ∅ (pr_bms p'))) as Hend.
  { intros s0 bm qm g1 p1 p2 Hc Hb1 Hb2 Hr <- <-. split; [done|]. exists bm. pose proof Hr as (_&Hp&_).
    split_and!; [done|done|]. unfold referenced. cbn. rewrite Hb2, Hb1. exact Hr. }
  destruct (cf_MemMapType config); intros (r&p1&E1&E)%bind_done_inv; apply on_gbms_inv in E1 as (g1&E1&Hb1).
  - apply getGlobal_file in E1; [|exact Ht]. destruct r as [e|bm]; [apply bind_done_inv in E as (?&?&_&E); discriminate E|].
    apply bind_done_inv in E as (r&p2&E2&E). apply on_pmem_bms in E2.
    destruct r as [e|qm]; [apply bind_done_inv in E as (?&?&_&E); discriminate E|]. injection E as E Ep. exact (Hend (fresh_hsession config true) bm qm g1 p1 p2 eq_refl Hb1 E2 E1 E Ep).
  - apply getGlobal_memfd in E1; [|exact Ht]. destruct r as [e|bm]; [discriminate E|].
    apply bind_done_inv in E as (r&p2&E2&E). apply on_pmem_bms in E2.
    destruct r as [e|qm]; [discriminate E|]. injection E as E Ep. exact (Hend (fresh_hsession config true) bm qm g1 p1 p2 eq_refl Hb1 E2 E1 E Ep).
Qed.

(** A client whose handshake fails. *)
Lemma new_session_failed config (p : @proc W) fd p1 s p2 e s' p3 r p' :
  let c := default DefaultConfig config in
  table_ok (pr_bms p) → VerifyConfig pf c = None → cf_MemMapType c = MemMapTypeDevShmFile ∨ conn_network = "unix" →
  on_pworld conn_File p = Done (inr fd, p1) →
  initMemManager pf os errno_text c (fresh_hsession c true) p1 = Done ((None, s), p2) →
  initP c s p2 = Done ((Some e, s'), p3) →
  new config true p = Done (r, p') → r = inl e ∧ pr_bms p' = pr_bms p.
Proof.
  intros c Ht Hv Hn Ef Em Ei E. unfold newSession in E. fold c in E. rewrite Hv in E.
  assert (bool_decide (cf_MemMapType c = MemMapTypeMemFd) && negb (bool_decide (conn_network = "unix")) = false) as Hm.
  { destruct Hn as [->| ->]; [done|]. by destruct (bool_decide _). }
  rewrite Hm in E. clear Hm. erewrite bind_done in E by exact Ef. cbv beta iota in E.
  erewrite bind_done in E by exact Em. cbv beta iota in E. erewrite bind_done in E by exact Ei. cbv beta iota in E.
  apply on_pworld_bms in Ef. rewrite <- Ef in Ht |- *.
  destruct (initMemManager_client c p1 s p2 Ht Em) as (Hc&bm&Hbm&Hpath&Href).
  destruct (client_initProtocol c s p2 _ p3 Hc Ei) as [Hb3 Hbm']. cbn [snd] in Hbm'.
  apply bind_done_inv in E as (?&p4&E4&E).
  assert (pr_bms p4 = pr_bms p3) as Hb4.
  { destruct (Handshake.hs_queueManager s'); [by apply on_pmem_bms in E4|by injection E4 as _ <-]. }
  rewrite Hbm', Hbm in E. apply bind_done_inv in E as (?&p5&E5&E). apply bind_done_inv in E as (?&p6&E6&E).
  apply on_pworld_bms in E6. injection E as <- <-. split; [done|]. rewrite E6.
  apply on_gbms_inv in E5 as (g5&E5&Hb5). rewrite Hb5, Hpath in *.
  eapply (reference_returned os idle (buffer_path c) (GBms (h_mem (pr_heap p1)) (pr_bms p1)) bm); [exact Ht| |exact E5].
  unfold referenced in *. cbn in *. rewrite Hb4, Hb3. exact Href.
Qed.
End table.

(** ** The properties *)

(** [C27] A client whose handshake fails gives its shared memory back: whatever
    the peer and the system calls do, when the memory was there and the
    handshake ended with an error, [newSession] returns that error, and the
    process-wide table holds the same managers with the same reference counts
    as before. *)
Theorem handshake_failure_releases {W : Type} pf os idle errno_text conn_network conn_File conn_Close sys_read sys_write sendFd
    recvmsg CmsgSpace parseCmsg parseRights init_in_time setCallback config (p : @proc W) fd p1 s p2 e s' p3 r p' :
  let c := default DefaultConfig config in
  table_ok (pr_bms p) → VerifyConfig pf c = None → cf_MemMapType c = MemMapTypeDevShmFile ∨ conn_network = "unix" →
  on_pworld conn_File p = Done (inr fd, p1) →
  initMemManager pf os errno_text c (fresh_hsession c true) p1 = Done ((None, s), p2) →
  initProtocol pf os errno_text sys_read sys_write sendFd recvmsg CmsgSpace parseCmsg parseRights init_in_time c s p2
    = Done ((Some e, s'), p3) →
  newSession pf os idle errno_text conn_network conn_File conn_Close sys_read sys_write sendFd recvmsg CmsgSpace parseCmsg
    parseRights init_in_time setCallback config true p = Done (r, p') →
  r = inl e ∧ pr_bms p' = pr_bms p.
Proof. apply new_session_failed. Qed.

(** A system in which files can be created, and a peer that is gone. *)
Definition demo_os (queue_exists : bool) : os_ops :=
  OsOps (λ _, mret (inr 3)) (λ _ _, mret None) (λ _, mret (inr 96)) (λ _ n, d ← make_bytes n; mret (inr d)) (λ _, mret None)
    (λ _, mret None) (λ _, mret None) (λ _, mret tt) (λ _, mret (Some queue_exists)) (mret (Some (2 ^ 40))) (λ _ _, mret (inr 4)).
Definition demo_config : Config :=
  MkConfig 0 0 2 "q" defaultShareMemoryCap "p" (cf_BufferSliceSizes DefaultConfig) false MemMapTypeDevShmFile false 0.
(** The buffer is in use by another session of the process. *)
Definition demo_proc : @proc unit :=
  Proc (Heap ∅ ∅ []) {[ "p_buffer" := BufferManager [] nil_slice 0 0 "p_buffer" 1 MemMapTypeDevShmFile 0 ]} tt.
Lemma demo_table : table_ok (pr_bms demo_proc).
Proof. intros k bm Hk. cbn in Hk. apply lookup_singleton_Some in Hk as [<- <-]. cbn. split; [reflexivity|lia]. Qed.

Lemma handshake_failure_releases_witness :
  ∃ r p', newSession (Platform "linux" "amd64") (demo_os false) (mret tt) (λ _, "") "unix" (mret (inr 5)) (mret tt)
      (λ _, mret (inl 104)) (λ _, mret (inl 32)) (λ _ _, mret None) (λ _, mret ([], 0, None)) id (λ _, inr []) (λ _, inr [])
      (mret true) (λ _, mret None) (Some demo_config) true demo_proc = Done (r, p') ∧
    r = inl (Errno 32) ∧ pr_bms p' = pr_bms demo_proc.
Proof.
  match goal with |- ∃ r p', ?m = _ ∧ _ => destruct m as [[r p']| |] eqn:E end.
  2, 3: vm_compute in E; discriminate E.
  exists r, p'. split; [reflexivity|].
  eapply handshake_failure_releases; [exact demo_table| | | | | |exact E].
  - reflexivity.
  - left. reflexivity.
  - reflexivity.
  - vm_compute. reflexivity.
  - vm_compute. reflexivity.
Defined.

(** A client that cannot create its queue keeps its buffer manager: when the
    manager was obtained and the creation of the queue fails,
    [initMemManager] returns an error without giving the reference back, so
    that the count in the process-wide table has gone up for good. *)
Theorem queue_failure_leaks {W : Type} pf os errno_text c (p : @proc W) bm p1 e p2 r p3 :
  let path := cf_ShareMemoryPathPrefix c +:+ bufferPathSuffix in
  let count (q : @proc W) := from_option bm_refCount 0 (pr_bms q !! path) in
  table_ok (pr_bms p) → cf_MemMapType c = MemMapTypeDevShmFile →
  on_gbms (getGlobalBufferManager os (isLinux pf) path (cf_ShareMemoryBufferCap c) true (cf_BufferSliceSizes c)) p
    = Done (inr bm, p1) →
  on_pmem (createQueueManager os (isArmArch pf) (isLinux pf) (cf_QueuePath c) (cf_QueueCap c)) p1 = Done (inl e, p2) →
  initMemManager pf os errno_text c (fresh_hsession c true) p = Done (r, p3) →
  is_Some r.1 ∧ count p3 = count p + 1.
Proof.
  intros path count Ht Hc Eb Eq. unfold initMemManager. rewrite Hc. cbn [Handshake.hs_isClient fresh_hsession negb]. fold path.
  erewrite bind_done by exact Eb. cbv beta iota. erewrite bind_done by exact Eq. cbv beta iota.
  intros (?&p4&E4&E)%bind_done_inv. injection E as <- <-. split; [done|].
  apply on_pmem_bms in E4, Eq. apply on_gbms_inv in Eb as (g1&Eb&Hb1). apply getGlobal_file in Eb; [|exact Ht].
  destruct Eb as (H1&_&H3). unfold count. rewrite E4, Eq, Hb1, H1, lookup_insert_eq. cbn in H3 |- *.
  destruct (pr_bms p !! path); cbn; [by rewrite H3|lia].
Qed.

(** The queue file exists already. *)
Lemma queue_failure_leaks_witness :
  ∃ r p', initMemManager (Platform "linux" "amd64") (demo_os true) (λ _, "") demo_config (fresh_hsession demo_config true) demo_proc
      = Done (r, p') ∧ is_Some r.1 ∧ from_option bm_refCount 0 (pr_bms p' !! "p_buffer") = 2.
Proof.
  match goal with |- ∃ r p', ?m = _ ∧ _ => destruct m as [[r p']| |] eqn:E end.
  2, 3: vm_compute in E; discriminate E.
  exists r, p'. split; [reflexivity|].
  eapply (queue_failure_leaks (Platform "linux" "amd64") (demo_os true) (λ _, "") demo_config demo_proc);
    [exact demo_table|reflexivity|vm_compute; reflexivity|vm_compute; reflexivity|exact E].
Defined.
