(* ===== verification/SessionManager.v ===== *)
(** * The session manager of a client ([session_manager.go])

    A pool of idle streams per session, the choice of a session for a new
    stream, and the cooperation with a server that restarts.  Sessions and
    pools are objects of the process, because a pool that is replaced in a hot
    restart goes on to exist until its session ends. *)

From Stdlib Require Import ZArith Lia.
From stdpp Require Import prelude list gmap strings pretty.
From S2P Require Import Handshake.
From S2P Require Import Prelude GoMem Queue BufferSlice BufferList BufferManager Allocator ShmAllocator LinkedBuffer Protocol Config Events Session SessionProofs NewSession.

Definition sessionRoundRobinThreshold : Z := 32.
Definition defaultState : Z := 0.
Definition hotRestartState : Z := 1.

(** A stream of a session. *)
Definition sref : Type := nat * nat.

Record streamPool := StreamPool {
  sp_session : option nat;
  sp_streams : list (option sref);
  sp_head : Z;
  sp_tail : Z;
  sp_capacity : Z
}.

Definition newStreamPool (poolCapacity : Z) : streamPool :=
  StreamPool None (replicate (Z.to_nat poolCapacity) None) 0 0 poolCapacity.

Definition with_session (i : nat) (p : streamPool) : streamPool :=
  StreamPool (Some i) (sp_streams p) (sp_head p) (sp_tail p) (sp_capacity p).
Definition with_ring (l : list (option sref)) (h t : Z) (p : streamPool) : streamPool :=
  StreamPool (sp_session p) l h t (sp_capacity p).

(** ** The ring of idle streams *)

(** [x % capacity] panics when the capacity is zero. *)
Definition ring_index (p : streamPool) (x : Z) : M streamPool nat :=
  if sp_capacity p =? 0 then panic else mret (Z.to_nat (x `mod` sp_capacity p)).

Definition pool_pop : M streamPool (option sref) :=
  p ← get_state;
  if sp_tail p >? sp_head p then
    i ← ring_index p (sp_head p);
    s ← of_option (sp_streams p !! i);
    _ ← put_state (with_ring (sp_streams p) (u64 (sp_head p + 1)) (sp_tail p) p);
    mret s
  else mret None.

Definition pool_push (s : sref) : M streamPool (option error) :=
  p ← get_state;
  if u64 (sp_tail p - sp_head p) <? sp_capacity p then
    i ← ring_index p (sp_tail p);
    _ ← of_option (sp_streams p !! i);
    _ ← put_state (with_ring (<[i := Some s]> (sp_streams p)) (sp_head p) (u64 (sp_tail p + 1)) p);
    mret None
  else mret (Some errPoolFull).

(** ** The manager *)

Section manager.
Context {W : Type}.

(** The identity a client session was opened with. *)
Record sid := Sid { id_sessionID : Z; id_epochID : Z; id_randID : Z }.

Record mst := Mst {
  ms_proc : @proc W;
  ms_sessions : gmap nat (session * sid);
  ms_poolobjs : gmap nat streamPool;
  ms_pools : list nat;
  ms_reservePools : gmap Z nat;
  ms_count : Z;
  ms_epoch : Z;
  ms_randID : Z;
  ms_state : Z;
  (** [checkHotRestart] goroutines that were started *)
  ms_checks : Z
}.

Definition set_proc (p : proc) (m : mst) : mst :=
  Mst p (ms_sessions m) (ms_poolobjs m) (ms_pools m) (ms_reservePools m) (ms_count m) (ms_epoch m) (ms_randID m) (ms_state m) (ms_checks m).
Definition set_sessions (x : gmap nat (session * sid)) (m : mst) : mst :=
  Mst (ms_proc m) x (ms_poolobjs m) (ms_pools m) (ms_reservePools m) (ms_count m) (ms_epoch m) (ms_randID m) (ms_state m) (ms_checks m).
Definition set_poolobjs (x : gmap nat streamPool) (m : mst) : mst :=
  Mst (ms_proc m) (ms_sessions m) x (ms_pools m) (ms_reservePools m) (ms_count m) (ms_epoch m) (ms_randID m) (ms_state m) (ms_checks m).
Definition set_pools (x : list nat) (r : gmap Z nat) (m : mst) : mst :=
  Mst (ms_proc m) (ms_sessions m) (ms_poolobjs m) x r (ms_count m) (ms_epoch m) (ms_randID m) (ms_state m) (ms_checks m).
Definition set_count (x : Z) (m : mst) : mst :=
  Mst (ms_proc m) (ms_sessions m) (ms_poolobjs m) (ms_pools m) (ms_reservePools m) x (ms_epoch m) (ms_randID m) (ms_state m) (ms_checks m).
Definition set_restart_state (st epoch rand checks : Z) (m : mst) : mst :=
  Mst (ms_proc m) (ms_sessions m) (ms_poolobjs m) (ms_pools m) (ms_reservePools m) (ms_count m) epoch rand st checks.

(** Run an operation of a session; all sessions share the memory of the process. *)
Definition on_session {A} (i : nat) (m : M session A) : M mst A := λ s,
  match ms_sessions s !! i with
  | None => Panic
  | Some (x, id) =>
      match m (set_ss_heap (pr_heap (ms_proc s)) x) with
      | Done (a, x') =>
          Done (a, set_proc (Proc (ss_heap x') (pr_bms (ms_proc s)) (pr_world (ms_proc s)))
                     (set_sessions (<[i := (x', id)]> (ms_sessions s)) s))
      | Panic => Panic
      | NoFuel => NoFuel
      end
  end.

Definition on_pool {A} (i : nat) (m : M streamPool A) : M mst A := λ s,
  match ms_poolobjs s !! i with
  | None => Panic
  | Some p =>
      match m p with
      | Done (a, p') => Done (a, set_poolobjs (<[i := p']> (ms_poolobjs s)) s)
      | Panic => Panic
      | NoFuel => NoFuel
      end
  end.

(** [pool.Session()], which must be there. *)
Definition pool_session (pool : nat) : M mst nat := x ← on_pool pool (reads sp_session); of_option x.

(** What a session operation waits for. *)
Context (e : env).
Notation close_stream := (Stream_Close (en_write e) (en_send e) (en_result e) (en_async e)).

(** Streams that are idle in a closed pool are closed. *)
Fixpoint close_idle (fuel : nat) (pool : nat) : M mst unit :=
  match fuel with
  | O => out_of_fuel
  | S fuel =>
      s ← on_pool pool pool_pop;
      match s with
      | None => mret tt
      | Some (i, p) => _ ← on_session i (close_stream p); close_idle fuel pool
      end
  end.

Definition pool_fuel (pool : nat) : M mst nat := on_pool pool (reads (λ p, S (Z.to_nat (sp_tail p - sp_head p)))).

Definition pool_close (pool : nat) : M mst unit :=
  x ← on_pool pool (reads sp_session);
  _ ← match x with Some i => _ ← on_session i Session_Close; mret tt | None => mret tt end;
  fuel ← pool_fuel pool;
  close_idle fuel pool.

(** Idle streams until one is open. *)
Fixpoint pop_open (fuel : nat) (pool : nat) : M mst (option sref) :=
  match fuel with
  | O => out_of_fuel
  | S fuel =>
      s ← on_pool pool pool_pop;
      match s with
      | None => mret None
      | Some (i, p) =>
          closed ← on_session i IsClosed;
          open ← (if negb closed then on_session i (IsOpen p) else mret false);
          if (open : bool) then mret (Some (i, p)) else pop_open fuel pool
      end
  end.

Definition getOrOpenStream (pool : nat) : M mst (error + sref) :=
  i ← pool_session pool;
  healthy ← on_session i IsHealthy;
  if negb healthy then mret (inl ErrSessionUnhealthy)
  else
    fuel ← pool_fuel pool;
    s ← pop_open fuel pool;
    match s with
    | Some s => mret (inr s)
    | None =>
        i ← pool_session pool;
        r ← on_session i OpenStream;
        match r with
        | (Some p, None) => _ ← on_session i (upd_obj p (with_pool (Some pool))); mret (inr (i, p))
        | (_, Some err) => mret (inl err)
        | (None, None) => panic
        end
    end.

Definition putOrCloseStream (pool : nat) (s : sref) : M mst unit :=
  let '(i, p) := s in
  t ← on_session i (get_obj p);
  if sm_inFallback t then _ ← on_session i (close_stream p); mret tt
  else
    err ← on_session i (stream_reset p);
    match err with
    | None =>
        _ ← on_session i (ReleaseReadAndReuse p);
        full ← on_pool pool (pool_push s);
        match full with
        | Some _ => _ ← on_session i (close_stream p); mret tt
        | None => mret tt
        end
    | Some _ => _ ← on_session i (close_stream p); mret tt
    end.

(** An index out of range panics; so does a manager without sessions. *)
Definition GetStream : M mst (error + sref) :=
  c ← reads (λ m, u64 (ms_count m + 1));
  _ ← modify_state (set_count c);
  pools ← reads ms_pools;
  if (length pools =? 0)%nat then panic
  else
    pool ← of_option (pools !! Z.to_nat ((c `div` sessionRoundRobinThreshold) `mod` Z.of_nat (length pools)));
    getOrOpenStream pool.

Definition PutBack (s : option sref) : M mst unit :=
  match s with
  | None => mret tt
  | Some (i, p) =>
      t ← on_session i (get_obj p);
      match sm_pool t with Some pool => putOrCloseStream pool (i, p) | None => mret tt end
  end.

(** ** Opening and closing *)

(** [newClientSession] (NewSession.v) with the connections and system calls of the
    process. *)
Context (config : SessionManagerConfig) (newClient : Z → Z → Z → M (@proc W) (error + session)).

Definition on_proc {A} (m : M (@proc W) A) : M mst A := zoom ms_proc set_proc m.

(** The new session becomes an object of the process. *)
Definition open_session (sessionID epochID randID : Z) : M mst (error + nat) :=
  r ← on_proc (newClient sessionID epochID randID);
  match r with
  | inl err => mret (inl err)
  | inr x =>
      i ← reads (λ m, fresh_key (ms_sessions m));
      _ ← modify_state (λ m, set_sessions (<[i := (x, Sid sessionID epochID randID)]> (ms_sessions m)) m);
      mret (inr i)
  end.

Definition open_pool (i : nat) : M mst nat :=
  p ← reads (λ m, fresh_key (ms_poolobjs m));
  _ ← modify_state (λ m, set_poolobjs (<[p := with_session i (newStreamPool (u32 (sc_MaxStreamNum config)))]> (ms_poolobjs m)) m);
  mret p.

Fixpoint close_pools (pools : list nat) : M mst unit :=
  match pools with [] => mret tt | p :: pools => _ ← pool_close p; close_pools pools end.

(** The loop of [NewSessionManager]: sessions [i], [i+1], ... up to their number. *)
Fixpoint open_sessions (n : nat) (i : Z) : M mst (option error) :=
  match n with
  | O => mret None
  | S n =>
      r ← open_session i 0 0;
      match r with
      | inl err => pools ← reads ms_pools; _ ← close_pools pools; mret (Some err)
      | inr x =>
          p ← open_pool x;
          _ ← modify_state (λ m, set_pools (ms_pools m ++ [p]) (ms_reservePools m) m);
          open_sessions n (i + 1)
      end
  end.

Definition NewSessionManager : M mst (option error) := open_sessions (Z.to_nat (sc_SessionNum config)) 0.

(** The manager of the process: made once. *)
Definition InitGlobalSessionManager : M (bool * mst) (option error) :=
  made ← reads fst;
  if (made : bool) then mret None
  else
    err ← zoom snd (λ m g, (g.1, m)) NewSessionManager;
    match err with
    | Some e => mret (Some e)
    | None => _ ← modify_state (λ g, (true, g.2)); mret None
    end.

(** [Close], after the background goroutines have ended. *)
Definition SessionManager_Close : M mst (option error) :=
  pools ← reads ms_pools; _ ← close_pools pools; mret None.

(** ** Rebuilding a session that was closed *)

(** One look of the background goroutine of session [id]: the pool whose session
    is closed, unless a hot restart is in progress. *)
Definition bg_observe (id : nat) : M mst (option nat) :=
  st ← reads ms_state;
  if st =? hotRestartState then mret None
  else
    pools ← reads ms_pools;
    pool ← of_option (pools !! id);
    i ← pool_session pool;
    closed ← on_session i (sess ss_shutdownCh);
    if (closed : bool) then _ ← pool_close pool; mret (Some pool) else mret None.

Definition session_sid (i : nat) : M mst sid := λ s,
  match ms_sessions s !! i with Some (_, id) => Done (id, s) | None => Panic end.

(** One try after the rebuild interval; [true] when the goroutine goes back to
    watching. *)
Definition bg_rebuild (id pool : nat) : M mst bool :=
  pools ← reads ms_pools;
  now ← of_option (pools !! id);
  i ← pool_session now;
  idNow ← session_sid i;
  j ← pool_session pool;
  idOld ← session_sid j;
  if negb (id_epochID idNow =? id_epochID idOld) then mret true
  else
    epoch ← reads ms_epoch;
    rand ← reads ms_randID;
    r ← open_session (Z.of_nat id) epoch rand;
    match r with
    | inl _ => mret false
    | inr x => _ ← on_pool pool (modify_state (with_session x)); mret true
    end.

(** ** Hot restart *)

(** The server announced epoch [epoch] on session [i].  The deferred [recover] turns the
    index out of range of [sm.pools[sessionID]] into a return, with the state as it is by
    then.  A panic inside of closing a pool or of [newClientSession], after which the
    source also goes on, stays a panic here: the state at that point is not a value of the
    model, so every theorem that gives a result also shows that there was none. *)
Definition handleSessionManagerHotRestart (epoch rand : Z) (i : nat) : M mst unit :=
  st ← reads ms_state;
  now ← reads ms_epoch;
  if (st =? hotRestartState) && negb (now =? epoch) then mret tt
  else
    _ ← (if negb (st =? hotRestartState) then
           checks ← reads ms_checks;
           _ ← modify_state (set_restart_state hotRestartState epoch rand (checks + 1));
           old ← reads ms_reservePools;
           _ ← close_pools (snd <$> map_to_list old);
           modify_state (λ m, set_pools (ms_pools m) ∅ m)
         else mret tt);
    id ← session_sid i;
    reserved ← reads (λ m, ms_reservePools m !! id_sessionID id);
    match reserved with
    | Some _ => mret tt
    | None =>
        epoch ← reads ms_epoch;
        rand ← reads ms_randID;
        r ← open_session (id_sessionID id) epoch rand;
        match r with
        | inl _ => mret tt
        | inr x =>
            p ← open_pool x;
            pools ← reads ms_pools;
            match pools !! Z.to_nat (id_sessionID id) with
            | None => mret tt
            | Some old =>
                modify_state (λ m, set_pools (<[Z.to_nat (id_sessionID id) := p]> (ms_pools m))
                                     (<[id_sessionID id := old]> (ms_reservePools m)) m)
            end
        end
    end.

Definition SessionManager_handleEvent (event epoch rand : Z) (i : nat) : M mst unit :=
  if event =? typeHotRestart then handleSessionManagerHotRestart epoch rand i else mret tt.

Fixpoint ack_all (epoch : Z) (pools : list nat) : M mst unit :=
  match pools with
  | [] => mret tt
  | p :: pools =>
      i ← pool_session p;
      _ ← on_session i (hotRestart (en_write e) epoch typeHotRestartAck);
      ack_all epoch pools
  end.

(** The two cases of [checkHotRestart]; [true] when it returns. *)
Definition check_tick : M mst bool :=
  m ← get_state;
  if (size (ms_reservePools m) =? length (ms_pools m))%nat then
    _ ← modify_state (set_restart_state defaultState (ms_epoch m) (ms_randID m) (ms_checks m - 1));
    _ ← ack_all (ms_epoch m) (snd <$> map_to_list (ms_reservePools m));
    mret true
  else mret false.

Definition check_timeout : M mst bool :=
  m ← get_state;
  _ ← modify_state (set_restart_state defaultState (ms_epoch m) (ms_randID m) (ms_checks m - 1));
  _ ← close_pools (snd <$> map_to_list (ms_reservePools m));
  _ ← modify_state (λ m, set_pools (ms_pools m) ∅ m);
  mret true.
End manager.
