(* ===== verification/SessionManagerProofs.v ===== *)
(** * The session manager: pools, reuse of streams, hot restart *)

From Stdlib Require Import ZArith Lia.
From stdpp Require Import prelude list gmap strings.
From S2P Require Import Prelude GoMem Queue BufferSlice BufferList BufferManager Allocator ShmAllocator LinkedBuffer Protocol Config Events Session SessionProofs SessionEvents NewSession SessionManager.

(** ** The ring of a pool is a bounded FIFO *)

Record pool_rep (p : streamPool) (l : list sref) : Prop := {
  pr_ring : Z.of_nat (length (sp_streams p)) = sp_capacity p;
  pr_cap : sp_capacity p < 2 ^ 32;
  pr_head : 0 ≤ sp_head p;
  pr_tail : sp_tail p = sp_head p + Z.of_nat (length l);
  pr_room : Z.of_nat (length l) ≤ sp_capacity p;
  pr_item : ∀ j s, l !! j = Some s →
    sp_streams p !! Z.to_nat ((sp_head p + Z.of_nat j) `mod` sp_capacity p) = Some (Some s)
}.

Lemma mod_apart a b c : 0 < c → a < b < a + c → a `mod` c ≠ b `mod` c.
Proof.
  intros Hc Hab E. pose proof (Z.div_mod a c ltac:(lia)). pose proof (Z.div_mod b c ltac:(lia)).
  assert (b - a = c * (b `div` c - a `div` c)) as Hd by nia. assert (b `div` c - a `div` c = 0) by nia. lia.
Qed.

Inductive pool_op := PPush (s : sref) | PPop.
Inductive pool_out := OPushed (err : option error) | OPopped (s : option sref).

Definition run_pool_op (o : pool_op) : M streamPool pool_out :=
  match o with
  | PPush s => r ← pool_push s; mret (OPushed r)
  | PPop => r ← pool_pop; mret (OPopped r)
  end.
Fixpoint run_pool_ops (os : list pool_op) : M streamPool (list pool_out) :=
  match os with [] => mret [] | o :: os => r ← run_pool_op o; rs ← run_pool_ops os; mret (r :: rs) end.

(** The bounded FIFO. *)
Definition fifo_pool_op (cap : Z) (o : pool_op) (l : list sref) : pool_out * list sref :=
  match o with
  | PPush s => if Z.of_nat (length l) <? cap then (OPushed None, l ++ [s]) else (OPushed (Some errPoolFull), l)
  | PPop => match l with [] => (OPopped None, []) | s :: l => (OPopped (Some s), l) end
  end.
Fixpoint fifo_pool_ops (cap : Z) (os : list pool_op) (l : list sref) : list pool_out * list sref :=
  match os with
  | [] => ([], l)
  | o :: os => let '(r, l) := fifo_pool_op cap o l in let '(rs, l) := fifo_pool_ops cap os l in (r :: rs, l)
  end.

Lemma pool_push_ok p l s : pool_rep p l → sp_tail p + 1 < 2 ^ 64 →
  ∃ p', pool_push s p = Done (if Z.of_nat (length l) <? sp_capacity p then None else Some errPoolFull, p') ∧
    pool_rep p' (if Z.of_nat (length l) <? sp_capacity p then l ++ [s] else l) ∧
    sp_tail p' ≤ sp_tail p + 1 ∧ sp_capacity p' = sp_capacity p.
Proof.
  intros [] Ht. unfold pool_push. erewrite bind_done by done. cbv beta. rewrite u64_small by lia.
  replace (sp_tail p - sp_head p) with (Z.of_nat (length l)) by lia.
  destruct (Z.of_nat (length l) <? sp_capacity p) eqn:E; breflect; [|exists p; split_and!; [done|by constructor|lia|done]].
  assert (0 ≤ sp_tail p `mod` sp_capacity p < sp_capacity p) as Hm by (apply Z.mod_pos_bound; lia).
  destruct (lookup_lt_is_Some_2 (sp_streams p) (Z.to_nat (sp_tail p `mod` sp_capacity p))) as [x Hx]; [lia|].
  unfold ring_index. rewrite (proj2 (Z.eqb_neq _ _)) by lia. erewrite bind_done by done. rewrite Hx.
  erewrite bind_done by done. rewrite u64_small by lia. eexists. split; [reflexivity|].
  split; [|cbn; lia]. constructor; cbn; rewrite ?length_insert, ?length_app; cbn; try lia.
  intros j s' Hj. apply lookup_snoc_Some in Hj as [[Hj Hl]|[-> <-]].
  - rewrite list_lookup_insert_ne; [by apply pr_item0|].
    intros Hi. apply (mod_apart (sp_head p + Z.of_nat j) (sp_tail p) (sp_capacity p)); [lia|lia|].
    apply Z2Nat.inj; [apply Z.mod_pos_bound; lia|lia|done].
  - rewrite <- pr_tail0. apply list_lookup_insert_eq. lia.
Qed.

Lemma pool_pop_ok p l : pool_rep p l → sp_tail p < 2 ^ 64 →
  ∃ p', pool_pop p = Done (head l, p') ∧ pool_rep p' (tail l) ∧ sp_tail p' = sp_tail p ∧ sp_capacity p' = sp_capacity p.
Proof.
  intros [] Ht. unfold pool_pop. erewrite bind_done by done. cbv beta. destruct l as [|s l]; cbn [head tail length] in *.
  - rewrite Z.gtb_ltb, (proj2 (Z.ltb_ge _ _)) by lia. exists p. split_and!; [done|by constructor|done|done].
  - rewrite Z.gtb_ltb, (proj2 (Z.ltb_lt _ _)) by lia. pose proof (pr_item0 0%nat s eq_refl) as H0. rewrite Z.add_0_r in H0.
    unfold ring_index. rewrite (proj2 (Z.eqb_neq _ _)) by lia. erewrite bind_done by done. rewrite H0.
    erewrite bind_done by done. rewrite u64_small by lia. eexists. split; [reflexivity|].
    split; [|done]. constructor; cbn; try lia. intros j s' Hj. rewrite <- (pr_item0 (S j) s' Hj). do 2 f_equal. f_equal. lia.
Qed.

(** [C24] The pool of idle streams is a bounded FIFO: any sequence of [push] and
    [pop] returns what a queue of at most [capacity] streams returns, [push]
    failing exactly when it is full and [pop] giving nil exactly when it is
    empty, as long as the 64-bit counters have not wrapped around. *)
Theorem pool_refines_fifo os : ∀ p l,
  pool_rep p l → sp_tail p + Z.of_nat (length os) < 2 ^ 64 →
  ∃ p', run_pool_ops os p = Done ((fifo_pool_ops (sp_capacity p) os l).1, p') ∧
    pool_rep p' (fifo_pool_ops (sp_capacity p) os l).2.
Proof.
  induction os as [|o os IH]; intros p l Hr Ht; cbn [run_pool_ops fifo_pool_ops]; [by exists p|]. cbn [length] in Ht.
  assert (∃ p1, run_pool_op o p = Done ((fifo_pool_op (sp_capacity p) o l).1, p1) ∧
    pool_rep p1 (fifo_pool_op (sp_capacity p) o l).2 ∧ sp_tail p1 ≤ sp_tail p + 1 ∧ sp_capacity p1 = sp_capacity p)
    as (p1&E1&Hr1&Ht1&Hc1).
  { destruct o as [s|]; cbn [run_pool_op fifo_pool_op].
    - destruct (pool_push_ok p l s Hr) as (p1&E&Hr1&Ht1&Hc); [lia|]. exists p1. erewrite bind_done by exact E.
      by destruct (Z.of_nat (length l) <? sp_capacity p).
    - destruct (pool_pop_ok p l Hr) as (p1&E&Hr1&Ht1&Hc); [lia|]. exists p1. erewrite bind_done by exact E.
      destruct l; cbn in *; split_and!; (done || lia). }
  destruct (fifo_pool_op (sp_capacity p) o l) as [r l1]. cbn [fst snd] in *.
  destruct (IH p1 l1 Hr1) as (p2&E2&Hr2); [lia|]. rewrite Hc1 in E2, Hr2. exists p2.
  erewrite bind_done by exact E1. erewrite bind_done by exact E2.
  by destruct (fifo_pool_ops (sp_capacity p) os l1) as [rs l2].
Qed.

Lemma pool_refines_fifo_witness :
  ∃ p', run_pool_ops [PPop; PPush (0, 1); PPush (0, 2); PPush (0, 3); PPop; PPush (0, 4); PPop; PPop]%nat (newStreamPool 2)
    = Done ([OPopped None; OPushed None; OPushed None; OPushed (Some errPoolFull); OPopped (Some (0, 1)); OPushed None;
             OPopped (Some (0, 2)); OPopped (Some (0, 4))]%nat, p') ∧ pool_rep p' [].
Proof.
  apply (pool_refines_fifo [PPop; PPush (0, 1); PPush (0, 2); PPush (0, 3); PPop; PPush (0, 4); PPop; PPop]%nat (newStreamPool 2) []).
  - constructor; [reflexivity|reflexivity|discriminate|reflexivity|discriminate|by intros j s Hj].
  - reflexivity.
Defined.

(** ** Streams that are handed out *)

Section manager.
Context {W : Type}.

(** The stream exists, is open and its session is not shut down. *)
Definition open_in (m : @mst W) (s : sref) : Prop :=
  ∃ x id t, ms_sessions m !! s.1 = Some (x, id) ∧ ss_shutdown x = false ∧ ss_objs x !! s.2 = Some t ∧ sm_state t = streamOpened.

Lemma on_session_inv {A} i (c : M session A) (m : @mst W) a m' : on_session i c m = Done (a, m') →
  ∃ x id x', ms_sessions m !! i = Some (x, id) ∧ c (set_ss_heap (pr_heap (ms_proc m)) x) = Done (a, x') ∧
    m' = set_proc (Proc (ss_heap x') (pr_bms (ms_proc m)) (pr_world (ms_proc m)))
           (set_sessions (<[i := (x', id)]> (ms_sessions m)) m).
Proof.
  unfold on_session. destruct (ms_sessions m !! i) as [[x id]|]; [|done]. destruct (c _) as [[y x']| |] eqn:E; [|done..].
  intros [= <- <-]. eauto 10.
Qed.

Lemma pop_open_open fuel : ∀ pool (m : @mst W) s m', pop_open fuel pool m = Done (Some s, m') → open_in m' s.
Proof.
  induction fuel as [|fuel IH]; intros pool m s m'; cbn [pop_open]; [done|].
  intros (r&m1&_&E)%bind_done_inv. destruct r as [[i p]|]; [|done].
  apply bind_done_inv in E as (closed&m2&E2&E). apply bind_done_inv in E as (open&m3&E3&E).
  destruct open; [|by eapply IH]. injection E as <- <-. destruct closed; cbn [negb] in E3; [done|].
  apply on_session_inv in E2 as (x&id&x'&Hx&Ex&->). injection Ex as Hc <-.
  apply on_session_inv in E3 as (y&id'&y'&Hy&Ey&->). cbn [ms_sessions set_proc set_sessions] in *.
  rewrite lookup_insert_eq in Hy. injection Hy as <- <-. unfold IsOpen, getStreamState in Ey.
  apply bind_done_inv in Ey as (st&z&Ez&Ey). injection Ey as Eo <-.
  apply bind_done_inv in Ez as (t&z'&Et&Ez). injection Ez as <- <-. apply get_obj_inv in Et as [-> Ht].
  breflect. unfold open_in. cbn [ms_sessions set_proc set_sessions fst snd]. rewrite lookup_insert_eq. eexists _, _, t.
  split_and!; [reflexivity|done|exact Ht|done].
Qed.

Lemma OpenStream_open s p s' : OpenStream s = Done ((Some p, None), s') →
  ss_shutdown s' = false ∧ ∃ t, ss_objs s' !! p = Some t ∧ sm_state t = streamOpened.
Proof.
  unfold OpenStream. intros (c&s1&E1&E)%bind_done_inv. injection E1 as Hc <-. destruct c.
  { apply bind_done_inv in E as (?&?&_&E). by injection E. }
  apply bind_done_inv in E as (h&s1&E1&E). injection E1 as _ <-. destruct (negb h); [by injection E|].
  apply bind_done_inv in E as (id&s1&E1&E). injection E1 as _ <-. apply bind_done_inv in E as (?&s1&E1&E). injection E1 as _ <-.
  apply bind_done_inv in E as (q&s1&E1&E). injection E1 as Eq <-. apply bind_done_inv in E as (old&s1&E1&E). injection E1 as _ <-.
  destruct old; [by injection E|]. apply bind_done_inv in E as (?&s1&E1&E). injection E as <- <-.
  unfold map_insert in E1. cbn in E1. destruct (ss_streams s); [|done]. injection E1 as _ <-. cbn. split; [done|].
  rewrite <- Eq. rewrite lookup_insert_eq. by eexists.
Qed.

(** [C23] Whatever the pools hold, a stream that [GetStream] hands out is open and
    belongs to a session that is not shut down: idle streams that were closed
    by the peer or with their session are skipped. *)
Theorem get_stream_open (m : @mst W) s m' : GetStream m = Done (inr s, m') → open_in m' s.
Proof.
  unfold GetStream. intros (c&m1&E1&E)%bind_done_inv. injection E1 as _ <-. apply bind_done_inv in E as ([]&m1&E1&E).
  injection E1 as <-. apply bind_done_inv in E as (pools&m2&E2&E). injection E2 as _ <-. destruct (_ =? _)%nat; [done|].
  apply bind_done_inv in E as (pool&m2&E2&E). clear E2. unfold getOrOpenStream in E.
  apply bind_done_inv in E as (i&m3&_&E). apply bind_done_inv in E as (h&m4&_&E). destruct (negb h); [by injection E|].
  apply bind_done_inv in E as (fuel&m5&_&E). apply bind_done_inv in E as (o&m6&E6&E). destruct o as [s'|].
  { injection E as <- <-. by eapply pop_open_open. }
  apply bind_done_inv in E as (j&m7&_&E). apply bind_done_inv in E as (r&m8&E8&E).
  apply on_session_inv in E8 as (x&id&x'&Hx&Ex&->). destruct r as [[p|] [err|]]; try done.
  apply bind_done_inv in E as ([]&m9&E9&E). injection E as <- <-. destruct (OpenStream_open _ _ _ Ex) as (Hs&t&Ht&Ho).
  apply on_session_inv in E9 as (y&id'&y'&Hy&Ey&->). cbn [ms_sessions set_proc set_sessions] in Hy.
  rewrite lookup_insert_eq in Hy. injection Hy as <- <-.
  erewrite upd_obj_run in Ey by (cbn; exact Ht). injection Ey as <-. unfold open_in.
  cbn [ms_sessions set_proc set_sessions fst snd]. rewrite lookup_insert_eq. eexists _, _, _.
  split_and!; [reflexivity|exact Hs|cbn; apply lookup_insert_eq|exact Ho].
Qed.
End manager.

(** A manager of one session, with a pool of two streams. *)
Definition demo_manager : @mst unit :=
  Mst (Proc (ss_heap (demo_session true)) ∅ tt) {[ 0%nat := (demo_session true, Sid 0 0 0) ]}
    {[ 0%nat := with_session 0 (newStreamPool 2) ]} [0%nat] ∅ 0 0 0 0 0.

Lemma get_stream_open_witness : ∃ m', GetStream demo_manager = Done (inr (0, 0)%nat, m') ∧ open_in m' (0, 0)%nat.
Proof.
  destruct (GetStream demo_manager) as [[r m']| |] eqn:E.
  2, 3: vm_compute in E; discriminate E.
  assert (r = inr (0, 0)%nat) as -> by (vm_compute in E; injection E as <- _; reflexivity).
  exists m'. split; [reflexivity|]. exact (get_stream_open demo_manager (0, 0)%nat m' E).
Defined.

(** ** Hot restart *)

Section restart.
Context {W : Type} (e : env) (config : SessionManagerConfig) (newClient : Z → Z → Z → M (@proc W) (error + session)).
Notation handle := (handleSessionManagerHotRestart e config newClient).

(** A pool whose session was opened for session id [k] in an epoch. *)
Definition pool_of_epoch (m : @mst W) (p : nat) (k : nat) (epoch : Z) : Prop :=
  ∃ q i x rd, ms_poolobjs m !! p = Some q ∧ sp_session q = Some i ∧ ms_sessions m !! i = Some (x, Sid (Z.of_nat k) epoch rd).

(** The sessions [done] have been switched since [m0]. *)
Record switched (m0 m : @mst W) (epoch : Z) (done : gset nat) : Prop := {
  sw_state : ms_state m = hotRestartState;
  sw_epoch : ms_epoch m = epoch;
  sw_len : length (ms_pools m) = length (ms_pools m0);
  sw_reserve : ∀ k, ms_reservePools m !! Z.of_nat k = if decide (k ∈ done) then ms_pools m0 !! k else None;
  sw_dom : ∀ z p, ms_reservePools m !! z = Some p → p ∈ ms_pools m0;
  sw_size : size (ms_reservePools m) = size done;
  sw_old : ∀ k, k ∉ done → ms_pools m !! k = ms_pools m0 !! k;
  sw_new : ∀ k, k ∈ done → ∃ p, ms_pools m !! k = Some p ∧ pool_of_epoch m p k epoch;
  sw_sessions : ms_sessions m0 ⊆ ms_sessions m;
  sw_objs : ms_poolobjs m0 ⊆ ms_poolobjs m
}.

(** Opening a session returns, with a session or with an error. *)
Hypothesis client_returns : ∀ id ep rd p, ∃ r p', newClient id ep rd p = Done (r, p').
(** The new server can be reached. *)
Definition client_works : Prop := ∀ id ep rd p, ∃ x p', newClient id ep rd p = Done (inr x, p').

Lemma open_session_ok id ep rd (m : @mst W) : ∃ r pr,
  (client_works → ∃ x, r = inr x) ∧ open_session newClient id ep rd m =
    match r with
    | inl err => Done (inl err, set_proc pr m)
    | inr x => Done (inr (fresh_key (ms_sessions m)),
        set_sessions (<[fresh_key (ms_sessions m) := (x, Sid id ep rd)]> (ms_sessions m)) (set_proc pr m))
    end.
Proof.
  destruct (client_returns id ep rd (ms_proc m)) as (r&pr&E). exists r, pr. split.
  - intros Hw. destruct (Hw id ep rd (ms_proc m)) as (x&p'&E'). rewrite E' in E. injection E as <- <-. by exists x.
  - unfold open_session. erewrite bind_done by (unfold on_proc; by apply zoom_done). cbv beta. destruct r; [done|].
    cbv iota. by erewrite bind_done by done.
Qed.

Lemma open_pool_run i (m : @mst W) :
  open_pool config i m
    = Done (fresh_key (ms_poolobjs m),
        set_poolobjs (<[fresh_key (ms_poolobjs m) := with_session i (newStreamPool (u32 (sc_MaxStreamNum config)))]> (ms_poolobjs m)) m).
Proof. done. Qed.

(** The pools are swapped. *)
Lemma switched_one m0 m epoch done k old y pr :
  let j := fresh_key (ms_sessions m) in let p := fresh_key (ms_poolobjs m) in
  let mn := set_poolobjs (<[p := with_session j (newStreamPool (u32 (sc_MaxStreamNum config)))]> (ms_poolobjs m))
              (set_sessions (<[j := (y, Sid (Z.of_nat k) (ms_epoch m) (ms_randID m))]> (ms_sessions m)) (set_proc pr m)) in
  switched m0 m epoch done → k ∉ done → ms_pools m0 !! k = Some old →
  switched m0 (set_pools (<[k := p]> (ms_pools m)) (<[Z.of_nat k := old]> (ms_reservePools m)) mn) epoch ({[k]} ∪ done).
Proof.
  intros j p mn [] Hk Hold. subst mn. pose proof (lookup_lt_Some _ _ _ Hold) as Hlt.
  pose proof (fresh_key_None (ms_sessions m)) as Hj. fold j in Hj. pose proof (fresh_key_None (ms_poolobjs m)) as Hp. fold p in Hp.
  constructor; cbn [ms_state ms_epoch ms_pools ms_reservePools ms_sessions ms_poolobjs set_pools set_sessions set_proc set_poolobjs]; try done.
  - by rewrite length_insert.
  - intros k'. destruct (decide (k' = k)) as [->|Hne].
    + rewrite lookup_insert_eq, decide_True by set_solver. done.
    + rewrite lookup_insert_ne by lia. rewrite sw_reserve0. destruct (decide (k' ∈ done)); [rewrite decide_True by set_solver|rewrite decide_False by set_solver]; done.
  - intros z p' [[Ez Ep]|[_ Hz]]%lookup_insert_Some; [subst p'; by eapply list_elem_of_lookup_2|by eapply sw_dom0].
  - rewrite map_size_insert_None by (rewrite sw_reserve0, decide_False; done).
    rewrite size_union by set_solver. rewrite size_singleton, sw_size0. lia.
  - intros k' Hk'. rewrite list_lookup_insert_ne by set_solver. apply sw_old0. set_solver.
  - intros k' Hk'. destruct (decide (k' = k)) as [->|Hne].
    + exists p. rewrite list_lookup_insert_eq by lia. split; [done|]. eexists _, j, y, _.
      cbn [ms_poolobjs ms_sessions set_pools set_poolobjs set_sessions set_proc]. rewrite !lookup_insert_eq. rewrite sw_epoch0. split_and!; reflexivity.
    + destruct (sw_new0 k') as (p'&Hp'&q&i'&x'&rd'&Hq&Hi2&Hs); [set_solver|]. exists p'.
      rewrite list_lookup_insert_ne by done. split; [done|]. exists q, i', x', rd'.
      cbn [ms_poolobjs ms_sessions set_pools set_poolobjs set_sessions set_proc].
      rewrite !lookup_insert_ne; [done|congruence|congruence].
  - etransitivity; [exact sw_sessions0|]. by apply insert_subseteq.
  - etransitivity; [exact sw_objs0|]. by apply insert_subseteq.
Qed.

(** The handler in the middle of a restart: a session that was switched before is left
    alone, one that cannot be opened leaves the pools as they are, any other is switched. *)
Lemma switch_one m0 m epoch done rand k i x ep rd :
  switched m0 m epoch done → (k < length (ms_pools m0))%nat → ms_sessions m0 !! i = Some (x, Sid (Z.of_nat k) ep rd) →
  ∃ m' done', handle epoch rand i m = Done (tt, m') ∧ switched m0 m' epoch done' ∧
    done ⊆ done' ∧ done' ⊆ {[k]} ∪ done ∧ (client_works → k ∈ done').
Proof.
  intros Hsw Hlt Hi. pose proof Hsw as []. unfold handleSessionManagerHotRestart. erewrite bind_done by done. erewrite bind_done by done.
  rewrite sw_state0, sw_epoch0, !Z.eqb_refl. cbn [negb andb].
  erewrite bind_done by done.
  assert (ms_sessions m !! i = Some (x, Sid (Z.of_nat k) ep rd)) as Hi' by (by eapply lookup_weaken).
  erewrite bind_done by (unfold session_sid; by rewrite Hi'). cbv beta. cbn [id_sessionID].
  erewrite bind_done by done. cbv beta. rewrite sw_reserve0.
  destruct (lookup_lt_is_Some_2 (ms_pools m0) k Hlt) as [old Hold].
  destruct (decide (k ∈ done)) as [Hk|Hk]; [rewrite Hold; exists m, done; split_and!; set_solver|].
  erewrite bind_done by done. erewrite bind_done by done. cbv beta.
  destruct (open_session_ok (Z.of_nat k) (ms_epoch m) (ms_randID m) m) as (r&pr&Hr&E). destruct r as [err|y].
  { erewrite bind_done by exact E. eexists _, done. split; [reflexivity|]. split; [by constructor|].
    split_and!; [done|set_solver|]. intros Hw. by destruct (Hr Hw). }
  erewrite bind_done by exact E. cbv beta iota.
  set (j := fresh_key (ms_sessions m)). set (p := fresh_key (ms_poolobjs m)).
  erewrite bind_done by apply open_pool_run. cbv beta. erewrite bind_done by done. cbv beta.
  cbn [ms_poolobjs set_sessions set_proc]. fold p.
  rewrite Nat2Z.id. cbn [ms_pools set_sessions set_proc set_poolobjs]. rewrite sw_old0 by done. rewrite Hold.
  eexists _, ({[k]} ∪ done). split; [reflexivity|]. split; [|set_solver].
  by apply (switched_one m0 m epoch done k old y pr).
Qed.

(** The first event of a restart moves the manager into the restart state and closes the
    pools that the restart before kept in reserve. *)
Definition restart_marked (m : @mst W) (epoch rand : Z) : mst := set_restart_state hotRestartState epoch rand (ms_checks m + 1) m.
Definition restart_begun (m : @mst W) : mst := set_pools (ms_pools m) ∅ m.

Lemma handle_first (m mc : @mst W) epoch rand i :
  ms_state m ≠ hotRestartState → close_pools e (map_to_list (ms_reservePools m)).*2 (restart_marked m epoch rand) = Done (tt, mc) →
  ms_state mc = hotRestartState → ms_epoch mc = epoch →
  handle epoch rand i m = handle epoch rand i (restart_begun mc).
Proof.
  intros Hs Hc Hst Hep. unfold handleSessionManagerHotRestart. rewrite !(bind_done (reads _) _ _ _ _ eq_refl).
  cbn [restart_begun ms_state ms_epoch set_pools]. rewrite Hst, Hep, !Z.eqb_refl. bdecide. cbn [negb andb].
  rewrite (bind_done (mret tt) _ _ tt (restart_begun mc) eq_refl).
  rewrite (bind_done _ _ m tt (restart_begun mc)); [done|].
  erewrite bind_done by done. cbv beta. erewrite bind_done by done. erewrite bind_done by done. cbv beta.
  by erewrite bind_done by exact Hc.
Qed.

Lemma restart_begun_switched m epoch : ms_state m = hotRestartState → ms_epoch m = epoch → switched (restart_begun m) (restart_begun m) epoch ∅.
Proof. intros. constructor; try done; intros k; rewrite ?decide_False by set_solver; try done; set_solver. Qed.

(** The events of a restart in the order in which they arrive: the session, and the
    random id drawn if it is the first. *)
Fixpoint run_restart (epoch : Z) (evs : list (nat * Z)) : M mst unit :=
  match evs with [] => mret tt | (i, rand) :: evs => _ ← handle epoch rand i; run_restart epoch evs end.

(** The event of session number [k] in a manager. *)
Definition event_of (m : @mst W) (k : nat) (ev : nat * Z) : Prop :=
  (k < length (ms_pools m))%nat ∧ ∃ x ep rd, ms_sessions m !! ev.1 = Some (x, Sid (Z.of_nat k) ep rd).

Lemma run_switched m0 epoch evs : ∀ ks m done,
  switched m0 m epoch done → Forall2 (event_of m0) ks evs →
  ∃ m' done', run_restart epoch evs m = Done (tt, m') ∧ switched m0 m' epoch done' ∧
    done' ⊆ list_to_set ks ∪ done ∧ (client_works → list_to_set ks ⊆ done') ∧ done ⊆ done'.
Proof.
  induction evs as [|[i rand] evs IH]; intros ks m done Hsw Hev; inversion Hev as [|k ? ks' ? (Hlt&x&ep&rd&Hi) Hev']; subst.
  { exists m, done. split_and!; [done|done|set_solver..]. }
  destruct (switch_one m0 m epoch done rand k i x ep rd Hsw Hlt Hi) as (m1&d1&E&Hsw1&Hs1&Hs2&Hw1).
  destruct (IH ks' m1 d1 Hsw1 Hev') as (m'&d'&E'&Hsw'&Hs3&Hw2&Hs4).
  exists m', d'. split_and!; [by cbn [run_restart]; erewrite bind_done by exact E|done|set_solver| |set_solver].
  intros Hw. specialize (Hw1 Hw). specialize (Hw2 Hw). set_solver.
Qed.

(** ** The acknowledgement *)

Hypothesis write_returns : ∀ data s, ∃ r s', en_write e data s = Done (r, s').
Hypothesis env_ok : env_life e.

(** A write that fails closes the session; [hotRestart] returns all the same. *)
Lemma hotRestart_returns epoch s : map_ok s → ∃ s', hotRestart (en_write e) epoch typeHotRestartAck s = Done (None, s').
Proof.
  intros Hm. unfold hotRestart. rewrite andb_false_r by done.
  erewrite bind_done by (by apply gmake_ok). cbv beta. erewrite bind_done; last first.
  { apply (gput_pieces s (replicate 8 0) (replicate 8 0) (be_bytes 8 epoch) []); [done|apply length_be_bytes]. }
  cbv beta. erewrite bind_done by done. cbv beta. erewrite bind_done by (by apply header_encode_ok). cbv beta.
  set (data := header_bytes _ _ _ ++ _). clearbody data. unfold write_or_queue. destruct (ss_writing s) eqn:Ew.
  - eexists. erewrite bind_done; [done|]. erewrite bind_done by done. rewrite Ew. done.
  - set (s1 := set_writing true (ss_notifyContinueWrite s) s).
    assert (∃ r s2, writeEventData (en_write e) data s1 = Done (r, s2)) as (r&s2&E).
    { destruct (write_returns data s1) as (r&s2&E). unfold writeEventData. destruct r as [err|]; [|eexists _, _; by erewrite bind_done by exact E].
      pose proof (li_map _ _ (el_write _ env_ok data _ _ _ E) Hm) as Hm2.
      assert (∃ s3, exitErr err s2 = Done (tt, s3)) as (s3&E3).
      { unfold exitErr. erewrite bind_done by done. cbv beta. erewrite bind_done by done. cbv beta.
        match goal with |- context [(Session_Close ≫= _) ?t] => destruct (Session_Close_returns t) as (s3&E3); [exact Hm2|] end.
        exists s3. by erewrite bind_done by exact E3. }
      eexists _, _. erewrite bind_done by exact E. cbv beta iota. by erewrite bind_done by exact E3. }
    eexists. erewrite bind_done; [done|]. erewrite bind_done by done. rewrite Ew. erewrite bind_done by done. cbv beta.
    by erewrite bind_done by exact E.
Qed.

(** A pool that has a session, whose streams exist. *)
Definition has_session (m : @mst W) (p : nat) : Prop :=
  ∃ q i x id, ms_poolobjs m !! p = Some q ∧ sp_session q = Some i ∧ ms_sessions m !! i = Some (x, id) ∧ map_ok x.

(** What an operation on the sessions and pools of a manager leaves as it is. *)
Record kept (m m' : @mst W) : Prop := {
  kp_fields : (ms_state m', ms_epoch m', ms_randID m', ms_checks m', ms_pools m', ms_reservePools m')
    = (ms_state m, ms_epoch m, ms_randID m, ms_checks m, ms_pools m, ms_reservePools m);
  kp_sessions : ∀ i x id, ms_sessions m !! i = Some (x, id) → ∃ x', ms_sessions m' !! i = Some (x', id) ∧ life x x';
  kp_pools : ∀ p q, ms_poolobjs m !! p = Some q → ∃ q', ms_poolobjs m' !! p = Some q' ∧ sp_session q' = sp_session q
}.
#[local] Instance kept_preorder : PreOrder kept.
Proof.
  split.
  - intros m. constructor; [done|..]; intros; eexists; by split.
  - intros m1 m2 m3 [F1 S1 P1] [F2 S2 P2]. constructor; [congruence|..].
    + intros i x id Hx. destruct (S1 i x id Hx) as (y&Hy&L1). destruct (S2 i y id Hy) as (z&Hz&L2). exists z. split; [done|by etransitivity].
    + intros p q Hq. destruct (P1 p q Hq) as (r&Hr&E1). destruct (P2 p r Hr) as (s&Hs&E2). exists s. split; [done|congruence].
Qed.

Lemma keeps_on_session {A} i (c : M session A) : keeps life c → keeps kept (on_session i c).
Proof.
  intros Hc m a m' (x&id&x'&Hx&E&->)%on_session_inv. constructor; [done| |intros; eexists; by split].
  intros j y idy Hy. cbn. destruct (decide (j = i)) as [->|Hne]; [|exists y; split; [by rewrite lookup_insert_ne|done]].
  rewrite Hx in Hy. injection Hy as <- <-. exists x'. rewrite lookup_insert_eq. split; [done|]. etransitivity; [apply life_heap|by eapply Hc].
Qed.

Lemma keeps_on_pool {A} p (c : M streamPool A) : keeps (λ q q', sp_session q' = sp_session q) c → keeps kept (on_pool p c).
Proof.
  intros Hc m a m'. unfold on_pool. destruct (ms_poolobjs m !! p) as [q|] eqn:Hq; [|done]. destruct (c q) as [[y q']| |] eqn:E; [|done..].
  intros [= _ <-]. constructor; [done|intros; eexists; by split|]. intros p' r Hr. cbn.
  destruct (decide (p' = p)) as [->|Hne]; [|exists r; split; [by rewrite lookup_insert_ne|done]].
  rewrite Hq in Hr. injection Hr as <-. exists q'. rewrite lookup_insert_eq. split; [done|by eapply Hc].
Qed.

Lemma pool_reads_kept {A} p (f : streamPool → A) : keeps kept (on_pool p (reads f)).
Proof. apply keeps_on_pool. by intros q a q' [= _ <-]. Qed.

Lemma pool_pop_kept p : keeps kept (on_pool p pool_pop).
Proof.
  apply keeps_on_pool. intros q a q'. unfold pool_pop. intros (q1&q2&[= <- <-]&E)%bind_done_inv.
  destruct (sp_tail q >? sp_head q); [|by injection E as _ <-]. apply bind_done_inv in E as (j&q1&E1&E).
  apply bind_done_inv in E as (s&q2&E2&E). apply bind_done_inv in E as (?&q3&[= _ <-]&[= _ <-]). unfold ring_index in E1.
  destruct (_ =? _); [done|]. injection E1 as _ <-. destruct (sp_streams q !! j); [|done]. by injection E2 as _ <-.
Qed.

Lemma close_idle_kept fuel p : keeps kept (close_idle e fuel p).
Proof.
  induction fuel as [|fuel IH]; cbn [close_idle]; [apply keeps_fuel|]. apply keeps_bind; [apply _|apply pool_pop_kept|]. intros [[i q]|].
  - apply keeps_bind; [apply _| |intros _; exact IH]. destruct env_ok. apply keeps_on_session, keeps_Stream_Close; auto.
  - apply keeps_ret, _.
Qed.

Lemma pool_close_kept p : keeps kept (pool_close e p).
Proof.
  unfold pool_close. apply keeps_bind; [apply _|apply pool_reads_kept|]. intros x. apply keeps_bind; [apply _| |intros _].
  - destruct x; [|apply keeps_ret, _]. apply keeps_bind; [apply _|apply keeps_on_session, keeps_Session_Close|intros; apply keeps_ret, _].
  - apply keeps_bind; [apply _|apply pool_reads_kept|intros n; apply close_idle_kept].
Qed.

Lemma close_pools_kept ps : keeps kept (close_pools e ps).
Proof. induction ps as [|p ps IH]; cbn [close_pools]; [apply keeps_ret, _|]. apply keeps_bind; [apply _|apply pool_close_kept|intros _; exact IH]. Qed.

(** The session of a pool is shut down. *)
Definition pool_down (m : @mst W) (p : nat) : Prop :=
  ∃ q, ms_poolobjs m !! p = Some q ∧ ∀ i, sp_session q = Some i → ∃ x id, ms_sessions m !! i = Some (x, id) ∧ ss_shutdown x = true.

Lemma kept_down m m' p : kept m m' → pool_down m p → pool_down m' p.
Proof.
  intros K (q&Hq&Hd). destruct (kp_pools _ _ K p q Hq) as (q'&Hq'&Es). exists q'. split; [done|]. rewrite Es. intros i Hi.
  destruct (Hd i Hi) as (x&id&Hx&Hs). destruct (kp_sessions _ _ K i x id Hx) as (x'&Hx'&L). exists x', id. split; [done|]. by apply (li_down _ _ L).
Qed.

Lemma pool_close_down p m m' : pool_close e p m = Done (tt, m') → pool_down m' p.
Proof.
  unfold pool_close. intros (o&m1&E1&E)%bind_done_inv. apply bind_done_inv in E as ([]&m2&E2&E).
  apply (kept_down m2).
  { revert E. apply (λ K, K : keeps kept _). apply keeps_bind; [apply _|apply pool_reads_kept|intros n; apply close_idle_kept]. }
  unfold on_pool in E1. destruct (ms_poolobjs m !! p) as [q|] eqn:Hq; [|done]. injection E1 as <- <-. rewrite insert_id in E2 by done.
  destruct (sp_session q) as [i|] eqn:Hi.
  - apply bind_done_inv in E2 as (r&m3&Ec&[= <-]). apply on_session_inv in Ec as (x&id&x'&Hx&Ex&->).
    exists q. split; [done|]. intros i' [= <-]%(eq_trans (eq_sym Hi)). exists x', id. cbn. rewrite lookup_insert_eq. split; [done|].
    by eapply Session_Close_down.
  - injection E2 as <-. exists q. split; [done|]. intros i. by rewrite Hi.
Qed.

Lemma close_pools_down ps : ∀ m m', close_pools e ps m = Done (tt, m') → Forall (pool_down m') ps.
Proof.
  induction ps as [|p ps IH]; intros m m' E; cbn [close_pools] in E; [constructor|]. apply bind_done_inv in E as ([]&m1&E1&E).
  constructor; [|by eapply IH]. apply (kept_down m1); [by eapply close_pools_kept|by eapply pool_close_down].
Qed.

Lemma kept_session m m' p : kept m m' → has_session m p → has_session m' p.
Proof.
  intros K (q&i&x&id&Hq&Hi&Hx&Hm). destruct (kp_pools _ _ K p q Hq) as (q'&Hq'&Es). destruct (kp_sessions _ _ K i x id Hx) as (x'&Hx'&L).
  exists q', i, x', id. split_and!; [done|by rewrite Es|done|by apply (li_map _ _ L)].
Qed.

Lemma ack_all_returns epoch ps : ∀ m, Forall (has_session m) ps → ∃ m', ack_all e epoch ps m = Done (tt, m') ∧ kept m m'.
Proof.
  induction ps as [|p ps IH]; intros m Hps; [by exists m|]. apply Forall_cons in Hps as [(q&i&y&id&Hq&Hi&Hy&Hm) Hps]. cbn [ack_all].
  assert (pool_session p m = Done (i, m)) as Ep.
  { unfold pool_session. erewrite bind_done by (unfold on_pool; rewrite Hq; done). cbv beta. rewrite Hi, insert_id by done. by destruct m. }
  erewrite bind_done by exact Ep. cbv beta.
  destruct (hotRestart_returns epoch (set_ss_heap (pr_heap (ms_proc m)) y) Hm) as (y'&E).
  assert (∃ m1, on_session i (hotRestart (en_write e) epoch typeHotRestartAck) m = Done (None, m1)) as (m1&E1) by (unfold on_session; rewrite Hy, E; eauto).
  assert (kept m m1) as K1. { revert E1. apply (λ K, K : keeps kept _), keeps_on_session, keeps_hotRestart. apply env_ok. }
  erewrite bind_done by exact E1. cbv beta. edestruct IH as (m'&Em&K); [|exists m'; split; [exact Em|by etransitivity]].
  eapply Forall_impl; [exact Hps|]. intros p'. by apply kept_session.
Qed.

Lemma size_below (d : gset nat) n : (∀ k, k ∈ d → (k < n)%nat) → size d = n ↔ ∀ k, (k < n)%nat → k ∈ d.
Proof.
  intros Hd. assert (d ⊆ set_seq 0 n) as Hsub by (intros k Hk; apply elem_of_set_seq; specialize (Hd k Hk); lia). split.
  - intros Hn k Hk. assert (d = set_seq 0 n) as ->; [|apply elem_of_set_seq; lia].
    apply set_eq. intros x. apply set_subseteq_size_eq in Hsub; [by rewrite Hsub|]. rewrite size_set_seq. lia.
  - intros Hall. assert (d = set_seq 0 n) as ->; [|apply size_set_seq]. apply set_eq. intros k. split; [apply Hsub|].
    rewrite elem_of_set_seq. intros. apply Hall. lia.
Qed.

(** A look of [checkHotRestart] at a restart. *)
Lemma check_switched m0 m1 epoch d : switched m0 m1 epoch d → Forall (has_session m0) (ms_pools m0) →
  ∃ m2, check_tick e m1 = Done (bool_decide (size d = length (ms_pools m0)), m2) ∧ ms_pools m2 = ms_pools m1 ∧
    ms_reservePools m2 = ms_reservePools m1 ∧ ms_state m2 = if bool_decide (size d = length (ms_pools m0)) then defaultState else hotRestartState.
Proof.
  intros [] Hall. unfold check_tick. rewrite <- sw_size0, <- sw_len0. erewrite bind_done by done. cbv beta.
  destruct (decide (size (ms_reservePools m1) = length (ms_pools m1))) as [Hz|Hz].
  - rewrite bool_decide_true, Hz, Nat.eqb_refl by done.
    set (mt := set_restart_state defaultState (ms_epoch m1) (ms_randID m1) (ms_checks m1 - 1) m1).
    destruct (ack_all_returns (ms_epoch m1) (map_to_list (ms_reservePools m1)).*2 mt) as (m2&E2&K2).
    { apply Forall_fmap, Forall_forall. intros [z p] Hz'%elem_of_map_to_list. cbn.
      assert (p ∈ ms_pools m0) as Hp by (by eapply sw_dom0). rewrite Forall_forall in Hall. destruct (Hall p Hp) as (q&j&y&id&Hq&Hj&Hy&?).
      exists q, j, y, id. split_and!; [by eapply lookup_weaken|done|by eapply lookup_weaken|done]. }
    pose proof (kp_fields _ _ K2) as G. injection G as G1 G2 G3 G4 G5 G6.
    exists m2. split_and!; [|done..]. erewrite bind_done by done. by erewrite bind_done by exact E2.
  - rewrite bool_decide_false, (proj2 (Nat.eqb_neq _ _) Hz) by done. by exists m1.
Qed.

End restart.

(** A server that accepts every connection and a connection that takes every write. *)
Definition demo_client (sessionID epochID randID : Z) : M (@proc unit) (error + session) := mret (inr (demo_session true)).

(** A manager in its second restart: pool 1 is in use, pool 0 is in reserve since the first. *)
Definition demo_restarted : @mst unit :=
  match run_restart demo_env DefaultSessionManagerConfig demo_client 7 [(0%nat, 5)] demo_manager with
  | Done (_, m) => set_restart_state defaultState 7 5 0 m
  | _ => demo_manager
  end.

