(* ===== verification/Listener.v ===== *)
(** * The listener of a server ([listener.go], [util.go])

    It accepts connections, makes a session of each, keeps the open sessions and
    leads a hot restart: every session is told, the acknowledgements are counted.
    Its two mutexes are part of the state, because the callback of a session that
    shuts down takes one of them again. *)

From Stdlib Require Import ZArith Lia.
From stdpp Require Import prelude list gmap strings.
From S2P Require Import Prelude GoMem Queue Protocol Events Config Session SessionProofs NewSession SessionManager.

Record ListenerConfig := MkListenerConfig { lc_Config : Config; lc_Network : string; lc_ListenPath : string }.

Definition NewDefaultListenerConfig (listenPath network : string) : ListenerConfig :=
  MkListenerConfig DefaultConfig network listenPath.

(** What the listener did to the rest of the world. *)
Inductive lnote := LOnShutdown (reason : string) | LSocketClosed | LPathRemoved (path : string) | LUnlinkOnClose (unlink : bool).

Section listener.
Context {W : Type}.

(** A session object with its [handshakeDone]. *)
Record Listener := Lst {
  l_proc : @proc W;
  l_config : ListenerConfig;
  l_objs : gmap nat (session * bool);
  (** [sessions.data], nil once the listener is closed, and [sessions.sessionMu] *)
  l_data : option (gset nat);
  l_sessionMu : bool;
  l_mu : bool;
  l_shutdownErrStr : string;
  l_isClose : bool;
  l_state : Z;
  l_epoch : Z;
  l_hotRestartAckCount : Z;
  l_unlinkOnClose : bool;
  (** [checkHotRestart] goroutines that were started *)
  l_checks : Z;
  l_notes : list lnote
}.

Definition put_proc (p : proc) (l : Listener) : Listener :=
  Lst p (l_config l) (l_objs l) (l_data l) (l_sessionMu l) (l_mu l) (l_shutdownErrStr l) (l_isClose l) (l_state l) (l_epoch l)
    (l_hotRestartAckCount l) (l_unlinkOnClose l) (l_checks l) (l_notes l).
Definition put_objs (x : gmap nat (session * bool)) (l : Listener) : Listener :=
  Lst (l_proc l) (l_config l) x (l_data l) (l_sessionMu l) (l_mu l) (l_shutdownErrStr l) (l_isClose l) (l_state l) (l_epoch l)
    (l_hotRestartAckCount l) (l_unlinkOnClose l) (l_checks l) (l_notes l).
Definition put_data (x : option (gset nat)) (l : Listener) : Listener :=
  Lst (l_proc l) (l_config l) (l_objs l) x (l_sessionMu l) (l_mu l) (l_shutdownErrStr l) (l_isClose l) (l_state l) (l_epoch l)
    (l_hotRestartAckCount l) (l_unlinkOnClose l) (l_checks l) (l_notes l).
Definition put_sessionMu (x : bool) (l : Listener) : Listener :=
  Lst (l_proc l) (l_config l) (l_objs l) (l_data l) x (l_mu l) (l_shutdownErrStr l) (l_isClose l) (l_state l) (l_epoch l)
    (l_hotRestartAckCount l) (l_unlinkOnClose l) (l_checks l) (l_notes l).
Definition put_mu (x : bool) (l : Listener) : Listener :=
  Lst (l_proc l) (l_config l) (l_objs l) (l_data l) (l_sessionMu l) x (l_shutdownErrStr l) (l_isClose l) (l_state l) (l_epoch l)
    (l_hotRestartAckCount l) (l_unlinkOnClose l) (l_checks l) (l_notes l).
Definition put_close (err : string) (closed : bool) (l : Listener) : Listener :=
  Lst (l_proc l) (l_config l) (l_objs l) (l_data l) (l_sessionMu l) (l_mu l) err closed (l_state l) (l_epoch l)
    (l_hotRestartAckCount l) (l_unlinkOnClose l) (l_checks l) (l_notes l).
Definition put_restart (st epoch acks checks : Z) (l : Listener) : Listener :=
  Lst (l_proc l) (l_config l) (l_objs l) (l_data l) (l_sessionMu l) (l_mu l) (l_shutdownErrStr l) (l_isClose l) st epoch
    acks (l_unlinkOnClose l) checks (l_notes l).
Definition put_unlink (x : bool) (l : Listener) : Listener :=
  Lst (l_proc l) (l_config l) (l_objs l) (l_data l) (l_sessionMu l) (l_mu l) (l_shutdownErrStr l) (l_isClose l) (l_state l) (l_epoch l)
    (l_hotRestartAckCount l) x (l_checks l) (l_notes l).
Definition put_note (x : lnote) (l : Listener) : Listener :=
  Lst (l_proc l) (l_config l) (l_objs l) (l_data l) (l_sessionMu l) (l_mu l) (l_shutdownErrStr l) (l_isClose l) (l_state l) (l_epoch l)
    (l_hotRestartAckCount l) (l_unlinkOnClose l) (l_checks l) (l_notes l ++ [x]).

Definition set_lstate (st : Z) (l : Listener) : Listener := put_restart st (l_epoch l) (l_hotRestartAckCount l) (l_checks l) l.
Definition set_acks (n : Z) (l : Listener) : Listener := put_restart (l_state l) (l_epoch l) n (l_checks l) l.

(** ** Mutexes *)

(** A mutex that is taken already is waited for; here no other goroutine runs that
    could release it, so the wait has no end: no amount of steps is enough. *)
Definition critical {A} (held : Listener → bool) (hold : bool → Listener → Listener) (m : M Listener A) : M Listener A :=
  taken ← reads held;
  if (taken : bool) then out_of_fuel
  else
    _ ← modify_state (hold true);
    r ← m;
    _ ← modify_state (hold false);
    mret r.

Definition with_mu {A} : M Listener A → M Listener A := critical l_mu put_mu.
Definition with_sessionMu {A} : M Listener A → M Listener A := critical l_sessionMu put_sessionMu.

(** ** Sessions *)

Definition get_session (i : nat) : M Listener (session * bool) := λ l,
  match l_objs l !! i with Some x => Done (x, l) | None => Panic end.

(** [for session := range s.data]: the order is not specified. *)
Definition session_list : M Listener (list nat) := reads (λ l, match l_data l with Some d => elements d | None => [] end).

Fixpoint remove_closed (ids : list nat) : M Listener unit :=
  match ids with
  | [] => mret tt
  | i :: ids =>
      x ← get_session i;
      _ ← (if ss_shutdown x.1 then modify_state (λ l, put_data (option_map (λ d, d ∖ {[i]}) (l_data l)) l) else mret tt);
      remove_closed ids
  end.

Definition removeShutdownSession : M Listener unit := with_sessionMu (ids ← session_list; remove_closed ids).

(** [OnShutdown] of [sessionCallback] *)
Definition sessionCallback_OnShutdown (reason : error) : M Listener unit := removeShutdownSession.

(** The shutdown callbacks a session has made. *)
Definition shutdowns (x : session) : list error :=
  omap (λ n, match n with NOnShutdown e => Some e | _ => None end) (ss_notes x).

(** Run an operation of a session.  It shares the memory of the process and reaches
    [listener.epoch] and [listener.hotRestartAckCount]; when it shuts the session
    down, the callback runs in the same goroutine. *)
Definition enter (l : Listener) (x : session) : session :=
  let x := set_ss_heap (pr_heap (l_proc l)) x in
  Session (ss_heap x) (ss_objs x) (ss_streams x) (ss_nextStreamID x) (ss_isClient x) (ss_version x) (ss_shutdown x) (ss_shutdownErr x)
    (ss_shutdownCh x) (ss_unhealthy x) (ss_writing x) (ss_notifyContinueWrite x) (ss_acceptCh x) (ss_sendCh x)
    (ss_bufferManager x) (ss_queueManager x) (ss_stats x) (ss_state x) (ss_listenCallback x) (Some (l_epoch l))
    (l_hotRestartAckCount l) (ss_notes x).
Definition leave (i : nat) (x : session) (h : bool) (l : Listener) : Listener :=
  set_acks (ss_hotRestartAckCount x)
    (put_objs (<[i := (x, h)]> (l_objs l)) (put_proc (Proc (ss_heap x) (pr_bms (l_proc l)) (pr_world (l_proc l))) l)).

Definition on_lsession {A} (i : nat) (m : M session A) : M Listener A := λ l,
  match l_objs l !! i with
  | None => Panic
  | Some (x, h) =>
      match m (enter l x) with
      | Done (a, x') =>
          match drop (length (shutdowns x)) (shutdowns x') with
          | e :: _ => (_ ← sessionCallback_OnShutdown e; mret a) (leave i x' h l)
          | [] => Done (a, leave i x' h l)
          end
      | Panic => Panic
      | NoFuel => NoFuel
      end
  end.

Definition add (i : nat) : M Listener unit :=
  with_sessionMu (
    d ← reads l_data;
    match d with
    | Some d => modify_state (put_data (Some ({[i]} ∪ d)))
    | None => _ ← on_lsession i Session_Close; mret tt
    end).

Fixpoint close_sessions (ids : list nat) : M Listener unit :=
  match ids with [] => mret tt | i :: ids => _ ← on_lsession i Session_Close; close_sessions ids end.

Definition closeAll : M Listener unit :=
  toCloseSessions ← with_sessionMu (ids ← session_list; _ ← modify_state (put_data None); mret ids);
  close_sessions toCloseSessions.

Fixpoint count_restart (success : bool) (ids : list nat) : M Listener unit :=
  match ids with
  | [] => mret tt
  | i :: ids =>
      _ ← on_lsession i (count (if success then hotRestartSuccessCount else hotRestartErrorCount) 1);
      count_restart success ids
  end.

Definition onHotRestart (success : bool) : M Listener unit := with_sessionMu (ids ← session_list; count_restart success ids).

(** ** Opening and closing *)

(** The rest of the world: files, the socket. *)
Context (pf : platform) (error_text : error → string).
(** [os.Stat]: an error, or whether the path is a directory; [os.Remove]: success *)
Context (os_Stat : string → M W (option bool)) (os_Remove : string → M W bool).
Context (net_Listen : string → string → M W (option error)).
Context (ln_Close : M W unit).

Definition on_world {A} (m : M W A) : M Listener A :=
  zoom (λ l, pr_world (l_proc l)) (λ w l, put_proc (Proc (pr_heap (l_proc l)) (pr_bms (l_proc l)) w) l) m.

Definition safeRemoveUdsFile (filename : string) : M W bool :=
  info ← os_Stat filename;
  match info with
  | None => mret false
  | Some true => mret false
  | Some false => os_Remove filename
  end.

Definition new_listener (p : proc) (config : ListenerConfig) : Listener :=
  Lst p config ∅ (Some ∅) false false "" false defaultState 0 0 true 0 [].

(** Whether a callback was given. *)
Definition NewListener (callback : bool) (config : ListenerConfig) (p : proc) : outcome ((error + Listener) * proc) :=
  if negb callback then Done (inl (Errorf "ListenCallback couldn't be nil"), p)
  else if negb (bool_decide (GOOS pf = "linux")) then Done (inl (Errorf "only support linux OS"), p)
  else if bool_decide (cf_MemMapType (lc_Config config) = MemMapTypeMemFd) && negb (bool_decide (lc_Network config = "unix"))
  then Done (inl (Errorf "config.Network must be unix when config.MemMapType is MemMapTypeMemFd"), p)
  else
    (_ ← (if bool_decide (lc_Network config = "unix") then _ ← on_pworld (safeRemoveUdsFile (lc_ListenPath config)); mret tt
          else mret tt);
     err ← on_pworld (net_Listen (lc_Network config) (lc_ListenPath config));
     match err with
     | Some e => mret (inl (Errorf ("create listener failed, reason" +:+ error_text e)))
     | None => p ← get_state; mret (inr (new_listener p config))
     end) p.

Definition Listener_Close : M Listener (option error) :=
  with_mu (
    closed ← reads l_isClose;
    if (closed : bool) then mret None
    else
      reason ← reads l_shutdownErrStr;
      _ ← modify_state (put_close reason true);
      _ ← modify_state (put_note (LOnShutdown (if negb (bool_decide (reason = "")) then reason else "close by Listener.Close()")));
      _ ← on_world ln_Close;
      _ ← modify_state (put_note LSocketClosed);
      l ← get_state;
      _ ← (if bool_decide (lc_Network (l_config l) = "unix") && l_unlinkOnClose l then
             _ ← on_world (os_Remove (lc_ListenPath (l_config l)));
             modify_state (put_note (LPathRemoved (lc_ListenPath (l_config l))))
           else mret tt);
      _ ← closeAll;
      mret None).

(** ** Accepting connections *)

(** [net.Listener.Accept]: a connection, or an error with its text and whether it is
    temporary. *)
Inductive accepted := AConn | AError (temporary : bool) (text : string).
Context (ln_Accept : M W accepted) (conn_Close : M W unit).
(** [newSession] (NewSession.v) of a server on the connection that was accepted. *)
Context (newServer : Config → M (@proc W) (error + session)).

Definition strings_Contains (s sub : string) : bool := match String.index 0 sub s with Some _ => true | None => false end.

Definition with_listenCallback (c : Config) : Config :=
  MkConfig (cf_ConnectionWriteTimeout c) (cf_InitializeTimeout c) (cf_QueueCap c) (cf_QueuePath c) (cf_ShareMemoryBufferCap c)
    (cf_ShareMemoryPathPrefix c) (cf_BufferSliceSizes c) true (cf_MemMapType c) (cf_Monitor c) (cf_rebuildInterval c).

(** One round of the loop of [Run]; [false] when the loop ends. *)
Definition run_round : M Listener bool :=
  a ← on_world ln_Accept;
  match a with
  | AError temporary text =>
      if temporary then mret true
      else if strings_Contains text "too many open file" then mret true
      else
        _ ← modify_state (λ l, put_close ("accept failed,reason:" +:+ text) (l_isClose l) l);
        _ ← Listener_Close;
        mret false
  | AConn =>
      c ← reads l_config;
      r ← zoom l_proc put_proc (newServer (with_listenCallback (lc_Config c)));
      match r with
      | inl _ => _ ← on_world conn_Close; mret true
      | inr x =>
          i ← reads (λ l, fresh_key (l_objs l));
          _ ← modify_state (λ l, put_objs (<[i := (x, true)]> (l_objs l)) l);
          _ ← add i;
          mret true
      end
  end.

Fixpoint Run (fuel : nat) : M Listener (option error) :=
  match fuel with
  | O => out_of_fuel
  | S fuel => more ← run_round; if (more : bool) then Run fuel else mret None
  end.

(** ** Hot restart *)

Context (conn_write : list Z → M session (option error)).

Fixpoint restart_loop (epoch : Z) (ids : list nat) : M Listener (option error) :=
  match ids with
  | [] => mret None
  | i :: ids =>
      x ← get_session i;
      if negb x.2 then mret (Some ErrInHandshakeStage)
      else if negb (ss_state x.1 =? defaultState) then restart_loop epoch ids
      else
        err ← on_lsession i (hotRestart conn_write epoch typeHotRestart);
        match err with
        | Some e => _ ← modify_state (set_lstate defaultState); mret (Some e)
        | None =>
            _ ← on_lsession i (modify_state (λ x, set_restart hotRestartState (ss_hotRestartAckCount x) x));
            _ ← modify_state (λ l, set_acks (l_hotRestartAckCount l + 1) l);
            restart_loop epoch ids
        end
  end.

Definition HotRestart (epoch : Z) : M Listener (option error) :=
  with_mu (
    st ← reads l_state;
    if st =? hotRestartState then mret (Some ErrHotRestartInProgress)
    else
      _ ← modify_state (λ l, put_restart hotRestartState epoch (l_hotRestartAckCount l) (l_checks l) l);
      with_sessionMu (
        ids ← session_list;
        err ← restart_loop epoch ids;
        match err with
        | Some e => mret (Some e)
        | None =>
            _ ← modify_state (λ l, put_restart (l_state l) (l_epoch l) (l_hotRestartAckCount l) (l_checks l + 1) l);
            mret None
        end)).

Definition IsHotRestartDone : M Listener bool := with_mu (st ← reads l_state; mret (negb (st =? hotRestartState))).

(** [SetUnlinkOnClose]; whether the socket is a unix socket *)
Definition SetUnlinkOnClose (unix unlink : bool) : M Listener unit :=
  with_mu (
    _ ← modify_state (put_unlink unlink);
    if unix then modify_state (put_note (LUnlinkOnClose unlink)) else mret tt).

(** An acknowledgement that a session receives; its handler takes the mutex. *)
Definition on_ack (i : nat) (h b : list Z) : M Listener (Z * bool * option error) :=
  with_mu (on_lsession i (handleHotRestartAck h b)).

Fixpoint reset_sessions (ids : list nat) : M Listener unit :=
  match ids with
  | [] => mret tt
  | i :: ids =>
      _ ← on_lsession i (modify_state (λ x, set_restart defaultState (ss_hotRestartAckCount x) x));
      reset_sessions ids
  end.

Definition resetState : M Listener unit :=
  with_mu (
    _ ← modify_state (set_lstate defaultState);
    _ ← modify_state (set_acks 0);
    with_sessionMu (ids ← session_list; reset_sessions ids)).

(** The two cases of [checkHotRestart]; [true] when it returns. *)
Definition listener_tick : M Listener bool :=
  with_mu (
    l ← get_state;
    if negb (l_state l =? hotRestartState) then mret true
    else if l_hotRestartAckCount l =? 0 then
      _ ← modify_state (set_lstate hotRestartDoneState);
      _ ← onHotRestart true;
      mret true
    else mret false).

Definition listener_timeout : M Listener bool :=
  _ ← resetState;
  _ ← onHotRestart false;
  mret true.
End listener.
