(* ===== verification/ListenerProofs.v ===== *)
(** * Properties of the listener

    A restart that the clients acknowledge ends when the last of them has done so;
    two ways in which the callback of a session waits for a mutex that its own
    goroutine holds; and what an acknowledgement that comes too late does. *)

From Stdlib Require Import ZArith Lia.
From stdpp Require Import prelude list gmap strings.
From S2P Require Import Prelude GoMem Queue Protocol Events Config Session SessionProofs EventConn SessionEvents NewSession SessionManager Listener.

Section proofs.
Context {W : Type}.
Notation Listener := (@Listener W).
Implicit Types (l : Listener) (x : session).

(** ** Operations of single sessions *)

(** All but the sessions, their memory and the acknowledgements. *)
Record same_rest l l' : Prop := {
  sr_config : l_config l' = l_config l;
  sr_data : l_data l' = l_data l;
  sr_sessionMu : l_sessionMu l' = l_sessionMu l;
  sr_mu : l_mu l' = l_mu l;
  sr_isClose : l_isClose l' = l_isClose l;
  sr_state : l_state l' = l_state l;
  sr_epoch : l_epoch l' = l_epoch l
}.

Lemma same_rest_refl l : same_rest l l.
Proof. done. Qed.
Lemma same_rest_trans l1 l2 l3 : same_rest l1 l2 → same_rest l2 l3 → same_rest l1 l3.
Proof. intros [] []. constructor; congruence. Qed.
#[local] Hint Resolve same_rest_refl : core.

Lemma on_lsession_quiet {A} i (m : M session A) l x h a x' :
  l_objs l !! i = Some (x, h) → m (enter l x) = Done (a, x') → ss_notes x' = ss_notes x → on_lsession i m l = Done (a, leave i x' h l).
Proof.
  intros Hx E Hn. unfold on_lsession. rewrite Hx, E. unfold shutdowns. rewrite Hn, drop_all. done.
Qed.

(** ** Loops over sessions *)

(** Each of the sessions [ids] has made a step [R], each of which changed the number of
    outstanding acknowledgements by [d]. *)
Record all_ok (R : session → session → Prop) (d : Z) (ids : list nat) l l' : Prop := {
  ao_rest : same_rest l l';
  ao_acks : l_hotRestartAckCount l' = l_hotRestartAckCount l + d * Z.of_nat (length ids);
  ao_in : ∀ i, i ∈ ids → ∃ x x', l_objs l !! i = Some (x, true) ∧ l_objs l' !! i = Some (x', true) ∧ R x x';
  ao_out : ∀ i, i ∉ ids → l_objs l' !! i = l_objs l !! i
}.

Lemma all_ok_nil R d l : all_ok R d [] l l.
Proof. constructor; [done|cbn; lia|by intros i ?%not_elem_of_nil|done]. Qed.

Lemma all_ok_cons (R : session → session → Prop) d i ids l l1 l2 x x' :
  l_objs l !! i = Some (x, true) → R x x' → l_objs l1 = <[i := (x', true)]> (l_objs l) → same_rest l l1 →
  l_hotRestartAckCount l1 = l_hotRestartAckCount l + d →
  i ∉ ids → all_ok R d ids l1 l2 → all_ok R d (i :: ids) l l2.
Proof.
  intros Hx HR Hobjs Hrest Hacks Hi [Hr2 Ha2 Hin Hout]. constructor.
  - by eapply same_rest_trans.
  - rewrite Ha2, Hacks. cbn [length]. lia.
  - intros j [->|Hj]%elem_of_cons.
    + exists x, x'. split_and!; [done| |done]. rewrite Hout by done. by rewrite Hobjs, lookup_insert_eq.
    + destruct (Hin j Hj) as (y&y'&Hy&Hy'&HRy). rewrite Hobjs, lookup_insert_ne in Hy by set_solver. by exists y, y'.
  - intros j Hj. rewrite Hout by set_solver. by rewrite Hobjs, lookup_insert_ne by set_solver.
Qed.

(** The sessions [ids] exist and satisfy [P]. *)
Definition all_are (P : session → Prop) (ids : list nat) l : Prop := ∀ i, i ∈ ids → ∃ x, l_objs l !! i = Some (x, true) ∧ P x.

Lemma all_are_rest P i ids l l1 y : all_are P (i :: ids) l → i ∉ ids → l_objs l1 = <[i := y]> (l_objs l) → all_are P ids l1.
Proof.
  intros Hall Hi Hobjs j Hj. destruct (Hall j) as (x&Hx&HP); [set_solver|]. exists x. split; [|done].
  by rewrite Hobjs, lookup_insert_ne by set_solver.
Qed.

(** ** The server side of a restart *)

(** A connection that takes every write. *)
Definition quiet_write (conn_write : list Z → M session (option error)) : Prop :=
  ∀ data s, ∃ s', conn_write data s = Done (None, s') ∧ ss_notes s' = ss_notes s ∧ ss_stats s' = ss_stats s
    ∧ ss_hotRestartAckCount s' = ss_hotRestartAckCount s ∧ ss_state s' = ss_state s.

Context (conn_write : list Z → M session (option error)) (Hw : quiet_write conn_write).

(** The event that announces a restart. *)
Definition restart_event (epoch : Z) (x : session) : list Z := header_bytes 16 (ss_version x) typeHotRestart ++ be_bytes 8 epoch.

(** What [hotRestart] does: the event is written to the connection, or left to the send
    loop when somebody else is writing. *)
Lemma hotRestart_quiet epoch s : ∃ s', hotRestart conn_write epoch typeHotRestart s = Done (None, s')
  ∧ ss_notes s' = ss_notes s ∧ ss_stats s' = ss_stats s ∧ ss_hotRestartAckCount s' = ss_hotRestartAckCount s
  ∧ if ss_writing s then s' = set_chans (ss_acceptCh s) (ss_sendCh s ++ [SendReady None (Some (restart_event epoch s))]) s
    else ∃ s1, conn_write (restart_event epoch s) (set_writing true (ss_notifyContinueWrite s) s) = Done (None, s1) ∧ s' = set_writing false true s1.
Proof.
  unfold hotRestart. cbn [negb andb Z.eqb typeHotRestart typeHotRestartAck Pos.eqb].
  erewrite bind_done by (by apply gmake_ok). cbv beta. erewrite bind_done; last first.
  { apply (gput_pieces s (replicate 8 0) (replicate 8 0) (be_bytes 8 epoch) []); [done|apply length_be_bytes]. }
  cbv beta. erewrite bind_done by done. cbv beta. erewrite bind_done by (by apply header_encode_ok). cbv beta.
  match goal with |- context [write_or_queue _ ?d] => replace d with (restart_event epoch s) by (unfold restart_event; by rewrite app_nil_r) end.
  set (data := restart_event epoch s). clearbody data. unfold write_or_queue. destruct (ss_writing s) eqn:Ew.
  - eexists. split; [erewrite bind_done; [done|]; erewrite bind_done by done; by rewrite Ew|done].
  - destruct (Hw data (set_writing true (ss_notifyContinueWrite s) s)) as (s'&E&Hn&Hst&Ha&_). eexists. split.
    + erewrite bind_done; [done|]. erewrite bind_done by done. rewrite Ew. erewrite bind_done by done. cbv beta.
      erewrite bind_done; [done|]. unfold writeEventData. by erewrite bind_done by exact E.
    + cbn. rewrite Hn, Hst, Ha. split_and!; try done. by exists s'.
Qed.

(** The event of epoch [epoch] went out on session [x], which is [x'] afterwards: it is the
    last of the send channel, or [x'] is what the write of it to the connection left. *)
Definition announced (epoch : Z) x x' : Prop :=
  if ss_writing x then ss_sendCh x' = ss_sendCh x ++ [SendReady None (Some (restart_event epoch x))]
  else ∃ (la : Listener) s (lb : Listener) n, conn_write (restart_event epoch x) (set_writing true (ss_notifyContinueWrite x) (enter la x)) = Done (None, s) ∧
    x' = set_restart hotRestartState n (enter lb (set_writing false true s)).

(** What a step of a restart does to a session. *)
Definition told (epoch : Z) x x' : Prop := ss_state x' = hotRestartState ∧ ss_stats x' = ss_stats x ∧ announced epoch x x'.
Definition acked x x' : Prop := ss_state x' = hotRestartDoneState ∧ ss_stats x' = ss_stats x.
Definition counted x x' : Prop :=
  ss_state x' = ss_state x ∧ ss_stats x' hotRestartSuccessCount = u64 (ss_stats x hotRestartSuccessCount + 1).

Lemma restart_loop_ok epoch ids : ∀ l, NoDup ids → all_are (λ x, ss_state x = defaultState) ids l →
  ∃ l', restart_loop conn_write epoch ids l = Done (None, l') ∧ all_ok (told epoch) 1 ids l l'.
Proof.
  induction ids as [|i ids IH]; intros l Hnd Hall; [exists l; split; [done|apply all_ok_nil]|].
  apply NoDup_cons in Hnd as [Hi Hnd]. destruct (Hall i) as (x&Hx&Hst); [set_solver|]. cbn [restart_loop].
  erewrite bind_done by (unfold get_session; by rewrite Hx). cbv beta. cbn [fst snd negb]. rewrite Hst. cbn [negb Z.eqb defaultState].
  destruct (hotRestart_quiet epoch (enter l x)) as (y&E&Hn&Hs&Ha&Hsent). cbn [enter ss_notes ss_stats ss_hotRestartAckCount] in Hn, Hs, Ha.
  erewrite bind_done by (by eapply on_lsession_quiet). cbv beta iota. set (l1 := leave i y true l).
  assert (l_objs l1 !! i = Some (y, true)) as Hy by (cbn; apply lookup_insert_eq).
  erewrite bind_done by (eapply on_lsession_quiet; [exact Hy|done|done]). cbv beta. erewrite bind_done by done.
  match goal with |- context [restart_loop _ _ _ ?l2] => set (l2' := l2) end.
  assert (∃ y', l_objs l2' = <[i := (y', true)]> (l_objs l) ∧ told epoch x y') as (y'&Hobjs&Ht).
  { eexists. split; [cbn; by rewrite insert_insert_eq|]. split_and!; [done|by cbn|]. unfold announced.
    change (ss_writing (enter l x)) with (ss_writing x) in Hsent. destruct (ss_writing x); [by subst y|].
    destruct Hsent as (s1&E1&->). exists l, s1, l1. by eexists. }
  destruct (IH l2' Hnd) as (l'&E'&Hok); [by eapply all_are_rest|]. exists l'. split; [done|].
  eapply all_ok_cons; [exact Hx|exact Ht|exact Hobjs|done| |exact Hi|exact Hok]. cbn. by rewrite Ha.
Qed.

(** The acknowledgements of sessions, in the order in which they arrive. *)
Fixpoint run_acks (epoch : Z) (ids : list nat) : M Listener unit :=
  match ids with [] => mret tt | i :: ids => _ ← on_ack i [] (be_bytes 8 epoch); run_acks epoch ids end.

Lemma handleHotRestartAck_ok h epoch s : 0 ≤ epoch < 2 ^ 64 → ss_epoch s = Some epoch →
  handleHotRestartAck h (be_bytes 8 epoch) s
    = Done ((headerSize + epochIDLen, false, None), set_restart hotRestartDoneState (ss_hotRestartAckCount s - 1) s).
Proof.
  intros He Hs. unfold handleHotRestartAck, epochIDLen. rewrite length_be_bytes. change (Z.of_nat 8 <? 8) with false. cbv iota.
  erewrite bind_done by (apply gsub_front; rewrite length_be_bytes; lia). cbv beta. rewrite take_ge by (rewrite length_be_bytes; lia).
  erewrite bind_done by done. cbv beta. rewrite Hs. erewrite bind_done by done. cbv beta. erewrite bind_done by done. cbv beta.
  rewrite be_val_bytes, Z.mod_small by (cbn; lia). rewrite Z.eqb_refl. by erewrite bind_done by done.
Qed.

Lemma critical_done {A} held hold (m : M Listener A) l a l' :
  held l = false → m (hold true l) = Done (a, l') → critical held hold m l = Done (a, hold false l').
Proof.
  intros Hh E. unfold critical. erewrite bind_done by done. cbv beta. rewrite Hh. erewrite bind_done by done. cbv beta.
  by erewrite bind_done by exact E.
Qed.

Lemma run_acks_ok epoch ids : ∀ l, 0 ≤ epoch < 2 ^ 64 → l_epoch l = epoch → l_mu l = false → NoDup ids → all_are (λ _, True) ids l →
  ∃ l', run_acks epoch ids l = Done (tt, l') ∧ all_ok acked (-1) ids l l'.
Proof.
  induction ids as [|i ids IH]; intros l He Hep Hmu Hnd Hall; [exists l; split; [done|apply all_ok_nil]|].
  apply NoDup_cons in Hnd as [Hi Hnd]. destruct (Hall i) as (x&Hx&_); [set_solver|]. cbn [run_acks].
  erewrite bind_done; last first.
  { unfold on_ack, with_mu. apply critical_done; [done|]. eapply on_lsession_quiet; [exact Hx| |].
    - apply handleHotRestartAck_ok; [done|]. by rewrite <- Hep.
    - done. }
  cbv beta. match goal with |- context [run_acks _ _ ?l2] => set (l2' := l2) end.
  assert (∃ y', l_objs l2' = <[i := (y', true)]> (l_objs l) ∧ acked x y') as (y'&Hobjs&Ht) by (by eexists).
  destruct (IH l2' He) as (l'&E'&Hok); [done|done|done|by eapply all_are_rest|]. exists l'. split; [done|].
  eapply all_ok_cons; [exact Hx|exact Ht|exact Hobjs| | |exact Hi|exact Hok].
  - constructor; try done; cbn; congruence.
  - cbn. lia.
Qed.

Lemma count_restart_ok ids : ∀ l, NoDup ids → all_are (λ _, True) ids l →
  ∃ l', count_restart true ids l = Done (tt, l') ∧ all_ok counted 0 ids l l'.
Proof.
  induction ids as [|i ids IH]; intros l Hnd Hall; [exists l; split; [done|apply all_ok_nil]|].
  apply NoDup_cons in Hnd as [Hi Hnd]. destruct (Hall i) as (x&Hx&_); [set_solver|]. cbn [count_restart].
  erewrite bind_done by (by eapply on_lsession_quiet). cbv beta.
  match goal with |- context [count_restart _ _ ?l2] => set (l2' := l2) end.
  assert (∃ y', l_objs l2' = <[i := (y', true)]> (l_objs l) ∧ counted x y') as (y'&Hobjs&Ht) by (by eexists).
  destruct (IH l2' Hnd) as (l'&E'&Hok); [by eapply all_are_rest|]. exists l'. split; [done|].
  eapply all_ok_cons; [exact Hx|exact Ht|exact Hobjs|done| |exact Hi|exact Hok]. cbn. lia.
Qed.

Lemma all_ok_are R d ids l l' : all_ok R d ids l l' → all_are (λ _, True) ids l'.
Proof. intros [_ _ Hin _] i Hi. destruct (Hin i Hi) as (x&x'&_&Hx'&_). by exists x'. Qed.

Lemma all_ok_app R d ids1 ids2 l l1 l2 : NoDup (ids1 ++ ids2) → all_ok R d ids1 l l1 → all_ok R d ids2 l1 l2 → all_ok R d (ids1 ++ ids2) l l2.
Proof.
  intros (_&Hdis&_)%NoDup_app [Hr1 Ha1 Hi1 Ho1] [Hr2 Ha2 Hi2 Ho2]. constructor.
  - by eapply same_rest_trans.
  - rewrite Ha2, Ha1, length_app. lia.
  - intros i [Hi|Hi]%elem_of_app.
    + destruct (Hi1 i Hi) as (x&x'&?&?&?). exists x, x'. rewrite Ho2 by eauto. done.
    + destruct (Hi2 i Hi) as (x&x'&Hx&?&?). exists x, x'. rewrite Ho1 in Hx; [done|]. intros Hi'. by eapply Hdis.
  - intros i Hi. rewrite Ho2, Ho1 by set_solver. done.
Qed.

Lemma HotRestart_ok epoch l d :
  l_mu l = false → l_sessionMu l = false → l_state l ≠ hotRestartState → l_data l = Some d →
  all_are (λ x, ss_state x = defaultState) (elements d) l →
  ∃ l', HotRestart conn_write epoch l = Done (None, l') ∧ l_mu l' = false ∧ l_sessionMu l' = false ∧ l_data l' = Some d
    ∧ l_state l' = hotRestartState ∧ l_epoch l' = epoch
    ∧ l_hotRestartAckCount l' = l_hotRestartAckCount l + Z.of_nat (size d)
    ∧ ∀ i, i ∈ d → ∃ x x', l_objs l !! i = Some (x, true) ∧ l_objs l' !! i = Some (x', true) ∧ told epoch x x'.
Proof.
  intros Hmu Hsmu Hst Hd Hall.
  set (l0 := put_sessionMu true (put_restart hotRestartState epoch (l_hotRestartAckCount l) (l_checks l) (put_mu true l))).
  destruct (restart_loop_ok epoch (elements d) l0) as (l1&E&[[] Ha Hin Hout]); [apply NoDup_elements|exact Hall|].
  eexists. split.
  { unfold HotRestart, with_mu. apply critical_done; [done|]. erewrite bind_done by done. cbv beta. cbn [l_state put_mu]. rewrite (proj2 (Z.eqb_neq _ _) Hst). erewrite bind_done by done. cbv beta.
    unfold with_sessionMu. apply critical_done; [done|]. unfold session_list. erewrite bind_done by done. cbv beta.
    cbn [put_sessionMu put_restart put_mu l_data]. rewrite Hd. erewrite bind_done by exact E. cbv beta iota. by erewrite bind_done by done. }
  cbn. rewrite sr_data0, sr_state0, sr_epoch0, Ha, Z.mul_1_l. split_and!; try done.
  intros i Hi. apply Hin. by apply elem_of_elements.
Qed.

Lemma tick_waits l : l_mu l = false → l_state l = hotRestartState → l_hotRestartAckCount l ≠ 0 → ∃ l', listener_tick l = Done (false, l') ∧ l_state l' = hotRestartState.
Proof.
  intros Hmu Hst Ha. eexists. split.
  { unfold listener_tick, with_mu. apply critical_done; [done|]. erewrite bind_done by done. cbv beta. cbn [l_state l_hotRestartAckCount put_mu].
    rewrite Hst, Z.eqb_refl. cbn [negb]. by bdecide. }
  done.
Qed.

Lemma tick_ends l d : l_mu l = false → l_sessionMu l = false → l_data l = Some d → l_state l = hotRestartState → l_hotRestartAckCount l = 0 →
  all_are (λ _, True) (elements d) l →
  ∃ l', listener_tick l = Done (true, l') ∧ l_state l' = hotRestartDoneState
    ∧ ∀ i, i ∈ d → ∃ x x', l_objs l !! i = Some (x, true) ∧ l_objs l' !! i = Some (x', true) ∧ counted x x'.
Proof.
  intros Hmu Hsmu Hd Hst Ha Hall. set (l0 := put_sessionMu true (set_lstate hotRestartDoneState (put_mu true l))).
  destruct (count_restart_ok (elements d) l0) as (l1&E&[[] _ Hin Hout]); [apply NoDup_elements|exact Hall|].
  eexists. split.
  { unfold listener_tick, with_mu. apply critical_done; [done|]. erewrite bind_done by done. cbv beta. cbn [l_state l_hotRestartAckCount put_mu].
    rewrite Hst, Ha. cbn [negb Z.eqb hotRestartState Pos.eqb]. erewrite bind_done by done. cbv beta.
    unfold onHotRestart, with_sessionMu. erewrite bind_done; [done|]. apply critical_done; [done|].
    unfold session_list. erewrite bind_done by done. cbv beta. change (l_data _) with (l_data l). rewrite Hd. exact E. }
  cbn. split; [done|]. intros i Hi. apply Hin. by apply elem_of_elements.
Qed.

(** [C25] A restart of a listener that has no acknowledgement outstanding and whose
    sessions are all connected and have not been told of a restart before, on connections
    that take every write.  [HotRestart] succeeds and hands the event with the new epoch
    to the connection of every session, or to its send loop if somebody else is writing;
    as long as acknowledgements are missing [checkHotRestart] goes on to wait; when each
    session has acknowledged once, in any order, its next look ends the restart, which is
    counted as a success on every session. *)
Theorem listener_restart_completes l epoch d first rest :
  l_mu l = false → l_sessionMu l = false → l_state l ≠ hotRestartState → l_hotRestartAckCount l = 0 → l_data l = Some d →
  all_are (λ x, ss_state x = defaultState) (elements d) l → 0 ≤ epoch < 2 ^ 64 → first ++ rest ≡ₚ elements d →
  ∃ l1 l2, HotRestart conn_write epoch l = Done (None, l1) ∧ run_acks epoch first l1 = Done (tt, l2) ∧
    (∀ i, i ∈ d → ∃ x x', l_objs l !! i = Some (x, true) ∧ l_objs l1 !! i = Some (x', true) ∧ told epoch x x') ∧
    (rest ≠ [] → ∃ l3, listener_tick l2 = Done (false, l3) ∧ l_state l3 = hotRestartState) ∧
    (rest = [] → ∃ l3, listener_tick l2 = Done (true, l3) ∧ l_state l3 = hotRestartDoneState ∧
       ∀ i, i ∈ d → ∃ x x', l_objs l !! i = Some (x, true) ∧ l_objs l3 !! i = Some (x', true) ∧ ss_state x' = hotRestartDoneState
         ∧ ss_stats x' hotRestartSuccessCount = u64 (ss_stats x hotRestartSuccessCount + 1)).
Proof.
  intros Hmu Hsmu Hst Ha Hd Hall He Hperm.
  destruct (HotRestart_ok epoch l d Hmu Hsmu Hst Hd Hall) as (l1&E1&Hmu1&Hsmu1&Hd1&Hst1&Hep1&Ha1&Hin1).
  assert (NoDup (first ++ rest)) as Hnd by (rewrite Hperm; apply NoDup_elements).
  assert (∀ i, i ∈ first ++ rest ↔ i ∈ d) as Hmem by (intros i; rewrite Hperm; apply elem_of_elements).
  assert (Z.of_nat (size d) = Z.of_nat (length first) + Z.of_nat (length rest)) as Hlen.
  { unfold size, set_size. cbn. rewrite <- Hperm, length_app. lia. }
  destruct (run_acks_ok epoch first l1) as (l2&E2&[[] Ha2 Hin2 Hout2]); [done|done|done|by apply NoDup_app in Hnd as (?&_)| |].
  { intros i Hi. destruct (Hin1 i) as (x&x'&_&Hx'&_); [apply Hmem; set_solver|by exists x']. }
  exists l1, l2. split_and!; [done|done|exact Hin1| |].
  - intros Hr. apply tick_waits; [congruence..|]. rewrite Ha2, Ha1, Ha. destruct rest; [done|]. cbn [length] in Hlen. lia.
  - intros ->. rewrite app_nil_r in Hmem. cbn [length] in Hlen.
    destruct (tick_ends l2 d) as (l3&E3&Hst3&Hin3); [congruence..|lia| |].
    { intros i Hi%elem_of_elements. destruct (Hin2 i) as (x&x'&_&Hx'&_); [by apply Hmem|by exists x']. }
    exists l3. split_and!; [done|done|]. intros i Hi. destruct (Hin1 i Hi) as (x&x1&Hx&Hx1&_&Hs1&_).
    destruct (Hin2 i) as (x1'&x2&Hx1'&Hx2&Hst2&Hs2); [by apply Hmem|]. destruct (Hin3 i Hi) as (x2'&x3&Hx2'&Hx3&Hst3'&Hs3).
    simplify_eq. exists x, x3. split_and!; [done|done|by rewrite Hst3'|by rewrite Hs3, Hs2, Hs1].
Qed.
End proofs.

(** ** Callbacks under a mutex *)

Lemma removeShutdownSession_waits {W} (l : @Listener W) : l_sessionMu l = true → removeShutdownSession l = NoFuel.
Proof. intros Hl. unfold removeShutdownSession, with_sessionMu, critical. erewrite bind_done by done. cbv beta. by rewrite Hl. Qed.

Lemma on_lsession_calls {W A} i (m : M session A) (l : @Listener W) x h a x' e rest :
  l_objs l !! i = Some (x, h) → m (enter l x) = Done (a, x') → shutdowns x' = shutdowns x ++ e :: rest → l_sessionMu l = true →
  on_lsession i m l = NoFuel.
Proof.
  intros Hx E Hsh Hmu. unfold on_lsession. rewrite Hx, E, Hsh, drop_app_length. unfold mbind, M_bind, sessionCallback_OnShutdown.
  by rewrite removeShutdownSession_waits.
Qed.

Lemma shutdowns_app x y ns : ss_notes y = ss_notes x ++ ns →
  shutdowns y = shutdowns x ++ omap (λ n, match n with NOnShutdown e => Some e | _ => None end) ns.
Proof. intros Hn. unfold shutdowns. by rewrite Hn, omap_app. Qed.

Lemma critical_stuck {W A} held hold (m : M (@Listener W) A) l : held l = false → m (hold true l) = NoFuel → critical held hold m l = NoFuel.
Proof.
  intros Hh E. unfold critical. erewrite bind_done by done. cbv beta. rewrite Hh. erewrite bind_done by done. cbv beta.
  unfold mbind, M_bind. by rewrite E.
Qed.

Lemma bind_stuck {S A B} (m : M S A) (k : A → M S B) s : m s = NoFuel → (m ≫= k) s = NoFuel.
Proof. intros E. unfold mbind, M_bind. by rewrite E. Qed.

(** A write that fails shuts the session down. *)
Lemma hotRestart_fails (conn_write : list Z → M session (option error)) err epoch s :
  (∀ data s, conn_write data s = Done (Some err, s)) →
  ss_shutdown s = false → ss_listenCallback s = true → ss_writing s = false → map_ok s →
  ∃ s' e, hotRestart conn_write epoch typeHotRestart s = Done (None, s') ∧ ss_notes s' = ss_notes s ++ [NOnShutdown e; NCloseLambda].
Proof.
  intros Hw Hs Hc Hwr Hm. unfold hotRestart. cbn [negb andb Z.eqb typeHotRestart typeHotRestartAck Pos.eqb].
  erewrite bind_done by (by apply gmake_ok). cbv beta. erewrite bind_done; last first.
  { apply (gput_pieces s (replicate 8 0) (replicate 8 0) (be_bytes 8 epoch) []); [done|apply length_be_bytes]. }
  cbv beta. erewrite bind_done by done. cbv beta. erewrite bind_done by (by apply header_encode_ok). cbv beta.
  set (data := header_bytes _ _ _ ++ _). clearbody data.
  set (s1 := set_shutdown false (Some (default err (ss_shutdownErr s))) (ss_shutdownCh s)
    (set_stats (set_stat eventConnErrorCount (u64 (ss_stats s eventConnErrorCount + 1)) (ss_stats s)) (set_writing true (ss_notifyContinueWrite s) s))).
  destruct (Session_Close_calls s1) as (s2&E&Hn); [done|done|]. change (ss_listenCallback s1) with (ss_listenCallback s) in Hn. rewrite Hc in Hn.
  set (e := default ErrSessionShutdown (ss_shutdownErr s1)) in Hn.
  assert (exitErr err (set_writing true (ss_notifyContinueWrite s) s) = Done (tt, s2)) as Ee.
  { unfold exitErr. erewrite bind_done by done. cbv beta. erewrite bind_done by done. cbv beta.
    rewrite (bind_done _ _ _ None s2); [done|]. rewrite <- E. cbn. by rewrite Hs. }
  assert (writeEventData conn_write data (set_writing true (ss_notifyContinueWrite s) s) = Done (Some err, s2)) as Ew.
  { unfold writeEventData. erewrite bind_done by apply Hw. cbv beta iota. by erewrite bind_done by exact Ee. }
  exists (set_writing false true s2), e. split; [|cbn; exact Hn].
  rewrite (bind_done _ _ _ tt (set_writing false true s2)); [done|]. unfold write_or_queue. erewrite bind_done by done. cbv beta. rewrite Hwr.
  erewrite bind_done by done. cbv beta. by erewrite bind_done by exact Ew.
Qed.

(** [C40] A session that shuts down calls its listener back, and the callback takes
    [sessionMu].  Two operations of the listener shut sessions down while they hold
    that mutex, and then wait for it for ever: [add] on a listener that has been
    closed, and [HotRestart] when the write to a session fails. *)
Theorem shutdown_callback_deadlocks {W : Type} (l : @Listener W) conn_write err epoch d i x h :
  l_mu l = false → l_sessionMu l = false → l_objs l !! i = Some (x, h) →
  ss_shutdown x = false → ss_listenCallback x = true → map_ok x →
  (l_data l = None → add i l = NoFuel) ∧
  (l_data l = Some d → l_state l ≠ hotRestartState →
   (∀ j y, j ∈ d → l_objs l !! j = Some y → y.2 = true ∧ ss_state y.1 = defaultState ∧ ss_shutdown y.1 = false
      ∧ ss_listenCallback y.1 = true ∧ ss_writing y.1 = false ∧ map_ok y.1) →
   (∀ j, j ∈ d → is_Some (l_objs l !! j)) → d ≠ ∅ →
   (∀ data s, conn_write data s = Done (Some err, s)) → HotRestart conn_write epoch l = NoFuel).
Proof.
  intros Hmu Hsmu Hi Hs Hc Hm. split.
  - intros Hd. unfold add, with_sessionMu. apply critical_stuck; [done|]. erewrite bind_done by done. cbv beta. cbn [l_data put_sessionMu]. rewrite Hd.
    apply bind_stuck. destruct (Session_Close_calls (enter (put_sessionMu true l) x)) as (x'&E&Hn); [done|done|].
    change (ss_listenCallback (enter _ x)) with (ss_listenCallback x) in Hn. rewrite Hc in Hn.
    eapply on_lsession_calls; [exact Hi|exact E| |done]. apply (shutdowns_app x x' _ Hn).
  - intros Hd Hst Hall Hobj Hne Hw. unfold HotRestart, with_mu. apply critical_stuck; [done|]. erewrite bind_done by done. cbv beta.
    cbn [l_state put_mu]. rewrite (proj2 (Z.eqb_neq _ _) Hst). erewrite bind_done by done. cbv beta. unfold with_sessionMu. apply critical_stuck; [done|].
    unfold session_list. erewrite bind_done by done. cbv beta. cbn [put_sessionMu put_restart put_mu l_data]. rewrite Hd.
    destruct (elements d) as [|j js] eqn:Ed; [by apply elements_empty_inv, leibniz_equiv in Ed|].
    assert (j ∈ d) as Hj by (apply elem_of_elements; rewrite Ed; set_solver). destruct (Hobj j Hj) as [[y hy] Hy].
    destruct (Hall j _ Hj Hy) as (Hh&Hys&Hyc&Hyl&Hyw&Hym). cbn in Hh, Hys, Hyc, Hyl, Hyw, Hym. subst hy.
    apply bind_stuck. cbn [restart_loop]. erewrite bind_done by (unfold get_session; cbn; by rewrite Hy). cbv beta. cbn [fst snd negb].
    rewrite Hys. cbn [negb Z.eqb defaultState]. apply bind_stuck.
    match goal with |- on_lsession _ _ ?l1 = _ => destruct (hotRestart_fails conn_write err epoch (enter l1 y)) as (y'&e&E&Hn) end; [done..|].
    eapply on_lsession_calls; [exact Hy|exact E| |done]. apply (shutdowns_app y y' _ Hn).
Qed.

(** ** Examples *)

(** A session of a server that calls its listener back. *)
Definition server_session : session :=
  Session (ss_heap (demo_session false)) ∅ (Some ∅) 2 false 3 false None false false false false [] [] demo_bm (Some demo_qm)
    (λ _, 0) defaultState true None 0 [].

(** A listener with two sessions; one that was closed while a session was made. *)
Definition demo_listener : @Listener unit :=
  put_data (Some {[ 0%nat; 1%nat ]}) (put_objs {[ 0%nat := (server_session, true); 1%nat := (server_session, true) ]}
    (new_listener (Proc (ss_heap server_session) ∅ tt) (NewDefaultListenerConfig "/tmp/s" "unix"))).
Definition closed_listener : @Listener unit := put_data None demo_listener.

Lemma server_session_map : map_ok server_session.
Proof. intros m id p [= <-]. by rewrite lookup_empty. Qed.

Lemma demo_quiet : quiet_write (λ _, mret None).
Proof. intros data s. by exists s. Qed.

Lemma demo_sessions i y : l_objs demo_listener !! i = Some y → y = (server_session, true).
Proof. cbn. intros Hy. apply lookup_insert_Some in Hy as [[_ Hy]|[_ Hy]]; [done|]. by apply lookup_singleton_Some in Hy as [_ Hy]. Qed.

Lemma demo_sessions_is i : i ∈ ({[ 0%nat; 1%nat ]} : gset nat) → l_objs demo_listener !! i = Some (server_session, true).
Proof. intros Hi. apply elem_of_union in Hi as [Hi|Hi]; apply elem_of_singleton in Hi as ->; done. Qed.

Lemma listener_restart_completes_witness : ∃ l1 l2 l3,
  HotRestart (λ _, mret None) 7 demo_listener = Done (None, l1) ∧ run_acks 7 [1; 0]%nat l1 = Done (tt, l2) ∧
  listener_tick l2 = Done (true, l3) ∧ l_state l3 = hotRestartDoneState.
Proof.
  destruct (listener_restart_completes (λ _, mret None) demo_quiet demo_listener 7 {[ 0%nat; 1%nat ]} [1; 0]%nat [])
    as (l1&l2&E1&E2&_&_&(l3&E3&Hst&_)); try done.
  - intros i Hi%elem_of_elements. exists server_session. by rewrite demo_sessions_is.
  - by exists l1, l2, l3.
Defined.

Lemma shutdown_callback_deadlocks_witness :
  add 0 closed_listener = NoFuel ∧ HotRestart (λ _, mret (Some ioEOF)) 7 demo_listener = NoFuel.
Proof.
  split.
  - exact (proj1 (shutdown_callback_deadlocks closed_listener (λ _ s, Done (None, s)) ioEOF 7 ∅ 0 server_session true
      eq_refl eq_refl eq_refl eq_refl eq_refl server_session_map) eq_refl).
  - apply (proj2 (shutdown_callback_deadlocks demo_listener (λ _ s, Done (Some ioEOF, s)) ioEOF 7 {[ 0%nat; 1%nat ]} 0 server_session true
      eq_refl eq_refl eq_refl eq_refl eq_refl server_session_map) eq_refl); try done.
    + intros j y _ ->%demo_sessions. repeat split. exact server_session_map.
    + intros j Hj. rewrite demo_sessions_is by done. by eexists.
Defined.

(** The state of a session. *)
Definition session_state (l : @Listener unit) (i : nat) : option Z := (λ x, ss_state x.1) <$> l_objs l !! i.

(** An acknowledgement that arrives after the restart timed out makes the count
    negative and marks its session.  With two sessions the next restart is then done
    at the first look, although one session was not told of it at all and the other
    has not acknowledged it. *)
Theorem late_ack_ends_next_restart : ∃ l1 l2,
  (_ ← HotRestart (λ _, mret None) 7; _ ← listener_timeout; _ ← on_ack 0 [] (be_bytes 8 7); mret tt) demo_listener = Done (tt, l1) ∧
  l_hotRestartAckCount l1 = -1 ∧
  (_ ← HotRestart (λ _, mret None) 8; listener_tick) l1 = Done (true, l2) ∧
  l_state l2 = hotRestartDoneState ∧ session_state l2 0 = Some hotRestartDoneState ∧ session_state l2 1 = Some hotRestartState.
Proof.
  destruct ((_ ← HotRestart (λ _, mret None) 7; _ ← listener_timeout; _ ← on_ack 0 [] (be_bytes 8 7); mret tt) demo_listener)
    as [[[] l1]| |] eqn:E1; [|vm_compute in E1; discriminate..].
  exists l1. vm_compute in E1. injection E1 as <-. eexists. split; [reflexivity|]. split; [vm_compute; reflexivity|].
  split; [vm_compute; reflexivity|]. vm_compute. done.
Qed.
