(* ===== verification/NetListener.v ===== *)
(** * The [net.Listener] adapter ([net_listener.go])

    Sessions are accepted in the background, their streams are handed out as
    connections.  A wait group per session counts the listener and every stream
    that is open; the session is closed when the count reaches zero.  The
    goroutines are a step relation. *)

From Stdlib Require Import ZArith Lia.
From stdpp Require Import prelude list gmap.
From S2P Require Import Prelude GoMem.

Definition defaultBacklog : nat := 4096.

(** Where the goroutine of a session is: in [AcceptStream], in the [select] with a new
    connection, or returned. *)
Inductive loop_pc := LAccept | LSelect (w : nat) | LEnd.

(** A session: the counter of its wait group, whether it was closed, whether the
    goroutine that waits for the group is still there, and the accepting one. *)
Record nsession := NSession { ns_wg : Z; ns_closed : bool; ns_waiting : bool; ns_loop : loop_pc }.

(** A stream as a connection. *)
Record streamWrapper := StreamWrapper { sw_session : nat; sw_closed : bool }.

Record listener := NetL {
  (** the keys of [sessions] *)
  nl_sessions : gset nat;
  nl_objs : gmap nat nsession;
  nl_wrappers : gmap nat streamWrapper;
  nl_closed : bool;
  nl_closeCh : bool;
  nl_backlog : list nat;
  nl_cap : nat;
  (** connections that [Accept] has returned *)
  nl_handed : gset nat
}.

Definition newListener (backlog : nat) : listener := NetL ∅ ∅ ∅ false false [] backlog ∅.
Definition Listen : listener := newListener defaultBacklog.

Definition put_sessions (x : gset nat) (l : listener) : listener :=
  NetL x (nl_objs l) (nl_wrappers l) (nl_closed l) (nl_closeCh l) (nl_backlog l) (nl_cap l) (nl_handed l).
Definition put_nobjs (x : gmap nat nsession) (l : listener) : listener :=
  NetL (nl_sessions l) x (nl_wrappers l) (nl_closed l) (nl_closeCh l) (nl_backlog l) (nl_cap l) (nl_handed l).
Definition put_wrappers (x : gmap nat streamWrapper) (l : listener) : listener :=
  NetL (nl_sessions l) (nl_objs l) x (nl_closed l) (nl_closeCh l) (nl_backlog l) (nl_cap l) (nl_handed l).
Definition put_nclosed (c ch : bool) (l : listener) : listener :=
  NetL (nl_sessions l) (nl_objs l) (nl_wrappers l) c ch (nl_backlog l) (nl_cap l) (nl_handed l).
Definition put_backlog (x : list nat) (h : gset nat) (l : listener) : listener :=
  NetL (nl_sessions l) (nl_objs l) (nl_wrappers l) (nl_closed l) (nl_closeCh l) x (nl_cap l) h.

Definition with_wg (n : Z) (s : nsession) : nsession := NSession n (ns_closed s) (ns_waiting s) (ns_loop s).
Definition with_nclosed (s : nsession) : nsession := NSession (ns_wg s) true (ns_waiting s) (ns_loop s).
Definition with_loop (pc : loop_pc) (s : nsession) : nsession := NSession (ns_wg s) (ns_closed s) (ns_waiting s) pc.
Definition with_waiting (b : bool) (s : nsession) : nsession := NSession (ns_wg s) (ns_closed s) b (ns_loop s).

Definition get_nsession (i : nat) : M listener nsession := λ l,
  match nl_objs l !! i with Some s => Done (s, l) | None => Panic end.
Definition upd_nsession (i : nat) (f : nsession → nsession) : M listener unit :=
  s ← get_nsession i; modify_state (λ l, put_nobjs (<[i := f s]> (nl_objs l)) l).

(** ** [sync.WaitGroup] *)

Definition wg_Add (i : nat) (d : Z) : M listener unit :=
  s ← get_nsession i;
  (** a negative counter panics *)
  if ns_wg s + d <? 0 then panic else upd_nsession i (with_wg (ns_wg s + d)).
Definition wg_Done (i : nat) : M listener unit := wg_Add i (-1).

(** ** Background goroutines *)

(** A connection was accepted and its session made: [Server] succeeded. *)
Definition session_made : M listener unit :=
  i ← reads (λ l, fresh_key (nl_objs l));
  closed ← reads nl_closed;
  if (closed : bool) then modify_state (λ l, put_nobjs (<[i := NSession 0 true false LEnd]> (nl_objs l)) l)
  else
    _ ← modify_state (λ l, put_nobjs (<[i := NSession 0 false true LAccept]> (nl_objs l)) l);
    _ ← wg_Add i 1;
    modify_state (λ l, put_sessions ({[i]} ∪ nl_sessions l) l).

Definition newStreamWrapper (i : nat) : M listener nat :=
  _ ← wg_Add i 1;
  w ← reads (λ l, fresh_key (nl_wrappers l));
  _ ← modify_state (λ l, put_wrappers (<[w := StreamWrapper i false]> (nl_wrappers l)) l);
  mret w.

(** [AcceptStream] returned a stream; it returned an error. *)
Definition stream_accepted (i : nat) : M listener unit :=
  w ← newStreamWrapper i; upd_nsession i (with_loop (LSelect w)).

Definition accept_failed (i : nat) : M listener unit :=
  _ ← upd_nsession i with_nclosed;
  known ← reads (λ l, bool_decide (i ∈ nl_sessions l));
  _ ← (if (known : bool) then
         _ ← modify_state (λ l, put_sessions (nl_sessions l ∖ {[i]}) l);
         wg_Done i
       else mret tt);
  upd_nsession i (with_loop LEnd).

(** The goroutine that waits for the group closes the session. *)
Definition wait_done (i : nat) : M listener unit := _ ← upd_nsession i with_nclosed; upd_nsession i (with_waiting false).

(** ** The listener *)

(** [Accept]: a connection of the backlog. *)
Definition accept_conn : M listener nat :=
  b ← reads nl_backlog;
  match b with
  | [] => out_of_fuel
  | w :: b => _ ← modify_state (λ l, put_backlog b ({[w]} ∪ nl_handed l) l); mret w
  end.

Fixpoint done_all (ids : list nat) : M listener unit :=
  match ids with [] => mret tt | i :: ids => _ ← wg_Done i; done_all ids end.

Definition listener_Close : M listener unit :=
  swapped ← reads (λ l, negb (nl_closed l));
  _ ← modify_state (λ l, put_nclosed true (if (swapped : bool) then true else nl_closeCh l) l);
  ids ← reads (λ l, elements (nl_sessions l));
  _ ← done_all ids;
  modify_state (put_sessions ∅).

Definition streamWrapper_Close (w : nat) : M listener unit := λ l,
  match nl_wrappers l !! w with
  | None => Panic
  | Some x =>
      if sw_closed x then Done (tt, l)
      else (_ ← modify_state (λ l, put_wrappers (<[w := StreamWrapper (sw_session x) true]> (nl_wrappers l)) l);
            wg_Done (sw_session x)) l
  end.

(** ** Steps *)

Inductive nop :=
  | NSessionMade
  | NStreamAccepted (i : nat)
  | NAcceptFailed (i : nat)
  | NSelectClosed (i w : nat)
  | NSelectBacklog (i w : nat)
  | NWaitDone (i : nat)
  | NAcceptConn
  | NClose
  | NConnClose (w : nat).

(** When a goroutine or the user can take a step: connections are closed by those who
    got them from [Accept]. *)
Definition enabled (o : nop) (l : listener) : Prop :=
  match o with
  | NSessionMade => True
  | NStreamAccepted i | NAcceptFailed i => ∃ s, nl_objs l !! i = Some s ∧ ns_loop s = LAccept
  | NSelectClosed i w => nl_closeCh l = true ∧ ∃ s, nl_objs l !! i = Some s ∧ ns_loop s = LSelect w
  | NSelectBacklog i w => (length (nl_backlog l) < nl_cap l)%nat ∧ ∃ s, nl_objs l !! i = Some s ∧ ns_loop s = LSelect w
  | NWaitDone i => ∃ s, nl_objs l !! i = Some s ∧ ns_waiting s = true ∧ ns_wg s = 0
  | NAcceptConn => nl_backlog l ≠ []
  | NClose => True
  | NConnClose w => w ∈ nl_handed l
  end.

Definition run_nop (o : nop) : M listener unit :=
  match o with
  | NSessionMade => session_made
  | NStreamAccepted i => stream_accepted i
  | NAcceptFailed i => accept_failed i
  | NSelectClosed i w => upd_nsession i (with_loop LEnd)
  | NSelectBacklog i w =>
      _ ← modify_state (λ l, put_backlog (nl_backlog l ++ [w]) (nl_handed l) l); upd_nsession i (with_loop LAccept)
  | NWaitDone i => wait_done i
  | NAcceptConn => _ ← accept_conn; mret tt
  | NClose => listener_Close
  | NConnClose w => streamWrapper_Close w
  end.

Inductive nstep (l : listener) : listener → Prop :=
  | nstep_op o l' : enabled o l → run_nop o l = Done (tt, l') → nstep l l'.

Definition reachable (cap : nat) (l : listener) : Prop := rtc nstep (newListener cap) l.

(** ** Reference counts *)

(** The connections of session [i] that are open. *)
Definition open_of (i : nat) (m : gmap nat streamWrapper) : gmap nat streamWrapper :=
  filter (λ kv, sw_session kv.2 = i ∧ sw_closed kv.2 = false) m.

Definition holds (l : listener) (i : nat) : Z :=
  (if bool_decide (i ∈ nl_sessions l) then 1 else 0) + Z.of_nat (size (open_of i (nl_wrappers l))).

(** A connection of session [i] that only the accepting goroutine has. *)
Definition pending (l : listener) (i w : nat) : Prop :=
  nl_wrappers l !! w = Some (StreamWrapper i false) ∧ w ∉ nl_handed l ∧ w ∉ nl_backlog l.

Record refcounts (l : listener) : Prop := {
  rc_wg : ∀ i s, nl_objs l !! i = Some s → ns_wg s = holds l i;
  rc_sessions : ∀ i, i ∈ nl_sessions l → is_Some (nl_objs l !! i);
  rc_wrappers : ∀ w x, nl_wrappers l !! w = Some x → is_Some (nl_objs l !! sw_session x);
  rc_handed : ∀ w, w ∈ nl_handed l ∨ w ∈ nl_backlog l → is_Some (nl_wrappers l !! w);
  rc_select : ∀ i s w, nl_objs l !! i = Some s → ns_loop s = LSelect w → pending l i w
}.

Lemma open_new j w i m : m !! w = None →
  size (open_of j (<[w := StreamWrapper i false]> m)) = (size (open_of j m) + if decide (i = j) then 1 else 0)%nat.
Proof.
  intros Hw. unfold open_of. destruct (decide (i = j)) as [->|Hne].
  - rewrite map_filter_insert_True by done. rewrite map_size_insert_None; [lia|]. apply map_lookup_filter_None. by left.
  - rewrite map_filter_insert_False by (cbn; naive_solver). rewrite delete_id by done. lia.
Qed.

Lemma open_close j w i m : m !! w = Some (StreamWrapper i false) →
  size (open_of j m) = (size (open_of j (<[w := StreamWrapper i true]> m)) + if decide (i = j) then 1 else 0)%nat.
Proof.
  intros Hw. unfold open_of. rewrite map_filter_insert_False by (cbn; naive_solver). rewrite map_filter_delete.
  destruct (decide (i = j)) as [->|Hne].
  - rewrite map_size_delete_Some by (apply mk_is_Some with (StreamWrapper j false); by apply map_lookup_filter_Some).
    assert (size (filter (λ kv : nat * streamWrapper, sw_session kv.2 = j ∧ sw_closed kv.2 = false) m) ≠ 0%nat); [|lia].
    apply map_size_ne_0_lookup. exists w, (StreamWrapper j false). by apply map_lookup_filter_Some.
  - rewrite delete_id; [lia|]. apply map_lookup_filter_None. right. intros x. rewrite Hw. intros [= <-] [? _]. done.
Qed.

Lemma open_some i m w : m !! w = Some (StreamWrapper i false) → (0 < size (open_of i m))%nat.
Proof.
  intros Hw. rewrite (open_close i w i m Hw). rewrite decide_True by done. lia.
Qed.

Lemma upd_nsession_run i f l s : nl_objs l !! i = Some s → upd_nsession i f l = Done (tt, put_nobjs (<[i := f s]> (nl_objs l)) l).
Proof. intros Hs. unfold upd_nsession, get_nsession, mbind, M_bind. by rewrite Hs. Qed.

Lemma wg_Add_run i d l s : nl_objs l !! i = Some s → 0 ≤ ns_wg s + d →
  wg_Add i d l = Done (tt, put_nobjs (<[i := with_wg (ns_wg s + d) s]> (nl_objs l)) l).
Proof.
  intros Hs Hd. unfold wg_Add. erewrite bind_done by (unfold get_nsession; by rewrite Hs). cbv beta. bdecide.
  by apply upd_nsession_run.
Qed.

Lemma done_all_run ids : ∀ l, NoDup ids → (∀ i, i ∈ ids → ∃ s, nl_objs l !! i = Some s ∧ 1 ≤ ns_wg s) →
  ∃ o, done_all ids l = Done (tt, put_nobjs o l) ∧
    ∀ i, o !! i = (λ s, if decide (i ∈ ids) then with_wg (ns_wg s - 1) s else s) <$> nl_objs l !! i.
Proof.
  induction ids as [|i ids IH]; intros l Hnd Hids.
  { exists (nl_objs l). split; [by destruct l|]. intros j. destruct (nl_objs l !! j); [|done]. cbn. by rewrite decide_False by set_solver. }
  apply NoDup_cons in Hnd as [Hi Hnd]. destruct (Hids i) as (s&Hs&Hwg); [set_solver|]. cbn [done_all].
  erewrite bind_done by (unfold wg_Done; apply (wg_Add_run i (-1) l s Hs); lia). cbv beta.
  edestruct (IH (put_nobjs (<[i := with_wg (ns_wg s + -1) s]> (nl_objs l)) l)) as (o&E&Ho); [done| |].
  - intros j Hj. destruct (Hids j) as (t&Ht&Hwt); [set_solver|]. exists t. cbn. rewrite lookup_insert_ne by set_solver. done.
  - exists o. split; [exact E|]. intros j. rewrite Ho. cbn. destruct (decide (j = i)) as [->|Hne].
    + rewrite lookup_insert_eq, Hs. cbn. rewrite decide_False, decide_True by set_solver. done.
    + rewrite lookup_insert_ne by done. destruct (nl_objs l !! j); [|done]. cbn.
      destruct (decide (j ∈ ids)); [rewrite decide_True by set_solver|rewrite decide_False by set_solver]; done.
Qed.

(** ** Preservation *)

(** Changing a session without its counter. *)
Lemma refcounts_upd l i s f : refcounts l → nl_objs l !! i = Some s → ns_wg (f s) = ns_wg s →
  (∀ w, ns_loop (f s) = LSelect w → pending l i w) → refcounts (put_nobjs (<[i := f s]> (nl_objs l)) l).
Proof.
  intros [Hwg Hs Hw Hh Hsel] Hi Hf Hl. constructor; cbn.
  - intros j t [[<- <-]|[Hne Ht]]%lookup_insert_Some; [rewrite Hf; by apply Hwg|by apply Hwg].
  - intros j Hj. apply lookup_insert_is_Some'. right. by apply Hs.
  - intros w x Hx. apply lookup_insert_is_Some'. right. by eapply Hw.
  - done.
  - intros j t w [[<- <-]|[Hne Ht]]%lookup_insert_Some Ht'; [by apply Hl|by eapply Hsel].
Qed.

Lemma holds_fresh l i : refcounts l → nl_objs l !! i = None → holds l i = 0.
Proof.
  intros [_ Hs Hw _ _] Hi. unfold holds. rewrite bool_decide_eq_false_2 by (intros Hin; by apply eq_None_not_Some in Hi; apply Hi, Hs).
  replace (open_of i (nl_wrappers l)) with (∅ : gmap nat streamWrapper); [by rewrite map_size_empty|]. symmetry. apply map_empty. intros w.
  apply map_lookup_filter_None. right. intros x Hx [<- _]. apply eq_None_not_Some in Hi. by eapply Hi, Hw.
Qed.

Lemma refcounts_new l i s : refcounts l → nl_objs l !! i = None → ns_wg s = 0 → (∀ w, ns_loop s ≠ LSelect w) →
  refcounts (put_nobjs (<[i := s]> (nl_objs l)) l).
Proof.
  intros Hr Hi Hs Hl. pose proof (holds_fresh l i Hr Hi) as H0. destruct Hr as [Hwg Hses Hw Hh Hsel]. constructor; cbn.
  - intros j t [[<- <-]|[Hne Ht]]%lookup_insert_Some; [rewrite Hs; by symmetry|by apply Hwg].
  - intros j Hj. apply lookup_insert_is_Some'. right. by apply Hses.
  - intros w x Hx. apply lookup_insert_is_Some'. right. by eapply Hw.
  - done.
  - intros j t w [[<- <-]|[Hne Ht]]%lookup_insert_Some Ht'; [by apply Hl in Ht'|by eapply Hsel].
Qed.

(** The listener takes its reference, or gives it back. *)
Lemma refcounts_sessions l i s (d : Z) ss :
  refcounts l → nl_objs l !! i = Some s → (∀ j, j ≠ i → j ∈ ss ↔ j ∈ nl_sessions l) →
  (if bool_decide (i ∈ ss) then 1 else 0) = (if bool_decide (i ∈ nl_sessions l) then 1 else 0) + d →
  refcounts (put_sessions ss (put_nobjs (<[i := with_wg (ns_wg s + d) s]> (nl_objs l)) l)).
Proof.
  intros [Hwg Hses Hw Hh Hsel] Hi Hss Hd. constructor; cbn.
  - intros j t [[<- <-]|[Hne Ht]]%lookup_insert_Some; unfold holds; cbn.
    + rewrite Hd, (Hwg _ _ Hi). unfold holds. lia.
    + rewrite (Hwg _ _ Ht). unfold holds. f_equal. by rewrite (bool_decide_ext _ _ (Hss j (not_eq_sym Hne))).
  - intros j Hj. apply lookup_insert_is_Some'. destruct (decide (j = i)) as [->|Hne]; [by left|]. right. apply Hses. by apply Hss.
  - intros w x Hx. apply lookup_insert_is_Some'. right. by eapply Hw.
  - done.
  - intros j t w [[<- <-]|[Hne Ht]]%lookup_insert_Some Ht'; by eapply Hsel.
Qed.

(** A connection takes its reference. *)
Lemma refcounts_wrap l i s w : refcounts l → nl_objs l !! i = Some s → nl_wrappers l !! w = None →
  refcounts (put_wrappers (<[w := StreamWrapper i false]> (nl_wrappers l)) (put_nobjs (<[i := with_wg (ns_wg s + 1) s]> (nl_objs l)) l)).
Proof.
  intros [Hwg Hses Hw Hh Hsel] Hi Hn. constructor; cbn.
  - intros j t Ht. unfold holds. cbn. rewrite open_new by done.
    apply lookup_insert_Some in Ht as [[<- <-]|[Hne Ht]].
    + rewrite decide_True by done. cbn. rewrite (Hwg _ _ Hi). unfold holds. lia.
    + rewrite decide_False by done. rewrite (Hwg _ _ Ht). unfold holds. lia.
  - intros j Hj. apply lookup_insert_is_Some'. right. by apply Hses.
  - intros v x Hx. apply lookup_insert_is_Some'. apply lookup_insert_Some in Hx as [[<- <-]|[Hne Hx]]; [by left|]. right. by eapply Hw.
  - intros v Hv. apply lookup_insert_is_Some'. right. by apply Hh.
  - intros j t v Ht Htl. assert (pending l j v) as (Hv&Hp) by (apply lookup_insert_Some in Ht as [[<- <-]|[Hne Ht]]; by eapply Hsel).
    split; [|exact Hp]. cbn. rewrite lookup_insert_ne; [done|congruence].
Qed.

(** A connection gives its reference back. *)
Lemma refcounts_close l i s w : refcounts l → nl_objs l !! i = Some s → nl_wrappers l !! w = Some (StreamWrapper i false) → w ∈ nl_handed l →
  refcounts (put_nobjs (<[i := with_wg (ns_wg s + -1) s]> (nl_objs l)) (put_wrappers (<[w := StreamWrapper i true]> (nl_wrappers l)) l)).
Proof.
  intros [Hwg Hses Hw Hh Hsel] Hi Hn Hin. constructor; cbn.
  - intros j t Ht. unfold holds. cbn. pose proof (open_close j w i (nl_wrappers l) Hn) as Ho.
    apply lookup_insert_Some in Ht as [[<- <-]|[Hne Ht]].
    + rewrite decide_True in Ho by done. cbn. rewrite (Hwg _ _ Hi). unfold holds. lia.
    + rewrite decide_False in Ho by done. rewrite (Hwg _ _ Ht). unfold holds. lia.
  - intros j Hj. apply lookup_insert_is_Some'. right. by apply Hses.
  - intros v x Hx. apply lookup_insert_is_Some'. right. apply lookup_insert_Some in Hx as [[<- <-]|[Hne Hx]]; [by exists s|by eapply Hw].
  - intros v Hv. apply lookup_insert_is_Some'. right. by apply Hh.
  - intros j t v Ht Htl. assert (pending l j v) as (Hv&Hp) by (apply lookup_insert_Some in Ht as [[<- <-]|[Hne Ht]]; by eapply Hsel).
    split; [|exact Hp]. cbn. rewrite lookup_insert_ne; [done|]. intros ->. by destruct Hp.
Qed.

Lemma refcounts_backlog l b h : refcounts l → (∀ w, w ∈ h ∨ w ∈ b → is_Some (nl_wrappers l !! w)) →
  (∀ i s w, nl_objs l !! i = Some s → ns_loop s = LSelect w → w ∉ h ∧ w ∉ b) → refcounts (put_backlog b h l).
Proof.
  intros [Hwg Hses Hw Hh Hsel] Hb Hpend. constructor; try done. intros i s w Hi Hl. destruct (Hsel i s w Hi Hl) as [Hp _].
  split; [exact Hp|by eapply Hpend].
Qed.

Lemma refcounts_closed l c ch : refcounts l → refcounts (put_nclosed c ch l).
Proof. intros [Hwg Hses Hw Hh Hsel]. by constructor. Qed.

(** The listener gives all of its references back. *)
Lemma refcounts_Close l o : refcounts l →
  (∀ i, o !! i = (λ s, if decide (i ∈ elements (nl_sessions l)) then with_wg (ns_wg s - 1) s else s) <$> nl_objs l !! i) →
  refcounts (put_sessions ∅ (put_nobjs o l)).
Proof.
  intros [Hwg Hses Hw Hh Hsel] Ho. constructor; cbn.
  - intros i t Ht. rewrite Ho in Ht. apply fmap_Some in Ht as (s&Hs&->). pose proof (Hwg i s Hs) as Hi.
    unfold holds in *. cbn. rewrite bool_decide_eq_false_2 by set_solver.
    destruct (decide (i ∈ elements (nl_sessions l))) as [Hin|Hin]; rewrite elem_of_elements in Hin;
      [rewrite bool_decide_eq_true_2 in Hi by done|rewrite bool_decide_eq_false_2 in Hi by done]; cbn; lia.
  - set_solver.
  - intros w x Hx. rewrite Ho. apply fmap_is_Some. by eapply Hw.
  - done.
  - intros i t w Ht Htl. rewrite Ho in Ht. apply fmap_Some in Ht as (s&Hs&->). eapply Hsel; [exact Hs|]. by destruct (decide _).
Qed.

(** ** Every step returns and keeps the counts *)

Lemma session_made_ok l : refcounts l → ∃ l', session_made l = Done (tt, l') ∧ refcounts l'.
Proof.
  intros Hr. pose proof (fresh_key_None (nl_objs l)) as Hn. unfold session_made. erewrite bind_done by done. cbv beta. erewrite bind_done by done. cbv beta.
  destruct (nl_closed l).
  - eexists. split; [done|]. by apply refcounts_new.
  - erewrite bind_done by done. cbv beta. erewrite bind_done by (apply wg_Add_run; [cbn; apply lookup_insert_eq|done]). cbv beta.
    eexists. split; [done|]. set (l1 := put_nobjs (<[fresh_key (nl_objs l) := NSession 0 false true LAccept]> (nl_objs l)) l).
    apply (refcounts_sessions l1 _ (NSession 0 false true LAccept) 1); [by apply refcounts_new|cbn; apply lookup_insert_eq|set_solver|].
    rewrite bool_decide_eq_true_2, bool_decide_eq_false_2; [done| |set_solver].
    intros Hin. apply eq_None_not_Some in Hn. by apply Hn, (rc_sessions l Hr).
Qed.

Lemma stream_accepted_ok l i s : refcounts l → nl_objs l !! i = Some s → ∃ l', stream_accepted i l = Done (tt, l') ∧ refcounts l'.
Proof.
  intros Hr Hs. pose proof (fresh_key_None (nl_wrappers l)) as Hn. unfold stream_accepted, newStreamWrapper.
  assert (0 ≤ ns_wg s + 1) as Hwg by (rewrite (rc_wg l Hr i s Hs); unfold holds; case_bool_decide; lia).
  erewrite bind_done; last (erewrite bind_done by (by apply wg_Add_run); cbv beta; erewrite bind_done by done; cbv beta; by erewrite bind_done by done).
  cbv beta. erewrite upd_nsession_run by (cbn; apply lookup_insert_eq). eexists. split; [done|].
  eapply (refcounts_upd _ i _ (with_loop (LSelect _))); [by apply (refcounts_wrap l i s)|cbn; apply lookup_insert_eq|done|].
  intros w [= <-]. split; [cbn; apply lookup_insert_eq|]. cbn.
  split; intros Hin; apply eq_None_not_Some in Hn; apply Hn, (rc_handed l Hr); [by left|by right].
Qed.

Lemma accept_failed_ok l i s : refcounts l → nl_objs l !! i = Some s → ns_loop s = LAccept →
  ∃ l', accept_failed i l = Done (tt, l') ∧ refcounts l'.
Proof.
  intros Hr Hs Hl. unfold accept_failed. erewrite bind_done by (by apply upd_nsession_run). cbv beta. erewrite bind_done by done. cbv beta.
  set (l1 := put_nobjs (<[i := with_nclosed s]> (nl_objs l)) l). change (nl_sessions l1) with (nl_sessions l).
  assert (refcounts l1) as Hr1 by (apply refcounts_upd; [done..|]; intros w; cbn; rewrite Hl; done).
  assert (nl_objs l1 !! i = Some (with_nclosed s)) as Hs1 by (cbn; apply lookup_insert_eq). case_bool_decide as Hin.
  - assert (0 ≤ ns_wg s + -1) as Hwg by (rewrite (rc_wg l Hr i s Hs); unfold holds; rewrite bool_decide_eq_true_2 by done; lia).
    erewrite bind_done; last (erewrite bind_done by done; cbv beta; unfold wg_Done; by apply (wg_Add_run i (-1) _ (with_nclosed s))). cbv beta.
    erewrite upd_nsession_run by (cbn; apply lookup_insert_eq). eexists. split; [done|].
    eapply (refcounts_upd _ i _ (with_loop LEnd)); [|cbn; apply lookup_insert_eq|done|done].
    apply (refcounts_sessions l1 i (with_nclosed s) (-1)); [done|done|set_solver|].
    rewrite bool_decide_eq_false_2, bool_decide_eq_true_2 by (cbn; set_solver). done.
  - erewrite bind_done by done. cbv beta. erewrite upd_nsession_run by exact Hs1. eexists. split; [done|]. by apply refcounts_upd.
Qed.

Lemma wait_done_ok l i s : refcounts l → nl_objs l !! i = Some s → ∃ l', wait_done i l = Done (tt, l') ∧ refcounts l'
  ∧ ∃ s', nl_objs l' !! i = Some s' ∧ ns_closed s' = true.
Proof.
  intros Hr Hs. unfold wait_done. erewrite bind_done by (by apply upd_nsession_run). cbv beta.
  erewrite upd_nsession_run by (cbn; apply lookup_insert_eq). eexists. split; [done|].
  assert (∀ w, ns_loop s = LSelect w → pending l i w) as Hsel by (intros w; by eapply rc_select). split.
  - apply (refcounts_upd _ i (with_nclosed s) (with_waiting false)); [by apply refcounts_upd|cbn; apply lookup_insert_eq|done|done].
  - eexists. cbn. by rewrite lookup_insert_eq.
Qed.

Lemma listener_Close_ok l : refcounts l → ∃ l', listener_Close l = Done (tt, l') ∧ refcounts l' ∧ nl_sessions l' = ∅ ∧ nl_closed l' = true.
Proof.
  intros Hr. unfold listener_Close. erewrite bind_done by done. cbv beta. erewrite bind_done by done. cbv beta. erewrite bind_done by done. cbv beta.
  set (l1 := put_nclosed _ _ l). assert (refcounts l1) as Hr1 by (by apply refcounts_closed).
  destruct (done_all_run (elements (nl_sessions l1)) l1) as (o&E&Ho); [apply NoDup_elements| |].
  - intros i Hi%elem_of_elements. destruct (rc_sessions l1 Hr1 i Hi) as [s Hs]. exists s. split; [done|].
    rewrite (rc_wg l1 Hr1 i s Hs). unfold holds. rewrite bool_decide_eq_true_2 by done. lia.
  - erewrite bind_done by exact E. eexists. split; [done|]. split; [|done]. by apply (refcounts_Close l1).
Qed.

Lemma streamWrapper_Close_ok l w : refcounts l → w ∈ nl_handed l → ∃ l', streamWrapper_Close w l = Done (tt, l') ∧ refcounts l'.
Proof.
  intros Hr He. destruct (rc_handed l Hr w (or_introl He)) as [[i c] Hw]. unfold streamWrapper_Close. rewrite Hw. cbn [sw_closed sw_session].
  destruct c; [by exists l|]. erewrite bind_done by done. cbv beta.
  destruct (rc_wrappers l Hr w _ Hw) as [s Hs]. cbn in Hs. unfold wg_Done.
  erewrite (wg_Add_run i (-1) _ s); [|exact Hs|].
  - eexists. split; [done|]. by apply (refcounts_close l i s w).
  - rewrite (rc_wg l Hr i s Hs). pose proof (open_some i _ _ Hw). unfold holds. case_bool_decide; lia.
Qed.

Lemma nop_ok o l : refcounts l → enabled o l → ∃ l', run_nop o l = Done (tt, l') ∧ refcounts l'.
Proof.
  intros Hr He. destruct o as [|i|i|i w|i w|i| | |w]; cbn [run_nop enabled] in *.
  - by apply session_made_ok.
  - destruct He as (s&Hs&_). by eapply stream_accepted_ok.
  - destruct He as (s&Hs&Hl). by eapply accept_failed_ok.
  - destruct He as (_&s&Hs&Hl). erewrite upd_nsession_run by done. eexists. split; [done|]. by apply refcounts_upd.
  - destruct He as (_&s&Hs&Hl). erewrite bind_done by done. cbv beta. erewrite upd_nsession_run by done. eexists. split; [done|].
    destruct (rc_select l Hr i s w Hs Hl) as (Hw&Hh&Hb).
    change (refcounts (put_backlog (nl_backlog l ++ [w]) (nl_handed l) (put_nobjs (<[i := with_loop LAccept s]> (nl_objs l)) l))).
    apply refcounts_backlog; [by apply refcounts_upd| |].
    + intros v [Hv|[Hv|Hv]%elem_of_app]; [by apply (rc_handed l Hr); left|by apply (rc_handed l Hr); right|].
      apply list_elem_of_singleton in Hv as ->. by eexists.
    + cbn. intros j t v Ht Htl. apply lookup_insert_Some in Ht as [[<- <-]|[Hne Ht]]; [done|].
      destruct (rc_select l Hr j t v Ht Htl) as (Hv&Hvh&Hvb). split; [done|]. intros [Hin|Hin]%elem_of_app; [done|].
      apply list_elem_of_singleton in Hin as ->. congruence.
  - destruct He as (s&Hs&_). destruct (wait_done_ok l i s Hr Hs) as (l'&?&?&_). by exists l'.
  - unfold accept_conn. destruct (nl_backlog l) as [|w b] eqn:Eb; [done|]. eexists. split.
    { erewrite bind_done; [done|]. erewrite bind_done by done. rewrite Eb. by erewrite bind_done by done. }
    apply refcounts_backlog; [done| |].
    + intros v Hv. apply (rc_handed l Hr). rewrite Eb. set_solver.
    + intros j t v Ht Htl. destruct (rc_select l Hr j t v Ht Htl) as (_&Hvh&Hvb). rewrite Eb in Hvb. set_solver.
  - destruct (listener_Close_ok l Hr) as (l'&?&?&_). by exists l'.
  - by apply streamWrapper_Close_ok.
Qed.

Lemma refcounts_init cap : refcounts (newListener cap).
Proof. constructor; cbn; try done; set_solver. Qed.

Lemma refcounts_steps l l' : refcounts l → rtc nstep l l' → refcounts l'.
Proof.
  intros Hr Hsteps. induction Hsteps as [|l l1 l2 [o l1' He E] _ IH]; [done|]. apply IH.
  destruct (nop_ok o l Hr He) as (l2'&E'&?). congruence.
Qed.

Lemma holds_zero l i : holds l i = 0 ↔ i ∉ nl_sessions l ∧ ∀ w x, nl_wrappers l !! w = Some x → sw_session x = i → sw_closed x = true.
Proof.
  unfold holds. split.
  - case_bool_decide as Hi; [lia|]. intros Ho. split; [done|]. intros w [j c] Hw Hj. cbn in *. subst j. destruct c; [done|].
    pose proof (open_some i _ _ Hw). lia.
  - intros [Hi Hall]. rewrite bool_decide_eq_false_2 by done.
    replace (open_of i (nl_wrappers l)) with (∅ : gmap nat streamWrapper); [by rewrite map_size_empty|]. symmetry. apply map_empty. intros w.
    apply map_lookup_filter_None. right. intros x Hx [Hs Hc]. cbn in Hs, Hc. by rewrite (Hall w x Hx Hs) in Hc.
Qed.

(** ** Which steps close a session *)

(** Sessions go on to exist; those other than [j] are as open or closed as before. *)
Definition closed_kept (j : option nat) (l l' : listener) : Prop :=
  ∀ i s, nl_objs l !! i = Some s → ∃ s', nl_objs l' !! i = Some s' ∧ (j ≠ Some i → ns_closed s' = ns_closed s).
#[local] Instance closed_kept_preorder j : PreOrder (closed_kept j).
Proof.
  split; [intros l i s Hs; by exists s|]. intros l1 l2 l3 H1 H2 i s Hs. destruct (H1 i s Hs) as (s2&Hs2&E2). destruct (H2 i s2 Hs2) as (s3&Hs3&E3).
  exists s3. split; [done|]. intros Hj. by rewrite E3, E2.
Qed.

Lemma keeps_closed_upd j i f : j = Some i ∨ (∀ s, ns_closed (f s) = ns_closed s) → keeps (closed_kept j) (upd_nsession i f).
Proof.
  intros Hf l [] l' E k s Hk. destruct (nl_objs l !! i) as [t|] eqn:Ht; [|unfold upd_nsession, get_nsession, mbind, M_bind in E; by rewrite Ht in E].
  rewrite (upd_nsession_run i f l t Ht) in E. injection E as <-. cbn. destruct (decide (i = k)) as [->|Hne].
  - rewrite lookup_insert_eq. exists (f t). split; [done|]. intros Hj. destruct Hf as [?|Hf]; [done|]. rewrite Hf. congruence.
  - rewrite lookup_insert_ne by done. by exists s.
Qed.

Lemma keeps_closed_wg j i d : keeps (closed_kept j) (wg_Add i d).
Proof.
  unfold wg_Add. apply keeps_bind; [apply _|intros l s l' E; unfold get_nsession in E; destruct (_ !! _); [by injection E as _ <-|done]|].
  intros s. destruct (_ <? 0); [apply keeps_panic|]. apply keeps_closed_upd. by right.
Qed.

Lemma keeps_closed_frame {A} j (m : M listener A) : keeps (λ l l', nl_objs l' = nl_objs l) m → keeps (closed_kept j) m.
Proof. intros H l a l' E i s Hs. exists s. by rewrite (H l a l' E). Qed.

Lemma closed_session_made j : keeps (closed_kept j) session_made.
Proof.
  intros l [] l' E. unfold session_made in E. apply bind_done_inv in E as (k&l0&[= <- <-]&E). apply bind_done_inv in E as (c&l0&[= <- <-]&E).
  pose proof (fresh_key_None (nl_objs l)) as Hn.
  assert (∀ s, closed_kept j l (put_nobjs (<[fresh_key (nl_objs l) := s]> (nl_objs l)) l)) as Hnew.
  { intros s i t Ht. exists t. cbn. rewrite lookup_insert_ne; [done|]. intros <-. congruence. }
  destruct (nl_closed l); [by injection E as <-|]. apply bind_done_inv in E as ([]&l1&[= <-]&E). apply bind_done_inv in E as ([]&l2&E2&[= <-]).
  etransitivity; [apply Hnew|]. exact (keeps_closed_wg j _ _ _ _ _ E2).
Qed.

Ltac closed_auto := repeat first
  [ apply keeps_ret; apply _ | apply keeps_reads; apply _ | apply keeps_closed_wg | apply keeps_closed_upd; first [by right | by left]
  | apply keeps_closed_frame, keeps_modify; done
  | apply keeps_bind; [apply _| |intros ?] | case_match ].

(** The session whose open or closed state a step may change. *)
Definition closes (o : nop) : option nat := match o with NAcceptFailed i | NWaitDone i => Some i | _ => None end.

Lemma nop_closed_kept o : keeps (closed_kept (closes o)) (run_nop o).
Proof.
  destruct o; cbn [run_nop closes].
  - apply closed_session_made.
  - unfold stream_accepted, newStreamWrapper. closed_auto.
  - unfold accept_failed, wg_Done. closed_auto.
  - closed_auto.
  - closed_auto.
  - unfold wait_done. closed_auto.
  - unfold accept_conn. closed_auto. apply keeps_fuel.
  - unfold listener_Close. closed_auto. match goal with |- keeps _ (done_all ?ids) => induction ids; cbn [done_all]; unfold wg_Done in *; closed_auto; done end.
  - intros l [] l' E. unfold streamWrapper_Close in E. destruct (nl_wrappers l !! w) as [x|]; [|done]. destruct (sw_closed x); [by injection E as <-|].
    revert E. apply (λ K, K : keeps (closed_kept None) _). unfold wg_Done. closed_auto.
Qed.

(** The goroutine that waits for the group is there until the session is closed. *)
Definition watched (l : listener) : Prop := ∀ i s, nl_objs l !! i = Some s → ns_closed s = false → ns_waiting s = true.
Definition watched_kept (l l' : listener) : Prop := watched l → watched l'.
#[local] Instance watched_kept_preorder : PreOrder watched_kept.
Proof. split; [by intros l H|]. intros l1 l2 l3 H1 H2 H. by apply H2, H1. Qed.

Lemma keeps_watched_upd i f : (∀ s, ns_closed (f s) = false → ns_closed s = false ∧ ns_waiting (f s) = ns_waiting s) → keeps watched_kept (upd_nsession i f).
Proof.
  intros Hf l [] l' E Hl. destruct (nl_objs l !! i) as [t|] eqn:Ht; [|unfold upd_nsession, get_nsession, mbind, M_bind in E; by rewrite Ht in E].
  rewrite (upd_nsession_run i f l t Ht) in E. injection E as <-. intros k s. cbn. intros [[<- <-]|[_ Hk]]%lookup_insert_Some Hc; [|by eapply Hl].
  destruct (Hf t Hc) as [Hc' ->]. by eapply Hl.
Qed.

Lemma keeps_watched_wg i d : keeps watched_kept (wg_Add i d).
Proof.
  unfold wg_Add. apply keeps_bind; [apply _|intros l s l' E; unfold get_nsession in E; destruct (_ !! _); [by injection E as _ <-|done]|].
  intros s. destruct (_ <? 0); [apply keeps_panic|]. by apply keeps_watched_upd.
Qed.

Lemma keeps_watched_frame {A} (m : M listener A) : keeps (λ l l', nl_objs l' = nl_objs l) m → keeps watched_kept m.
Proof. intros H l a l' E Hl. unfold watched. by rewrite (H l a l' E). Qed.

Ltac watched_auto := repeat first
  [ apply keeps_ret; apply _ | apply keeps_reads; apply _ | apply keeps_watched_wg | by apply keeps_watched_upd
  | apply keeps_watched_frame, keeps_modify; done
  | apply keeps_bind; [apply _| |intros ?] | case_match ].

Lemma nop_watched o : keeps watched_kept (run_nop o).
Proof.
  destruct o as [|i|i|i w|i w|i| | |w]; cbn [run_nop].
  - unfold session_made. watched_auto; apply keeps_modify; intros l Hl k s; cbn; intros [[<- <-]|[_ Hk]]%lookup_insert_Some; try done; by eapply Hl.
  - unfold stream_accepted, newStreamWrapper. watched_auto.
  - unfold accept_failed, wg_Done. watched_auto.
  - watched_auto.
  - watched_auto.
  - intros l [] l' E Hl. unfold wait_done in E. apply bind_done_inv in E as ([]&l1&E1&E2).
    destruct (nl_objs l !! i) as [t|] eqn:Ht; [|unfold upd_nsession, get_nsession, mbind, M_bind in E1; by rewrite Ht in E1].
    rewrite (upd_nsession_run i _ l t Ht) in E1. injection E1 as <-. erewrite upd_nsession_run in E2 by (cbn; apply lookup_insert_eq). injection E2 as <-.
    intros k s. cbn. rewrite insert_insert_eq. intros [[<- <-]|[_ Hk]]%lookup_insert_Some; [done|by eapply Hl].
  - unfold accept_conn. watched_auto. apply keeps_fuel.
  - unfold listener_Close. watched_auto. match goal with |- keeps _ (done_all ?ids) => induction ids; cbn [done_all]; unfold wg_Done in *; watched_auto; done end.
  - intros l [] l' E. unfold streamWrapper_Close in E. destruct (nl_wrappers l !! w) as [x|]; [|done]. destruct (sw_closed x); [by injection E as <-|].
    revert E. apply (λ K, K : keeps watched_kept _). unfold wg_Done. watched_auto.
Qed.

Lemma watched_reachable cap l : reachable cap l → watched l.
Proof.
  intros Hl. refine (rtc_ind_r watched _ _ _ _ Hl); [by intros i s|]. intros l1 l2 _ [o l2' _ E] H1. by apply (nop_watched o _ _ _ E).
Qed.


(** ** A connection that is dropped *)

Section lost.
Context (i w : nat).

(** Connection [w] of session [i] is open, but nobody has it any more, and the accepting
    goroutine of [i] has returned. *)
Record lost (l : listener) : Prop := {
  lo_pending : pending l i w;
  lo_nobody : ∀ j s, nl_objs l !! j = Some s → ns_loop s ≠ LSelect w;
  lo_session : ∃ s, nl_objs l !! i = Some s ∧ ns_closed s = false ∧ ns_loop s = LEnd
}.

Definition lost_kept (l l' : listener) : Prop := lost l → lost l'.
#[local] Instance lost_kept_preorder : PreOrder lost_kept.
Proof. split; [intros l H; exact H|]. intros l1 l2 l3 H1 H2 H. by apply H2, H1. Qed.

Lemma keeps_upd_nsession j f :
  (j ≠ i ∨ ∀ s, ns_closed (f s) = ns_closed s ∧ ns_loop (f s) = ns_loop s) →
  (∀ s, ns_loop (f s) = LSelect w → ns_loop s = LSelect w) → keeps lost_kept (upd_nsession j f).
Proof.
  intros Hj Hf l [] l' E Hlost. destruct (nl_objs l !! j) as [s|] eqn:Hs; [|unfold upd_nsession, get_nsession, mbind, M_bind in E; by rewrite Hs in E].
  rewrite (upd_nsession_run j f l s Hs) in E. injection E as <-. destruct Hlost as [Hp Hn (t&Ht&Hc&Hl)]. constructor; [exact Hp|..]; cbn.
  - intros k u [[<- <-]|[_ Hu]]%lookup_insert_Some; [|by eapply Hn]. intros Hx. by apply (Hn j s Hs), Hf.
  - destruct (decide (j = i)) as [->|Hne].
    + destruct Hj as [?|Hj]; [done|]. exists (f s). rewrite lookup_insert_eq. destruct (Hj s) as [-> ->].
      rewrite Ht in Hs. injection Hs as ->. done.
    + exists t. by rewrite lookup_insert_ne.
Qed.

Lemma keeps_wg_Add j d : keeps lost_kept (wg_Add j d).
Proof.
  unfold wg_Add. apply keeps_bind; [typeclasses eauto|intros l s l' E; unfold get_nsession in E; destruct (_ !! _); [by injection E as _ <-|done]|].
  intros s. destruct (_ <? 0); [apply keeps_panic|]. apply keeps_upd_nsession; [by right|done].
Qed.

Lemma keeps_done_all ids : keeps lost_kept (done_all ids).
Proof. induction ids; cbn [done_all]; [apply keeps_ret; typeclasses eauto|]. apply keeps_bind; [typeclasses eauto|apply keeps_wg_Add|done]. Qed.

Lemma lost_held l : refcounts l → lost l → ∃ s, nl_objs l !! i = Some s ∧ 0 < ns_wg s.
Proof.
  intros Hr [(Hw&_) _ (s&Hs&_)]. exists s. split; [done|]. rewrite (rc_wg l Hr i s Hs). pose proof (open_some i _ _ Hw). unfold holds. case_bool_decide; lia.
Qed.

Lemma lost_wrap j : ∀ l v l', newStreamWrapper j l = Done (v, l') → lost l → lost l' ∧ v ≠ w.
Proof.
  intros l v l' E Hlost. unfold newStreamWrapper in E. apply bind_done_inv in E as ([]&l1&E1&E). pose proof (keeps_wg_Add _ _ _ _ _ E1 Hlost) as [(Hw&Hp) Hn Hs].
  cbn in E. injection E as <- <-. assert (fresh_key (nl_wrappers l1) ≠ w) as Hne by (intros <-; by rewrite fresh_key_None in Hw).
  split; [|done]. constructor; [|done|done]. split; [|exact Hp]. cbn. by rewrite lookup_insert_ne.
Qed.

Lemma lost_new l j s : nl_objs l !! j = None → ns_loop s ≠ LSelect w → lost l → lost (put_nobjs (<[j := s]> (nl_objs l)) l).
Proof.
  intros Hj Hs [Hp Hn (t&Ht&Hc)]. constructor; [exact Hp|..]; cbn.
  - intros k u [[<- <-]|[_ Hu]]%lookup_insert_Some; [done|by eapply Hn].
  - exists t. rewrite lookup_insert_ne by congruence. done.
Qed.

Lemma lost_sessions l ss : lost l → lost (put_sessions ss l).
Proof. intros [Hp Hn Ht]. by constructor. Qed.

Lemma lost_session_made l l' : session_made l = Done (tt, l') → lost l → lost l'.
Proof.
  intros E Hlost. unfold session_made in E. apply bind_done_inv in E as (j&l0&E0&E). injection E0 as <- <-.
  apply bind_done_inv in E as (c&l0&E0&E). injection E0 as <- <-. destruct (nl_closed l).
  - injection E as <-. apply lost_new; [apply fresh_key_None|done|done].
  - apply bind_done_inv in E as ([]&l1&E1&E). injection E1 as <-. apply bind_done_inv in E as ([]&l2&E2&E). injection E as <-.
    apply lost_sessions. apply (keeps_wg_Add _ _ _ _ _ E2). apply lost_new; [apply fresh_key_None|done|done].
Qed.

Lemma lost_stream_accepted j l l' : j ≠ i → stream_accepted j l = Done (tt, l') → lost l → lost l'.
Proof.
  intros Hj E Hlost. apply bind_done_inv in E as (v&l1&E1&E). destruct (lost_wrap _ _ _ _ E1 Hlost) as [Hlost1 Hv].
  apply (keeps_upd_nsession j (with_loop (LSelect v)) (or_introl Hj)) in E; [by apply E|]. by intros s [= ->].
Qed.

Lemma lost_accept_failed j l l' : j ≠ i → accept_failed j l = Done (tt, l') → lost l → lost l'.
Proof.
  intros Hj E. enough (keeps lost_kept (accept_failed j)) as K by (by apply (K l tt l')). clear E. unfold accept_failed. assert (∀ f, (∀ s, ns_loop (f s) = LSelect w → ns_loop s = LSelect w) → keeps lost_kept (upd_nsession j f)) as Hu.
  { intros f Hf. apply keeps_upd_nsession; [by left|done]. }
  apply keeps_bind; [typeclasses eauto|by apply Hu|]. intros _. apply keeps_bind; [typeclasses eauto|apply keeps_reads; typeclasses eauto|]. intros b.
  apply keeps_bind; [typeclasses eauto| |intros _; by apply Hu]. destruct b; [|apply keeps_ret; typeclasses eauto].
  apply keeps_bind; [typeclasses eauto| |intros _; apply keeps_wg_Add]. apply keeps_modify. intros s Hs. by apply lost_sessions.
Qed.

Lemma lost_Close l l' : listener_Close l = Done (tt, l') → lost l → lost l'.
Proof.
  intros E. enough (keeps lost_kept listener_Close) as K by (by apply (K l tt l')). clear E. unfold listener_Close. apply keeps_bind; [typeclasses eauto|apply keeps_reads; typeclasses eauto|]. intros b.
  apply keeps_bind; [typeclasses eauto|apply keeps_modify; intros s [Hp Hn Ht]; by constructor|]. intros _.
  apply keeps_bind; [typeclasses eauto|apply keeps_reads; typeclasses eauto|]. intros ids. apply keeps_bind; [typeclasses eauto|apply keeps_done_all|].
  intros _. apply keeps_modify. intros s Hs. by apply lost_sessions.
Qed.

Lemma lost_conn_close v l l' : v ≠ w → streamWrapper_Close v l = Done (tt, l') → lost l → lost l'.
Proof.
  intros Hv E [(Hw&Hp) Hn Ht]. unfold streamWrapper_Close in E. destruct (nl_wrappers l !! v) as [x|] eqn:Hx; [|done].
  destruct (sw_closed x); [by injection E as <-|]. apply bind_done_inv in E as ([]&l1&E1&E). injection E1 as <-.
  apply (keeps_wg_Add _ _ _ _ _ E). constructor; [|done|done]. split; [|exact Hp]. cbn. by rewrite lookup_insert_ne.
Qed.

(** No step finds it again. *)
Lemma lost_step l l' : refcounts l → nstep l l' → lost l → lost l'.
Proof.
  intros Hr [o l1 He E] Hlost. pose proof Hlost as [(Hw&Hh&Hb) Hn (t&Ht&Hc&Hl)]. destruct o as [|j|j|j v|j v|j| | |v]; cbn [run_nop enabled] in *.
  - by eapply lost_session_made.
  - destruct He as (s&Hs&Hsl). eapply lost_stream_accepted; [|done|done]. congruence.
  - destruct He as (s&Hs&Hsl). eapply lost_accept_failed; [|done|done]. congruence.
  - destruct He as (_&s&Hs&Hsl). eapply keeps_upd_nsession in E; [by apply E|left; congruence|done].
  - destruct He as (_&s&Hs&Hsl). apply bind_done_inv in E as ([]&l2&E2&E). injection E2 as <-.
    eapply keeps_upd_nsession in E; [apply E|left; congruence|done]. constructor; [|done|by exists t]. split_and!; [done|done|].
    cbn. intros [?|Hin]%elem_of_app; [done|]. apply list_elem_of_singleton in Hin as Hv. subst v. by apply (Hn j s Hs).
  - destruct He as (s&Hs&_&Hz). destruct (lost_held l Hr Hlost) as (s'&Hs'&Hpos). assert (j ≠ i) as Hj by (intros ->; rewrite Hs in Hs'; injection Hs' as ->; lia).
    apply bind_done_inv in E as ([]&l2&E2&E). eapply keeps_upd_nsession in E2; [|by left|done]. eapply keeps_upd_nsession in E; [|by left|done]. by apply E, E2.
  - unfold accept_conn in E. apply bind_done_inv in E as (v&l2&E2&E). injection E as <-. apply bind_done_inv in E2 as (b&l3&E3&E2). injection E3 as <- <-.
    destruct (nl_backlog l) as [|v' b'] eqn:Eb; [done|]. injection E2 as <- <-. constructor; [|done|by exists t]. split_and!; [done|cbn; set_solver|cbn; set_solver].
  - by eapply lost_Close.
  - eapply lost_conn_close; [|done|done]. intros ->. done.
Qed.
End lost.

(** When the listener is closed while the goroutine of a session holds a new
    connection, the [select] may take the branch of the closed listener: the
    connection is dropped with its reference, and the session is never closed,
    whatever happens after that. *)
Theorem dropped_connection_leaks cap l i w s :
  reachable cap l → nl_objs l !! i = Some s → ns_loop s = LSelect w → ns_closed s = false → nl_closeCh l = true →
  ∃ l1, run_nop (NSelectClosed i w) l = Done (tt, l1) ∧
    ∀ l2, rtc nstep l1 l2 → ∃ s2, nl_objs l2 !! i = Some s2 ∧ ns_closed s2 = false.
Proof.
  intros Hl Hs Hloop Hc Hch. pose proof (refcounts_steps _ _ (refcounts_init cap) Hl) as Hr.
  assert (enabled (NSelectClosed i w) l) as He by (split; [done|by exists s]).
  destruct (nop_ok _ l Hr He) as (l1&E&Hr1). exists l1. split; [done|]. destruct (rc_select l Hr i s w Hs Hloop) as (Hw&Hp).
  assert (lost i w l1) as Hlost.
  { cbn in E. rewrite (upd_nsession_run i _ l s Hs) in E. injection E as <-. constructor; [by split|..]; cbn.
    - intros j t [[<- <-]|[Hne Ht]]%lookup_insert_Some; [done|]. intros Htl. destruct (rc_select l Hr j t w Ht Htl) as (Hw'&_). congruence.
    - eexists. rewrite lookup_insert_eq. by split_and!. }
  intros l2 Hsteps. enough (lost i w l2) as [_ _ (s2&?&?&_)] by (by exists s2).
  clear -Hr1 Hlost Hsteps. induction Hsteps as [|l l1 l2 Hstep _ IH]; [done|]. apply IH; [|by eapply lost_step].
  apply (refcounts_steps l); [done|]. by apply rtc_once.
Qed.

(** ** Examples *)

Lemma reach_step cap l o l' : reachable cap l → enabled o l → run_nop o l = Done (tt, l') → reachable cap l'.
Proof. intros Hl He E. eapply rtc_r; [exact Hl|]. by econstructor. Qed.

(** A session with one connection that was handed out and closed; the listener was
    closed too. *)
Definition demo_closed : listener :=
  NetL ∅ {[ 0%nat := NSession 0 false true LAccept ]} {[ 0%nat := StreamWrapper 0 true ]} true true [] 2 {[ 0%nat ]}.
(** The listener was closed while the goroutine of the session was about to hand a
    connection on. *)
Definition demo_select : listener :=
  NetL ∅ {[ 0%nat := NSession 1 false true (LSelect 0) ]} {[ 0%nat := StreamWrapper 0 false ]} true true [] 2 ∅.

Lemma demo_select_reachable : reachable 2 demo_select.
Proof.
  eapply (reach_step _ _ NClose); [|done|].
  - eapply (reach_step _ _ (NStreamAccepted 0)).
    + eapply (reach_step _ _ NSessionMade); [apply rtc_refl|done|vm_compute; reflexivity].
    + by eexists.
    + vm_compute. reflexivity.
  - vm_compute. reflexivity.
Qed.

Lemma demo_closed_reachable : reachable 2 demo_closed.
Proof.
  set (l1 b h := NetL ∅ {[ 0%nat := NSession 1 false true LAccept ]} {[ 0%nat := StreamWrapper 0 false ]} true true b 2 h).
  assert (reachable 2 (l1 [0%nat] ∅)) as H1.
  { apply (reach_step _ demo_select (NSelectBacklog 0 0)); [apply demo_select_reachable| |vm_compute; reflexivity].
    split; [cbn; lia|by eexists]. }
  assert (reachable 2 (l1 [] {[ 0%nat ]})) as H2 by (apply (reach_step _ _ NAcceptConn) with (1 := H1); [done|vm_compute; reflexivity]).
  apply (reach_step _ _ (NConnClose 0)) with (1 := H2); [cbn; set_solver|vm_compute; reflexivity].
Qed.


Lemma dropped_connection_leaks_witness : ∃ l1, run_nop (NSelectClosed 0 0) demo_select = Done (tt, l1) ∧
  ∀ l2, rtc nstep l1 l2 → ∃ s2, nl_objs l2 !! 0%nat = Some s2 ∧ ns_closed s2 = false.
Proof. exact (dropped_connection_leaks 2 demo_select 0 0 _ demo_select_reachable eq_refl eq_refl eq_refl eq_refl). Defined.
