(* ===== verification/Bridge.v ===== *)
(** * The bridge to C ([adapter/shmipc_bridge.go])

    The exported functions with their three locks and the two tables of handles.  The
    library below them is a record of operations over a world [W]: the bridge names two
    functions, [NewSession] and [AcceptStream] of a listener, that the package does not
    export, and it declares [conn] twice in [shmipc_go_client]; the model is what is
    written, with a fresh variable.  A call runs in one goroutine; a lock that is taken
    is waited for without end when nobody is left to release it. *)

From Stdlib Require Import ZArith Lia.
From stdpp Require Import prelude list gmap strings countable.
From S2P Require Import Prelude GoMem Queue LinkedBuffer ShmAllocator Protocol Config Session Listener.

(** ** Data *)

(** An [unsafe.Pointer] that C holds: the address of a [shmipcConn], of a [Stream], or
    any other number.  Objects that are alive have different addresses. *)
Inductive pointer := ConnPtr (n : nat) | StreamPtr (n : nat) | OtherPtr (a : Z).
#[global] Instance pointer_eq_dec : EqDecision pointer.
Proof. solve_decision. Defined.
#[global] Program Instance pointer_countable : Countable pointer :=
  inj_countable' (λ p, match p with ConnPtr n => inl n | StreamPtr n => inr (inl n) | OtherPtr a => inr (inr a) end)
    (λ x, match x with inl n => ConnPtr n | inr (inl n) => StreamPtr n | inr (inr a) => OtherPtr a end) _.
Next Obligation. by intros []. Qed.

Record shmipcConn := MkConn { c_session : option nat; c_isServer : bool; c_path : string; c_listener : option nat }.

(** [sync.RWMutex] *)
Record rwmutex := RW { rw_writer : bool; rw_readers : Z }.
Definition rw_free : rwmutex := RW false 0.

(** [Fprintf] to the standard error, without the prefix of the bridge and the end of line. *)
Inductive logline := Line (format : string) (arg : option (string + error)).

(** The library: sessions, streams, listeners and connections are numbers. *)
Record lib (W : Type) := Lib {
  NewListener : ListenerConfig → M W (error + nat);
  go_Run : nat → M W unit;
  Listener_Close : nat → M W unit;
  Listener_AcceptStream : nat → M W (error + nat);
  DialUnix : string → M W (error + nat);
  UnixConn_Close : nat → M W unit;
  NewSession : Config → nat → bool → M W (error + nat);
  Session_OpenStream : nat → M W (error + nat);
  Session_Close : nat → M W unit;
  Writer_WriteBytes : nat → list Z → M W (Z * option error);
  Stream_Flush : nat → bool → M W (option error);
  Reader_ReadBytes : nat → Z → M W (error + list Z);
  Reader_ReleasePreviousRead : nat → M W unit;
  Stream_Close : nat → M W unit
}.
Arguments NewListener {W}. Arguments go_Run {W}. Arguments Listener_Close {W}. Arguments Listener_AcceptStream {W}.
Arguments DialUnix {W}. Arguments UnixConn_Close {W}. Arguments NewSession {W}. Arguments Session_OpenStream {W}.
Arguments Session_Close {W}. Arguments Writer_WriteBytes {W}. Arguments Stream_Flush {W}. Arguments Reader_ReadBytes {W}.
Arguments Reader_ReleasePreviousRead {W}. Arguments Stream_Close {W}.

Section bridge.
Context {W : Type} (L : lib W).

(** The variables of the package, the memory of the C program and the world.  [b_next]
    is the next [shmipcConn] to be allocated. *)
Record bridge := Bridge {
  b_initialized : bool;
  b_initMutex : bool;
  b_connections : gmap pointer shmipcConn;
  b_connMutex : rwmutex;
  b_streams : gmap pointer nat;
  b_streamMutex : rwmutex;
  b_defaultConfig : option Config;
  b_next : nat;
  b_stderr : list logline;
  b_cmem : gmem;
  b_world : W
}.

Definition set_init (i : bool) (c : option Config) (s : bridge) : bridge :=
  Bridge i (b_initMutex s) (b_connections s) (b_connMutex s) (b_streams s) (b_streamMutex s) c (b_next s) (b_stderr s) (b_cmem s) (b_world s).
Definition set_initMutex (x : bool) (s : bridge) : bridge :=
  Bridge (b_initialized s) x (b_connections s) (b_connMutex s) (b_streams s) (b_streamMutex s) (b_defaultConfig s) (b_next s) (b_stderr s) (b_cmem s) (b_world s).
Definition set_connections (x : gmap pointer shmipcConn) (n : nat) (s : bridge) : bridge :=
  Bridge (b_initialized s) (b_initMutex s) x (b_connMutex s) (b_streams s) (b_streamMutex s) (b_defaultConfig s) n (b_stderr s) (b_cmem s) (b_world s).
Definition set_connMutex (x : rwmutex) (s : bridge) : bridge :=
  Bridge (b_initialized s) (b_initMutex s) (b_connections s) x (b_streams s) (b_streamMutex s) (b_defaultConfig s) (b_next s) (b_stderr s) (b_cmem s) (b_world s).
Definition set_bstreams (x : gmap pointer nat) (s : bridge) : bridge :=
  Bridge (b_initialized s) (b_initMutex s) (b_connections s) (b_connMutex s) x (b_streamMutex s) (b_defaultConfig s) (b_next s) (b_stderr s) (b_cmem s) (b_world s).
Definition set_streamMutex (x : rwmutex) (s : bridge) : bridge :=
  Bridge (b_initialized s) (b_initMutex s) (b_connections s) (b_connMutex s) (b_streams s) x (b_defaultConfig s) (b_next s) (b_stderr s) (b_cmem s) (b_world s).
Definition add_line (x : logline) (s : bridge) : bridge :=
  Bridge (b_initialized s) (b_initMutex s) (b_connections s) (b_connMutex s) (b_streams s) (b_streamMutex s) (b_defaultConfig s) (b_next s) (b_stderr s ++ [x]) (b_cmem s) (b_world s).
Definition set_cmem (x : gmem) (s : bridge) : bridge :=
  Bridge (b_initialized s) (b_initMutex s) (b_connections s) (b_connMutex s) (b_streams s) (b_streamMutex s) (b_defaultConfig s) (b_next s) (b_stderr s) x (b_world s).
Definition set_world (x : W) (s : bridge) : bridge :=
  Bridge (b_initialized s) (b_initMutex s) (b_connections s) (b_connMutex s) (b_streams s) (b_streamMutex s) (b_defaultConfig s) (b_next s) (b_stderr s) (b_cmem s) x.

(** The variables as they are declared. *)
Definition bridge_start (m : gmem) (w : W) : bridge := Bridge false false ∅ rw_free ∅ rw_free None 0 [] m w.

Definition calls {A} (m : M W A) : M bridge A := zoom b_world set_world m.
Definition c_memory {A} (m : M gmem A) : M bridge A := zoom b_cmem set_cmem m.
Definition stderrf (format : string) (arg : option (string + error)) : M bridge unit := modify_state (add_line (Line format arg)).

(** ** Locks *)

Definition Lock_init : M bridge unit :=
  taken ← reads b_initMutex; if (taken : bool) then out_of_fuel else modify_state (set_initMutex true).
Definition Unlock_init : M bridge unit := modify_state (set_initMutex false).

(** A writer waits for writers and readers, a reader for writers. *)
Definition rw_Lock (get : bridge → rwmutex) (put : rwmutex → bridge → bridge) : M bridge unit :=
  l ← reads get;
  if rw_writer l || (0 <? rw_readers l) then out_of_fuel else modify_state (put (RW true (rw_readers l))).
Definition rw_Unlock (get : bridge → rwmutex) (put : rwmutex → bridge → bridge) : M bridge unit :=
  l ← reads get; if rw_writer l then modify_state (put (RW false (rw_readers l))) else panic.
Definition rw_RLock (get : bridge → rwmutex) (put : rwmutex → bridge → bridge) : M bridge unit :=
  l ← reads get; if rw_writer l then out_of_fuel else modify_state (put (RW false (rw_readers l + 1))).
Definition rw_RUnlock (get : bridge → rwmutex) (put : rwmutex → bridge → bridge) : M bridge unit :=
  l ← reads get; if 0 <? rw_readers l then modify_state (put (RW (rw_writer l) (rw_readers l - 1))) else panic.

Definition connMutex_Lock : M bridge unit := rw_Lock b_connMutex set_connMutex.
Definition connMutex_Unlock : M bridge unit := rw_Unlock b_connMutex set_connMutex.
Definition connMutex_RLock : M bridge unit := rw_RLock b_connMutex set_connMutex.
Definition connMutex_RUnlock : M bridge unit := rw_RUnlock b_connMutex set_connMutex.
Definition streamMutex_Lock : M bridge unit := rw_Lock b_streamMutex set_streamMutex.
Definition streamMutex_Unlock : M bridge unit := rw_Unlock b_streamMutex set_streamMutex.
Definition streamMutex_RLock : M bridge unit := rw_RLock b_streamMutex set_streamMutex.
Definition streamMutex_RUnlock : M bridge unit := rw_RUnlock b_streamMutex set_streamMutex.

(** [connections[handle]] and [streams[handle]] between [RLock] and [RUnlock] *)
Definition find_conn (handle : pointer) : M bridge (option shmipcConn) :=
  _ ← connMutex_RLock; c ← reads (λ s, b_connections s !! handle); _ ← connMutex_RUnlock; mret c.
Definition find_stream (handle : pointer) : M bridge (option nat) :=
  _ ← streamMutex_RLock; p ← reads (λ s, b_streams s !! handle); _ ← streamMutex_RUnlock; mret p.

(** ** Exported functions *)

Definition with_bridge_defaults (c : Config) : Config :=
  MkConfig (cf_ConnectionWriteTimeout c) (cf_InitializeTimeout c) 65535 (cf_QueuePath c) (Z.shiftl 256 20) (cf_ShareMemoryPathPrefix c)
    (cf_BufferSliceSizes c) (cf_listenCallback c) MemMapTypeMemFd (cf_Monitor c) (cf_rebuildInterval c).

(** [C.GoString] of a null pointer is the empty string. *)
Definition shmipc_go_init (config : option string) : M bridge Z :=
  _ ← Lock_init;
  initialized ← reads b_initialized;
  r ← (if (initialized : bool) then mret 0
       else
         let configStr := default "" config in
         _ ← (if decide (configStr = "") then modify_state (λ s, set_init (b_initialized s) (Some (with_bridge_defaults DefaultConfig)) s)
              else modify_state (λ s, set_init (b_initialized s) (Some DefaultConfig) s));
         _ ← modify_state (λ s, set_init true (b_defaultConfig s) s);
         _ ← stderrf "Initialized with config: %s" (Some (inl configStr));
         mret 0);
  _ ← Unlock_init;
  mret r.

(** The first lines of [shmipc_go_server] and [shmipc_go_client]. *)
Definition check_initialized : M bridge bool :=
  _ ← Lock_init;
  initialized ← reads b_initialized;
  _ ← Unlock_init;
  mret initialized.

(** [&shmipcConn{...}]: an address of its own. *)
Definition new_conn (c : shmipcConn) : M bridge pointer := λ s,
  Done (ConnPtr (b_next s), set_connections (b_connections s) (S (b_next s)) s).
Definition put_conn (p : pointer) (c : shmipcConn) : M bridge unit :=
  modify_state (λ s, set_connections (<[p := c]> (b_connections s)) (b_next s) s).

(** Results are the number that is returned and what is stored in [*handle]. *)
Definition shmipc_go_server (path : string) : M bridge (Z * option pointer) :=
  ok ← check_initialized;
  if negb ok then mret (-1, None)
  else
    config ← reads b_defaultConfig;
    config ← of_option config;
    l ← calls (NewListener L (MkListenerConfig config "unix" path));
    match l with
    | inl err => _ ← stderrf "Failed to create listener: %v" (Some (inr err)); mret (-1, None)
    | inr listener =>
        _ ← calls (go_Run L listener);
        let conn := MkConn None true path (Some listener) in
        connPtr ← new_conn conn;
        _ ← connMutex_Lock;
        _ ← put_conn connPtr conn;
        _ ← connMutex_Unlock;
        _ ← stderrf "Server created for path: %s" (Some (inl path));
        mret (0, Some connPtr)
    end.

(** The end of it has no [connMutex.Unlock]. *)
Definition shmipc_go_client (path : string) : M bridge (Z * option pointer) :=
  ok ← check_initialized;
  if negb ok then mret (-1, None)
  else
    c ← calls (DialUnix L path);
    match c with
    | inl err => _ ← stderrf "Failed to dial: %v" (Some (inr err)); mret (-1, None)
    | inr uc =>
        config ← reads b_defaultConfig;
        config ← of_option config;
        x ← calls (NewSession L config uc true);
        match x with
        | inl err => _ ← stderrf "Failed to create session: %v" (Some (inr err)); _ ← calls (UnixConn_Close L uc); mret (-1, None)
        | inr session =>
            t ← calls (Session_OpenStream L session);
            match t with
            | inl err => _ ← stderrf "Failed to open stream: %v" (Some (inr err)); _ ← calls (Session_Close L session); mret (-1, None)
            | inr stream =>
                let conn := MkConn (Some session) false path None in
                connPtr ← new_conn conn;
                _ ← connMutex_Lock;
                _ ← put_conn connPtr conn;
                _ ← streamMutex_Lock;
                _ ← modify_state (λ s, set_bstreams (<[connPtr := stream]> (b_streams s)) s);
                _ ← streamMutex_Unlock;
                _ ← stderrf "Client created for path: %s" (Some (inl path));
                mret (0, Some connPtr)
            end
        end
    end.

Definition shmipc_go_accept (handle : pointer) : M bridge (Z * option pointer) :=
  c ← find_conn handle;
  match c with
  | None => mret (-1, None)
  | Some conn =>
      if negb (c_isServer conn) then mret (-1, None)
      else
        listener ← of_option (c_listener conn);
        t ← calls (Listener_AcceptStream L listener);
        match t with
        | inl err => _ ← stderrf "Failed to accept stream: %v" (Some (inr err)); mret (-1, None)
        | inr stream =>
            let streamPtr := StreamPtr stream in
            _ ← streamMutex_Lock;
            _ ← modify_state (λ s, set_bstreams (<[streamPtr := stream]> (b_streams s)) s);
            _ ← streamMutex_Unlock;
            _ ← stderrf "Stream accepted" None;
            mret (0, Some streamPtr)
        end
  end.

Definition shmipc_go_connect (handle : pointer) : M bridge (Z * option pointer) := mret (0, Some handle).

(** [( *[1 << 30]byte)(data)[:length:length]] *)
Definition c_slice (data : option ptr) (length : Z) : M bridge ptr :=
  p ← of_option data;
  if (0 <=? length) && (length <=? Z.shiftl 1 30) then mret p else panic.

(** Accesses to such a slice; none when it is empty. *)
Definition c_load (p : ptr) (n : Z) : M bridge (list Z) := if n =? 0 then mret [] else c_memory (load_bytes p n).
Definition c_store (p : ptr) (bs : list Z) : M bridge unit :=
  match bs with [] => mret tt | _ => c_memory (store_bytes p bs) end.

Definition shmipc_go_send (streamHandle : pointer) (data : option ptr) (length : Z) : M bridge Z :=
  t ← find_stream streamHandle;
  match t with
  | None => mret (-1)
  | Some stream =>
      p ← c_slice data length;
      bs ← c_load p length;
      w ← calls (Writer_WriteBytes L stream bs);
      match w.2 with
      | Some err => _ ← stderrf "Failed to write: %v" (Some (inr err)); mret (-1)
      | None =>
          err ← calls (Stream_Flush L stream false);
          match err with
          | Some err => _ ← stderrf "Failed to flush: %v" (Some (inr err)); mret (-1)
          | None => mret length
          end
      end
  end.

Definition shmipc_go_recv (streamHandle : pointer) (data : option ptr) (length : Z) : M bridge Z :=
  t ← find_stream streamHandle;
  match t with
  | None => mret (-1)
  | Some stream =>
      r ← calls (Reader_ReadBytes L stream length);
      match r with
      | inl err =>
          if decide (err = ErrEndOfStream ∨ err = ErrStreamClosed) then mret 0
          else _ ← stderrf "Failed to read: %v" (Some (inr err)); mret (-1)
      | inr readData =>
          p ← c_slice data length;
          _ ← c_store p (take (Z.to_nat length) readData);
          _ ← calls (Reader_ReleasePreviousRead L stream);
          mret (Z.of_nat (List.length readData))
      end
  end.

Definition shmipc_go_close (handle : pointer) : M bridge Z :=
  t ← find_stream handle;
  match t with
  | Some stream =>
      _ ← calls (Stream_Close L stream);
      _ ← streamMutex_Lock;
      _ ← modify_state (λ s, set_bstreams (delete handle (b_streams s)) s);
      _ ← streamMutex_Unlock;
      mret 0
  | None =>
      c ← find_conn handle;
      match c with
      | Some conn =>
          _ ← match c_session conn with Some x => calls (Session_Close L x) | None => mret tt end;
          _ ← match c_listener conn with Some l => calls (Listener_Close L l) | None => mret tt end;
          _ ← connMutex_Lock;
          _ ← modify_state (λ s, set_connections (delete handle (b_connections s)) (b_next s) s);
          _ ← connMutex_Unlock;
          mret 0
      | None => mret (-1)
      end
  end.

(** The callback of the listener *)
Definition OnNewStream (stream : nat) : M bridge unit := stderrf "New stream accepted" None.
Definition OnShutdown (reason : string) : M bridge unit := stderrf "Listener shutdown: %s" (Some (inl reason)).

(** Any call of the C program, and of the library back into the bridge. *)
Inductive call :=
| CInit (config : option string)
| CServer (path : string)
| CClient (path : string)
| CAccept (handle : pointer)
| CConnect (handle : pointer)
| CSend (handle : pointer) (data : option ptr) (length : Z)
| CRecv (handle : pointer) (data : option ptr) (length : Z)
| CClose (handle : pointer)
| COnNewStream (stream : nat)
| COnShutdown (reason : string).

Definition run_call (c : call) : M bridge (Z * option pointer) :=
  match c with
  | CInit config => r ← shmipc_go_init config; mret (r, None)
  | CServer path => shmipc_go_server path
  | CClient path => shmipc_go_client path
  | CAccept handle => shmipc_go_accept handle
  | CConnect handle => shmipc_go_connect handle
  | CSend handle data length => r ← shmipc_go_send handle data length; mret (r, None)
  | CRecv handle data length => r ← shmipc_go_recv handle data length; mret (r, None)
  | CClose handle => r ← shmipc_go_close handle; mret (r, None)
  | COnNewStream stream => _ ← OnNewStream stream; mret (0, None)
  | COnShutdown reason => _ ← OnShutdown reason; mret (0, None)
  end.

Fixpoint run_calls (cs : list call) : M bridge (list (Z * option pointer)) :=
  match cs with
  | [] => mret []
  | c :: cs => r ← run_call c; rs ← run_calls cs; mret (r :: rs)
  end.

End bridge.

Arguments Bridge {W}.

(** ** What C may expect of the handles *)

(** The handles of connections and of streams that C holds. *)
Record handles := Handles { hs_conns : gset pointer; hs_streams : gset pointer }.

(** A call that returns a handle adds it; [shmipc_go_close] takes it away, a stream
    before a connection of the same address. *)
Definition handed_out (c : call) (r : Z * option pointer) (x : handles) : handles :=
  match c, r.2 with
  | CServer _, Some h => Handles ({[h]} ∪ hs_conns x) (hs_streams x)
  | CClient _, Some h => Handles ({[h]} ∪ hs_conns x) ({[h]} ∪ hs_streams x)
  | CAccept _, Some h => Handles (hs_conns x) ({[h]} ∪ hs_streams x)
  | CClose h, _ => if decide (h ∈ hs_streams x) then Handles (hs_conns x) (hs_streams x ∖ {[h]})
                   else Handles (hs_conns x ∖ {[h]}) (hs_streams x)
  | _, _ => x
  end.
Fixpoint handed_outs (cs : list call) (rs : list (Z * option pointer)) (x : handles) : handles :=
  match cs, rs with c :: cs, r :: rs => handed_outs cs rs (handed_out c r x) | _, _ => x end.

(** What a call answers about the handle it is given: [-1] for one that C does not hold;
    closing succeeds exactly for one it holds; a new connection has a new address. *)
Definition answers (c : call) (r : Z * option pointer) (x : handles) : Prop :=
  match c with
  | CServer _ | CClient _ => ∀ h, r.2 = Some h → h ∉ hs_conns x ∧ h ∉ hs_streams x
  | CAccept h => h ∉ hs_conns x → r = (-1, None)
  | CSend h _ _ | CRecv h _ _ => h ∉ hs_streams x → r.1 = -1
  | CClose h => r.1 = if decide (h ∈ hs_streams x ∨ h ∈ hs_conns x) then 0 else -1
  | _ => True
  end.
Fixpoint all_answer (cs : list call) (rs : list (Z * option pointer)) (x : handles) : Prop :=
  match cs, rs with c :: cs, r :: rs => answers c r x ∧ all_answer cs rs (handed_out c r x) | _, _ => True end.

(** ** Locks: what a critical section does *)

Section proofs.
Context {W : Type} (L : lib W).
Implicit Types s : @bridge W.

(** No call is in progress, except that [connMutex] may be held for ever. *)
Record quiet s : Prop := {
  q_init : b_initMutex s = false;
  q_readers : rw_readers (b_connMutex s) = 0;
  q_stream : b_streamMutex s = rw_free
}.
Definition held s : bool := rw_writer (b_connMutex s).

Lemma init_checked s : b_initMutex s = false → check_initialized s = Done (b_initialized s, s).
Proof. destruct s; cbn. intros ->. done. Qed.

Lemma stream_found h s : b_streamMutex s = rw_free → find_stream h s = Done (b_streams s !! h, s).
Proof. destruct s; cbn. intros ->. done. Qed.

Lemma conn_found h s : quiet s → find_conn h s = if held s then NoFuel else Done (b_connections s !! h, s).
Proof.
  intros [_ Hr _]. destruct s as [? ? ? [w r]]. cbn in Hr. subst r. unfold find_conn, connMutex_RLock, rw_RLock, held.
  by destruct w.
Qed.

Lemma conn_found_free h s : quiet s → held s = false → find_conn h s = Done (b_connections s !! h, s).
Proof. intros Q Hh. by rewrite conn_found, Hh. Qed.

(** A change of the tables between [Lock] and [Unlock]. *)
Lemma streams_changed {A} f (k : M (@bridge W) A) s : b_streamMutex s = rw_free →
  (_ ← streamMutex_Lock; _ ← modify_state (λ s, set_bstreams (f (b_streams s)) s); _ ← streamMutex_Unlock; k) s = k (set_bstreams (f (b_streams s)) s).
Proof. destruct s; cbn. intros ->. done. Qed.

Lemma connections_changed {A} f (k : M (@bridge W) A) s : quiet s →
  (_ ← connMutex_Lock; _ ← modify_state (λ s, set_connections (f (b_connections s)) (b_next s) s); _ ← connMutex_Unlock; k) s =
  if held s then NoFuel else k (set_connections (f (b_connections s)) (b_next s) s).
Proof.
  intros [_ Hr _]. destruct s as [? ? ? [w r]]. cbn in Hr. subst r. unfold connMutex_Lock, rw_Lock, held. by destruct w.
Qed.

Lemma calls_inv {A} (m : M W A) s a s' : calls m s = Done (a, s') → ∃ w, m (b_world s) = Done (a, w) ∧ s' = set_world w s.
Proof. unfold calls, zoom. destruct (m (b_world s)) as [[x w]| |]; [|done|done]. intros [= -> <-]. eauto. Qed.

Lemma cmem_inv {A} (m : M gmem A) s a s' : c_memory m s = Done (a, s') → ∃ w, m (b_cmem s) = Done (a, w) ∧ s' = set_cmem w s.
Proof. unfold c_memory, zoom. destruct (m (b_cmem s)) as [[x w]| |]; [|done|done]. intros [= -> <-]. eauto. Qed.

(** ** What a state is between calls *)

(** Handles in the tables: a connection is of a server or of a client; a stream is under
    its own address or under the one of the client that opened it. *)
Record tables s : Prop := {
  tb_config : b_initialized s = true → is_Some (b_defaultConfig s);
  tb_conns h c : b_connections s !! h = Some c → ∃ n, h = ConnPtr n ∧ (n < b_next s)%nat ∧
    if c_isServer c then c_session c = None ∧ is_Some (c_listener c) else is_Some (c_session c) ∧ c_listener c = None;
  tb_streams h p : b_streams s !! h = Some p → h = StreamPtr p ∨ ∃ n c, h = ConnPtr n ∧ b_connections s !! h = Some c ∧ c_isServer c = false
}.

(** The parts of the state that [quiet] and [tables] and the lock speak of. *)
Definition same_tables s s' : Prop :=
  b_initialized s' = b_initialized s ∧ b_initMutex s' = b_initMutex s ∧ b_connections s' = b_connections s ∧ b_connMutex s' = b_connMutex s ∧
  b_streams s' = b_streams s ∧ b_streamMutex s' = b_streamMutex s ∧ b_defaultConfig s' = b_defaultConfig s ∧ b_next s' = b_next s.
#[local] Instance same_tables_preorder : PreOrder same_tables.
Proof. split; [by repeat split|]. intros s1 s2 s3 H1 H2. unfold same_tables in *. destruct_and!. split_and!; congruence. Qed.

Lemma calls_same {A} (m : M W A) : keeps same_tables (calls m).
Proof. apply keeps_zoom. by repeat split. Qed.
Lemma cmem_same {A} (m : M gmem A) : keeps same_tables (c_memory m).
Proof. apply keeps_zoom. by repeat split. Qed.
Lemma stderr_same f a : keeps same_tables (stderrf (W:=W) f a).
Proof. apply keeps_modify. by repeat split. Qed.

(** What a call keeps: the invariant, and the lock as it is; a client may take it. *)
Definition good s : Prop := quiet s ∧ tables s.
Definition stays s s' : Prop := good s → good s' ∧ held s' = held s.
(** The handles that the tables know. *)
Definition handles_of s : handles := Handles (dom (b_connections s)) (dom (b_streams s)).
(** A call that changes no table. *)
Definition still s s' : Prop := good s → good s' ∧ held s' = held s ∧ handles_of s' = handles_of s.
Definition grows s s' : Prop := good s → good s' ∧ (held s = true → held s' = true).
#[local] Instance grows_preorder : PreOrder grows.
Proof. split; [by intros s H|]. intros s1 s2 s3 H1 H2 G. destruct (H1 G) as [G2 ?]. destruct (H2 G2). auto. Qed.
#[local] Instance still_preorder : PreOrder still.
Proof. split; [by intros s H|]. intros s1 s2 s3 H1 H2 G. destruct (H1 G) as (G2&<-&<-). exact (H2 G2). Qed.
Lemma keeps_still {A} (m : M (@bridge W) A) : keeps still m → keeps stays m.
Proof. intros H s a s' E G. by destruct (H s a s' E G) as (G'&Eh&_). Qed.
#[local] Instance stays_preorder : PreOrder stays.
Proof. split; [by intros s H|]. intros s1 s2 s3 H1 H2 G. destruct (H1 G) as [G2 <-]. exact (H2 G2). Qed.
Lemma keeps_grows {A} (m : M (@bridge W) A) : keeps stays m → keeps grows m.
Proof. intros H s a s' E G. destruct (H s a s' E G) as [G' Eh]. split; [done|]. by rewrite Eh. Qed.

Lemma same_still s s' : same_tables s s' → still s s'.
Proof.
  intros (E1&E2&E3&E4&E5&E6&E7&E8) [[Q1 Q2 Q3] [T1 T2 T3]]. unfold held, handles_of. rewrite E4, E3, E5. split; [|done]. split; constructor; try congruence.
  - rewrite E1, E7. done.
  - intros h c. rewrite E3, E8. apply T2.
  - intros h p. rewrite E5, E3. apply T3.
Qed.
Lemma same_stays s s' : same_tables s s' → stays s s'.
Proof. intros H G. by destruct (same_still s s' H G) as (?&?&_). Qed.
Lemma keeps_same {A} (m : M (@bridge W) A) : keeps same_tables m → keeps still m.
Proof. intros H s a s' E. eapply same_still, H, E. Qed.

Ltac kbind := apply keeps_bind; [apply _| |].
Ltac kstill := intros; repeat (kbind; [|intros ?]); first [apply keeps_ret; apply _ | apply keeps_panic | apply keeps_fuel | apply keeps_of_option; apply _ |
  apply keeps_reads; apply _ | apply keeps_same, calls_same | apply keeps_same, cmem_same | apply keeps_same, stderr_same].

Ltac keep := intros; apply keeps_still; kstill.
Ltac keepg := intros; apply keeps_grows; keep.

Lemma found_still h : keeps still (find_stream (W:=W) h).
Proof. intros s a s' E [Q T]. rewrite stream_found in E by apply Q. by injection E as _ <-. Qed.
Lemma conn_still h : keeps still (find_conn (W:=W) h).
Proof. intros s a s' E [Q T]. rewrite conn_found in E by done. destruct (held s) eqn:Eh; [done|]. by injection E as _ <-. Qed.

Lemma init_still config : keeps still (shmipc_go_init (W:=W) config).
Proof.
  intros s a s' E [[Q1 Q2 Q3] [T1 T2 T3]]. destruct s as [i im cs cm ss sm cf n se me w]. cbn in *. subst im.
  unfold shmipc_go_init, Lock_init in E. cbn in E. destruct i.
  - injection E as _ <-. done.
  - destruct (decide _); injection E as _ <-; (split; [split; constructor|]); done.
Qed.

(** A table changes in a way that keeps the invariant. *)
Lemma streams_stay {A} f (k : M (@bridge W) A) : (∀ s, tables s → tables (set_bstreams (f (b_streams s)) s)) → keeps stays k →
  keeps stays (_ ← streamMutex_Lock; _ ← modify_state (λ s, set_bstreams (f (b_streams s)) s); _ ← streamMutex_Unlock; k).
Proof.
  intros Hf Hk s a s' E G. pose proof G as [Q T]. rewrite streams_changed in E by apply Q. apply Hk in E. destruct E as [G' Hh].
  { split; [|by apply Hf]. destruct Q. by constructor. }
  done.
Qed.

Lemma stream_accepted p s : tables s → tables (set_bstreams (<[StreamPtr p := p]> (b_streams s)) s).
Proof. intros [T1 T2 T3]. constructor; [done|done|]. intros h q. cbn. intros [[<- <-]|[_ Hh]]%lookup_insert_Some; [by left|by apply T3]. Qed.
Lemma stream_deleted h s : tables s → tables (set_bstreams (delete h (b_streams s)) s).
Proof. intros [T1 T2 T3]. constructor; [done|done|]. intros h' q. cbn. intros [_ Hh]%lookup_delete_Some. by apply T3. Qed.

(** A new connection. *)
Lemma conn_added (c : shmipcConn) s : tables s →
  (if c_isServer c then c_session c = None ∧ is_Some (c_listener c) else is_Some (c_session c) ∧ c_listener c = None) →
  tables (set_connections (<[ConnPtr (b_next s) := c]> (b_connections s)) (S (b_next s)) s).
Proof.
  intros [T1 T2 T3] Hc. constructor; [done| |].
  - intros h x. cbn. intros [[<- <-]|[_ Hh]]%lookup_insert_Some; [exists (b_next s); split_and!; [done|lia|done]|].
    destruct (T2 h x Hh) as (n&?&?&?). exists n. split_and!; [done|lia|done].
  - intros h p Hp. cbn in Hp. destruct (T3 h p Hp) as [|(n&x&->&Hx&Hs)]; [by left|]. right. exists n, x. split_and!; [done| |done].
    destruct (T2 _ x Hx) as (n'&[= <-]&?&_). cbn. rewrite lookup_insert_ne; [done|]. intros [= ?]. lia.
Qed.

(** A call that makes a connection fails and changes no table, or it ends as below. *)
Definition server_done (path : string) (l : nat) s : @bridge W :=
  add_line (Line "Server created for path: %s" (Some (inl path)))
    (set_connections (<[ConnPtr (b_next s) := MkConn None true path (Some l)]> (b_connections s)) (S (b_next s)) s).
Definition client_done (path : string) (x t : nat) s : @bridge W :=
  add_line (Line "Client created for path: %s" (Some (inl path)))
    (set_bstreams (<[ConnPtr (b_next s) := t]> (b_streams s))
      (set_connMutex (RW true 0)
        (set_connections (<[ConnPtr (b_next s) := MkConn (Some x) false path None]> (b_connections s)) (S (b_next s)) s))).

Lemma failed_same {A} f a (m : M (@bridge W) A) s r s' : (_ ← stderrf f a; m) s = Done (r, s') → keeps same_tables m → same_tables s s'.
Proof. intros (?&?&E1&E2)%bind_done_inv Hm. etransitivity; [exact (stderr_same _ _ _ _ _ E1)|exact (Hm _ _ _ E2)]. Qed.

Lemma config_read {A} (k : Config → M (@bridge W) A) s r s' :
  (config ← reads b_defaultConfig; config ← of_option config; k config) s = Done (r, s') → ∃ c, k c s = Done (r, s').
Proof. unfold mbind, M_bind, reads. destruct (b_defaultConfig s) as [c|]; [|done]. intros E. by exists c. Qed.

Lemma server_ends path s r s' : quiet s → shmipc_go_server L path s = Done (r, s') →
  (r = (-1, None) ∧ same_tables s s') ∨ (held s = false ∧ r = (0, Some (ConnPtr (b_next s))) ∧ ∃ w l, s' = server_done path l (set_world w s)).
Proof.
  intros Q E. unfold shmipc_go_server in E. erewrite bind_done in E by (apply init_checked, Q).
  destruct (b_initialized s); [|left; by injection E as <- <-]. cbn [negb] in E. apply config_read in E as [cf E].
  apply bind_done_inv in E as (l&s1&(w1&_&->)%calls_inv&E). destruct l as [err|l].
  { left. pose proof (failed_same _ _ _ _ _ _ E (keeps_ret _ _)) as Hs. apply bind_done_inv in E as (?&?&_&[= <- _]). done. }
  apply bind_done_inv in E as (?&s1&(w2&_&->)%calls_inv&E). right.
  unfold mbind at 1, M_bind at 1, new_conn in E. unfold put_conn in E.
  rewrite (connections_changed (insert _ _)) in E by (destruct Q; by constructor).
  change (held _) with (held s) in E. destruct (held s); [done|]. injection E as <- <-. split_and!; [done|done|]. exists w2, l. done.
Qed.

Lemma client_tail path x t s : quiet s →
  (connPtr ← new_conn (MkConn (Some x) false path None); _ ← connMutex_Lock; _ ← put_conn connPtr (MkConn (Some x) false path None);
   _ ← streamMutex_Lock; _ ← modify_state (λ s, set_bstreams (<[connPtr := t]> (b_streams s)) s); _ ← streamMutex_Unlock;
   _ ← stderrf "Client created for path: %s" (Some (inl path)); mret (0, Some connPtr)) s =
  if held s then NoFuel else Done ((0, Some (ConnPtr (b_next s))), client_done path x t s).
Proof.
  intros [Q1 Q2 Q3]. destruct s as [i im cs [w rd] ss sm cf m se me wd]. cbn in Q1, Q2, Q3. subst im rd sm. by destruct w.
Qed.

Lemma client_ends path s r s' : quiet s → shmipc_go_client L path s = Done (r, s') →
  (r = (-1, None) ∧ same_tables s s') ∨ (held s = false ∧ r = (0, Some (ConnPtr (b_next s))) ∧ ∃ w x t, s' = client_done path x t (set_world w s)).
Proof.
  intros Q E. unfold shmipc_go_client in E. erewrite bind_done in E by (apply init_checked, Q).
  destruct (b_initialized s); [|left; by injection E as <- <-]. cbn [negb] in E.
  apply bind_done_inv in E as (c&s1&(w1&_&->)%calls_inv&E). destruct c as [err|uc].
  { left. pose proof (failed_same _ _ _ _ _ _ E (keeps_ret _ _)) as Hs. apply bind_done_inv in E as (?&?&_&[= <- _]). done. }
  apply config_read in E as [cf E]. apply bind_done_inv in E as (x&s2&(w2&_&->)%calls_inv&E).
  destruct x as [err|x].
  { left. pose proof (failed_same _ _ _ _ _ _ E) as Hs. apply bind_done_inv in E as (?&?&_&(?&?&_&[= <- _])%bind_done_inv).
    split; [done|]. apply Hs. apply keeps_bind; [apply _|apply calls_same|intros; apply keeps_ret; apply _]. }
  apply bind_done_inv in E as (t&s3&(w3&_&->)%calls_inv&E).
  destruct t as [err|t].
  { left. pose proof (failed_same _ _ _ _ _ _ E) as Hs. apply bind_done_inv in E as (?&?&_&(?&?&_&[= <- _])%bind_done_inv).
    split; [done|]. apply Hs. apply keeps_bind; [apply _|apply calls_same|intros; apply keeps_ret; apply _]. }
  right. rewrite client_tail in E by (destruct Q; by constructor). change (held _) with (held s) in E. destruct (held s); [done|]. injection E as <- <-.
  split_and!; [done|done|]. by exists w3, x, t.
Qed.

Lemma server_stays path : keeps stays (shmipc_go_server L path).
Proof.
  intros s r s' E G. pose proof G as [Q T]. destruct (server_ends _ _ _ _ Q E) as [[_ Hs]|(Hh&_&w&l&->)]; [exact (same_stays _ _ Hs G)|].
  split; [|done]. split; [destruct Q; by constructor|].
  destruct (conn_added (MkConn None true path (Some l)) s T (conj eq_refl (mk_is_Some _ _ eq_refl))) as [T1 T2 T3]. by constructor.
Qed.

Lemma client_grows path : keeps grows (shmipc_go_client L path).
Proof.
  intros s r s' E G. pose proof G as [Q T]. destruct (client_ends _ _ _ _ Q E) as [[_ Hs]|(Hh&_&w&x&t&->)].
  { destruct (same_stays _ _ Hs G) as [G' Eh]. split; [done|]. by rewrite Eh. }
  split; [|done]. split; [destruct Q; by constructor|].
  destruct (conn_added (MkConn (Some x) false path None) s T (conj (mk_is_Some _ _ eq_refl) eq_refl)) as [T1 T2 T3]. constructor; [done|done|].
  cbn in *. intros h p [[<- <-]|[_ Hp]]%lookup_insert_Some; [|by apply T3]. right. eexists _, _. split_and!; [done|apply lookup_insert_eq|done].
Qed.

Lemma accept_stays h : keeps stays (shmipc_go_accept L h).
Proof.
  unfold shmipc_go_accept. kbind; [apply keeps_still, conn_still|]. intros c. case_match; [|keep]. case_match; [keep|]. do 2 (kbind; [keep|intros ?]).
  case_match; [keep|]. apply streams_stay; [intros; by apply stream_accepted|]. keep.
Qed.

Lemma c_slice_still d n : keeps still (c_slice (W:=W) d n).
Proof. unfold c_slice. kbind; [kstill|]. intros p. case_match; kstill. Qed.
Lemma c_load_still p n : keeps still (c_load (W:=W) p n).
Proof. unfold c_load. case_match; kstill. Qed.
Lemma c_store_still p bs : keeps still (c_store (W:=W) p bs).
Proof. unfold c_store. case_match; kstill. Qed.

Lemma send_still h d n : keeps still (shmipc_go_send L h d n).
Proof.
  unfold shmipc_go_send. kbind; [apply found_still|]. intros t. case_match; [|kstill]. kbind; [apply c_slice_still|intros p].
  kbind; [apply c_load_still|intros bs]. kbind; [kstill|intros w]. case_match; [kstill|]. kbind; [kstill|intros e]. case_match; kstill.
Qed.

Lemma recv_still h d n : keeps still (shmipc_go_recv L h d n).
Proof.
  unfold shmipc_go_recv. kbind; [apply found_still|]. intros t. case_match; [|kstill]. kbind; [kstill|intros r]. case_match; [case_match; kstill|].
  kbind; [apply c_slice_still|intros p]. kbind; [apply c_store_still|intros _]. kstill.
Qed.

(** Closing: a stream first; a connection when there is no stream under the handle. *)
Lemma conn_closed h s : tables s → b_streams s !! h = None → tables (set_connections (delete h (b_connections s)) (b_next s) s).
Proof.
  intros [T1 T2 T3] Hh. constructor; [done| |].
  - intros h' c. cbn. intros [_ Hc]%lookup_delete_Some. by apply T2.
  - intros h' p Hp. cbn in Hp. destruct (T3 h' p Hp) as [|(n&c&->&Hc&Hs)]; [by left|]. right. exists n, c. split_and!; [done| |done].
    cbn. rewrite lookup_delete_ne; [done|]. congruence.
Qed.

Lemma close_stays h : keeps stays (shmipc_go_close L h).
Proof.
  intros s r s' E G. pose proof G as [Q T]. unfold shmipc_go_close in E. erewrite bind_done in E by (apply stream_found, Q). cbv beta in E.
  destruct (b_streams s !! h) as [p|] eqn:Eh.
  { revert s r s' E G Q T Eh. enough (keeps stays (_ ← calls (Stream_Close L p); _ ← streamMutex_Lock; _ ← modify_state (λ s, set_bstreams (delete h (b_streams s)) s); _ ← streamMutex_Unlock; mret 0)) as K.
    { intros. by eapply K. }
    kbind; [keep|intros _]. apply streams_stay; [intros; by apply stream_deleted|keep]. }
  apply bind_done_inv in E as (c&s1&E1&E). rewrite conn_found in E1 by done. destruct (held s) eqn:Ehd; [done|]. injection E1 as <- <-.
  destruct (b_connections s !! h) as [c|]; [|by injection E as _ <-].
  apply bind_done_inv in E as (?&s1&E1&E). apply bind_done_inv in E as (?&s2&E2&E).
  assert (same_tables s s2) as Hs.
  { etransitivity.
    - destruct (c_session c); [exact (calls_same _ _ _ _ E1)|injection E1 as _ <-; reflexivity].
    - destruct (c_listener c); [exact (calls_same _ _ _ _ E2)|injection E2 as _ <-; reflexivity]. }
  destruct (same_stays _ _ Hs G) as [[Q2 T2] _]. assert (held s2 = false) as Hh2 by (unfold held in *; destruct Hs as (_&_&_&->&_); done).
  rewrite (connections_changed (delete h)), Hh2 in E by done. injection E as _ <-. split; [|done]. split; [destruct Q2; by constructor|].
  apply conn_closed; [done|]. destruct Hs as (_&_&_&_&->&_). done.
Qed.

(** The handles after each call that changes a table, and its answer. *)
Definition tracked (c : call) (r : Z * option pointer) s s' : Prop :=
  handles_of s' = handed_out c r (handles_of s) ∧ answers c r (handles_of s).

Lemma still_tracked c r s s' : good s → still s s' → (∀ x, handed_out c r x = x) → answers c r (handles_of s) → tracked c r s s'.
Proof. intros G Hs E ?. destruct (Hs G) as (_&_&Eh). split; [|done]. by rewrite E. Qed.

Lemma fresh_conn s : tables s → ConnPtr (b_next s) ∉ dom (b_connections s) ∧ ConnPtr (b_next s) ∉ dom (b_streams s).
Proof.
  intros [_ T2 T3]. assert (b_connections s !! ConnPtr (b_next s) = None) as Hc.
  { destruct (b_connections s !! _) as [x|] eqn:E; [|done]. destruct (T2 _ _ E) as (n&[= <-]&?&_). lia. }
  split; [by apply not_elem_of_dom|]. apply not_elem_of_dom. destruct (b_streams s !! _) as [p|] eqn:E; [|done].
  destruct (T3 _ _ E) as [?|(n&x&_&?&_)]; congruence.
Qed.

Lemma server_tracked path s r s' : good s → shmipc_go_server L path s = Done (r, s') → tracked (CServer path) r s s'.
Proof.
  intros G E. destruct (server_ends _ _ _ _ (proj1 G) E) as [[-> Hs]|(_&->&w&l&->)].
  - apply still_tracked; [done|by apply same_still|done|done].
  - split; [cbn; unfold handles_of; cbn; by rewrite dom_insert_L|]. intros h [= <-]. apply fresh_conn, G.
Qed.

Lemma client_tracked path s r s' : good s → shmipc_go_client L path s = Done (r, s') → tracked (CClient path) r s s'.
Proof.
  intros G E. destruct (client_ends _ _ _ _ (proj1 G) E) as [[-> Hs]|(_&->&w&x&t&->)].
  - apply still_tracked; [done|by apply same_still|done|done].
  - split; [cbn; unfold handles_of; cbn; by rewrite !dom_insert_L|]. intros h [= <-]. apply fresh_conn, G.
Qed.

Lemma accept_tracked h s r s' : good s → shmipc_go_accept L h s = Done (r, s') → tracked (CAccept h) r s s'.
Proof.
  intros G E. pose proof G as [Q T]. unfold shmipc_go_accept in E. apply bind_done_inv in E as (c&s1&E1&E). rewrite conn_found in E1 by done.
  destruct (held s); [done|]. injection E1 as <- <-.
  destruct (b_connections s !! h) as [c|] eqn:Ec; [|injection E as <- <-; by apply still_tracked].
  assert (h ∈ dom (b_connections s)) as Hh by (by eapply elem_of_dom_2).
  destruct (c_isServer c); [|injection E as <- <-; by apply still_tracked]. cbn [negb] in E.
  apply bind_done_inv in E as (l&s1&E1&E). destruct (c_listener c); [|done]. injection E1 as <- <-.
  apply bind_done_inv in E as (t&s1&(w&_&->)%calls_inv&E). destruct t as [err|p].
  - apply bind_done_inv in E as (?&s1&Es&[= <- <-]). apply still_tracked; try done. transitivity (set_world w s); [apply same_still; by repeat split|].
    exact (keeps_same _ (stderr_same _ _) _ _ _ Es).
  - rewrite streams_changed in E by apply Q. injection E as <- <-. split; [cbn; unfold handles_of; cbn; by rewrite dom_insert_L|by intros []].
Qed.

Lemma close_tracked h s r s' : good s → shmipc_go_close L h s = Done (r, s') → tracked (CClose h) (r, None) s s'.
Proof.
  intros G E. pose proof G as [Q T]. unfold tracked, handles_of. cbn [handed_out answers hs_streams hs_conns fst snd].
  unfold shmipc_go_close in E. erewrite bind_done in E by (apply stream_found, Q). cbv beta in E.
  destruct (b_streams s !! h) as [p|] eqn:Eh.
  { assert (h ∈ dom (b_streams s)) by (by eapply elem_of_dom_2). rewrite !decide_True by auto.
    apply bind_done_inv in E as (?&s1&(w&_&->)%calls_inv&E). rewrite (streams_changed (delete h)) in E by apply Q.
    injection E as <- <-. cbn. by rewrite dom_delete_L. }
  apply not_elem_of_dom in Eh. rewrite decide_False by done.
  apply bind_done_inv in E as (c&s1&E1&E). rewrite conn_found in E1 by done. destruct (held s) eqn:Ehd; [done|]. injection E1 as <- <-.
  destruct (b_connections s !! h) as [c|] eqn:Ec.
  - assert (h ∈ dom (b_connections s)) by (by eapply elem_of_dom_2). rewrite decide_True by auto.
    apply bind_done_inv in E as (?&s1&E1&E). apply bind_done_inv in E as (?&s2&E2&E).
    assert (∃ w, s2 = set_world w s) as [w ->].
    { assert (∃ w, s1 = set_world w s) as [w ->].
      { destruct (c_session c); [apply calls_inv in E1 as (w&_&->); by exists w|injection E1 as _ <-; exists (b_world s); by destruct s]. }
      destruct (c_listener c); [apply calls_inv in E2 as (w2&_&->); by exists w2|injection E2 as _ <-; by exists w]. }
    rewrite (connections_changed (delete h)) in E by (destruct Q; by constructor).
    change (held _) with (held s) in E. rewrite Ehd in E. injection E as <- <-. cbn. by rewrite dom_delete_L.
  - apply not_elem_of_dom in Ec. injection E as <- <-. rewrite decide_False by tauto. by rewrite difference_disjoint_L by set_solver.
Qed.

(** A handle that is in no table: [shmipc_go_send] and [shmipc_go_recv] answer at once. *)
Lemma send_unknown h d n s r s' : good s → shmipc_go_send L h d n s = Done (r, s') → h ∉ dom (b_streams s) → r = -1.
Proof.
  intros [Q _] E Hh%not_elem_of_dom. unfold shmipc_go_send in E. erewrite bind_done in E by (apply stream_found, Q).
  rewrite Hh in E. by injection E.
Qed.
Lemma recv_unknown h d n s r s' : good s → shmipc_go_recv L h d n s = Done (r, s') → h ∉ dom (b_streams s) → r = -1.
Proof.
  intros [Q _] E Hh%not_elem_of_dom. unfold shmipc_go_recv in E. erewrite bind_done in E by (apply stream_found, Q).
  rewrite Hh in E. by injection E.
Qed.

Lemma call_tracked c s r s' : good s → run_call L c s = Done (r, s') → tracked c r s s'.
Proof.
  intros G E. destruct c; cbn [run_call] in E; try apply bind_done_inv in E as (a&s1&E1&[= <- <-]).
  - apply still_tracked; [done|exact (init_still _ _ _ _ E1)|done|done].
  - by apply server_tracked.
  - by apply client_tracked.
  - by apply accept_tracked.
  - injection E as <- <-. by apply still_tracked.
  - apply still_tracked; [done|exact (send_still _ _ _ _ _ _ E1)|done|]. intros Hh. by eapply send_unknown.
  - apply still_tracked; [done|exact (recv_still _ _ _ _ _ _ E1)|done|]. intros Hh. by eapply recv_unknown.
  - by apply close_tracked.
  - apply still_tracked; [done|exact (keeps_same _ (stderr_same _ _) _ _ _ E1)|done|done].
  - apply still_tracked; [done|exact (keeps_same _ (stderr_same _ _) _ _ _ E1)|done|done].
Qed.

Definition not_client (c : call) : Prop := match c with CClient _ => False | _ => True end.

Lemma call_stays c : not_client c → keeps stays (run_call L c).
Proof.
  intros Hc. destruct c; cbn [run_call]; [kbind; [apply keeps_still, init_still|keep]|apply server_stays|done|apply accept_stays|unfold shmipc_go_connect; keep|
    kbind; [apply keeps_still, send_still|keep]|kbind; [apply keeps_still, recv_still|keep]|kbind; [apply close_stays|keep]|unfold OnNewStream; keep|unfold OnShutdown; keep].
Qed.
Lemma call_grows c : keeps grows (run_call L c).
Proof. destruct c; try (apply keeps_grows, call_stays; done). apply client_grows. Qed.

Lemma calls_stay cs : Forall not_client cs → keeps stays (run_calls L cs).
Proof. induction 1 as [|c cs Hc _ IH]; cbn [run_calls]; [keep|]. kbind; [by apply call_stays|intros r]. kbind; [exact IH|keep]. Qed.
Lemma calls_grow cs : keeps grows (run_calls L cs).
Proof. induction cs as [|c cs IH]; cbn [run_calls]; [keepg|]. kbind; [apply call_grows|intros r]. kbind; [exact IH|keepg]. Qed.

Lemma calls_tracked cs : ∀ s rs s', good s → run_calls L cs s = Done (rs, s') →
  handles_of s' = handed_outs cs rs (handles_of s) ∧ all_answer cs rs (handles_of s).
Proof.
  induction cs as [|c cs IH]; intros s rs s' G E; cbn [run_calls] in E; [by injection E as <- <-|].
  apply bind_done_inv in E as (r&s1&E1&E). apply bind_done_inv in E as (rs'&s2&E2&[= <- <-]).
  destruct (call_tracked c s r s1 G E1) as [Eh Ha]. destruct (call_grows c _ _ _ E1 G) as [G1 _].
  destruct (IH s1 rs' s2 G1 E2) as [Eh2 Ha2]. cbn. rewrite <- Eh. done.
Qed.

Lemma start_good m w : good (bridge_start m w).
Proof. by split; constructor. Qed.

(** ** The tables *)


(** ** The lock that a client keeps *)

Lemma lookup_blocked h s : good s → held s = true → find_conn h s = NoFuel.
Proof. intros [Q _] Hh. by rewrite conn_found, Hh. Qed.

(** After a client was made no call that needs the table of connections ever returns:
    [connMutex] is locked and never released.  A second [shmipc_go_close] of the handle,
    which should close the session, is one of them; so the session stays open. *)
Theorem client_locks_out path s h s1 cs rs s' : good s → shmipc_go_client L path s = Done ((0, Some h), s1) → run_calls L cs s1 = Done (rs, s') →
  (∀ h', shmipc_go_accept L h' s' = NoFuel) ∧
  (∀ h', b_streams s' !! h' = None → shmipc_go_close L h' s' = NoFuel) ∧
  (∀ path' h' s2, shmipc_go_server L path' s' ≠ Done ((0, h'), s2)) ∧
  (∀ path' h' s2, shmipc_go_client L path' s' ≠ Done ((0, h'), s2)).
Proof.
  intros G E Ec. destruct (client_grows path _ _ _ E G) as [G1 _].
  destruct (client_ends _ _ _ _ (proj1 G) E) as [[? _]|(_&_&w&x&t&->)]; [done|].
  destruct (calls_grow cs _ _ _ Ec G1) as [[Q T] Hh]. specialize (Hh eq_refl).
  assert (∀ h', find_conn h' s' = NoFuel) as Hf by (intros h'; by rewrite conn_found, Hh).
  split_and!.
  - intros h'. unfold shmipc_go_accept, mbind, M_bind. by rewrite Hf.
  - intros h' Hn. unfold shmipc_go_close. erewrite bind_done by (apply stream_found, Q). rewrite Hn. unfold mbind, M_bind. by rewrite Hf.
  - intros path' h' s2 E2. destruct (server_ends _ _ _ _ Q E2) as [[? _]|(?&_)]; congruence.
  - intros path' h' s2 E2. destruct (client_ends _ _ _ _ Q E2) as [[? _]|(?&_)]; congruence.
Qed.

(** ** Sending and receiving *)

Lemma c_slice_ok d n s : 0 ≤ n ≤ 2 ^ 30 → c_slice (Some d) n s = Done (d, s).
Proof. intros Hn. unfold c_slice, mbind, M_bind. cbn. change (Z.shiftl 1 30) with (2 ^ 30). by bdecide. Qed.

(** What C sends is what the writer gets, all of it and once; [length] is returned when
    it was written and flushed, [-1] otherwise. *)
Theorem send_exact h p d n bs s : good s → b_streams s !! h = Some p → peek (b_cmem s) d n = Some bs → 0 ≤ n ≤ 2 ^ 30 →
  shmipc_go_send L h (Some d) n s =
  match Writer_WriteBytes L p bs (b_world s) with
  | Done ((_, None), w) =>
      match Stream_Flush L p false w with
      | Done (None, w') => Done (n, set_world w' s)
      | Done (Some e, w') => Done (-1, add_line (Line "Failed to flush: %v" (Some (inr e))) (set_world w' s))
      | Panic => Panic
      | NoFuel => NoFuel
      end
  | Done ((_, Some e), w) => Done (-1, add_line (Line "Failed to write: %v" (Some (inr e))) (set_world w s))
  | Panic => Panic
  | NoFuel => NoFuel
  end.
Proof.
  intros [Q _] Hp Hd Hn. unfold shmipc_go_send. erewrite bind_done by (apply stream_found, Q). rewrite Hp.
  erewrite bind_done by (by apply c_slice_ok).
  assert (c_load d n s = Done (bs, s)) as El.
  { unfold c_load. destruct (n =? 0) eqn:E; breflect.
    - subst n. unfold peek in Hd. destruct (b_cmem s !! p_arr d); [|done]. unfold read_at in Hd. destruct (_ && _); [|done]. by injection Hd as <-.
    - unfold c_memory, zoom, load_bytes. rewrite Hd. by destruct s. }
  erewrite bind_done by exact El. unfold mbind at 1, M_bind at 1, calls at 1, zoom at 1.
  destruct (Writer_WriteBytes L p bs (b_world s)) as [[[k [e|]] w]| |]; [done| |done|done]. cbn [snd].
  unfold mbind, M_bind, calls, zoom. cbn [b_world set_world]. by destruct (Stream_Flush L p false w) as [[[e|] w']| |].
Qed.

(** [length] bytes that the reader hands out are in the memory of C afterwards, and the
    slices they were in are released; a stream at its end gives 0. *)
Theorem recv_exact h p d n bs w w' m s : good s → b_streams s !! h = Some p → 0 < n ≤ 2 ^ 30 →
  Reader_ReadBytes L p n (b_world s) = Done (inr bs, w) → Z.of_nat (length bs) = n → Reader_ReleasePreviousRead L p w = Done (tt, w') →
  poke (b_cmem s) d bs = Some m →
  shmipc_go_recv L h (Some d) n s = Done (n, set_world w' (set_cmem m (set_world w s))) ∧ peek m d n = Some bs.
Proof.
  intros [Q _] Hp Hn Hr Hl Hrel Hm. split.
  - unfold shmipc_go_recv. erewrite bind_done by (apply stream_found, Q). rewrite Hp.
    unfold mbind at 1, M_bind at 1, calls at 1, zoom at 1. rewrite Hr.
    erewrite bind_done by (apply c_slice_ok; lia). rewrite take_ge by lia. assert (c_store d bs (set_world w s) = Done (tt, set_cmem m (set_world w s))) as Es.
    { unfold c_store. destruct bs; [cbn in Hl; lia|]. unfold c_memory, zoom, store_bytes. cbn [b_cmem set_world]. by rewrite Hm. }
    erewrite bind_done by exact Es. unfold mbind, M_bind, calls, zoom. cbn [b_world set_world set_cmem]. rewrite Hrel. by rewrite Hl.
  - rewrite <- Hl. eapply peek_poke_same. exact Hm.
Qed.

Theorem recv_at_end h p d n w s : good s → b_streams s !! h = Some p → Reader_ReadBytes L p n (b_world s) = Done (inl ErrEndOfStream, w) →
  shmipc_go_recv L h d n s = Done (0, set_world w s).
Proof.
  intros [Q _] Hp Hr. unfold shmipc_go_recv. erewrite bind_done by (apply stream_found, Q). rewrite Hp.
  unfold mbind, M_bind, calls, zoom. rewrite Hr. by destruct (decide _) as [_|[]]; [|left].
Qed.

(** ** Closing *)

(** A handle of a server that was closed is gone, with its listener. *)
Theorem close_server h c l w s : good s → held s = false → b_streams s !! h = None → b_connections s !! h = Some c → c_listener c = Some l →
  Listener_Close L l (b_world s) = Done (tt, w) →
  ∃ s', shmipc_go_close L h s = Done (0, s') ∧ b_world s' = w ∧ good s' ∧ shmipc_go_close L h s' = Done (-1, s') ∧ shmipc_go_accept L h s' = Done ((-1, None), s').
Proof.
  intros G Hh Hs Hc Hl Hw. pose proof G as [Q T]. pose proof (tb_conns _ T h c Hc) as (n&_&_&Hk). destruct (c_isServer c); [|destruct Hk as [_ ?]; congruence].
  assert (shmipc_go_close L h s = Done (0, set_connections (delete h (b_connections s)) (b_next s) (set_world w s))) as E.
  { unfold shmipc_go_close. erewrite bind_done by (apply stream_found, Q). rewrite Hs. erewrite bind_done by (by apply conn_found_free). rewrite Hc.
    rewrite (proj1 Hk), Hl, bind_mret. erewrite bind_done by (unfold calls, zoom; by rewrite Hw).
    rewrite (connections_changed (delete h)) by (destruct Q; by constructor). change (held (set_world w s)) with (held s). by rewrite Hh. }
  eexists. split; [exact E|]. pose proof (close_stays h _ _ _ E G) as [G' Hh']. rewrite Hh in Hh'. pose proof G' as [Q' _].
  split_and!; [done|done| |].
  - unfold shmipc_go_close. erewrite bind_done by (apply stream_found, Q'). cbn [b_streams set_connections set_world]. rewrite Hs.
    erewrite bind_done by (by apply conn_found_free). cbn [b_connections set_connections]. by rewrite lookup_delete_eq.
  - unfold shmipc_go_accept. erewrite bind_done by (by apply conn_found_free). cbn [b_connections set_connections]. by rewrite lookup_delete_eq.
Qed.

(** Closing the handle of a client closes its stream and nothing else: the connection
    with its session stays in the table. *)
Theorem close_client h p w s : good s → b_streams s !! h = Some p → Stream_Close L p (b_world s) = Done (tt, w) →
  shmipc_go_close L h s = Done (0, set_bstreams (delete h (b_streams s)) (set_world w s)).
Proof.
  intros [Q _] Hp Hw. unfold shmipc_go_close. erewrite bind_done by (apply stream_found, Q). rewrite Hp.
  erewrite bind_done by (unfold calls, zoom; by rewrite Hw). rewrite (streams_changed (delete h)) by apply Q. done.
Qed.

End proofs.

(** ** Over a session of this library *)

Section over_session.
Context (conn_write : list Z → M session (option error)) (debugMode : bool).
Context (select_send : M session sel) (select_result : M session (sel * option error)) (select_retry : nat → M session retry).
Context (base : lib session).

(** The world is one session; writing and flushing are the ones of its streams. *)
Definition session_lib : lib session :=
  Lib session (NewListener base) (go_Run base) (Listener_Close base) (Listener_AcceptStream base) (DialUnix base) (UnixConn_Close base)
    (NewSession base) (Session_OpenStream base) (Session_Close base)
    (λ p bs, bm ← sess ss_bufferManager; n ← on_sendBuf p (WriteBytes bm bs); mret (n, None))
    (Flush conn_write debugMode select_send select_result select_retry)
    (Reader_ReadBytes base) (Reader_ReleasePreviousRead base) (Stream_Close base).

(** [shmipc_go_send] of some bytes is [copyWriteAndFlush], which is what [Write] of a
    stream does: the same session afterwards, and [-1] for an error. *)
Theorem send_is_write h p d n bs (s : bridge) : good s → b_streams s !! h = Some p → peek (b_cmem s) d n = Some bs → 0 < n ≤ 2 ^ 30 →
  shmipc_go_send session_lib h (Some d) n s =
  match copyWriteAndFlush conn_write debugMode select_send select_result select_retry p bs (b_world s) with
  | Done ((_, None), w) => Done (n, set_world w s)
  | Done ((_, Some e), w) => Done (-1, add_line (Line "Failed to flush: %v" (Some (inr e))) (set_world w s))
  | Panic => Panic
  | NoFuel => NoFuel
  end.
Proof.
  intros G Hp Hd Hn. rewrite (send_exact session_lib h p d n bs s G Hp Hd) by lia. cbn [session_lib Writer_WriteBytes Stream_Flush].
  unfold copyWriteAndFlush. pose proof (peek_length _ _ _ _ Hd) as Hl. rewrite Hl. unfold mbind, M_bind, sess, reads. bdecide.
  destruct (on_sendBuf p _ (b_world s)) as [[k w]| |]; [|done|done]. cbn. by destruct (Flush _ _ _ _ _ _ _ w) as [[[e|] w']| |].
Qed.

End over_session.

(** ** A concrete library *)

(** The world: the bytes of the one stream, and what was closed. *)
Record echo := Echo { e_bytes : list Z; e_closed : list string }.
Definition echo_close (what : string) : M echo unit := modify_state (λ w, Echo (e_bytes w) (e_closed w ++ [what])).
Definition echo_lib : lib echo :=
  Lib echo (λ _, mret (inr 0%nat)) (λ _, mret tt) (λ _, echo_close "listener") (λ _, mret (inr 5%nat)) (λ _, mret (inr 1%nat)) (λ _, echo_close "conn")
    (λ _ _ _, mret (inr 2%nat)) (λ _, mret (inr 7%nat)) (λ _, echo_close "session")
    (λ _ bs, _ ← modify_state (λ w, Echo (e_bytes w ++ bs) (e_closed w)); mret (Z.of_nat (length bs), None)) (λ _ _, mret None)
    (λ _ n w, if n <=? Z.of_nat (length (e_bytes w)) then Done (inr (take (Z.to_nat n) (e_bytes w)), Echo (drop (Z.to_nat n) (e_bytes w)) (e_closed w))
              else Done (inl ErrEndOfStream, w))
    (λ _, mret tt) (λ _, echo_close "stream").
Definition echo_start : bridge := bridge_start {[ 0%nat := [10; 20; 30; 0; 0; 0] ]} (Echo [] []).

(** A server echoes three bytes and is closed. *)
Example server_session :
  match run_calls echo_lib [CServer "p"; CInit None; CServer "p"; CAccept (ConnPtr 0); CSend (StreamPtr 5) (Some (Ptr 0 0)) 3;
    CRecv (StreamPtr 5) (Some (Ptr 0 3)) 3; CRecv (StreamPtr 5) (Some (Ptr 0 3)) 3; CClose (StreamPtr 5); CClose (ConnPtr 0); CClose (ConnPtr 0)] echo_start with
  | Done (rs, s) =>
      rs = [(-1, None); (0, None); (0, Some (ConnPtr 0)); (0, Some (StreamPtr 5)); (3, None); (3, None); (0, None); (0, None); (0, None); (-1, None)] ∧
      b_cmem s !! 0%nat = Some [10; 20; 30; 10; 20; 30] ∧ e_closed (b_world s) = ["stream"; "listener"] ∧ held s = false
  | _ => False
  end.
Proof. vm_compute. auto. Qed.

(** A client sends and closes its stream; the second close, of the session, never
    returns, and neither does any call on the server of the same process. *)
Example client_session :
  match run_calls echo_lib [CInit None; CServer "p"; CClient "p"; CSend (ConnPtr 1) (Some (Ptr 0 0)) 3; CClose (ConnPtr 1)] echo_start with
  | Done (rs, s) =>
      rs = [(0, None); (0, Some (ConnPtr 0)); (0, Some (ConnPtr 1)); (3, None); (0, None)] ∧ e_closed (b_world s) = ["stream"] ∧
      b_connections s !! ConnPtr 1 = Some (MkConn (Some 2%nat) false "p" None) ∧ run_call echo_lib (CClose (ConnPtr 1)) s = NoFuel ∧
      run_call echo_lib (CAccept (ConnPtr 0)) s = NoFuel ∧ run_call echo_lib (CClose (ConnPtr 0)) s = NoFuel
  | _ => False
  end.
Proof. vm_compute. auto 10. Qed.

Definition server_calls : list call :=
  [CInit None; CServer "p"; CAccept (ConnPtr 0); CSend (StreamPtr 5) (Some (Ptr 0 0)) 3; CRecv (StreamPtr 5) (Some (Ptr 0 3)) 3; CClose (ConnPtr 0)].

